(* ===== verification/_CoqProject ===== *)
-Q . S2P
Prelude.v
Text.v
Wait.v
Shell.v
Runtime.v
Files.v
Links.v
Icons.v
Machines.v
Stack.v
Float.v
State.v
Wire.v
Framing.v
Transport.v
Datagram.v
Ime.v
Frame.v
Geometry.v
Keys.v
Daemon.v
Control.v
Server.v
ClientNet.v
Certs.v
Quic.v
Launch.v
Volume.v
Ctl.v
Capture.v
Compositor.v
CompositorProofs.v
Views.v
Guest.v
Tls.v
Install.v
Clip.v
Viewer.v
Dump.v
ViewerProofs.v
ViewerTheorems.v
