(* ===== verification/Prelude.v ===== *)
(** * vbox: a verification library

    vbox shows the windows of a Linux guest on the desktop of its host. The development
    models the program in four layers, from what is shared to what the user runs, and states
    for each what it promises.

    ** The program

    - The guest runs the _server_ (crates/server): a nested Wayland compositor whose clients
      are the guest's applications. It sends a view of every window, as tiles, to one viewer.
    - The host runs the _client_ (crates/client): the viewer, which shows each guest window
      in a window of its own and sends input, text, sizes and the clipboard back; and one-shot
      commands (ping, input, volume).
    - The guest also runs the _control daemon_ (crates/controld): it starts and stops one
      server per instance, on a port of its own, and starts applications in it, on requests
      it receives from the client's control commands. It survives its own restart.
    - All three speak the _protocol_ (crates/proto): messages, serialized, in length-prefixed
      frames over TCP or over a QUIC stream, with tiles also as QUIC datagrams.
    - The user runs the _vbox tool_ (crates/vbox-cli): it names instances and machines, keeps
      passwords, opens ssh tunnels, starts server and viewer, and installs launchers that
      start the client as an application of the desktop.

    ** The files

    Shared: [Prelude] (results, machine integers, bytes, characters, automation), [Text] (what
    the code uses of Rust's [str] and [char], UTF-8 among it), [Float] (IEEE numbers, for [f32] and [f64]),
    [State] (a state monad that may panic, and its total triples), [Files] (files, directories
    and links on a disk whose writes may fail or be torn).

    Protocol: [Wire] (proto: message.rs, window.rs, input.rs, rpc.rs and the other types),
    [Framing] (proto: framing.rs), [Datagram] (proto: data_plane.rs; client:
    data_plane/quic.rs, the assembler), [Transport] (server: wayland_session/io.rs).

    Guest: [Daemon] (controld: state.rs, snapshot.rs), [Control] (controld: main.rs), [Wait]
    (controld: socket_wait.rs, utils.rs), [Server] (server: main.rs,
    data_plane/quic_listener.rs), [Capture] (server: surface_capture.rs), [Compositor] and
    [CompositorProofs] (server: wayland_session/mod.rs, output.rs, host_clipboard.rs), [Views]
    (server: wayland_session/mod.rs [run], socket.rs, input_registration.rs, clipboard.rs,
    signal.rs), [Volume] (server: volume.rs), [Quic] (server: data_plane/quic_listener.rs, what
    its tasks write; client: data_plane/quic.rs, what its tasks read), [Guest] (controld:
    state.rs, the environment of an application, dbus_session.rs, main.rs; server: main.rs, its
    options and log lines), [Certs] (controld: state.rs, the certificate of an instance; server:
    quic_listener.rs, its identity; client: ctl/tls.rs, the helper that mints certificates),
    [Tls] (controld: tls.rs; client: ctl/tls.rs, the loading).

    Viewer: [Ime] (viewer/ime), [Frame] (viewer/frame.rs), [Geometry] (viewer/geometry.rs,
    move_resize.rs, adopt.rs), [Keys] (viewer/input.rs, keyboard_shortcuts.rs, fullscreen.rs),
    [Clip] (client: clipboard.rs), [Viewer], [ViewerProofs] and [ViewerTheorems]
    (viewer/app.rs, env.rs).

    Client connections and the tool: [ClientNet] (client: net.rs, data_plane/tcp.rs, quic.rs,
    volume.rs), [Ctl] (client: ctl/; controld: main.rs, the token file), [Launch] (client: launch.rs, app_icon.rs; vbox-cli: runtime.rs, the
    launchers), [Shell] (vbox-cli: ssh.rs), [Runtime] (vbox-cli: context.rs, runtime.rs),
    [Machines] (vbox-cli: remote.rs, keychain.rs, machines/), [Stack] (vbox-cli: runtime.rs,
    process.rs, the start and the stop of a session), [Links] (vbox-cli: symlink.rs),
    [Install] (vbox-cli: runtime.rs, installing the daemon and the small commands), [Icons]
    (vbox-cli: runtime.rs, the library of applications and its icons), [Dump] (server and
    viewer: window_debug.rs; client: ctl/print.rs).

    Definitions keep the source's names. A struct is a record, an enum an inductive type, a
    method that mutates a function from state to state, with [None] for a panic, or a program
    of one of the monads: [State] for the viewer's methods, [prog] over a
    connection in [ClientNet], [cmd] and [run_cmd] over the files and the processes of the
    host in [Machines] and [Stack]. What a method does to the world outside is appended to a
    log; what it asks of the world is an argument. Threads are atomic actions on what they
    share, in any interleaving ([Clip], [Server], [Daemon]); the loop of a view is one function
    of what an iteration meets, and a server process any sequence of such iterations, sessions
    and signals ([Views]).

    ** How the parts meet

    [Codec] with [CodecLaws] (in [Framing]) is what every user of the protocol asks of the
    serializer: [Transport], [Datagram], [Daemon] (its snapshot) and [ClientNet] are proved
    against it. The client's commands are composed with the server that reads them
    ([ClientNet.input_command_delivered]: [send_input_command] against [Server.handle] and
    [Server.handle_connection]), a control command with the daemon's session
    ([Ctl.ctl_call_once], [Ctl.ctl_call_completes]: [call] against [Control.handle_session],
    over any break of the connection; the second with the delays and the time limits of a call),
    the sessions that only send a command with the views
    ([Views.one_shot_events]), the loop of a view with the compositor in it
    ([Views.views_serve], from [compositor_safe]'s invariant), the volume of the host with the
    guest's sink ([Volume.percent_reaches_sink]), the compositor's clipboard with the host's
    ([Clip.copy_reaches_guest]), the server's ends of a TCP view with the client's
    ([ClientNet.tcp_end_to_end]), the two ends of a tile ([Datagram.reassembly]), the tool
    with the client that a launcher starts ([Launch.launcher_context_agrees]), the ssh
    arguments with the passwords ([Machines.saved_password_used]).

    A certificate passes through three programs: the daemon makes it and tells its
    fingerprint, the server presents it, the client checks what it is presented
    ([Certs.pin_fits_server]); those of a deployment are minted by the helper, copied by the
    tool, loaded by daemon and client, and accepted by both ([Tls.mutual_tls_works],
    [Certs.runs_trust_each_other]). The unit that the tool writes on the guest starts the daemon
    with the flags under which the tool, and the client it starts, expect it
    ([Install.installed_daemon], [Install.tls_client_agrees], [Install.token_needs_environment]).
    The directory of a view's socket is that of the applications that are started for it
    ([Guest.sockets_meet], with the one environment in which it is not), and what the server's
    QUIC writer puts on streams and in datagrams is what the client's QUIC readers hand to the
    viewer, but for the tiles whose loss is accounted for ([Quic.quic_view_delivers]; the other
    direction is [Quic.quic_input_arrives]). What a write hands to a connection and what of it
    the peer gets are two things: the peer reads some initial part.

    ** The theorems

    - Safety of whole components: [compositor_safe] says that no event makes the compositor
      panic except a client's buffer whose rows are shorter than its pixels
      ([short_stride_panics]), and [viewer_safe] that none makes the viewer panic as long as the
      guest names no size above 32767, which the viewer does not check; both that the maps stay
      consistent; [daemon_safe] that instances never share a port; [views_serve] that an
      iteration of a view panics for such a buffer only, and that its viewer is sent the
      compositor's messages once and in order; [session_gate], [quic_gate] and
      [pin_enforced] that nothing is done for a peer that did not authenticate.
    - Pixels: [copy_shm_buffer_spec], [apply_tile_spec], [root_commit_messages] and
      [copy_frame_region_spec] follow a pixel from a client's buffer to the host window.
    - Keys, text and modes: [no_stuck_key], [key_delivery], [ime_text_lossless],
      [every_syllable_typable], [text_delivery], [queue_flushes_in_order], [mode_roundtrip],
      [fullscreen_told], [fullscreen_synced], [timers_fire], [resize_settles].
    - Transport: [frame_roundtrip], [read_frame_iff], [tcp_end_to_end], [reassembly],
      [input_command_delivered], [ctl_call_once], [ctl_call_completes], [one_shot_events],
      [quic_view_delivers], [quic_input_arrives].
    - Certificates, on a disk whose writes may be torn: [pin_fits_server],
      [cert_material_kept], [torn_key_kept], [runs_trust_each_other], [mutual_tls_works].
    - Files and sockets of the guest: [token_agreed], [bind_outcome], [scan_finds] and
      [inotify_outcome] on the bytes the kernel writes, [guest_selection_relayed].
    - The tool: [shell_quote_words] and [ssh_renderings_agree] against a reference reader of
      shell words; [instance_ports_stable]; [saved_password_used]; [run_app_outcomes];
      [launcher_context_agrees]; [wait_ping_ends]; [install_uninstall] and [stale_link_stays]
      for its link on the PATH; [installed_daemon] and [tls_client_agrees] for the daemon;
      [icons_whole] and [torn_copy_kept] for the icons; [server_dump_complete],
      [viewer_dump_complete] and [printed_status_read] for what is shown.
    - What the code does where it does not do what it means to: [fallback_repeats_input],
      [second_launch_orphans], [launcher_sockets_agree], [stale_caches_drop], [ended_view_mutes],
      [drag_ends_at_target], [tcp_read_timeout_desync], [short_stride_panics],
      [move_keeps_release], [token_needs_environment], [torn_key_kept] and others.

    ** Bounds and fuel

    A u8, u16, u32, u64 or i32 is the integer it denotes; saturating, checked and wrapping
    operations are written out, and unchecked additions and products wrap as in a release
    build. The sizes and tiles that a guest sends are assumed to be at most 32767 ([MAX_SIDE])
    in the theorems that name that bound: the code trusts the guest there. The numbers of the
    client's control call (5 s to connect, 60 s to a reply, 10 s to a write) are part of its
    model, as are the read timeouts of the TCP loops. Floating-point results are rounded once, to nearest
    and ties to even, from the exact value. Fuel is
    explicit where recursion is not structural, and always enough: the walk to the root
    surface takes one step per parent; the reading loops of [Transport] and [ClientNet] one
    step per event of their source; the walk over inotify's events one step per byte, each
    step consuming a header; the scans of [Frame] one per row or column, its chunks one
    per element; the decimal printer of [Text] the logarithm of its number. [wait_ping] counts
    its forty attempts as the code does.

    ** Parameters

    Code that is not in the repository is an argument: the serializer postcard ([Codec]), the
    JSON reader and writer ([Json], [bundle_from_json]), base64, the digest of a certificate,
    rcgen (keys, certificates and their PEM), rustls_pemfile, which chains and keys rustls takes
    and which of them webpki accepts, whether cargo builds the tool,
    the order in which a hash map is walked, what winit's windows, prlctl, a child process or
    the environment answer. The keychain is a map from accounts to passwords, a connection the
    bytes it yields and the number of writes it takes. The toy codecs of [Framing],
    [Datagram], [ClientNet] and [Quic] and the toy certificates of [Certs] and [Tls] show that
    the laws can hold. What a guest's shell and systemd make of a script is a reader of words
    and an expansion of variables in [Shell] and [Install], for the characters they treat as
    themselves.

    ** Not modelled

    smithay (the Wayland library), quinn, rustls and rcgen themselves; clap's derived parsers;
    socket options and thread start; the texts of warnings; the programs that draw and convert
    icons; the f64 values of a scroll inside the compositor; the interactive library of the
    tool, the Python scripts that read the guest's desktop files and icons, the probe of a
    machine and the printing of its tables. They hold no state
    that the modelled parts read back, or are not code of this repository. *)

From Stdlib Require Export ZArith Lia.
From stdpp Require Export base tactics option list list_numbers gmap sets strings.

(** ** Automation *)

Create HintDb vbox discriminated.
Create Rewrite HintDb vbox_len.
Create Rewrite HintDb vbox_rw.

Declare Scope vbox_scope.
Delimit Scope vbox_scope with vbox.
#[global] Open Scope Z_scope.

(** Case analysis on every [match]/[if] of the goal, then clean-up. *)
Ltac split_matches :=
  repeat (case_match; simplify_eq/=; try done).

(** Destruct the innermost [match] discriminee of a hypothesis. *)
Ltac split_match_in H :=
  repeat match type of H with
         | context [match ?x with _ => _ end] => destruct x eqn:?; simplify_eq/=
         end.

(** Turn the boolean tests a handler makes into propositions. *)
Ltac bool_to_prop :=
  rewrite ?andb_true_iff, ?orb_true_iff, ?negb_true_iff, ?andb_false_iff,
    ?orb_false_iff, ?negb_false_iff, ?Z.eqb_eq, ?Z.eqb_neq, ?Z.ltb_lt, ?Z.ltb_ge,
    ?Z.leb_le, ?Z.leb_gt in *.

(** Linear arithmetic with division and remainder by constants. *)
Ltac div_lia := Z.div_mod_to_equations; lia.

(** ** Results

    Rust's [Result<A, E>], with stdpp's [ret]/[bind] so that [x ← m; k] reads as the
    [?] operator. *)

Inductive result (E A : Type) :=
  | Ok (a : A)
  | Err (e : E).
Arguments Ok {E A} a.
Arguments Err {E A} e.

#[export] Instance result_ret {E} : MRet (result E) := fun A a => Ok a.
#[export] Instance result_bind {E} : MBind (result E) := fun A B f m =>
  match m with Ok a => f a | Err e => Err e end.
#[export] Instance result_fmap {E} : FMap (result E) := fun A B f m =>
  match m with Ok a => Ok (f a) | Err e => Err e end.

(** [Option::ok_or]: an error for [None]. *)
Definition ok_or {E A} (e : E) (o : option A) : result E A :=
  match o with Some a => Ok a | None => Err e end.

(** [bail!] unless the test passes. *)
Definition ensure {E} (b : bool) (e : E) : result E unit :=
  if b then Ok tt else Err e.

Definition is_ok {E A} (r : result E A) : bool :=
  match r with Ok _ => true | Err _ => false end.

#[export] Instance Ok_inj {E A} : Inj (=) (=) (@Ok E A).
Proof. by intros ? ? [= ->]. Qed.

Lemma bind_ok {E A B} (m : result E A) (f : A → result E B) b :
  m ≫= f = Ok b ↔ ∃ a, m = Ok a ∧ f a = Ok b.
Proof.
  destruct m as [a|e]; cbn; split.
  - eauto.
  - by intros (a' & [= <-] & ?).
  - done.
  - by intros (a' & ? & _).
Qed.

Lemma ok_or_ok {E A} (e : E) (o : option A) a : ok_or e o = Ok a ↔ o = Some a.
Proof. destruct o; naive_solver. Qed.

Lemma ensure_ok {E} b (e : E) u : ensure b e = Ok u ↔ b = true.
Proof. destruct b, u; naive_solver. Qed.

(** ** Machine integers

    A w-bit integer is the [Z] it denotes; wrapping, saturating and checked operations
    are written out. *)

Definition u16_max : Z := 65535.
Definition u32_max : Z := 4294967295.
Definition u64_max : Z := 18446744073709551615.
Definition i32_min : Z := -2147483648.
Definition i32_max : Z := 2147483647.

Definition is_u8 (z : Z) : Prop := 0 ≤ z < 256.
Definition is_u16 (z : Z) : Prop := 0 ≤ z ≤ u16_max.
Definition is_u32 (z : Z) : Prop := 0 ≤ z ≤ u32_max.
Definition is_u64 (z : Z) : Prop := 0 ≤ z ≤ u64_max.
Definition is_i32 (z : Z) : Prop := i32_min ≤ z ≤ i32_max.

(** [saturating_add] and [saturating_sub] on an unsigned type of maximum [m]. *)
Definition sat_add (m a b : Z) : Z := Z.min (a + b) m.
Definition sat_sub (a b : Z) : Z := Z.max 0 (a - b).
(** [checked_add] and [checked_mul]. *)
Definition checked (m v : Z) : option Z := if v <=? m then Some v else None.
(** Saturation into the range of [i32]. *)
Definition sat_i32 (z : Z) : Z := Z.max i32_min (Z.min z i32_max).
(** The [as i32] cast of an unsigned value: two's complement truncation. *)
Definition as_i32 (z : Z) : Z :=
  let r := z mod 4294967296 in if r <=? i32_max then r else r - 4294967296.
(** [wrapping_add(1)] on u64. *)
Definition wrapping_succ_u64 (z : Z) : Z := (z + 1) mod 18446744073709551616.

(** ** Bytes *)

Abbreviation byte := Byte.byte (only parsing).

Definition byte_to_Z (b : byte) : Z := Z.of_N (Byte.to_N b).
Definition byte_of_Z (z : Z) : byte :=
  default Byte.x00 (Byte.of_N (Z.to_N (z mod 256))).

Lemma byte_to_Z_range b : is_u8 (byte_to_Z b).
Proof.
  unfold is_u8, byte_to_Z. pose proof (Byte.to_N_bounded b). lia.
Qed.

Lemma byte_of_to_Z b : byte_of_Z (byte_to_Z b) = b.
Proof. destruct b; reflexivity. Qed.

Lemma byte_to_of_Z z : byte_to_Z (byte_of_Z z) = z mod 256.
Proof.
  unfold byte_to_Z, byte_of_Z.
  pose proof (Z.mod_pos_bound z 256).
  destruct (Byte.of_N (Z.to_N (z mod 256))) as [b|] eqn:E; simpl.
  - apply Byte.to_of_N in E. rewrite E. lia.
  - apply Byte.of_N_None_iff in E. lia.
Qed.

#[export] Instance byte_eq_dec : EqDecision byte := Byte.byte_eq_dec.

(** [to_be_bytes] of an unsigned integer of [n] bytes, and [from_be_bytes]. *)
Fixpoint to_be_bytes (n : nat) (z : Z) : list byte :=
  match n with
  | O => []
  | S n' => byte_of_Z (z / 256 ^ Z.of_nat n') :: to_be_bytes n' z
  end.

Definition from_be_bytes (l : list byte) : Z :=
  fold_left (λ acc b, acc * 256 + byte_to_Z b) l 0.

Lemma to_be_bytes_length n z : length (to_be_bytes n z) = n.
Proof. induction n; simpl; congruence. Qed.

Lemma from_be_bytes_acc l acc :
  fold_left (λ acc b, acc * 256 + byte_to_Z b) l acc
  = acc * 256 ^ Z.of_nat (length l) + from_be_bytes l.
Proof.
  unfold from_be_bytes. revert acc.
  induction l as [|b l IH]; intros acc; cbn [fold_left length].
  - rewrite Z.pow_0_r. lia.
  - rewrite (IH (acc * 256 + byte_to_Z b)), (IH (0 * 256 + byte_to_Z b)).
    rewrite Nat2Z.inj_succ, Z.pow_succ_r by lia. ring.
Qed.

Lemma from_be_bytes_cons b l :
  from_be_bytes (b :: l) = byte_to_Z b * 256 ^ Z.of_nat (length l) + from_be_bytes l.
Proof.
  unfold from_be_bytes at 1. cbn [fold_left]. rewrite Z.mul_0_l, Z.add_0_l.
  apply from_be_bytes_acc.
Qed.

Lemma from_to_be_bytes n z : from_be_bytes (to_be_bytes n z) = z mod 256 ^ Z.of_nat n.
Proof.
  induction n as [|n IH].
  - simpl. by rewrite Z.pow_0_r, Z.mod_1_r.
  - simpl to_be_bytes. rewrite from_be_bytes_cons, byte_to_of_Z, to_be_bytes_length, IH.
    rewrite Nat2Z.inj_succ, Z.pow_succ_r by lia.
    pose proof (Z.pow_pos_nonneg 256 (Z.of_nat n)).
    rewrite (Z.mul_comm 256), Z.rem_mul_r by lia. ring.
Qed.

Lemma from_be_bytes_range l : 0 ≤ from_be_bytes l < 256 ^ Z.of_nat (length l).
Proof.
  induction l as [|b l IH]; [done|].
  rewrite from_be_bytes_cons. simpl length. rewrite Nat2Z.inj_succ, Z.pow_succ_r by lia.
  pose proof (byte_to_Z_range b) as Hb. unfold is_u8 in Hb. nia.
Qed.

Lemma to_be_from_be_bytes l : to_be_bytes (length l) (from_be_bytes l) = l.
Proof.
  assert (∀ n z k, to_be_bytes n (k * 256 ^ Z.of_nat n + z) = to_be_bytes n z) as Hshift.
  { induction n as [|n IHn]; intros z k; simpl to_be_bytes; [done|].
    pose proof (Z.pow_pos_nonneg 256 (Z.of_nat n)).
    rewrite Nat2Z.inj_succ, Z.pow_succ_r by lia. f_equal.
    - rewrite Z.mul_assoc, Z.div_add_l by lia. unfold byte_of_Z. do 3 f_equal.
      by rewrite Z.add_comm, Z.mod_add by lia.
    - rewrite Z.mul_assoc. apply IHn. }
  induction l as [|b l IH]; [done|].
  simpl. rewrite from_be_bytes_cons, Hshift, IH. f_equal.
  pose proof (from_be_bytes_range l) as Hr.
  rewrite Z.div_add_l, Z.div_small, Z.add_0_r by lia. apply byte_of_to_Z.
Qed.

Lemma to_be_from_be_bytes_n n l :
  length l = n → to_be_bytes n (from_be_bytes l) = l.
Proof. intros <-. apply to_be_from_be_bytes. Qed.

(** ** Text

    A Rust [String] is its sequence of Unicode scalar values; [len()] is the length of
    the UTF-8 encoding. *)

Abbreviation char := Z (only parsing).
Abbreviation rstring := (list Z) (only parsing).

Definition char_len_utf8 (c : char) : nat :=
  if c <? 0x80 then 1 else if c <? 0x800 then 2 else if c <? 0x10000 then 3 else 4.

Definition str_len (s : rstring) : Z := Z.of_nat (sum_list (char_len_utf8 <$> s)).

(** [char::to_ascii_lowercase] *)
Definition ascii_lower (c : char) : char := if (65 <=? c) && (c <=? 90) then c + 32 else c.

(** A string literal of the source (ASCII). *)
Fixpoint lit (s : String.string) : rstring :=
  match s with
  | String.EmptyString => []
  | String.String a s' => Z.of_N (Ascii.N_of_ascii a) :: lit s'
  end.

(** ** Lists *)

(** [slice::chunks(n)]: pieces of [n] elements, the last one possibly shorter. *)
Fixpoint chunks_fuel {A} (fuel n : nat) (l : list A) : list (list A) :=
  match fuel, l with
  | _, [] => []
  | O, _ => []
  | S f, _ => take n l :: chunks_fuel f n (drop n l)
  end.

(** [n] elements at least are consumed per piece, so [length l] pieces are enough. *)
Definition chunks {A} (n : nat) (l : list A) : list (list A) :=
  chunks_fuel (length l) n l.

(** [usize::div_ceil]. *)
Definition div_ceil (a b : nat) : nat := ((a + b - 1) / b)%nat.

Section chunks.
Context {A : Type}.
Implicit Types l : list A.

Lemma chunks_fuel_nil fuel n : chunks_fuel fuel n ([] : list A) = [].
Proof. by destruct fuel. Qed.

Lemma chunks_fuel_concat fuel n l :
  (0 < n)%nat → (length l ≤ fuel)%nat → concat (chunks_fuel fuel n l) = l.
Proof.
  intros Hn. revert l. induction fuel as [|f IH]; intros [|x l] Hf; simpl in *; try lia; try done.
  rewrite IH by (rewrite length_drop; simpl; lia).
  apply (take_drop n (x :: l)).
Qed.

Lemma chunks_fuel_bound fuel n l c :
  (0 < n)%nat → c ∈ chunks_fuel fuel n l → (1 ≤ length c ≤ n)%nat.
Proof.
  intros Hn. revert l. induction fuel as [|f IH]; intros [|x l]; simpl;
    try (by intros ?%elem_of_nil).
  intros [->|Hc]%elem_of_cons; [|eauto].
  rewrite length_take; simpl; lia.
Qed.

Lemma chunks_fuel_length fuel n l :
  (0 < n)%nat → (length l ≤ fuel)%nat →
  length (chunks_fuel fuel n l) = div_ceil (length l) n.
Proof.
  intros Hn. unfold div_ceil. revert l.
  induction fuel as [|f IH]; intros [|x l] Hf; cbn [chunks_fuel length] in *;
    try (by rewrite Nat.div_small by lia); try lia.
  rewrite IH by (rewrite length_drop; simpl; lia).
  rewrite length_drop. cbn [length].
  destruct (decide (S (length l) ≤ n)%nat).
  - replace (S (length l) - n)%nat with 0%nat by lia.
    rewrite (Nat.div_small (0 + n - 1)) by lia.
    replace (S (length l) + n - 1)%nat with (length l + 1 * n)%nat by lia.
    rewrite Nat.div_add, Nat.div_small by lia. done.
  - replace (S (length l) + n - 1)%nat with ((S (length l) - n + n - 1) + 1 * n)%nat by lia.
    rewrite Nat.div_add by lia. lia.
Qed.

Lemma chunks_concat n l : (0 < n)%nat → concat (chunks n l) = l.
Proof. intros. by apply chunks_fuel_concat. Qed.

Lemma chunks_bound n l c : (0 < n)%nat → c ∈ chunks n l → (1 ≤ length c ≤ n)%nat.
Proof. apply chunks_fuel_bound. Qed.

Lemma chunks_length n l : (0 < n)%nat → length (chunks n l) = div_ceil (length l) n.
Proof. intros. by apply chunks_fuel_length. Qed.
End chunks.

Lemma div_ceil_pos a b : (0 < a)%nat → (0 < b)%nat → (0 < div_ceil a b)%nat.
Proof. intros. unfold div_ceil. apply Nat.div_str_pos. lia. Qed.

Lemma div_ceil_covers a b : (0 < b)%nat → (a ≤ b * div_ceil a b)%nat.
Proof.
  intros Hb. unfold div_ceil. pose proof (Nat.div_mod_eq (a + b - 1) b).
  pose proof (Nat.mod_upper_bound (a + b - 1) b). lia.
Qed.

(** Appending two pieces and splitting them again. *)
Lemma take_drop_app {A} (l k : list A) n :
  length l = n → take n (l ++ k) = l ∧ drop n (l ++ k) = k.
Proof. intros <-. split; [apply take_app_length|apply drop_app_length]. Qed.

(** A prefix at least as long as [a] of a list starting with [a]. *)
Lemma app_split_long {A} (a b pre post : list A) :
  a ++ b = pre ++ post → (length a ≤ length pre)%nat →
  ∃ pre', pre = a ++ pre' ∧ b = pre' ++ post.
Proof.
  intros E Hl. exists (drop (length a) pre).
  assert (take (length a) pre = a) as Ht.
  { pose proof (f_equal (take (length a)) E) as E'.
    rewrite take_app_length, take_app_le in E' by done. done. }
  split.
  - rewrite <- Ht at 1. by rewrite take_drop.
  - pose proof (f_equal (drop (length a)) E) as E'.
    by rewrite drop_app_length, drop_app_le in E'.
Qed.

Lemma concat_length {A} (l : list (list A)) :
  length (concat l) = sum_list (length <$> l).
Proof. induction l; csimpl; rewrite ?length_app; congruence. Qed.

(** ** Loops

    [for i in 0..n { body }] over a state, where the body may panic ([None]). *)
Fixpoint for_range {S} (n : nat) (body : nat → S → option S) (s : S) : option S :=
  match n with
  | O => Some s
  | S n' => s' ← for_range n' body s; body n' s'
  end.

Lemma for_range_inv {S} (I : nat → S → Prop) n body (s : S) :
  I 0%nat s →
  (∀ i s, (i < n)%nat → I i s → ∃ s', body i s = Some s' ∧ I (Datatypes.S i) s') →
  ∃ s', for_range n body s = Some s' ∧ I n s'.
Proof.
  intros H0 Hstep. induction n as [|n IH]; [by exists s|].
  destruct IH as (s1 & E1 & H1); [intros; apply Hstep; [lia|done]|].
  destruct (Hstep n s1) as (s2 & E2 & H2); [lia|done|].
  exists s2. cbn [for_range]. by rewrite E1.
Qed.

(** A cell of a grid comes before position [(r, c)] of a row-major scan. *)
Definition before (r' c' r c : nat) : Prop := (r' < r)%nat ∨ (r' = r ∧ (c' < c)%nat).

(** Two nested loops over an [h × w] grid that write at most one element per cell, at
    distinct places, leave the written values there and everything else alone. *)
Section grid.
Context {A : Type} (h w : nat) (idx : nat → nat → nat) (val : nat → nat → option A).
Context (body : nat → nat → list A → option (list A)) (old : list A).
Hypothesis idx_inj : ∀ r c r' c', (r < h)%nat → (c < w)%nat → (r' < h)%nat → (c' < w)%nat →
  idx r c = idx r' c' → r = r' ∧ c = c'.
Hypothesis body_spec : ∀ r c px, (r < h)%nat → (c < w)%nat → length px = length old →
  (idx r c < length old)%nat ∧
  body r c px = Some (match val r c with Some v => <[idx r c := v]> px | None => px end).

Definition written (r c : nat) (px : list A) : Prop :=
  length px = length old ∧
  (∀ r' c', (r' < h)%nat → (c' < w)%nat → before r' c' r c →
     px !! idx r' c' = match val r' c' with Some v => Some v | None => old !! idx r' c' end) ∧
  (∀ i, (∀ r' c', (r' < h)%nat → (c' < w)%nat → before r' c' r c → idx r' c' ≠ i) →
     px !! i = old !! i).

Lemma written_step r c px :
  (r < h)%nat → (c < w)%nat → written r c px →
  ∃ px', body r c px = Some px' ∧ written r (S c) px'.
Proof.
  intros Hr Hc (Hlen & Hdone & Hrest). destruct (body_spec r c px Hr Hc Hlen) as [Hidx ->].
  eexists. split; [done|].
  assert (∀ r' c', before r' c' r (S c) ↔ before r' c' r c ∨ (r' = r ∧ c' = c)) as Hb
    by (unfold before; lia).
  split_and!.
  - destruct (val r c); by rewrite ?length_insert.
  - intros r' c' Hr' Hc' [Hbef|[-> ->]]%Hb.
    + destruct (decide (idx r' c' = idx r c)) as [E|Hne].
      { apply idx_inj in E as [-> ->]; try done. unfold before in Hbef. lia. }
      rewrite <- (Hdone r' c') by done. destruct (val r c); [|done].
      by rewrite list_lookup_insert_ne.
    + destruct (val r c); [by rewrite list_lookup_insert_eq by lia|].
      apply Hrest. intros r' c' Hr1 Hc1 Hbef E.
      apply idx_inj in E as [-> ->]; try done. unfold before in Hbef. lia.
  - intros i Hi. rewrite <- (Hrest i) by (intros; apply Hi; [done..|]; apply Hb; by left).
    destruct (val r c); [|done]. apply list_lookup_insert_ne.
    apply Hi; [done..|]. apply Hb. by right.
Qed.

Lemma grid_spec : ∃ px,
  for_range h (λ r, for_range w (λ c, body r c)) old = Some px ∧ written h 0 px.
Proof.
  apply (for_range_inv (λ r px, written r 0 px)).
  - split_and!; [done| |done]. unfold before. lia.
  - intros r px Hr Hpx.
    destruct (for_range_inv (λ c px, written r c px) w (λ c, body r c) px) as (px' & E & Hd);
      [done|intros c px1 Hc; by apply written_step|].
    exists px'. split; [done|]. destruct Hd as (Hlen & Hdone & Hrest). split_and!; [done|..].
    + intros r' c' Hr' Hc' Hb. apply Hdone; [done..|]. unfold before in *. lia.
    + intros i Hi. apply Hrest. intros r' c' Hr' Hc' Hb. apply Hi; [done..|].
      unfold before in *. lia.
Qed.
End grid.

#[export] Hint Resolve byte_to_Z_range : vbox.
#[export] Hint Rewrite @length_app @length_take @length_drop @length_insert
  @length_replicate @length_fmap to_be_bytes_length : vbox_len.
