(* ===== verification/Text.v ===== *)
(** * Text as Rust's standard library handles it

    The methods of [str] and [char] that the command-line tools use, on strings as sequences
    of scalar values, and the lemmas about them: what trimming, splitting and replacing do to
    strings without the characters concerned, numbers written and parsed back, and UTF-8, with
    the strict decoder. *)

From S2P Require Import Prelude.

(** ** Characters *)

(** The Unicode property White_Space. *)
Definition is_whitespace (c : char) : bool :=
  ((9 <=? c) && (c <=? 13)) || (c =? 32) || (c =? 0x85) || (c =? 0xA0) || (c =? 0x1680)
  || ((0x2000 <=? c) && (c <=? 0x200A)) || (c =? 0x2028) || (c =? 0x2029) || (c =? 0x202F)
  || (c =? 0x205F) || (c =? 0x3000).

Definition is_ascii_digit (c : char) : bool := (48 <=? c) && (c <=? 57).
Definition is_ascii_alphanumeric (c : char) : bool :=
  is_ascii_digit c || ((65 <=? c) && (c <=? 90)) || ((97 <=? c) && (c <=? 122)).

(** ** Strings *)

Fixpoint drop_while (p : char → bool) (s : rstring) : rstring :=
  match s with
  | [] => []
  | c :: s' => if p c then drop_while p s' else s
  end.

Definition trim_end_matches (p : char → bool) (s : rstring) : rstring :=
  reverse (drop_while p (reverse s)).

Definition trim_matches (p : char → bool) (s : rstring) : rstring := trim_end_matches p (drop_while p s).

Definition trim (s : rstring) : rstring := trim_matches is_whitespace s.

(** [split] at a character: one piece more than there are separators. *)
Fixpoint split (sep : char) (s : rstring) : list rstring :=
  match s with
  | [] => [[]]
  | c :: s' =>
      if c =? sep then [] :: split sep s'
      else match split sep s' with [] => [[c]] | w :: ws => (c :: w) :: ws end
  end.

Fixpoint split_once (sep : char) (s : rstring) : option (rstring * rstring) :=
  match s with
  | [] => None
  | c :: s' => if c =? sep then Some ([], s')
               else match split_once sep s' with Some (a, b) => Some (c :: a, b) | None => None end
  end.

(** The words between runs of whitespace. *)
Fixpoint split_whitespace (s : rstring) : list rstring :=
  match s with
  | [] => []
  | c :: s' =>
      if is_whitespace c then split_whitespace s'
      else match s' with
           | c' :: _ => if is_whitespace c' then [c] :: split_whitespace s'
                        else match split_whitespace s' with [] => [[c]] | w :: ws => (c :: w) :: ws end
           | [] => [[c]]
           end
  end.

(** [str::lines]: a line ends with a newline, which may follow a carriage return; what is
    left after the last newline is a line if it is not empty. *)
Definition strip_cr (s : rstring) : rstring :=
  match reverse s with 13 :: s' => reverse s' | _ => s end.

Definition lines (s : rstring) : list rstring :=
  let pieces := split 10 s in
  (strip_cr <$> removelast pieces) ++ match last pieces with Some (c :: l) => [c :: l] | _ => [] end.

(** [str::replace] of a character. *)
Definition replace (c : char) (by_ : rstring) (s : rstring) : rstring :=
  s ≫= λ d, if d =? c then by_ else [d].

Definition to_ascii_lowercase (s : rstring) : rstring := ascii_lower <$> s.

Definition starts_with (prefix s : rstring) : bool := bool_decide (prefix `prefix_of` s).

Definition strip_prefix (prefix s : rstring) : option rstring :=
  if starts_with prefix s then Some (drop (length prefix) s) else None.

(** [str::contains] *)
Fixpoint contains (s needle : rstring) : bool :=
  bool_decide (needle `prefix_of` s) ||
  match s with [] => false | _ :: s' => contains s' needle end.

Fixpoint join (sep : rstring) (l : list rstring) : rstring :=
  match l with
  | [] => []
  | [s] => s
  | s :: l' => s ++ sep ++ join sep l'
  end.

(** [Path::join]: an absolute path replaces what it is joined to. *)
Definition path_join (base rest : rstring) : rstring :=
  match rest, base with
  | 47 :: _, _ => rest
  | _, [] => rest
  | _, _ => if bool_decide (last base = Some 47) then base ++ rest else base ++ 47 :: rest
  end.

(** ** Integers as text *)

Fixpoint dec_digits (fuel : nat) (n : Z) (acc : rstring) : rstring :=
  match fuel with
  | O => acc
  | S fuel' => if n <? 10 then (48 + n) :: acc else dec_digits fuel' (n / 10) ((48 + n mod 10) :: acc)
  end.

(** [to_string] of an integer; there are no more decimal digits than binary ones. *)
Definition dec (z : Z) : rstring :=
  if z <? 0 then 45 :: dec_digits (S (Z.to_nat (Z.log2 (- z)))) (- z) []
  else dec_digits (S (Z.to_nat (Z.log2 z))) z [].

(** [parse] at an unsigned type: an optional plus, then digits without overflow. *)
Fixpoint parse_digits (max acc : Z) (s : rstring) : option Z :=
  match s with
  | [] => Some acc
  | c :: s' =>
      if is_ascii_digit c then
        let v := acc * 10 + (c - 48) in if v <=? max then parse_digits max v s' else None
      else None
  end.

Definition parse (max : Z) (s : rstring) : option Z :=
  match s with
  | [] => None
  | 43 :: [] => None
  | 43 :: s' => parse_digits max 0 s'
  | _ => parse_digits max 0 s
  end.

(** ** UTF-8

    [str::as_bytes] and [String::from_utf8]: what is checked_char is exactly the encodings of
    sequences of scalar values. *)

Definition is_scalar (c : char) : bool := ((0 <=? c) && (c <? 55296)) || ((57344 <=? c) && (c <=? 1114111)).

Definition utf8_char (c : char) : list byte :=
  if c <? 128 then [byte_of_Z c]
  else if c <? 2048 then [byte_of_Z (192 + c / 64); byte_of_Z (128 + c mod 64)]
  else if c <? 65536 then
    [byte_of_Z (224 + c / 4096); byte_of_Z (128 + c / 64 mod 64); byte_of_Z (128 + c mod 64)]
  else [byte_of_Z (240 + c / 262144); byte_of_Z (128 + c / 4096 mod 64); byte_of_Z (128 + c / 64 mod 64); byte_of_Z (128 + c mod 64)].

Definition as_bytes (s : rstring) : list byte := s ≫= utf8_char.

(** A continuation byte adds six bits. *)
Definition continued (acc : Z) (b : byte) : option Z :=
  let x := byte_to_Z b in if (128 <=? x) && (x <? 192) then Some (acc * 64 + (x - 128)) else None.

(** A scalar value of at least [low]: an overlong form or a surrogate is refused. *)
Definition checked_char (low c : Z) : option char := if (low <=? c) && is_scalar c then Some c else None.

Fixpoint from_utf8 (bs : list byte) : option rstring :=
  match bs with
  | [] => Some []
  | b0 :: r0 =>
      let x := byte_to_Z b0 in
      if x <? 128 then cons x <$> from_utf8 r0 else
      match r0 with
      | [] => None
      | b1 :: r1 =>
          if (192 <=? x) && (x <? 224) then
            c ← continued (x - 192) b1 ≫= checked_char 128; cons c <$> from_utf8 r1
          else match r1 with
          | [] => None
          | b2 :: r2 =>
              if (224 <=? x) && (x <? 240) then
                c ← continued (x - 224) b1 ≫= λ a, continued a b2 ≫= checked_char 2048; cons c <$> from_utf8 r2
              else match r2 with
              | [] => None
              | b3 :: r3 =>
                  if (240 <=? x) && (x <? 248) then
                    c ← continued (x - 240) b1 ≫= λ a, continued a b2 ≫= λ a, continued a b3 ≫= checked_char 65536;
                    cons c <$> from_utf8 r3
                  else None
              end
          end
      end
  end.

(** ** Lemmas *)

Definition plain (p : char → bool) (s : rstring) : Prop := ∀ c, c ∈ s → p c = false.

Lemma plain_nil p : plain p [].
Proof. by intros c ?%elem_of_nil. Qed.

Lemma plain_cons p c s : plain p (c :: s) ↔ p c = false ∧ plain p s.
Proof. unfold plain. split; [intros H; split; intros; apply H; set_solver|]. intros [H1 H2] d [->|?]%elem_of_cons; auto. Qed.

Lemma plain_app p s t : plain p (s ++ t) ↔ plain p s ∧ plain p t.
Proof. unfold plain. split; [intros H; split; intros; apply H; set_solver|]. intros [H1 H2] d [?|?]%elem_of_app; auto. Qed.

Lemma plain_reverse p s : plain p (reverse s) ↔ plain p s.
Proof. unfold plain. by setoid_rewrite elem_of_reverse. Qed.

(** Trimming leaves a string alone whose ends are not to be trimmed. *)
Lemma drop_while_id p s : match s with c :: _ => p c = false | [] => True end → drop_while p s = s.
Proof. destruct s; [done|]. cbn. by intros ->. Qed.

Lemma trim_matches_id p s :
  match s with c :: _ => p c = false | [] => True end →
  match reverse s with c :: _ => p c = false | [] => True end → trim_matches p s = s.
Proof.
  intros Hf Hl. unfold trim_matches, trim_end_matches. rewrite (drop_while_id p s) by done.
  rewrite drop_while_id by done. by rewrite reverse_involutive.
Qed.

Lemma split_plain sep s : sep ∉ s → split sep s = [s].
Proof.
  induction s as [|c s IH]; intros Hs; [done|]. cbn. apply not_elem_of_cons in Hs as [Hc Hs].
  rewrite IH by done. by destruct (Z.eqb_spec c sep).
Qed.

Lemma split_app sep s rest : sep ∉ s → split sep (s ++ sep :: rest) = s :: split sep rest.
Proof.
  induction s as [|c s IH]; intros Hs; cbn; [by rewrite Z.eqb_refl|]. apply not_elem_of_cons in Hs as [Hc Hs].
  rewrite IH by done. by destruct (Z.eqb_spec c sep).
Qed.

Lemma split_once_app sep s rest : sep ∉ s → split_once sep (s ++ sep :: rest) = Some (s, rest).
Proof.
  induction s as [|c s IH]; intros Hs; cbn; [by rewrite Z.eqb_refl|]. apply not_elem_of_cons in Hs as [Hc Hs].
  rewrite IH by done. by destruct (Z.eqb_spec c sep).
Qed.

(** Lines written one after the other are read back. *)
Lemma lines_cons l rest :
  10 ∉ l → last l ≠ Some 13 → lines (l ++ 10 :: rest) = l :: lines rest.
Proof.
  intros Hl Hcr. unfold lines. rewrite split_app by done.
  assert (split 10 rest ≠ []) as Hne.
  { destruct rest as [|c r]; [done|]. cbn. destruct (c =? 10); [done|]. by destruct (split 10 r). }
  destruct (split 10 rest) as [|w ws]; [done|]. cbn [removelast]. rewrite fmap_cons. cbn [app]. f_equal.
  unfold strip_cr. destruct (reverse l) as [|c r] eqn:Hr; [done|].
  assert (l = reverse r ++ [c]) as -> by (rewrite <- reverse_cons, <- Hr; by rewrite reverse_involutive).
  rewrite last_snoc in Hcr. destruct (decide (c = 13)) as [->|]; [done|].
  repeat case_match; congruence.
Qed.

Lemma split_whitespace_word w c rest :
  w ≠ [] → plain is_whitespace w → is_whitespace c = true →
  split_whitespace (w ++ c :: rest) = w :: split_whitespace rest.
Proof.
  intros Hne Hw Hc. induction w as [|a w IH]; [done|]. apply plain_cons in Hw as [Ha Hw].
  destruct w as [|b w]; [cbn; by rewrite Ha, Hc|].
  assert (is_whitespace b = false) as Hb by by apply plain_cons in Hw as [? _].
  cbn [app split_whitespace] in *. rewrite Ha, Hb in *. by rewrite IH.
Qed.

Lemma split_whitespace_last w : w ≠ [] → plain is_whitespace w → split_whitespace w = [w].
Proof.
  intros Hne Hw. induction w as [|a w IH]; [done|]. apply plain_cons in Hw as [Ha Hw].
  destruct w as [|b w]; [cbn; by rewrite Ha|].
  assert (is_whitespace b = false) as Hb by by apply plain_cons in Hw as [? _].
  cbn [app split_whitespace] in *. rewrite Ha, Hb in *. by rewrite IH.
Qed.

(** *** Numbers *)

Definition digits (s : rstring) : Prop := ∀ c, c ∈ s → 48 ≤ c ≤ 57.

Lemma dec_digits_digits fuel n acc : 0 ≤ n → digits acc → digits (dec_digits fuel n acc).
Proof.
  revert n acc. induction fuel as [|fuel IH]; intros n acc Hn Hacc; [done|]. cbn.
  destruct (Z.ltb_spec n 10).
  - intros c [->|?]%elem_of_cons; [lia|by apply Hacc].
  - apply IH; [by apply Z.div_pos|]. intros c [->|?]%elem_of_cons; [|by apply Hacc].
    pose proof (Z.mod_pos_bound n 10). lia.
Qed.

Lemma parse_digit max acc d s :
  0 ≤ d < 10 → acc * 10 + d ≤ max → parse_digits max acc (48 + d :: s) = parse_digits max (acc * 10 + d) s.
Proof.
  intros Hd Hmax. cbn [parse_digits].
  assert (is_ascii_digit (48 + d) = true) as -> by (unfold is_ascii_digit; rewrite andb_true_iff, !Z.leb_le; lia).
  replace (48 + d - 48) with d by lia. cbv zeta. by destruct (Z.leb_spec (acc * 10 + d) max); [|lia].
Qed.

Lemma parse_dec_digits max fuel n acc :
  0 ≤ n ≤ max → n < 10 ^ Z.of_nat fuel →
  parse_digits max 0 (dec_digits fuel n acc) = parse_digits max n acc.
Proof.
  revert n acc. induction fuel as [|fuel IH]; intros n acc Hn Hlt; [cbn in Hlt; replace n with 0 by lia; done|].
  cbn [dec_digits]. destruct (Z.ltb_spec n 10) as [Hs|Hb]; [by rewrite parse_digit by lia|].
  pose proof (Z.mod_pos_bound n 10). pose proof (Z.div_mod n 10). pose proof (Z.div_pos n 10).
  rewrite IH.
  - rewrite parse_digit by lia. f_equal. lia.
  - lia.
  - apply Z.div_lt_upper_bound; [lia|]. rewrite Nat2Z.inj_succ, Z.pow_succ_r in Hlt by lia. lia.
Qed.

Lemma dec_fuel n : 0 ≤ n → n < 10 ^ Z.of_nat (S (Z.to_nat (Z.log2 n))).
Proof.
  intros Hn. rewrite Nat2Z.inj_succ, Z2Nat.id by apply Z.log2_nonneg.
  destruct (decide (n = 0)) as [->|]; [done|].
  assert (n < 2 ^ Z.succ (Z.log2 n)) by (apply Z.log2_spec; lia).
  assert (2 ^ Z.succ (Z.log2 n) ≤ 10 ^ Z.succ (Z.log2 n)); [|lia].
  apply Z.pow_le_mono_l. lia.
Qed.

Lemma dec_digits_nonempty fuel n acc : dec_digits (S fuel) n acc ≠ [].
Proof. revert n acc. induction fuel as [|f IH]; intros n acc; cbn [dec_digits]; destruct (n <? 10); try done. apply IH. Qed.

Lemma dec_nonneg z : 0 ≤ z → digits (dec z) ∧ dec z ≠ [].
Proof.
  intros Hz. unfold dec. destruct (Z.ltb_spec z 0); [lia|].
  split; [apply dec_digits_digits; [done|by intros ? ?%elem_of_nil]|apply dec_digits_nonempty].
Qed.

Lemma parse_dec max z : 0 ≤ z ≤ max → parse max (dec z) = Some z.
Proof.
  intros Hz. destruct (dec_nonneg z) as [Hd Hne]; [lia|].
  assert (parse max (dec z) = parse_digits max 0 (dec z)) as ->.
  { destruct (dec z) as [|c s]; [done|]. assert (48 ≤ c ≤ 57) by (apply Hd; set_solver).
    unfold parse. destruct (decide (c = 43)); [lia|]. repeat case_match; congruence. }
  unfold dec. destruct (Z.ltb_spec z 0); [lia|]. rewrite parse_dec_digits by (try apply dec_fuel; lia). done.
Qed.

Lemma digits_plain s : digits s → plain is_whitespace s.
Proof.
  intros Hs c Hc%Hs. unfold is_whitespace.
  repeat match goal with |- context [?a <=? ?b] => destruct (Z.leb_spec a b); try lia end;
  repeat match goal with |- context [?a =? ?b] => destruct (Z.eqb_spec a b); try lia end; done.
Qed.

Lemma head_byte z : 0 ≤ z < 256 → byte_to_Z (byte_of_Z z) = z.
Proof. intros H. by rewrite byte_to_of_Z, Z.mod_small. Qed.

Lemma continued_iff acc b v : continued acc b = Some v ↔ ∃ r, 0 ≤ r < 64 ∧ b = byte_of_Z (128 + r) ∧ v = acc * 64 + r.
Proof.
  unfold continued. split.
  - intros H. destruct ((128 <=? byte_to_Z b) && (byte_to_Z b <? 192)) eqn:E; [|done]. injection H as <-.
    exists (byte_to_Z b - 128). split; [lia|]. split; [|done].
    replace (128 + (byte_to_Z b - 128)) with (byte_to_Z b) by lia. by rewrite byte_of_to_Z.
  - intros (r & Hr & -> & ->). rewrite head_byte by lia.
    replace ((128 <=? 128 + r) && (128 + r <? 192)) with true by lia. f_equal. lia.
Qed.

Lemma checked_char_iff low c d : checked_char low c = Some d ↔ d = c ∧ low ≤ c ∧ is_scalar c = true.
Proof. unfold checked_char. destruct (Z.leb_spec low c), (is_scalar c); naive_solver lia. Qed.

Lemma head_of x b : byte_to_Z b = x → b = byte_of_Z x.
Proof. intros <-. by rewrite byte_of_to_Z. Qed.

Lemma from_utf8_char c r : is_scalar c = true → from_utf8 (utf8_char c ++ r) = cons c <$> from_utf8 r.
Proof.
  intros Hs. assert (0 ≤ c ≤ 1114111) as Hc by (unfold is_scalar in Hs; lia). unfold utf8_char.
  assert (∀ acc r, 0 ≤ r < 64 → continued acc (byte_of_Z (128 + r)) = Some (acc * 64 + r)) as Hcont
    by (intros acc k Hk; apply continued_iff; by exists k).
  assert (∀ low d, d = c → low ≤ c → checked_char low d = Some c) as Hacc by (intros low d -> Hl; by apply checked_char_iff).
  assert (∀ a, 0 ≤ a mod 64 < 64) as Hm by (intros; apply Z.mod_pos_bound; lia).
  destruct (Z.ltb_spec c 128); [cbn [app from_utf8]; rewrite head_byte by lia; by rewrite (proj2 (Z.ltb_lt c 128))|].
  destruct (Z.ltb_spec c 2048); [|destruct (Z.ltb_spec c 65536)]; cbn [app from_utf8]; rewrite head_byte by div_lia.
  - replace (192 + c / 64 <? 128) with false by div_lia.
    replace ((192 <=? 192 + c / 64) && (192 + c / 64 <? 224)) with true by div_lia.
    rewrite Hcont by done. cbn [mbind option_bind]. rewrite Hacc by div_lia. done.
  - replace (224 + c / 4096 <? 128) with false by div_lia.
    replace ((192 <=? 224 + c / 4096) && (224 + c / 4096 <? 224)) with false by div_lia.
    replace ((224 <=? 224 + c / 4096) && (224 + c / 4096 <? 240)) with true by div_lia.
    rewrite Hcont by done. cbn [mbind option_bind]. rewrite Hcont by done. cbn [mbind option_bind]. rewrite Hacc by div_lia. done.
  - replace (240 + c / 262144 <? 128) with false by div_lia.
    replace ((192 <=? 240 + c / 262144) && (240 + c / 262144 <? 224)) with false by div_lia.
    replace ((224 <=? 240 + c / 262144) && (240 + c / 262144 <? 240)) with false by div_lia.
    replace ((240 <=? 240 + c / 262144) && (240 + c / 262144 <? 248)) with true by div_lia.
    rewrite Hcont by done. cbn [mbind option_bind]. rewrite Hcont by done. cbn [mbind option_bind].
    rewrite Hcont by done. cbn [mbind option_bind]. rewrite Hacc by div_lia. done.
Qed.

(** The encoding is injective, and decoding is its inverse. *)
Lemma from_as_bytes s : Forall (λ c, is_scalar c = true) s → from_utf8 (as_bytes s) = Some s.
Proof.
  induction 1 as [|c s Hc _ IH]; [done|]. unfold as_bytes in *. cbn [mbind list_bind] in *.
  by rewrite from_utf8_char, IH.
Qed.

Lemma utf8_char_length c : length (utf8_char c) = char_len_utf8 c.
Proof. unfold utf8_char, char_len_utf8. by repeat case_match. Qed.

Lemma as_bytes_length s : Z.of_nat (length (as_bytes s)) = str_len s.
Proof.
  unfold str_len. f_equal. induction s as [|c s IH]; [done|]. unfold as_bytes in *. cbn [mbind list_bind].
  rewrite length_app, IH, utf8_char_length. done.
Qed.

Lemma utf8_two q r : 0 ≤ q < 32 → 0 ≤ r < 64 → 128 ≤ q * 64 + r →
  utf8_char (q * 64 + r) = [byte_of_Z (192 + q); byte_of_Z (128 + r)].
Proof.
  intros Hq Hr Hl. unfold utf8_char. replace (q * 64 + r <? 128) with false by lia. replace (q * 64 + r <? 2048) with true by lia.
  by replace ((q * 64 + r) / 64) with q by div_lia; replace ((q * 64 + r) mod 64) with r by div_lia.
Qed.

Lemma utf8_three q r1 r2 : 0 ≤ q < 16 → 0 ≤ r1 < 64 → 0 ≤ r2 < 64 → 2048 ≤ (q * 64 + r1) * 64 + r2 →
  utf8_char ((q * 64 + r1) * 64 + r2) = [byte_of_Z (224 + q); byte_of_Z (128 + r1); byte_of_Z (128 + r2)].
Proof.
  intros Hq H1 H2 Hl. unfold utf8_char. set (c := (q * 64 + r1) * 64 + r2) in *.
  replace (c <? 128) with false by lia. replace (c <? 2048) with false by lia. replace (c <? 65536) with true by lia.
  replace (c / 4096) with q by div_lia. replace (c / 64) with (q * 64 + r1) by div_lia.
  by replace ((q * 64 + r1) mod 64) with r1 by div_lia; replace (c mod 64) with r2 by div_lia.
Qed.

Lemma utf8_four q r1 r2 r3 : 0 ≤ q < 8 → 0 ≤ r1 < 64 → 0 ≤ r2 < 64 → 0 ≤ r3 < 64 → 65536 ≤ ((q * 64 + r1) * 64 + r2) * 64 + r3 →
  utf8_char (((q * 64 + r1) * 64 + r2) * 64 + r3) =
  [byte_of_Z (240 + q); byte_of_Z (128 + r1); byte_of_Z (128 + r2); byte_of_Z (128 + r3)].
Proof.
  intros Hq H1 H2 H3 Hl. unfold utf8_char. set (c := ((q * 64 + r1) * 64 + r2) * 64 + r3) in *.
  replace (c <? 128) with false by lia. replace (c <? 2048) with false by lia. replace (c <? 65536) with false by lia.
  replace (c / 262144) with q by div_lia. replace (c / 4096) with (q * 64 + r1) by div_lia.
  replace (c / 64) with ((q * 64 + r1) * 64 + r2) by div_lia.
  replace ((q * 64 + r1) mod 64) with r1 by div_lia. replace (((q * 64 + r1) * 64 + r2) mod 64) with r2 by div_lia.
  by replace (c mod 64) with r3 by div_lia.
Qed.

Lemma as_from_bytes bs s : from_utf8 bs = Some s → as_bytes s = bs ∧ Forall (λ c, is_scalar c = true) s.
Proof.
  remember (length bs) as n eqn:Hn. assert (length bs ≤ n)%nat as Hle by lia. clear Hn. revert bs s Hle.
  induction n as [|n IH]; intros bs s Hle H; (destruct bs as [|b0 r0]; [by injection H as <-|]); [cbn in Hle; lia|].
  assert (∀ c rest s, from_utf8 rest = Some s → is_scalar c = true → (length rest ≤ n)%nat →
    as_bytes (c :: s) = utf8_char c ++ rest ∧ Forall (λ c, is_scalar c = true) (c :: s)) as Hstep.
  { intros c rest s' Hr Hc Hl. destruct (IH rest s' Hl Hr) as [<- Hall]. split; [done|by constructor]. }
  cbn [from_utf8 length] in *. pose proof (byte_to_Z_range b0) as Hb0. unfold is_u8 in Hb0.
  assert (b0 = byte_of_Z (byte_to_Z b0)) as Hh by by rewrite byte_of_to_Z.
  destruct (Z.ltb_spec (byte_to_Z b0) 128) as [Hx|Hx].
  { apply fmap_Some in H as (s' & Hr & ->). destruct (Hstep (byte_to_Z b0) r0 s' Hr) as [-> Hall]; [unfold is_scalar; lia|lia|].
    split; [|done]. unfold utf8_char. rewrite (proj2 (Z.ltb_lt _ _)) by done. by rewrite <- Hh. }
  destruct r0 as [|b1 r1]; [done|]. cbn [length] in *. destruct ((192 <=? _) && (byte_to_Z b0 <? 224)) eqn:E2.
  { apply bind_Some in H as (c & (a1 & (k1 & Hk1 & -> & ->)%continued_iff & (-> & Hl & Hc)%checked_char_iff)%bind_Some & (s' & Hr & ->)%fmap_Some).
    destruct (Hstep _ _ _ Hr Hc) as [-> Hall]; [lia|]. split; [|done]. rewrite utf8_two by lia.
    by replace (192 + (byte_to_Z b0 - 192)) with (byte_to_Z b0) by lia; rewrite <- Hh. }
  destruct r1 as [|b2 r2]; [done|]. cbn [length] in *. destruct ((224 <=? _) && (byte_to_Z b0 <? 240)) eqn:E3.
  { apply bind_Some in H as (c & (a1 & (k1 & Hk1 & -> & ->)%continued_iff & (a2 & (k2 & Hk2 & -> & ->)%continued_iff &
      (-> & Hl & Hc)%checked_char_iff)%bind_Some)%bind_Some & (s' & Hr & ->)%fmap_Some).
    destruct (Hstep _ _ _ Hr Hc) as [-> Hall]; [lia|]. split; [|done]. rewrite utf8_three by lia.
    by replace (224 + (byte_to_Z b0 - 224)) with (byte_to_Z b0) by lia; rewrite <- Hh. }
  destruct r2 as [|b3 r3]; [done|]. cbn [length] in *. destruct ((240 <=? _) && (byte_to_Z b0 <? 248)) eqn:E4; [|done].
  apply bind_Some in H as (c & (a1 & (k1 & Hk1 & -> & ->)%continued_iff & (a2 & (k2 & Hk2 & -> & ->)%continued_iff &
    (a3 & (k3 & Hk3 & -> & ->)%continued_iff & (-> & Hl & Hc)%checked_char_iff)%bind_Some)%bind_Some)%bind_Some & (s' & Hr & ->)%fmap_Some).
  destruct (Hstep _ _ _ Hr Hc) as [-> Hall]; [lia|]. split; [|done]. rewrite utf8_four by lia.
  by replace (240 + (byte_to_Z b0 - 240)) with (byte_to_Z b0) by lia; rewrite <- Hh.
Qed.

(** [from_utf8] accepts the encodings of sequences of scalar values, and nothing else. *)
Lemma from_utf8_iff bs s : from_utf8 bs = Some s ↔ bs = as_bytes s ∧ Forall (λ c, is_scalar c = true) s.
Proof.
  split; [intros [<- Hs]%as_from_bytes; done|]. intros [-> Hs]. by apply from_as_bytes.
Qed.
