(* ===== verification/Wait.v ===== *)
(** * Waiting for a socket, and looking things up (crates/controld/src: socket_wait.rs, utils.rs)

    The daemon waits for a compositor's socket on inotify's events, read as bytes, or by
    looking again and again. What the clock, [poll] and [read] answer are lists; a list that is
    used up means that the wait goes on. *)

From S2P Require Import Prelude Text.

(** ** utils.rs *)

(** [which_in_paths]: [is_match] says whether a path is a file. *)
Definition which_in_paths (name : rstring) (path_env : option rstring) (is_match : rstring → bool) : option rstring :=
  env ← path_env; find is_match ((λ dir, path_join dir name) <$> split 58 env).

Definition resolve_xdg_runtime_dir (xdg : option rstring) (uid : Z) : rstring :=
  match xdg with
  | Some s => if bool_decide (trim s = []) then lit "/run/user/" ++ dec uid else s
  | None => lit "/run/user/" ++ dec uid
  end.

(** [pid_t::try_from]. *)
Definition to_pid_t (pid : Z) : option Z := if pid <=? i32_max then Some pid else None.

(** [kill_pid]: [signal] is what the system answers for a pid. *)
Definition kill_pid (signal : Z → bool) (pid : Z) : bool :=
  match to_pid_t pid with Some p => signal p | None => false end.

Inductive probe := Probe_ok | Probe_eperm | Probe_other.

Definition pid_alive (probe : Z → probe) (pid : Z) : bool :=
  if pid =? 0 then false else
  match to_pid_t pid with
  | None => false
  | Some p => match probe p with Probe_ok | Probe_eperm => true | Probe_other => false end
  end.

(** ** socket_wait.rs: polling *)

Inductive wait_error :=
  | Missing_socket            (* the deadline *)
  | Poll_failed
  | Read_failed
  | Watch_failed.

(** [wait_socket_poll_with_step]: each look, whether the path exists and then the clock. *)
Fixpoint wait_socket_poll (deadline : Z) (looks : list (bool * Z)) : option (result wait_error unit) :=
  match looks with
  | [] => None
  | (found, now) :: rest =>
      if found : bool then Some (Ok tt)
      else if deadline <=? now then Some (Err Missing_socket)
      else wait_socket_poll deadline rest
  end.

(** ** inotify *)

Definition from_le_bytes (bs : list byte) : Z := from_be_bytes (reverse bs).
Definition to_le_bytes (n : nat) (z : Z) : list byte := reverse (to_be_bytes n z).

(** The prefix before the first NUL. *)
Fixpoint before_nul (bs : list byte) : list byte :=
  match bs with
  | [] => []
  | b :: rest => if byte_to_Z b =? 0 then [] else b :: before_nul rest
  end.

(** The size of [inotify_event]: four 32-bit fields, the last the length of the name. *)
Definition HDR : nat := 16.

(** The walk over one buffer: does an event name the socket while the path exists? [exists_]
    is asked by the number of the event. Every step consumes a header. *)
Fixpoint scan_events (fuel : nat) (target : list byte) (exists_ : nat → bool) (buf : list byte) : bool :=
  match fuel with
  | O => false
  | S fuel' =>
      if (length buf <? HDR)%nat then false else
      let name_len := Z.to_nat (from_le_bytes (take 4 (drop 12 buf))) in
      if (length buf <? HDR + name_len)%nat then false else
      if bool_decide (before_nul (take name_len (drop HDR buf)) = target) && exists_ 0%nat then true
      else scan_events fuel' target (λ i, exists_ (S i)) (drop (HDR + name_len) buf)
  end.

Definition scan_buffer (target : list byte) (exists_ : nat → bool) (buf : list byte) : bool :=
  scan_events (length buf) target exists_ buf.

(** What [read] yields until it would block. *)
Inductive read_answer := Read_bytes (buf : list byte) (exists_ : nat → bool) | Read_end | Read_error.

Fixpoint drain (target : list byte) (reads : list read_answer) : option (result wait_error unit) :=
  match reads with
  | [] | Read_end :: _ => None
  | Read_error :: _ => Some (Err Read_failed)
  | Read_bytes buf exists_ :: rest =>
      if scan_buffer target exists_ buf then Some (Ok tt) else drain target rest
  end.

Inductive poll_answer := Poll_interrupted | Poll_error | Poll_timed_out | Poll_ready (reads : list read_answer).

(** The milliseconds given to [poll]. *)
Definition poll_ms (deadline now : Z) : Z := Z.min (deadline - now) i32_max.

(** The loop, over the clock and what [poll] answers. *)
Fixpoint inotify_loop (target : list byte) (deadline : Z) (polls : list (Z * poll_answer)) : option (result wait_error unit) :=
  match polls with
  | [] => None
  | (now, answer) :: rest =>
      if deadline <=? now then Some (Err Missing_socket) else
      match answer with
      | Poll_interrupted => inotify_loop target deadline rest
      | Poll_error => Some (Err Poll_failed)
      | Poll_timed_out => Some (Err Missing_socket)
      | Poll_ready reads =>
          match drain target reads with
          | Some r => Some r
          | None => inotify_loop target deadline rest
          end
      end
  end.

(** [wait_socket_inotify]: the outer [None] when there is no inotify. The path is looked for
    again once the watch is armed. *)
Definition wait_socket_inotify (has_inotify has_watch found : bool) (target : list byte) (deadline : Z)
    (polls : list (Z * poll_answer)) : option (option (result wait_error unit)) :=
  if negb has_inotify then None
  else if negb has_watch then Some (Some (Err Watch_failed))
  else if found then Some (Some (Ok tt))
  else Some (inotify_loop target deadline polls).

(** ** What the kernel writes *)

(** An event: watch, mask and cookie; the name, and the NULs that end and align it. *)
Record inotify_event := mkEvent { ev_head : list byte; ev_name : list byte; ev_pad : nat }.

Definition encode_event (e : inotify_event) : list byte :=
  ev_head e ++ to_le_bytes 4 (Z.of_nat (length (ev_name e) + ev_pad e)) ++ ev_name e ++ replicate (ev_pad e) Byte.x00.

Record event_ok (e : inotify_event) : Prop := {
  ok_head : length (ev_head e) = 12%nat;
  ok_name : Forall (λ b, byte_to_Z b ≠ 0) (ev_name e);
  ok_length : Z.of_nat (length (ev_name e) + ev_pad e) < 2 ^ 32;
}.

Lemma to_le_bytes_length n z : length (to_le_bytes n z) = n.
Proof. unfold to_le_bytes. by rewrite length_reverse, to_be_bytes_length. Qed.

Lemma from_to_le_bytes n z : from_le_bytes (to_le_bytes n z) = z mod 256 ^ Z.of_nat n.
Proof. unfold from_le_bytes, to_le_bytes. by rewrite reverse_involutive, from_to_be_bytes. Qed.

Lemma before_nul_padded name pad :
  Forall (λ b, byte_to_Z b ≠ 0) name → before_nul (name ++ replicate pad Byte.x00) = name.
Proof.
  induction 1 as [|b name Hb _ IH]; [by destruct pad|]. cbn [app before_nul]. by rewrite (proj2 (Z.eqb_neq _ _)), IH.
Qed.

Lemma encode_event_length e : event_ok e → length (encode_event e) = (HDR + (length (ev_name e) + ev_pad e))%nat.
Proof. intros [Hh _ _]. unfold encode_event, HDR. rewrite !length_app, to_le_bytes_length, length_replicate, Hh. lia. Qed.

Lemma scan_first fuel target ex e rest :
  event_ok e →
  scan_events (S fuel) target ex (encode_event e ++ rest) =
  (bool_decide (ev_name e = target) && ex 0%nat) || scan_events fuel target (λ i, ex (S i)) rest.
Proof.
  intros He. pose proof (encode_event_length e He) as Hlen. destruct He as [Hh Hn Hl]. cbn [scan_events].
  rewrite length_app, Hlen. replace (_ <? HDR)%nat with false by (symmetry; apply Nat.ltb_ge; lia).
  assert (drop 12 (encode_event e ++ rest) = to_le_bytes 4 (Z.of_nat (length (ev_name e) + ev_pad e)) ++
    (ev_name e ++ replicate (ev_pad e) Byte.x00) ++ rest) as Hd.
  { unfold encode_event. by rewrite <- !app_assoc, drop_app_length' by done. }
  assert (drop HDR (encode_event e ++ rest) = (ev_name e ++ replicate (ev_pad e) Byte.x00) ++ rest) as Hd16.
  { change HDR with (12 + 4)%nat. rewrite <- drop_drop, Hd. by rewrite drop_app_length' by by rewrite to_le_bytes_length. }
  rewrite Hd16, Hd, take_app_length' by by rewrite to_le_bytes_length.
  rewrite from_to_le_bytes, Z.mod_small by (change (256 ^ Z.of_nat 4) with (2 ^ 32); lia). rewrite Nat2Z.id.
  replace (_ <? _)%nat with false by (symmetry; apply Nat.ltb_ge; lia).
  assert (length (ev_name e ++ replicate (ev_pad e) Byte.x00) = (length (ev_name e) + ev_pad e)%nat) as Hnl
    by by rewrite length_app, length_replicate.
  rewrite take_app_length' by done. rewrite before_nul_padded by done.
  rewrite <- drop_drop, Hd16, drop_app_length' by done. by destruct (bool_decide _ && _).
Qed.

Lemma existsb_shift {A} (P : A → bool) (ex : nat → bool) l (h : nat → nat) :
  existsb (λ '(i, x), P x && ex i) (imap (λ i, pair (S (h i))) l) = existsb (λ '(i, x), P x && ex (S i)) (imap (λ i, pair (h i)) l).
Proof.
  revert h. induction l as [|x l IH]; intros h; [done|]. rewrite !imap_cons. cbn [existsb]. f_equal. apply (IH (λ i, h (S i))).
Qed.

(** In what the kernel writes the walk finds exactly the events that name the socket, at a
    moment when the path exists: names are neither cut nor joined with what follows them. *)
Theorem scan_finds target ex events :
  Forall event_ok events →
  scan_buffer target ex (concat (encode_event <$> events)) =
  existsb (λ '(i, e), bool_decide (ev_name e = target) && ex i) (imap pair events).
Proof.
  intros Hall. unfold scan_buffer. assert (∀ fuel ex, (length (concat (encode_event <$> events)) ≤ fuel)%nat →
    scan_events fuel target ex (concat (encode_event <$> events)) =
    existsb (λ '(i, e), bool_decide (ev_name e = target) && ex i) (imap pair events)) as H; [|by apply H].
  clear ex. induction Hall as [|e events He _ IH]; intros fuel ex Hf; [by destruct fuel|].
  cbn [fmap list_fmap concat] in *. rewrite length_app, encode_event_length in Hf by done. unfold HDR in Hf.
  destruct fuel as [|fuel]; [lia|]. rewrite scan_first, IH by (done || lia). rewrite imap_cons. cbn [existsb]. f_equal.
  symmetry. exact (existsb_shift _ ex events id).
Qed.

(** The daemon's wait ends well exactly when an event names the socket while it exists, before
    the deadline and before anything else ends the wait. *)
Definition keeps_waiting (target : list byte) (deadline : Z) (p : Z * poll_answer) : bool :=
  (p.1 <? deadline) &&
  match p.2 with
  | Poll_interrupted => true
  | Poll_ready reads => match drain target reads with None => true | Some _ => false end
  | _ => false
  end.

(** Waiting on inotify succeeds exactly when, before the deadline, one round of events shows
    the socket and nothing ended the wait before; and it does end once the clock has passed
    the deadline. *)
Theorem inotify_outcome target deadline polls :
  (inotify_loop target deadline polls = Some (Ok tt) ↔
   ∃ before now reads after, polls = before ++ (now, Poll_ready reads) :: after ∧
     forallb (keeps_waiting target deadline) before = true ∧ now < deadline ∧ drain target reads = Some (Ok tt)) ∧
  ((∃ p, p ∈ polls ∧ deadline ≤ p.1) → inotify_loop target deadline polls ≠ None).
Proof.
  split; [split|].
  - induction polls as [|[now answer] polls IH]; [done|]. cbn [inotify_loop]. destruct (Z.leb_spec deadline now); [done|].
    assert (∀ r, inotify_loop target deadline polls = Some (Ok tt) → answer = r → keeps_waiting target deadline (now, r) = true →
      ∃ before now' reads after, (now, answer) :: polls = before ++ (now', Poll_ready reads) :: after ∧
        forallb (keeps_waiting target deadline) before = true ∧ now' < deadline ∧ drain target reads = Some (Ok tt)) as Hstep.
    { intros r H' -> Hk. destruct (IH H') as (before & now' & reads & after & -> & Hb & Hn & Hd).
      exists ((now, r) :: before), now', reads, after. cbn [app forallb]. by rewrite Hk. }
    unfold keeps_waiting in Hstep. cbn [fst snd] in Hstep. destruct answer as [| | |reads]; try done.
    + intros Hr. eapply Hstep; [done|done|]. by rewrite (proj2 (Z.ltb_lt _ _)).
    + destruct (drain target reads) as [r|] eqn:Hd.
      * intros [= ->]. by exists [], now, reads, polls.
      * intros Hr. eapply Hstep; [done|done|]. by rewrite (proj2 (Z.ltb_lt _ _)), Hd.
  - intros (before & now & reads & after & -> & Hb & Hn & Hd). induction before as [|[t answer] before IH]; cbn [app inotify_loop].
    + by rewrite (proj2 (Z.leb_gt _ _)), Hd.
    + cbn [forallb] in Hb. apply andb_true_iff in Hb as [[Ht Ha]%andb_true_iff Hb]. cbn [fst snd] in *.
      rewrite (proj2 (Z.leb_gt _ _)) by lia. destruct answer as [| | |rs]; try done; [by apply IH|]. destruct (drain target rs); [done|by apply IH].
  - intros (p & Hp & Hd). induction polls as [|[now answer] polls IH]; [by apply elem_of_nil in Hp|].
    cbn [inotify_loop]. destruct (Z.leb_spec deadline now); [done|]. apply elem_of_cons in Hp as [->|Hp]; [cbn in Hd; lia|].
    specialize (IH Hp). destruct answer as [| | |reads]; try done. by destruct (drain target reads).
Qed.

(** ** Witnesses *)

Definition created (name : list byte) : inotify_event :=
  mkEvent (replicate 12 Byte.x01) name (16 - length name).

Lemma created_event_ok name : (length name < 16)%nat → Forall (λ b, byte_to_Z b ≠ 0) name → event_ok (created name).
Proof. intros Hl Hn. split; [done|done|]. cbn. lia. Qed.

Lemma scan_finds_witness :
  scan_buffer [Byte.x61] (λ _, true) (concat (encode_event <$> [created [Byte.x61; Byte.x62]; created [Byte.x61]])) = true.
Proof.
  rewrite (scan_finds [Byte.x61] (λ _, true) [created [Byte.x61; Byte.x62]; created [Byte.x61]]); [by vm_compute|].
  repeat constructor; cbn; try lia; done.
Defined.

Lemma inotify_outcome_witness :
  inotify_loop [Byte.x61] 5 [(0, Poll_interrupted); (1, Poll_ready [Read_bytes (encode_event (created [Byte.x61])) (λ _, true)])] = Some (Ok tt) ∧
  inotify_loop [Byte.x61] 5 [(0, Poll_interrupted); (6, Poll_interrupted)] ≠ None.
Proof.
  split.
  - apply (proj1 (inotify_outcome [Byte.x61] 5 _)). exists [(0, Poll_interrupted)], 1, [Read_bytes (encode_event (created [Byte.x61])) (λ _, true)], [].
    split_and!; by vm_compute.
  - apply (proj2 (inotify_outcome [Byte.x61] 5 _)). exists (6, Poll_interrupted). split; [right; left|done].
Defined.
