(* ===== verification/Shell.v ===== *)
(** * Words for a shell (crates/vbox-cli/src/ssh.rs, runtime.rs)

    [shell_quote] and the command lines built from it: the options of ssh as arguments of a
    process and as text for a shell, the script sent to the guest, the copy of the sources.
    [read_words] is the reference they are judged by: how a POSIX shell splits a simple
    command into words. *)

From S2P Require Import Prelude Text.

(** ** The reference: words and quotes of a POSIX shell *)

Inductive quoting := Unquoted | Single | Double.

(** Characters an unquoted word may not hold without the shell giving them a meaning. *)
Definition shell_active (c : char) : bool := existsb (Z.eqb c) (lit "|&;<>()$`*?[]#~{}!" ++ [10; 13]).

(** Characters a backslash escapes between double quotes. *)
Definition dq_escapable (c : char) : bool := existsb (Z.eqb c) (lit "$`\" ++ [34; 10]).

(** The words of a command, [None] if it is more than words: an expansion, an operator, an
    open quote. [word] is the word being read. *)
Fixpoint read_words (q : quoting) (word : option rstring) (s : rstring) : option (list rstring) :=
  let push c := Some (default [] word ++ [c]) in
  match q, s with
  | Unquoted, [] => Some (option_list word)
  | _, [] => None
  | Single, c :: s' => if c =? 39 then read_words Unquoted word s' else read_words Single (push c) s'
  | Double, c :: s' =>
      if c =? 34 then read_words Unquoted word s'
      else if c =? 92 then
        match s' with
        | [] => None
        | d :: s'' => if dq_escapable d then read_words Double (push d) s'' else read_words Double (push c) s'
        end
      else if (c =? 36) || (c =? 96) then None
      else read_words Double (push c) s'
  | Unquoted, c :: s' =>
      if c =? 39 then read_words Single (Some (default [] word)) s'
      else if c =? 34 then read_words Double (Some (default [] word)) s'
      else if c =? 92 then
        match s' with [] => None | d :: s'' => read_words Unquoted (push d) s'' end
      else if (c =? 32) || (c =? 9) then
        ws ← read_words Unquoted None s'; Some (option_list word ++ ws)
      else if shell_active c then None
      else read_words Unquoted (push c) s'
  end.

Definition words : rstring → option (list rstring) := read_words Unquoted None.

(** ** Quoting *)

Definition shell_quote (value : rstring) : rstring :=
  [39] ++ replace 39 [39; 92; 39; 39] value ++ [39].

(** ** The options of ssh *)

Record SshCreds := mkSshCreds { identity_file : option rstring; keychain_account : option rstring }.

Record SshOptions := mkSshOptions { flags : list (rstring * rstring); env : list (rstring * rstring) }.

(** [std::process::Command]: the program, its arguments and its environment. *)
Record command := mkCommand { program : rstring; args : list rstring; vars : list (rstring * rstring) }.

Definition command_new (program : rstring) : command := mkCommand program [] [].
Definition arg (a : rstring) (cmd : command) : command := mkCommand (program cmd) (args cmd ++ [a]) (vars cmd).

(** [display]: the host has a DISPLAY. *)
Definition build_options (display : bool) (creds : SshCreds) (askpass_helper : option rstring) : SshOptions :=
  let identity :=
    match identity_file creds with
    | Some path => [(lit "-i", path); (lit "-o", lit "IdentitiesOnly=yes")]
    | None => []
    end in
  match keychain_account creds, askpass_helper with
  | Some account, Some helper =>
      mkSshOptions
        (identity ++ [(lit "-o", lit "PreferredAuthentications=password,keyboard-interactive,publickey");
                      (lit "-o", lit "NumberOfPasswordPrompts=1"); (lit "-o", lit "PubkeyAuthentication=no")])
        ([(lit "SSH_ASKPASS", helper); (lit "SSH_ASKPASS_REQUIRE", lit "force"); (lit "VBOX_ASKPASS_ACCOUNT", account)]
         ++ if display then [] else [(lit "DISPLAY", lit ":0")])
  | _, _ => mkSshOptions identity []
  end.

Definition apply_to_command (opts : SshOptions) (cmd : command) : command :=
  mkCommand (program cmd) (args cmd ++ (flags opts ≫= λ '(flag, value), [flag; value])) (vars cmd ++ env opts).

Definition to_shell_string (opts : SshOptions) (program : rstring) : rstring :=
  let env_prefix :=
    match env opts with
    | [] => []
    | l => join (lit " ") ((λ '(k, v), k ++ lit "=" ++ shell_quote v) <$> l) ++ lit " "
    end in
  env_prefix ++ program ++ (flags opts ≫= λ '(flag, value), lit " " ++ flag ++ lit " " ++ shell_quote value).

Definition askpass_helper (cli_path : rstring) (creds : SshCreds) : option rstring :=
  (λ _, cli_path) <$> keychain_account creds.

Definition expand_tilde (home : option rstring) (value : rstring) : rstring :=
  match strip_prefix (lit "~/") value, home with
  | Some rest, Some home => path_join home rest
  | _, _ => value
  end.

Definition option_path (home : option rstring) (value : rstring) : option rstring :=
  match value with [] => None | _ => Some (expand_tilde home value) end.

(** ** Scripts for the guest *)

(** What [ssh] asks ssh to run: a login shell with the script. *)
Definition guest_command (script : rstring) : rstring := lit "bash -lc " ++ shell_quote script.

(** The end of the pipe in [sync]: ssh with the remote command between double quotes. *)
Definition sync_receiver (inline_ssh guest guest_dir : rstring) : rstring :=
  let remote := shell_quote guest_dir in
  inline_ssh ++ lit " " ++ shell_quote guest ++ lit " " ++ [34]
  ++ lit "mkdir -p " ++ remote ++ lit " && tar -xzf - -C " ++ remote ++ [34].

Definition sync_script (root inline_ssh guest guest_dir : rstring) : rstring :=
  lit "set -euo pipefail; cd " ++ shell_quote root
  ++ lit "; COPYFILE_DISABLE=1 tar --no-xattrs --exclude='./target' --exclude='./.vbox' --exclude='./.icebox' --exclude='./.git' -czf - . | "
  ++ sync_receiver inline_ssh guest guest_dir.

(** ** Lemmas *)

(** A character an unquoted word may hold as it is. *)
Definition ordinary (c : char) : bool :=
  negb ((c =? 39) || (c =? 34) || (c =? 92) || (c =? 32) || (c =? 9) || shell_active c).

Lemma read_ordinary c word s :
  ordinary c = true → read_words Unquoted word (c :: s) = read_words Unquoted (Some (default [] word ++ [c])) s.
Proof.
  unfold ordinary. rewrite negb_true_iff, !orb_false_iff. intros (((((H1 & H2) & H3) & H4) & H5) & H6).
  cbn [read_words]. by rewrite H1, H2, H3, H4, H5, H6.
Qed.

Lemma read_plain v word s :
  v ≠ [] → Forall (λ c, ordinary c = true) v →
  read_words Unquoted word (v ++ s) = read_words Unquoted (Some (default [] word ++ v)) s.
Proof.
  intros Hne Hv. revert word Hne. induction Hv as [|c v Hc Hv IH]; intros word Hne; [done|].
  rewrite <- app_comm_cons, read_ordinary by done. destruct v as [|d v]; [done|].
  rewrite IH by done. cbn. by rewrite <- app_assoc.
Qed.

Lemma read_space word s :
  read_words Unquoted word (32 :: s) = (λ ws, option_list word ++ ws) <$> words s.
Proof. cbn. unfold words. by destruct (read_words _ _ s). Qed.

Lemma read_single v w s :
  read_words Single (Some w) (replace 39 [39; 92; 39; 39] v ++ 39 :: s) = read_words Unquoted (Some (w ++ v)) s.
Proof.
  revert w. induction v as [|c v IH]; intros w; [by cbn; rewrite app_nil_r|].
  unfold replace in *. rewrite bind_cons. destruct (Z.eqb_spec c 39) as [->|Hc].
  - cbn. rewrite IH. by rewrite <- app_assoc.
  - cbn. destruct (Z.eqb_spec c 39); [done|]. rewrite IH. by rewrite <- app_assoc.
Qed.

(** Whatever follows, a quoted value is read as the value. *)
Lemma read_quoted v word s :
  read_words Unquoted word (shell_quote v ++ s) = read_words Unquoted (Some (default [] word ++ v)) s.
Proof. unfold shell_quote. cbn. rewrite <- app_assoc. apply read_single. Qed.

#[export] Hint Rewrite read_quoted read_space : vbox_rw.

(** Between double quotes the quoting survives as text, if nothing in it is active there. *)
Definition dq_plain (c : char) : bool := negb ((c =? 34) || (c =? 36) || (c =? 96) || (c =? 92)).

Lemma read_double_plain c w s :
  dq_plain c = true → read_words Double (Some w) (c :: s) = read_words Double (Some (w ++ [c])) s.
Proof.
  unfold dq_plain. rewrite negb_true_iff, !orb_false_iff. intros (((H1 & H2) & H3) & H4).
  cbn [read_words]. by rewrite H1, H2, H3, H4.
Qed.

Lemma read_double_text v w s :
  Forall (λ c, dq_plain c = true) v → read_words Double (Some w) (v ++ s) = read_words Double (Some (w ++ v)) s.
Proof.
  intros Hv. revert w. induction Hv as [|c v Hc Hv IH]; intros w; [by rewrite app_nil_r|].
  rewrite <- app_comm_cons, read_double_plain by done. rewrite IH. by rewrite <- app_assoc.
Qed.

Lemma read_double_backslash d w s :
  dq_escapable d = false →
  read_words Double (Some w) (92 :: d :: s) = read_words Double (Some (w ++ [92])) (d :: s).
Proof. intros Hd. cbn [read_words]. by rewrite Hd. Qed.

Lemma read_double_replaced v w s :
  Forall (λ c, dq_plain c = true) v →
  read_words Double (Some w) (replace 39 [39; 92; 39; 39] v ++ s) =
  read_words Double (Some (w ++ replace 39 [39; 92; 39; 39] v)) s.
Proof.
  intros Hv. unfold replace. revert w. induction Hv as [|c v Hc Hv IH]; intros w; [by rewrite app_nil_r|].
  rewrite bind_cons, <- !app_assoc. destruct (c =? 39); cbn [app].
  - rewrite read_double_plain, read_double_backslash, !read_double_plain by done.
    rewrite IH, <- !app_assoc. done.
  - rewrite read_double_plain by done. rewrite IH, <- !app_assoc. done.
Qed.

Lemma read_double_quoted v w s :
  Forall (λ c, dq_plain c = true) v →
  read_words Double (Some w) (shell_quote v ++ s) = read_words Double (Some (w ++ shell_quote v)) s.
Proof.
  intros Hv. unfold shell_quote. rewrite <- !app_assoc. cbn [app].
  rewrite read_double_plain, read_double_replaced, read_double_plain by done. by rewrite <- !app_assoc.
Qed.

(** An expansion between double quotes is the shell's. *)
Lemma read_double_active c v w s :
  c = 36 ∨ c = 96 → Forall (λ c, dq_plain c = true) v → read_words Double (Some w) (v ++ c :: s) = None.
Proof. intros Hc Hv. rewrite read_double_text by done. by destruct Hc as [-> | ->]. Qed.

(** Reading goes on after a space as if a command began there. *)
Lemma read_words_space q word s ws t :
  read_words q word s = Some ws → read_words q word (s ++ 32 :: t) = (λ ws', ws ++ ws') <$> words t.
Proof.
  enough (∀ n s q word ws, (length s ≤ n)%nat → read_words q word s = Some ws →
    read_words q word (s ++ 32 :: t) = (λ ws', ws ++ ws') <$> words t) as H by eauto.
  clear. intros n. induction n as [|n IH]; intros s q word ws Hn H.
  { destruct s; [|cbn in Hn; lia]. destruct q; try done. cbn in H. injection H as <-. apply read_space. }
  destruct s as [|c s]; [destruct q; try done; cbn in H; injection H as <-; apply read_space|].
  cbn in Hn. destruct q; cbn [read_words app] in *.
  - destruct (c =? 39); [apply IH; [lia|done]|]. destruct (c =? 34); [apply IH; [lia|done]|].
    destruct (c =? 92). { destruct s as [|d s]; [done|]. apply IH; [cbn in Hn; lia|done]. }
    destruct (_ || _) eqn:Hb.
    + apply bind_Some in H as (ws1 & H1 & [= <-]). rewrite (IH s Unquoted None ws1 ltac:(lia) H1). unfold words.
      destruct (read_words Unquoted None t); [|done]. cbn. by rewrite app_assoc.
    + destruct (shell_active c); [done|]. apply IH; [lia|done].
  - destruct (c =? 39); (apply IH; [lia|done]).
  - destruct (c =? 34); [apply IH; [lia|done]|]. destruct (c =? 92).
    { destruct s as [|d s]; [done|]. cbn [app]. destruct (dq_escapable d); [apply IH|apply (IH (d :: s))]; (done || (cbn in *; lia)). }
    destruct (_ || _); [done|]. apply IH; [lia|done].
Qed.

(** ** Properties *)

Lemma join_sep sep l : l ≠ [] → join sep l ++ sep = l ≫= λ s, s ++ sep.
Proof.
  induction l as [|s l IH]; intros Hl; [done|]. rewrite bind_cons. destruct l as [|t l]; [by cbn; rewrite app_nil_r|].
  rewrite <- IH by done. cbn [join]. by rewrite !app_assoc.
Qed.

Lemma read_joined v l word :
  read_words Unquoted word (join (lit " ") (shell_quote <$> v :: l)) = Some ((default [] word ++ v) :: l).
Proof.
  revert v word. induction l as [|v' l IH]; intros v word.
  - cbn [join fmap list_fmap]. rewrite <- (app_nil_r (shell_quote v)), read_quoted. done.
  - change (join (lit " ") (shell_quote <$> v :: v' :: l))
      with (shell_quote v ++ 32 :: join (lit " ") (shell_quote <$> v' :: l)).
    rewrite read_quoted, read_space. unfold words. by rewrite IH.
Qed.

(** Quoted values separated by spaces are read back by a shell as those values, whatever
    characters they hold: nothing in a value is expanded, split or run. *)
Theorem shell_quote_words values :
  words (join (lit " ") (shell_quote <$> values)) = Some values.
Proof. destruct values as [|v l]; [done|]. apply read_joined. Qed.

(** What the two renderings of ssh's options need of the names in them. *)
Definition plain_names (opts : SshOptions) : Prop :=
  Forall (λ '(flag, _), flag ≠ [] ∧ Forall (λ c, ordinary c = true) flag) (flags opts) ∧
  Forall (λ '(key, _), key ≠ [] ∧ Forall (λ c, ordinary c = true) key) (env opts).

Lemma build_options_plain display creds helper : plain_names (build_options display creds helper).
Proof.
  unfold build_options, plain_names.
  destruct (identity_file creds), (keychain_account creds), helper, display; cbn; split; repeat constructor; done.
Qed.

Lemma read_flags l w :
  Forall (λ '(flag, _), flag ≠ [] ∧ Forall (λ c, ordinary c = true) flag) l →
  read_words Unquoted (Some w) (l ≫= λ '(flag, value), lit " " ++ flag ++ lit " " ++ shell_quote value) =
  Some (w :: (l ≫= λ '(flag, value), [flag; value])).
Proof.
  intros Hl. change (lit " ") with [32]. revert w.
  induction Hl as [|[flag value] l [Hne Hf] Hl IH]; intros w; [done|].
  rewrite !bind_cons, <- !app_assoc. cbn [app]. rewrite read_space. unfold words.
  rewrite read_plain by done. rewrite read_space. unfold words. by rewrite read_quoted, IH.
Qed.

Lemma read_env l s :
  Forall (λ '(key, _), key ≠ [] ∧ Forall (λ c, ordinary c = true) key) l →
  words ((((λ '(k, v), k ++ lit "=" ++ shell_quote v) <$> l) ≫= λ s, s ++ lit " ") ++ s) =
  (λ ws, ((λ '(k, v), k ++ lit "=" ++ v) <$> l) ++ ws) <$> words s.
Proof.
  intros Hl. change (lit " ") with [32]. change (lit "=") with [61]. cbn [app].
  induction Hl as [|[key value] l [Hne Hk] Hl IH]; [by cbn; destruct (words s)|].
  rewrite !fmap_cons, bind_cons, <- !app_assoc. unfold words at 1. rewrite read_plain by done.
  cbn [app]. rewrite read_ordinary by done. rewrite read_quoted, read_space, IH.
  destruct (words s); [|done]. cbn. by rewrite <- !app_assoc.
Qed.

Lemma read_options opts prog :
  plain_names opts → prog ≠ [] → Forall (λ c, ordinary c = true) prog →
  words (to_shell_string opts prog) =
  Some (((λ '(k, v), k ++ lit "=" ++ v) <$> env opts) ++ prog :: (flags opts ≫= λ '(flag, value), [flag; value])).
Proof.
  intros [Hf He] Hne Hprog. unfold to_shell_string.
  assert (words (prog ++ (flags opts ≫= λ '(flag, value), lit " " ++ flag ++ lit " " ++ shell_quote value)) =
          Some (prog :: (flags opts ≫= λ '(flag, value), [flag; value]))) as Hcmd.
  { unfold words. rewrite read_plain by done. by apply read_flags. }
  destruct (env opts) as [|kv l] eqn:Henv; [done|].
  rewrite join_sep by done. rewrite read_env by done. by rewrite Hcmd.
Qed.

(** C35: ssh gets the same options both ways: the text [inline_ssh] pastes into a script is read
    by a shell as the environment, the program and the arguments that [ssh_command] sets. *)
Theorem ssh_renderings_agree display creds helper prog :
  prog ≠ [] → Forall (λ c, ordinary c = true) prog →
  let opts := build_options display creds helper in
  let cmd := apply_to_command opts (command_new prog) in
  words (to_shell_string opts prog) =
  Some (((λ '(k, v), k ++ lit "=" ++ v) <$> vars cmd) ++ program cmd :: args cmd).
Proof. intros Hne Hprog. apply read_options; [apply build_options_plain|done|done]. Qed.

(** The script that [ssh] runs on the guest is the script it was given, to the letter. *)
Theorem guest_command_words script : words (guest_command script) = Some [lit "bash"; lit "-lc"; script].
Proof.
  unfold guest_command. rewrite <- (app_nil_r (shell_quote script)). unfold words.
  change (lit "bash -lc ") with (lit "bash" ++ [32] ++ lit "-lc" ++ [32]). rewrite <- !app_assoc.
  rewrite read_plain by (done || (repeat constructor)). cbn [app]. rewrite read_space. unfold words.
  rewrite (read_plain (lit "-lc")) by (done || (repeat constructor)). cbn [app]. rewrite read_space. unfold words.
  by rewrite read_quoted.
Qed.

(** *** The copy of the sources *)

(** What the shell of the guest is asked to run. *)
Definition remote_command (guest_dir : rstring) : rstring :=
  lit "mkdir -p " ++ shell_quote guest_dir ++ lit " && tar -xzf - -C " ++ shell_quote guest_dir.

(** The argument between double quotes, up to the directory. *)
Lemma read_receiver opts guest rest ws :
  plain_names opts → words (to_shell_string opts (lit "ssh")) = Some ws →
  words (to_shell_string opts (lit "ssh") ++ lit " " ++ shell_quote guest ++ lit " " ++ [34] ++ lit "mkdir -p " ++ rest) =
  (λ l, ws ++ guest :: l) <$> read_words Double (Some (lit "mkdir -p ")) rest.
Proof.
  intros Hopts Hws. change (lit " ") with [32]. cbn [app].
  unfold words. rewrite (read_words_space Unquoted None _ ws) by done. unfold words.
  rewrite read_quoted, read_space. unfold words.
  change (read_words Unquoted None (34 :: lit "mkdir -p " ++ rest))
    with (read_words Double (Some []) (lit "mkdir -p " ++ rest)).
  rewrite read_double_text by (repeat constructor). cbn [app]. by destruct (read_words Double _ rest).
Qed.

(** [sync] unpacks into the directory it was given when that name holds no character that
    is active between double quotes; with an expansion in the name, the host's shell performs
    it before the guest sees the command. *)
Theorem sync_receiver_words display creds helper guest guest_dir :
  let opts := build_options display creds helper in
  let receiver := sync_receiver (to_shell_string opts (lit "ssh")) guest guest_dir in
  let cmd := apply_to_command opts (command_new (lit "ssh")) in
  (Forall (λ c, dq_plain c = true) guest_dir →
   words receiver = Some (((λ '(k, v), k ++ lit "=" ++ v) <$> vars cmd) ++
                          lit "ssh" :: args cmd ++ [guest; remote_command guest_dir])) ∧
  (∀ before c after, guest_dir = before ++ c :: after → c = 36 ∨ c = 96 →
   Forall (λ c, dq_plain c = true) before → words receiver = None).
Proof.
  intros opts receiver cmd. pose proof (build_options_plain display creds helper) as Hopts. fold opts in Hopts.
  pose proof (read_options opts (lit "ssh") Hopts ltac:(done) ltac:(repeat constructor)) as Hws.
  unfold receiver, sync_receiver. cbv zeta.
  rewrite (read_receiver opts guest _ _ Hopts Hws). split.
  - intros Hdir. rewrite read_double_quoted, read_double_text, read_double_quoted by (done || (repeat constructor)).
    unfold cmd, remote_command. cbn. rewrite <- !app_assoc. done.
  - intros before c after -> Hc Hbefore. unfold shell_quote, replace. rewrite bind_app, bind_cons.
    assert (c =? 39 = false) as -> by (destruct Hc; lia). rewrite <- !app_assoc. cbn [app].
    rewrite read_double_plain by done.
    change (before ≫= λ d, if d =? 39 then [39; 92; 39; 39] else [d]) with (replace 39 [39; 92; 39; 39] before).
    rewrite read_double_replaced by done. by destruct Hc as [-> | ->].
Qed.

(** *** Witnesses *)

Definition sample_creds : SshCreds := mkSshCreds (Some (lit "/home/ann lee/id")) (Some (lit "remote:lab")).

Lemma ssh_renderings_agree_witness :
  words (to_shell_string (build_options true sample_creds (Some (lit "/opt/vbox"))) (lit "ssh")) =
  Some [lit "SSH_ASKPASS=/opt/vbox"; lit "SSH_ASKPASS_REQUIRE=force"; lit "VBOX_ASKPASS_ACCOUNT=remote:lab";
        lit "ssh"; lit "-i"; lit "/home/ann lee/id"; lit "-o"; lit "IdentitiesOnly=yes";
        lit "-o"; lit "PreferredAuthentications=password,keyboard-interactive,publickey";
        lit "-o"; lit "NumberOfPasswordPrompts=1"; lit "-o"; lit "PubkeyAuthentication=no"].
Proof.
  rewrite (ssh_renderings_agree true sample_creds (Some (lit "/opt/vbox")) (lit "ssh")); [done|done|].
  repeat constructor.
Defined.

Lemma sync_receiver_words_witness :
  words (sync_receiver (lit "ssh") (lit "ann@vm") (lit "/home/ann/it's")) =
    Some [lit "ssh"; lit "ann@vm"; remote_command (lit "/home/ann/it's")] ∧
  words (sync_receiver (lit "ssh") (lit "ann@vm") (lit "/tmp/$(id)")) = None.
Proof.
  pose proof (sync_receiver_words true (mkSshCreds None None) None (lit "ann@vm")) as H.
  split.
  - destruct (H (lit "/home/ann/it's")) as [H1 _]. apply H1. repeat constructor.
  - destruct (H (lit "/tmp/$(id)")) as [_ H2].
    apply (H2 (lit "/tmp/") 36 (lit "(id)")); [done|by left|repeat constructor].
Defined.
