(* ===== verification/Runtime.v ===== *)
(** * The vbox tool: contexts, instances, launchers (crates/vbox-cli/src/context.rs, runtime.rs)

    The context a command runs in, the names derived from what the user typed, the file that
    gives each instance its port, the cached list of the guest's applications, and the
    launchers built from it. The environment is a function, a file its contents; base64 and
    JSON, which decode the arguments in the cache, are a parameter. *)

From S2P Require Import Prelude Text Shell.

(** ** context.rs *)

Record GlobalOptions := mkGlobalOptions {
  opt_guest : option rstring; opt_guest_dir : option rstring; opt_instance : option rstring;
  opt_port : option Z; opt_socket : option rstring; opt_width : option Z; opt_height : option Z;
  opt_debug : bool; opt_no_build : bool
}.

Record AppContext := mkAppContext {
  root : rstring; state_dir : rstring; cli_path : rstring;
  guest : option rstring; guest_dir : option rstring;
  instance : rstring; port : Z; socket : rstring; width : Z; height : Z;
  debug : bool; build : bool
}.

(** The state of the loop of [sanitize_socket_name]: what is out, and [last_dash]. *)
Definition socket_char (s : rstring * bool) (ch : char) : rstring * bool :=
  let '(out, last_dash) := s in
  let mapped := if is_ascii_alphanumeric ch || (ch =? 95) || (ch =? 45) then ch else 45 in
  if mapped =? 45 then
    (if negb last_dash && negb (bool_decide (out = [])) then out ++ [mapped] else out, true)
  else (out ++ [mapped], false).

Definition sanitize_socket_name (value : rstring) : rstring :=
  let '(out, _) := foldl socket_char ([], false) value in
  match trim_end_matches (Z.eqb 45) out with [] => lit "default" | out => out end.

Section context.
(** [std::env::var]. *)
Context (env_var : rstring → option rstring).

Definition socket_for (instance : rstring) : rstring :=
  if bool_decide (instance = lit "default") then lit "vbox-0" else lit "vbox-" ++ sanitize_socket_name instance.

(** [AppContext::from_globals], of the repository and the executable that were found. *)
Definition from_globals (root : rstring) (current_exe : option rstring) (opts : GlobalOptions) : AppContext :=
  let or {A} (a b : option A) := match a with Some _ => a | None => b end in
  let instance := default (lit "default") (or (opt_instance opts) (env_var (lit "VBOX_INSTANCE"))) in
  mkAppContext root
    (default (path_join root (lit ".vbox")) (env_var (lit "VBOX_STATE_DIR")))
    (default (path_join root (lit "target/release/vbox")) current_exe)
    (or (opt_guest opts) (env_var (lit "VBOX_GUEST")))
    (or (opt_guest_dir opts) (env_var (lit "VBOX_GUEST_DIR")))
    instance
    (default 5710 (or (opt_port opts) (env_var (lit "VBOX_PORT") ≫= parse u16_max)))
    (default (socket_for instance) (or (opt_socket opts) (env_var (lit "VBOX_SOCKET"))))
    (default 1024 (or (opt_width opts) (env_var (lit "VBOX_WIDTH") ≫= parse u32_max)))
    (default 768 (or (opt_height opts) (env_var (lit "VBOX_HEIGHT") ≫= parse u32_max)))
    (opt_debug opts || bool_decide (env_var (lit "VBOX_DEBUG") = Some (lit "1")))
    (negb (opt_no_build opts) && negb (bool_decide (env_var (lit "VBOX_BUILD") = Some (lit "0")))).

Definition client_bin (ctx : AppContext) : rstring :=
  default (path_join (root ctx) (lit "target/release/vbox-client")) (env_var (lit "VBOX_CLIENT_BIN")).

Definition control_port : rstring := default (lit "5711") (env_var (lit "VBOX_CONTROL_PORT")).

Definition control_addr : rstring :=
  default (lit "127.0.0.1") (env_var (lit "VBOX_CONTROL_HOST")) ++ lit ":" ++ control_port.

Definition local_addr (ctx : AppContext) : rstring :=
  default (lit "127.0.0.1") (env_var (lit "VBOX_LOCAL_HOST")) ++ lit ":" ++ dec (port ctx).

(** [AppContext::guest]: an empty guest is none. *)
Definition configured_guest (ctx : AppContext) : option rstring :=
  match guest ctx with Some [] => None | g => g end.

(** ** Names *)

Definition sanitize_id (value : rstring) : rstring :=
  trim_matches (Z.eqb 45) ((λ ch, if is_ascii_alphanumeric ch then ch else 45) <$> value).

Definition name_char (ch : char) : bool :=
  is_ascii_alphanumeric ch || (ch =? 46) || (ch =? 95) || (ch =? 45).

Definition icon_char (s : rstring * bool) (ch : char) : rstring * bool :=
  let '(out, last_was_dash) := s in
  let mapped := if name_char ch then ch else 45 in
  if mapped =? 45 then (if last_was_dash then out else out ++ [45], true) else (out ++ [mapped], false).

Definition sanitize_icon_id (value : rstring) : rstring :=
  trim_end_matches (Z.eqb 45) (foldl icon_char ([], true) value).1.

Definition guest_char (s : rstring * bool) (ch : char) : rstring * bool :=
  let '(out, previous_was_underscore) := s in
  if name_char ch then (out ++ [ch], false)
  else if previous_was_underscore then (out, true) else (out ++ [95], true).

Definition sanitize_guest_id (value : rstring) : rstring :=
  (foldl guest_char ([], false) (replace 64 (lit "_at_") value)).1.

(** ** Directories *)

Definition run_dir (ctx : AppContext) : rstring := path_join (path_join (state_dir ctx) (lit "run")) (instance ctx).
Definition log_dir (ctx : AppContext) : rstring := path_join (path_join (state_dir ctx) (lit "logs")) (instance ctx).
Definition app_cache (ctx : AppContext) : rstring := path_join (state_dir ctx) (lit "app-library.tsv").

Definition machine_id (ctx : AppContext) : option rstring :=
  match guest ctx with
  | Some g => if bool_decide (trim g = []) then None else Some (sanitize_guest_id g)
  | None => None
  end.

Definition machine_dir (ctx : AppContext) : option rstring :=
  (λ id, path_join (path_join (state_dir ctx) (lit "machines")) id) <$> machine_id ctx.

Definition icon_cache_dir (ctx : AppContext) : rstring := path_join (state_dir ctx) (lit "icons").
Definition machine_icon_dir (ctx : AppContext) : option rstring :=
  (λ dir, path_join dir (lit "icons")) <$> machine_dir ctx.
Definition icon_cache_dirs (ctx : AppContext) : list rstring :=
  option_list (machine_icon_dir ctx) ++ [icon_cache_dir ctx].

(** ** The ports of the instances *)

Definition INSTANCE_PORT_OFFSET : Z := 2.
Definition INSTANCE_PORT_SPAN : Z := 2048.

Inductive port_error :=
  | Unreadable
  | Missing_port (line : nat)
  | Extra_field (line : nat)
  | Bad_port (line : nat)
  | Unwritable
  | No_port_after (base : Z)
  | No_free_port (start stop : Z).

(** What [read_to_string] finds. *)
Inductive text_file := Not_found | Read_error | Contents (text : rstring).

(** The loop over the lines, from line [idx] (counted from 0). *)
Fixpoint read_port_lines (idx : nat) (ls : list rstring) : result port_error (list (rstring * Z)) :=
  match ls with
  | [] => mret []
  | raw :: ls' =>
      let line := trim raw in
      if bool_decide (line = []) || starts_with (lit "#") line then read_port_lines (S idx) ls'
      else match split_whitespace line with
           | [] => read_port_lines (S idx) ls'
           | [_] => Err (Missing_port (S idx))
           | [instance; port] =>
               port ← ok_or (Bad_port (S idx)) (parse u16_max port);
               rest ← read_port_lines (S idx) ls';
               mret ((instance, port) :: rest)
           | _ => Err (Extra_field (S idx))
           end
  end.

Definition read_instance_ports (file : text_file) : result port_error (list (rstring * Z)) :=
  match file with
  | Not_found => mret []
  | Read_error => Err Unreadable
  | Contents text => read_port_lines 0 (lines text)
  end.

Definition port_line (entry : rstring * Z) : rstring := entry.1 ++ [9] ++ dec entry.2 ++ [10].

(** The text [write_instance_ports] writes; the rename that installs it is atomic. *)
Definition instance_ports_text (entries : list (rstring * Z)) : rstring := entries ≫= port_line.

Definition reserved_ports (ctx : AppContext) : list Z :=
  let control := default 5711 (env_var (lit "VBOX_CONTROL_PORT") ≫= parse u16_max) in
  if bool_decide (control = port ctx) then [port ctx] else [port ctx; control].

(** The loop over the candidates: the first of [n] from [raw] on that is free. *)
Fixpoint first_free (taken : list Z) (n : nat) (raw : Z) : option Z :=
  match n with
  | O => None
  | S n' => if bool_decide (raw ∈ taken) then first_free taken n' (raw + 1) else Some raw
  end.

Definition port_range (ctx : AppContext) : Z * Z :=
  let start := Z.max (port ctx + INSTANCE_PORT_OFFSET) 1024 in
  (start, Z.min (start + INSTANCE_PORT_SPAN - 1) u16_max).

(** [instance_port]: the port, and the file; [writable]: the file can be replaced. *)
Definition instance_port (ctx : AppContext) (writable : bool) (instance : rstring) (file : text_file) :
    result port_error Z * text_file :=
  if bool_decide (instance = lit "default") then (Ok (port ctx), file) else
  match read_instance_ports file with
  | Err e => (Err e, file)
  | Ok entries =>
      match find (λ e, bool_decide (e.1 = instance)) entries with
      | Some (_, port) => (Ok port, file)
      | None =>
          let '(start, stop) := port_range ctx in
          if u16_max <? start then (Err (No_port_after (port ctx)), file) else
          match first_free (reserved_ports ctx ++ entries.*2) (Z.to_nat (stop - start + 1)) start with
          | None => (Err (No_free_port start stop), file)
          | Some candidate =>
              if writable then (Ok candidate, Contents (instance_ports_text (entries ++ [(instance, candidate)])))
              else (Err Unwritable, file)
          end
      end
  end.

Definition instance_context (ctx : AppContext) (writable : bool) (instance : rstring) (file : text_file) :
    result port_error AppContext * text_file :=
  let socket := if bool_decide (instance = lit "default") then lit "vbox-0" else lit "vbox-" ++ sanitize_id instance in
  let '(port, file') := instance_port ctx writable instance file in
  ((λ port, mkAppContext (root ctx) (state_dir ctx) (cli_path ctx) (guest ctx) (guest_dir ctx) instance port socket
              (width ctx) (height ctx) (debug ctx) (build ctx)) <$> port, file').

(** ** The applications of the guest *)

Record AppRecord := mkAppRecord {
  app_id : rstring; app_name : rstring; app_exec : rstring; app_icon : rstring;
  argv_b64 : rstring; argv : list rstring
}.

Definition selected (id name : rstring) (filters : list rstring) : bool :=
  bool_decide (filters = []) ||
  existsb (λ f, let f := to_ascii_lowercase f in
                contains (to_ascii_lowercase id) f || contains (to_ascii_lowercase name) f) filters.

Definition default_app_args (args : list rstring) : list rstring :=
  match args with [] => [lit "gnome-calculator"] | _ => args end.

(** [logs]: the last 120 lines, those about input if only they are wanted. *)
Definition recent_lines (text : rstring) : list rstring := reverse (take 120 (reverse (lines text))).
Definition shown (needle : bool) (line : rstring) : bool :=
  negb needle || contains line (lit "input") || contains line (lit "ime") || contains line (lit "keyboard").

Section library.
(** base64, then a JSON list of strings. *)
Context (decode_argv_b64 : rstring → option (list rstring)).

Definition app_record (line : rstring) : option AppRecord :=
  match split 9 line with
  | id :: name :: exec :: icon :: _ :: _ :: b64 :: _ =>
      Some (mkAppRecord id name exec icon b64 (default [exec] (decode_argv_b64 b64)))
  | _ => None
  end.

(** A cache that cannot be read is empty. *)
Definition read_app_cache (file : text_file) : list AppRecord :=
  match file with Contents text => omap app_record (lines text) | _ => [] end.

Definition find_app_record (file : text_file) (query : rstring) : option AppRecord :=
  find (λ row, selected (app_id row) (app_name row) [query]) (read_app_cache file).
End library.

(** ** Launchers *)

Definition plist_escape (value : rstring) : rstring :=
  replace 62 (lit "&gt;") (replace 60 (lit "&lt;") (replace 38 (lit "&amp;") value)).

Definition launcher_dir : rstring :=
  match env_var (lit "VBOX_LAUNCHER_DIR"), env_var (lit "HOME") with
  | Some dir, _ => dir
  | None, Some home => path_join home (lit "Applications/vbox")
  | None, None => lit "Applications/vbox"
  end.

Definition launcher_display_name (name : rstring) : rstring :=
  match env_var (lit "VBOX_LAUNCHER_SUFFIX") with
  | Some (c :: s) => name ++ lit " (" ++ (c :: s) ++ lit ")"
  | _ => name
  end.

Definition safe_app_filename (value : rstring) : rstring :=
  trim (value ≫= λ c, if (c =? 47) || (c =? 58) then [45] else [c]).

Definition launcher_app_path (row : AppRecord) : rstring :=
  path_join launcher_dir (safe_app_filename (launcher_display_name (app_name row)) ++ lit ".app").

(** The names [cached_icon_path] looks for, in order. *)
Definition icon_names (row : AppRecord) : list rstring :=
  let id := sanitize_icon_id (app_id row) in
  let icon := sanitize_icon_id (app_icon row) in
  filter (λ name, name ≠ []) (if bool_decide (icon = []) || bool_decide (icon = id) then [id] else [id; icon]).

Definition cached_icon_path (is_file : rstring → bool) (ctx : AppContext) (row : AppRecord) (exts : list rstring) :
    option rstring :=
  find is_file (icon_cache_dirs ctx ≫= λ dir, icon_names row ≫= λ name,
                (λ ext, path_join dir (name ++ lit "." ++ ext)) <$> exts).

End context.

(** ** Names: what they are made of *)

Definition made_of (p : char → bool) (s : rstring) : Prop := ∀ c, c ∈ s → p c = true.

Lemma made_of_sub p s t : (∀ c, c ∈ t → c ∈ s) → made_of p s → made_of p t.
Proof. intros Hsub Hs c Hc. auto. Qed.

Lemma drop_while_sub p s c : c ∈ drop_while p s → c ∈ s.
Proof. induction s as [|d s IH]; cbn; [done|]. destruct (p d); set_solver. Qed.

Lemma trim_end_matches_sub p s c : c ∈ trim_end_matches p s → c ∈ s.
Proof. unfold trim_end_matches. rewrite elem_of_reverse. intros Hc%drop_while_sub. by rewrite elem_of_reverse in Hc. Qed.

Lemma trim_matches_sub p s c : c ∈ trim_matches p s → c ∈ s.
Proof. unfold trim_matches. intros Hc%trim_end_matches_sub. by apply drop_while_sub in Hc. Qed.

Lemma foldl_made_of {A} p (f : rstring * A → char → rstring * A) s st :
  (∀ st ch c, c ∈ (f st ch).1 → c ∈ st.1 ∨ p c = true) → made_of p st.1 → made_of p (foldl f st s).1.
Proof.
  intros Hf. revert st. induction s as [|ch s IH]; intros st Hst; [done|]. cbn. apply IH.
  intros c Hc. destruct (Hf _ _ _ Hc); auto.
Qed.

Lemma in_snoc_made p (out : rstring) c d : p d = true → c ∈ out ++ [d] → c ∈ out ∨ p c = true.
Proof. rewrite elem_of_app, list_elem_of_singleton. intros Hd [?| ->]; [by left|by right]. Qed.

(** The characters of a socket name: no dots. *)
Definition socket_name_char (c : char) : bool := is_ascii_alphanumeric c || (c =? 95) || (c =? 45).

Lemma sanitize_socket_name_made_of value : made_of socket_name_char (sanitize_socket_name value).
Proof.
  unfold sanitize_socket_name.
  assert (made_of socket_name_char (foldl socket_char ([], false) value).1) as H.
  { apply foldl_made_of; [|by intros c ?%elem_of_nil]. intros [out ld] ch c. unfold socket_char. cbn.
    change (is_ascii_alphanumeric ch || (ch =? 95) || (ch =? 45)) with (socket_name_char ch).
    destruct (socket_name_char ch) eqn:Hch.
    - destruct (ch =? 45); [destruct (negb ld && _)|]; cbn;
        (by left) || by apply (in_snoc_made socket_name_char).
    - cbn. destruct (negb ld && _); cbn; (by left) || by apply (in_snoc_made socket_name_char). }
  destruct (foldl _ _ _) as [out ld]. cbn in H. pose proof (made_of_sub _ _ _ (trim_end_matches_sub (Z.eqb 45) out) H) as Ht.
  destruct (trim_end_matches _ out); [|done]. intros c Hc. by repeat (apply elem_of_cons in Hc as [->|Hc]; [done|]); apply elem_of_nil in Hc.
Qed.

Lemma sanitize_id_made_of value : made_of (λ c, is_ascii_alphanumeric c || (c =? 45)) (sanitize_id value).
Proof.
  eapply made_of_sub; [apply trim_matches_sub|]. intros c (ch & -> & _)%list_elem_of_fmap.
  destruct (is_ascii_alphanumeric ch) eqn:H; [by rewrite H|done].
Qed.

Lemma sanitize_guest_id_made_of value : made_of name_char (sanitize_guest_id value).
Proof.
  apply foldl_made_of; [|by intros c ?%elem_of_nil]. intros [out pu] ch c. unfold guest_char. cbn.
  destruct (name_char ch) eqn:Hch; [by apply (in_snoc_made name_char)|].
  destruct pu; [by left|by apply (in_snoc_made name_char)].
Qed.

Lemma sanitize_icon_id_made_of value : made_of name_char (sanitize_icon_id value).
Proof.
  eapply made_of_sub; [apply trim_end_matches_sub|].
  apply foldl_made_of; [|by intros c ?%elem_of_nil]. intros [out ld] ch c. unfold icon_char. cbn.
  destruct (name_char ch) eqn:Hch; cbn; [destruct (ch =? 45)|]; destruct ld; cbn;
    (by left) || by apply (in_snoc_made name_char).
Qed.

Lemma safe_app_filename_chars value c : c ∈ safe_app_filename value → c ≠ 47 ∧ c ≠ 58.
Proof.
  intros (d & Hc & _)%trim_matches_sub%list_elem_of_bind.
  destruct ((d =? 47) || (d =? 58)) eqn:E; apply list_elem_of_singleton in Hc as ->; [done|].
  apply orb_false_iff in E as [?%Z.eqb_neq ?%Z.eqb_neq]. done.
Qed.

(** C36: what the four sanitizers of the tool make of any text holds letters, digits, dots,
    dashes and underscores only, no separator, no space, nothing a shell would read: the ids
    of instances and of remote machines, the names of icon files, the ids of guests, the
    names of sockets, which are not empty either. The file name of a launcher, which keeps
    spaces, holds neither a slash nor a colon, so that it is one component of a path. (An
    instance that the user names on the command line is not sanitized where it names the
    directories of its files.) *)
Theorem derived_names_safe value :
  made_of name_char (sanitize_id value) ∧ made_of name_char (sanitize_icon_id value) ∧
  made_of name_char (sanitize_guest_id value) ∧ made_of name_char (sanitize_socket_name value) ∧
  sanitize_socket_name value ≠ [] ∧ made_of (λ c, negb ((c =? 47) || (c =? 58))) (safe_app_filename value).
Proof.
  split_and!; [|apply sanitize_icon_id_made_of|apply sanitize_guest_id_made_of| | |].
  - intros c Hc%sanitize_id_made_of. unfold name_char. rewrite !orb_true_iff in *. tauto.
  - intros c Hc%sanitize_socket_name_made_of. unfold name_char, socket_name_char in *. rewrite !orb_true_iff in *. tauto.
  - unfold sanitize_socket_name. destruct (foldl _ _ _) as [out ld]. by destruct (trim_end_matches _ out).
  - intros c [?%Z.eqb_neq ?%Z.eqb_neq]%safe_app_filename_chars. apply negb_true_iff, orb_false_iff. done.
Qed.

(** An id without an ASCII letter or digit leaves nothing. *)
Lemma sanitize_id_empty value : plain is_ascii_alphanumeric value → sanitize_id value = [].
Proof.
  intros Hv. unfold sanitize_id, trim_matches, trim_end_matches.
  assert (drop_while (Z.eqb 45) ((λ ch, if is_ascii_alphanumeric ch then ch else 45) <$> value) = []) as ->; [|done].
  induction value as [|c v IH]; [done|]. apply plain_cons in Hv as [Hc Hv]. rewrite fmap_cons, Hc. cbn. auto.
Qed.

(** ** The file of ports *)

Definition plain_instance (name : rstring) : Prop :=
  name ≠ [] ∧ plain is_whitespace name ∧ head name ≠ Some 35.

Definition entry_ok (e : rstring * Z) : Prop := plain_instance e.1 ∧ is_u16 e.2.

Lemma not_ws_10 s : plain is_whitespace s → 10 ∉ s.
Proof. intros Hs Hin. by specialize (Hs 10 Hin). Qed.

Lemma trim_port_line name p :
  match name with c :: _ => is_whitespace c = false | [] => True end → is_u16 p →
  name ≠ [] → trim (name ++ [9] ++ dec p) = name ++ [9] ++ dec p.
Proof.
  intros Hname Hp Hne. destruct (dec_nonneg p) as [Hd Hdne]; [unfold is_u16 in Hp; lia|].
  apply trim_matches_id; [by destruct name|].
  rewrite !reverse_app. destruct (reverse (dec p)) as [|c r] eqn:Hr.
  { apply (f_equal reverse) in Hr. rewrite reverse_involutive in Hr. done. }
  cbn. apply (digits_plain (dec p) Hd). rewrite <- elem_of_reverse, Hr. set_solver.
Qed.

Lemma read_port_line idx e ls :
  entry_ok e →
  read_port_lines idx ((e.1 ++ [9] ++ dec e.2) :: ls) = (rest ← read_port_lines (S idx) ls; mret (e :: rest)).
Proof.
  destruct e as [name p]. intros [(Hne & Hws & Hhash) Hp]. cbn [fst snd] in *.
  destruct (dec_nonneg p) as [Hd Hdne]; [unfold is_u16 in Hp; lia|].
  cbn [read_port_lines]. rewrite trim_port_line; [|destruct name; [done|]; by apply plain_cons in Hws as [? _]|done|done].
  rewrite bool_decide_false by (by destruct name). cbn [orb].
  assert (starts_with (lit "#") (name ++ [9] ++ dec p) = false) as ->.
  { unfold starts_with. apply bool_decide_eq_false. intros [k Hk]. destruct name as [|c name]; [done|].
    cbn in Hk. injection Hk as -> _. by apply Hhash. }
  cbn [app]. rewrite split_whitespace_word by done.
  rewrite split_whitespace_last by (try apply digits_plain; done). rewrite parse_dec by done. done.
Qed.

(** The line without the name: what an empty instance leaves in the file. *)
Lemma read_nameless_line idx p ls :
  is_u16 p → read_port_lines idx (([9] ++ dec p) :: ls) = Err (Missing_port (S idx)).
Proof.
  intros Hp. destruct (dec_nonneg p) as [Hd Hdne]; [unfold is_u16 in Hp; lia|].
  cbn [read_port_lines].
  assert (trim ([9] ++ dec p) = dec p) as ->.
  { change (trim ([9] ++ dec p)) with (trim (dec p)). apply trim_matches_id.
    - destruct (dec p) as [|c s] eqn:E; [done|]. by apply (digits_plain _ Hd); set_solver.
    - destruct (reverse (dec p)) as [|c s] eqn:E; [done|]. apply (digits_plain _ Hd).
      rewrite <- elem_of_reverse, E. set_solver. }
  rewrite bool_decide_false by done. cbn [orb].
  assert (starts_with (lit "#") (dec p) = false) as ->.
  { unfold starts_with. apply bool_decide_eq_false. intros [k Hk]. assert (35 ∈ dec p) as H35%Hd by (rewrite Hk; set_solver). lia. }
  by rewrite split_whitespace_last by (try apply digits_plain; done).
Qed.

Lemma lines_port_line e rest :
  10 ∉ e.1 → is_u16 e.2 → lines (port_line e ++ rest) = (e.1 ++ [9] ++ dec e.2) :: lines rest.
Proof.
  intros Hname Hp. destruct (dec_nonneg e.2) as [Hd Hdne]; [unfold is_u16 in Hp; lia|].
  unfold port_line. replace ((e.1 ++ [9] ++ dec e.2 ++ [10]) ++ rest) with ((e.1 ++ [9] ++ dec e.2) ++ 10 :: rest)
    by by rewrite <- !app_assoc.
  apply lines_cons.
  - rewrite !not_elem_of_app. split_and!; [done|set_solver|]. intros H10%Hd. lia.
  - rewrite !last_app. destruct (last (dec e.2)) as [c|] eqn:Hl; [|by apply last_None in Hl].
    intros [= ->]. apply last_Some_elem_of in Hl. apply Hd in Hl. lia.
Qed.

Lemma read_ports_text idx entries rest :
  Forall entry_ok entries →
  read_port_lines idx (lines (instance_ports_text entries ++ rest)) =
  (es ← read_port_lines (idx + length entries) (lines rest); mret (entries ++ es)).
Proof.
  intros Hok. revert idx. induction Hok as [|e es He Hes IH]; intros idx.
  { cbn [instance_ports_text mbind list_bind app length]. rewrite Nat.add_0_r. by destruct (read_port_lines _ _). }
  unfold instance_ports_text in *. rewrite bind_cons, <- app_assoc.
  destruct He as [(? & Hws & ?) Hp]. rewrite lines_port_line by (try apply not_ws_10; done).
  rewrite read_port_line by done. rewrite IH. cbn [length]. rewrite Nat.add_succ_comm.
  by destruct (read_port_lines _ _).
Qed.

Lemma read_ports_back entries :
  Forall entry_ok entries → read_instance_ports (Contents (instance_ports_text entries)) = Ok entries.
Proof.
  intros Hok. cbn. rewrite <- (app_nil_r (instance_ports_text entries)), read_ports_text by done. cbn.
  by rewrite app_nil_r.
Qed.

(** The file of ports gives back what was written to it, for instances whose names hold no
    space and do not begin like a comment. *)
Theorem instance_ports_roundtrip entries :
  Forall entry_ok entries → read_instance_ports (Contents (instance_ports_text entries)) = Ok entries.
Proof. apply read_ports_back. Qed.

Lemma first_free_Some taken n raw p :
  first_free taken n raw = Some p ↔
  raw ≤ p < raw + Z.of_nat n ∧ p ∉ taken ∧ ∀ q, raw ≤ q < p → q ∈ taken.
Proof.
  revert raw. induction n as [|n IH]; intros raw; cbn [first_free].
  { split; [done|]. lia. }
  case_bool_decide as Hin.
  - rewrite IH. split; intros (H1 & H2 & H3).
    + split; [lia|split; [done|]]. intros q Hq. destruct (decide (q = raw)) as [->|]; [done|]. apply H3. lia.
    + assert (p ≠ raw) by by intros ->. split; [lia|split; [done|]]. intros q Hq. apply H3. lia.
  - split; [intros [= <-]; split; [lia|split; [done|lia]]|]. intros (H1 & H2 & H3).
    destruct (decide (p = raw)) as [->|]; [done|]. exfalso. apply Hin, H3. lia.
Qed.

Lemma first_free_None taken n raw :
  first_free taken n raw = None ↔ ∀ q, raw ≤ q < raw + Z.of_nat n → q ∈ taken.
Proof.
  revert raw. induction n as [|n IH]; intros raw; cbn [first_free]; [split; [lia|done]|].
  case_bool_decide as Hin.
  - rewrite IH. split; intros H q Hq; [|apply H; lia].
    destruct (decide (q = raw)) as [->|]; [done|]. apply H. lia.
  - split; [done|]. intros H. exfalso. apply Hin, H. lia.
Qed.

Section ports.
Context (env_var : rstring → option rstring) (ctx : AppContext).

(** The ports an instance may get. *)
Definition eligible (p : Z) : Prop :=
  (port_range ctx).1 ≤ p ≤ (port_range ctx).2 ∧ p ∉ reserved_ports env_var ctx.

(** The file between two commands. *)
Record Ports_ok (file : text_file) (entries : list (rstring * Z)) : Prop := {
  po_read : read_instance_ports file = Ok entries;
  po_entries : Forall entry_ok entries;
  po_names : NoDup entries.*1;
  po_ports : NoDup entries.*2;
  po_eligible : Forall eligible entries.*2
}.

Lemma eligible_u16 p : is_u16 (port ctx) → eligible p → is_u16 p.
Proof. unfold is_u16, eligible, port_range. cbn. lia. Qed.

Lemma find_entry_None (entries : list (rstring * Z)) instance :
  find (λ e, bool_decide (e.1 = instance)) entries = None → instance ∉ entries.*1.
Proof.
  intros Hf Hin. apply list_elem_of_fmap in Hin as ([n p] & -> & Hin). cbn in Hf.
  apply list_elem_of_In, (find_none _ _ Hf) in Hin. cbn in Hin. by rewrite bool_decide_true in Hin.
Qed.

(** A call: an instance of the file keeps its port; a new one gets the least port that is
    eligible and free, and is added; if there is none the call fails and the file stays. *)
Lemma instance_port_spec file entries instance :
  Ports_ok file entries → instance ≠ lit "default" →
  match find (λ e, bool_decide (e.1 = instance)) entries with
  | Some (_, p) => instance_port env_var ctx true instance file = (Ok p, file) ∧ (instance, p) ∈ entries
  | None =>
      instance ∉ entries.*1 ∧
      ((∃ p, eligible p ∧ p ∉ entries.*2 ∧ (∀ q, eligible q → q < p → q ∈ entries.*2) ∧
             instance_port env_var ctx true instance file =
               (Ok p, Contents (instance_ports_text (entries ++ [(instance, p)])))) ∨
       (∀ p, eligible p → p ∈ entries.*2) ∧ ∃ e, instance_port env_var ctx true instance file = (Err e, file))
  end.
Proof.
  intros [Hread _ _ _ _] Hdef. unfold instance_port. rewrite bool_decide_false, Hread by done.
  destruct (find _ entries) as [[n p]|] eqn:Hfind.
  { split; [done|]. apply find_some in Hfind as [Hin Hn]. apply bool_decide_eq_true in Hn. cbn in Hn. subst n.
    by apply list_elem_of_In. }
  split; [by apply find_entry_None|]. destruct (port_range ctx) as [start stop] eqn:Hrange.
  assert (∀ p, eligible p ↔ start ≤ p ≤ stop ∧ p ∉ reserved_ports env_var ctx) as Hel by by intros; unfold eligible; rewrite Hrange.
  destruct (Z.ltb_spec u16_max start) as [Hbig|Hsmall].
  { right. split; [|by eexists]. intros p [Hp _]%Hel. unfold port_range in Hrange. injection Hrange as <- <-. lia. }
  destruct (first_free _ _ start) as [p|] eqn:Hfree.
  - left. apply first_free_Some in Hfree as (Hp & Hnot & Hleast). rewrite not_elem_of_app in Hnot.
    exists p. split_and!; [apply Hel; split; [lia|tauto]|tauto| |done].
    intros q [Hq Hres]%Hel Hlt. specialize (Hleast q ltac:(lia)). rewrite elem_of_app in Hleast. tauto.
  - right. split; [|by eexists]. intros p [Hp Hres]%Hel.
    assert (p ∈ reserved_ports env_var ctx ++ entries.*2) as Hin.
    { apply (proj1 (first_free_None _ _ _) Hfree). lia. }
    rewrite elem_of_app in Hin. tauto.
Qed.

Lemma instance_port_ok file entries instance :
  is_u16 (port ctx) → Ports_ok file entries → plain_instance instance → instance ≠ lit "default" →
  let '(r, file') := instance_port env_var ctx true instance file in
  ∃ entries', Ports_ok file' entries' ∧ entries `prefix_of` entries' ∧ ∀ p, r = Ok p → (instance, p) ∈ entries'.
Proof.
  intros Hctx Hok Hname Hdef. pose proof (instance_port_spec file entries instance Hok Hdef) as Hspec.
  destruct (find _ entries) as [[n p]|].
  { destruct Hspec as [-> Hin]. exists entries. split_and!; [done|done|]. by intros ? [= <-]. }
  destruct Hspec as [Hnew [(p & Hel & Hfree & _ & ->)|[_ [e ->]]]].
  2: { exists entries. by split_and!. }
  exists (entries ++ [(instance, p)]). destruct Hok as [Hread Hents Hnames Hports Helig].
  assert (Forall entry_ok (entries ++ [(instance, p)])) as Hents'.
  { apply Forall_app. split; [done|]. constructor; [|done]. split; [done|]. by apply eligible_u16. }
  split_and!.
  - split; [by apply read_ports_back|done| | |]; rewrite fmap_app; cbn.
    + apply NoDup_app. split_and!; [done|set_solver|apply NoDup_singleton].
    + apply NoDup_app. split_and!; [done|set_solver|apply NoDup_singleton].
    + apply Forall_app. split; [done|by constructor].
  - by eexists.
  - intros ? [= <-]. set_solver.
Qed.

(** The commands of a session, one instance each, on the same file. *)
Fixpoint instance_ports (names : list rstring) (file : text_file) : list (result port_error Z) * text_file :=
  match names with
  | [] => ([], file)
  | name :: names' =>
      let '(r, file') := instance_port env_var ctx true name file in
      let '(rs, file'') := instance_ports names' file' in (r :: rs, file'')
  end.

Lemma instance_ports_ok names file entries :
  is_u16 (port ctx) → Ports_ok file entries → Forall (λ n, plain_instance n ∧ n ≠ lit "default") names →
  let '(rs, file') := instance_ports names file in
  ∃ entries', Ports_ok file' entries' ∧ entries `prefix_of` entries' ∧
    ∀ i n p, names !! i = Some n → rs !! i = Some (Ok p) → (n, p) ∈ entries'.
Proof.
  intros Hctx Hok Hnames. revert file entries Hok. induction Hnames as [|n names [Hn Hd] Hnames IH]; intros file entries Hok.
  { exists entries. split_and!; [done|done|]. by intros ? ? ? ?. }
  cbn. pose proof (instance_port_ok file entries n Hctx Hok Hn Hd) as Hstep.
  destruct (instance_port _ _ _ n file) as [r file1]. destruct Hstep as (es1 & Hok1 & Hpre1 & Hr).
  specialize (IH file1 es1 Hok1). destruct (instance_ports names file1) as [rs file2].
  destruct IH as (es2 & Hok2 & Hpre2 & Hrs). exists es2. split_and!; [done|by etrans|].
  intros [|i] m p Hm Hp; cbn in *; [|by eapply Hrs]. simplify_eq.
  destruct Hpre2 as [k ->]. apply elem_of_app. left. by apply Hr.
Qed.

Lemma no_ports_ok : Ports_ok Not_found [].
Proof. split; [done|constructor|constructor|constructor|constructor]. Qed.

(** C34: the ports of instances whose names are not empty, hold no white space and do not
    begin with a hash sign, from a file of ports that does not exist yet, one lookup at a
    time. Whatever such instances but the default one are opened, in whatever order and
    however often, an instance always gets the same port, two instances never share one, and
    none gets the port of the control daemon or the default one. The tool does not check the
    names: an instance without one, which an application whose id has no ASCII letter or
    digit is given, spoils the file for all later lookups ([nameless_instance_locks_out]). *)
Theorem instance_ports_stable names i j m n p q :
  is_u16 (port ctx) → Forall (λ n, plain_instance n ∧ n ≠ lit "default") names →
  let rs := (instance_ports names Not_found).1 in
  names !! i = Some m → names !! j = Some n → rs !! i = Some (Ok p) → rs !! j = Some (Ok q) →
  (m = n ↔ p = q) ∧ eligible p.
Proof.
  intros Hctx Hnames rs Hm Hn Hp Hq.
  pose proof (instance_ports_ok names Not_found [] Hctx no_ports_ok Hnames) as H. subst rs.
  destruct (instance_ports names Not_found) as [rs file]. destruct H as (es & [_ _ Hnd1 Hnd2 Hel] & _ & Hrs).
  cbn in *. pose proof (Hrs _ _ _ Hm Hp) as [a Ha]%list_elem_of_lookup.
  pose proof (Hrs _ _ _ Hn Hq) as [b Hb]%list_elem_of_lookup.
  assert (∀ k (e : rstring * Z), es !! k = Some e → es.*1 !! k = Some e.1 ∧ es.*2 !! k = Some e.2) as Hproj.
  { intros k e Hk. by rewrite !list_lookup_fmap, Hk. }
  destruct (Hproj _ _ Ha) as [Ha1 Ha2], (Hproj _ _ Hb) as [Hb1 Hb2]. cbn in *. split.
  - split; intros ->.
    + rewrite (NoDup_lookup _ _ _ _ Hnd1 Ha1 Hb1) in Ha. by simplify_eq.
    + rewrite (NoDup_lookup _ _ _ _ Hnd2 Ha2 Hb2) in Ha. by simplify_eq.
  - rewrite Forall_forall in Hel. apply Hel, list_elem_of_lookup. eauto.
Qed.

(** A launcher for an application whose id has no ASCII letter or digit asks for an
    instance without a name. It gets a port, and the file it leaves cannot be read any more:
    from then on every instance but the default one is refused. *)
Theorem nameless_instance_locks_out file entries id p file' name :
  is_u16 (port ctx) → Ports_ok file entries → plain is_ascii_alphanumeric id →
  instance_port env_var ctx true (sanitize_id id) file = (Ok p, file') →
  name ≠ lit "default" →
  instance_port env_var ctx true name file' = (Err (Missing_port (S (length entries))), file').
Proof.
  intros Hctx Hok Hid Hcall Hdef. rewrite sanitize_id_empty in Hcall by done.
  pose proof (instance_port_spec file entries [] Hok ltac:(done)) as Hspec.
  destruct (find _ entries) as [[n q]|].
  { destruct Hspec as [_ Hin]. destruct Hok as [_ Hents _ _ _]. rewrite Forall_forall in Hents.
    by destruct (Hents _ Hin) as [[? _] _]. }
  destruct Hspec as [_ [(q & Hel & _ & _ & Heq)|[_ [e Heq]]]]; rewrite Heq in Hcall; [|done].
  injection Hcall as <- <-. unfold instance_port. rewrite bool_decide_false by done.
  cbn [read_instance_ports]. unfold instance_ports_text. rewrite bind_app. fold (instance_ports_text entries).
  rewrite read_ports_text by apply Hok. cbn [mbind list_bind app].
  rewrite lines_port_line by (apply not_elem_of_nil || by apply eligible_u16). cbn [fst snd app].
  change (9 :: dec q) with ([9] ++ dec q).
  by rewrite read_nameless_line by by apply eligible_u16.
Qed.
End ports.

(** ** Launchers and lists *)

(** What a reader of XML makes of the text of an element; [None]: the element ends, or holds
    another one. *)
Fixpoint xml_text (s : rstring) : option rstring :=
  match s with
  | [] => Some []
  | c :: s' =>
      if c =? 38 then
        match s' with
        | 97 :: 109 :: 112 :: 59 :: s'' => cons 38 <$> xml_text s''
        | 108 :: 116 :: 59 :: s'' => cons 60 <$> xml_text s''
        | 103 :: 116 :: 59 :: s'' => cons 62 <$> xml_text s''
        | _ => None
        end
      else if (c =? 60) || (c =? 62) then None
      else cons c <$> xml_text s'
  end.

Definition plist_escape_char (c : char) : rstring :=
  if c =? 38 then lit "&amp;" else if c =? 60 then lit "&lt;" else if c =? 62 then lit "&gt;" else [c].

Lemma replace_app c by_ s t : replace c by_ (s ++ t) = replace c by_ s ++ replace c by_ t.
Proof. apply bind_app. Qed.

Lemma plist_escape_bind value : plist_escape value = value ≫= plist_escape_char.
Proof.
  unfold plist_escape. induction value as [|c v IH]; [done|]. change (c :: v) with ([c] ++ v).
  rewrite !replace_app, bind_app, IH. f_equal. rewrite bind_singleton. unfold replace, plist_escape_char. rewrite bind_singleton.
  destruct (Z.eqb_spec c 38) as [->|]; [done|]. rewrite bind_singleton. destruct (Z.eqb_spec c 60) as [->|]; [done|].
  rewrite bind_singleton. by destruct (Z.eqb_spec c 62) as [->|].
Qed.

(** An escaped value is the text of one element, and reads back as the value: the name of
    an application cannot add to the property list of its launcher. *)
Theorem plist_escape_text value : xml_text (plist_escape value) = Some value.
Proof.
  rewrite plist_escape_bind. induction value as [|c v IH]; [done|]. rewrite bind_cons.
  revert IH. generalize (v ≫= plist_escape_char). intros r IH. unfold plist_escape_char.
  destruct (c =? 38) eqn:H38; [apply Z.eqb_eq in H38 as ->; cbn; by rewrite IH|].
  destruct (c =? 60) eqn:H60; [apply Z.eqb_eq in H60 as ->; cbn; by rewrite IH|].
  destruct (c =? 62) eqn:H62; [apply Z.eqb_eq in H62 as ->; cbn; by rewrite IH|].
  cbn [app xml_text]. by rewrite H38, H60, H62, IH.
Qed.

(** A launcher lies directly in the directory of the launchers. *)
Lemma launcher_in_dir env_var row :
  ∃ file, 47 ∉ file ∧ launcher_app_path env_var row = path_join (launcher_dir env_var) file.
Proof.
  eexists. split; [|done]. rewrite not_elem_of_app. split; [|set_solver].
  intros Hin%trim_matches_sub. apply list_elem_of_bind in Hin as (c & Hc & _).
  destruct (Z.eqb_spec c 47); [set_solver|]. cbn in Hc. destruct (c =? 58); set_solver.
Qed.

Lemma recent_lines_spec text : recent_lines text = drop (length (lines text) - 120) (lines text).
Proof.
  unfold recent_lines. rewrite take_reverse, reverse_involutive. done.
Qed.

(** *** Witnesses *)

Definition no_env : rstring → option rstring := λ _, None.

Definition sample_context : AppContext :=
  mkAppContext (lit "/src/vbox") (lit "/src/vbox/.vbox") (lit "/src/vbox/target/release/vbox") (Some (lit "ann@vm"))
    (Some (lit "/home/ann/vbox")) (lit "default") 5710 (lit "vbox-0") 1024 768 false true.

Lemma plain_instance_lit name :
  bool_decide (name ≠ []) && forallb (λ c, negb (is_whitespace c)) name && bool_decide (head name ≠ Some 35) = true →
  plain_instance name.
Proof.
  rewrite !andb_true_iff, !bool_decide_eq_true, forallb_forall. intros [[Hne Hws] Hhead]. split_and!; [done| |done].
  intros c Hc%list_elem_of_In. by apply negb_true_iff, Hws.
Qed.

Lemma instance_ports_roundtrip_witness :
  read_instance_ports (Contents (instance_ports_text [(lit "files", 5713); (lit "maps", 5714)])) =
  Ok [(lit "files", 5713); (lit "maps", 5714)].
Proof. apply instance_ports_roundtrip. repeat constructor; try (apply plain_instance_lit); done. Defined.

Lemma instance_ports_stable_witness :
  (instance_ports no_env sample_context [lit "files"; lit "maps"; lit "files"] Not_found).1 = [Ok 5712; Ok 5713; Ok 5712] ∧
  (lit "files" = lit "maps" ↔ (5712 : Z) = 5713).
Proof.
  split; [by vm_compute|].
  eapply (instance_ports_stable no_env sample_context [lit "files"; lit "maps"; lit "files"] 0 1);
    [done| |by vm_compute..].
  repeat constructor; try (apply plain_instance_lit); done.
Defined.

(** The id of an application named in Korean. *)
Lemma nameless_instance_locks_out_witness :
  let file := (instance_port no_env sample_context true (sanitize_id [0xACC4; 0xC0B0; 0xAE30]) Not_found).2 in
  instance_port no_env sample_context true (lit "files") file = (Err (Missing_port 1), file).
Proof.
  apply (nameless_instance_locks_out no_env sample_context Not_found [] [0xACC4; 0xC0B0; 0xAE30] 5712);
    [done|apply no_ports_ok| |by vm_compute|done].
  intros c Hc. repeat (apply elem_of_cons in Hc as [->|Hc]; [done|]). by apply elem_of_nil in Hc.
Defined.
