(* ===== verification/Files.v ===== *)
(** * Files

    What the code uses of [std::fs], for the components that keep files of their own: named
    nodes, operations that may also fail for reasons outside the program, and writes that may
    be torn. Paths are names; links are followed at the end of a path only, which is where
    the code puts its own. *)

From S2P Require Import Prelude Text.

(** ** The store *)

Inductive node := Dir | File (content : rstring) (mode : Z) | Symlink (target : rstring).

#[export] Instance node_eq_dec : EqDecision node.
Proof. solve_decision. Defined.

(** How the next operation fares: it works, fails without effect, or, when it writes, fails
    after that many characters. *)
Inductive fault := Fine | Fails | Torn (n : nat).

Record files := mkFiles {
  nodes : gmap rstring node;
  fresh_mode : Z;               (* of a new file *)
  faults : list fault           (* used up, they are [Fine] *)
}.

(** [anyhow::Error]: a chain of messages, outermost first. *)
Abbreviation chain := (list rstring) (only parsing).

Definition io (A : Type) : Type := files → result chain A * files.

#[export] Instance io_ret : MRet io := λ A a s, (Ok a, s).
#[export] Instance io_bind : MBind io := λ A B f m s,
  match m s with (Ok a, s') => f a s' | (Err e, s') => (Err e, s') end.

Definition bail {A} (msg : rstring) : io A := λ s, (Err [msg], s).
Definition lift {A} (r : result chain A) : io A := λ s, (r, s).
Definition look {A} (f : files → A) : io A := λ s, (Ok (f s), s).

(** [with_context]. *)
Definition context {A} (msg : rstring) (m : io A) : io A := λ s,
  match m s with (Err e, s') => (Err (msg :: e), s') | r => r end.

Definition os_error : chain := [lit "os error"].

(** The fault of this operation. *)
Definition fault_of (s : files) : fault := default Fine (head (faults s)).

Definition next_fault : io fault := λ s,
  (Ok (fault_of s), mkFiles (nodes s) (fresh_mode s) (tail (faults s))).

Definition fail_io {A} : io A := λ s, (Err os_error, s).

Definition put (path : rstring) (n : node) : io unit := λ s,
  (Ok tt, mkFiles (<[path := n]> (nodes s)) (fresh_mode s) (faults s)).

Definition drop_node (path : rstring) : io unit := λ s,
  (Ok tt, mkFiles (delete path (nodes s)) (fresh_mode s) (faults s)).

(** ** Links *)

(** The directory of a path, [.] when it has none. *)
Definition dir_of (path : rstring) : rstring :=
  match drop_while (λ c, negb (c =? 47)) (reverse path) with
  | [] => []
  | [_] => [47]
  | _ :: rest => reverse rest
  end.

(** Where a path leads, through at most [n] links; there may be nothing there. *)
Fixpoint follow (n : nat) (ns : gmap rstring node) (path : rstring) : option rstring :=
  match n with
  | O => None
  | S n' =>
      match ns !! path with
      | Some (Symlink target) => follow n' ns (path_join (dir_of path) target)
      | _ => Some path
      end
  end.

(** The limit of the kernel. *)
Definition leads_to (ns : gmap rstring node) (path : rstring) : option rstring := follow 41 ns path.

(** ** Operations *)

(** [canonicalize], [Path::exists], [Path::is_file] and whether [symlink_metadata] answers. *)
Definition canonicalize (path : rstring) (s : files) : option rstring :=
  p ← leads_to (nodes s) path; _ ← nodes s !! p; Some p.
Definition exists_ (path : rstring) (s : files) : bool := bool_decide (is_Some (canonicalize path s)).
Definition is_file (path : rstring) (s : files) : bool :=
  match canonicalize path s ≫= λ p, nodes s !! p with Some (File _ _) => true | _ => false end.
Definition symlink_metadata (path : rstring) (s : files) : option node := nodes s !! path.

Definition read_to_string (path : rstring) : io rstring :=
  f ← next_fault;
  match f with
  | Fine => s ← look (λ s, canonicalize path s ≫= λ p, nodes s !! p);
            match s with Some (File content _) => mret content | _ => fail_io end
  | _ => fail_io
  end.

(** [fs::write]: an existing file keeps its mode. *)
Definition write (path content : rstring) : io unit :=
  f ← next_fault;
  s ← look (λ s, (leads_to (nodes s) path, nodes s, fresh_mode s));
  match s with
  | (None, _, _) => fail_io
  | (Some p, ns, fresh) =>
      match ns !! p with
      | Some Dir | Some (Symlink _) => fail_io
      | n =>
          let mode := match n with Some (File _ mode) => mode | _ => fresh end in
          match f with
          | Fine => put p (File content mode)
          | Fails => fail_io
          | Torn k => put p (File (take k content) mode);; fail_io
          end
      end
  end.

Definition set_mode (path : rstring) (mode : Z) : io unit :=
  f ← next_fault;
  s ← look (λ s, (canonicalize path s, nodes s));
  match f, s with
  | Fine, (Some p, ns) =>
      match ns !! p with
      | Some (File content _) => put p (File content mode)
      | Some Dir => mret tt
      | _ => fail_io
      end
  | _, _ => fail_io
  end.

(** [fs::metadata]. *)
Definition metadata (path : rstring) : io unit :=
  f ← next_fault;
  found ← look (exists_ path);
  match f with Fine => if found : bool then mret tt else fail_io | _ => fail_io end.

Definition create_dir_all (path : rstring) : io unit :=
  f ← next_fault;
  s ← look (λ s, (canonicalize path s, nodes s));
  match f, s with
  | Fine, (None, ns) => match ns !! path with None => put path Dir | Some _ => fail_io end
  | Fine, (Some p, ns) => match ns !! p with Some Dir => mret tt | _ => fail_io end
  | _, _ => fail_io
  end.

(** The last component is not followed. *)
Definition remove_file (path : rstring) : io unit :=
  f ← next_fault;
  n ← look (symlink_metadata path);
  match f, n with
  | Fine, Some (File _ _) | Fine, Some (Symlink _) => drop_node path
  | _, _ => fail_io
  end.

Definition symlink (target path : rstring) : io unit :=
  f ← next_fault;
  n ← look (symlink_metadata path);
  match f, n with
  | Fine, None => put path (Symlink target)
  | _, _ => fail_io
  end.

(** [fs::copy]: the mode comes along. *)
Definition copy (src dst : rstring) : io unit :=
  f ← next_fault;
  s ← look (λ s, (canonicalize src s ≫= λ p, nodes s !! p, leads_to (nodes s) dst, nodes s));
  match s with
  | (Some (File content mode), Some p, ns) =>
      match ns !! p with
      | Some Dir | Some (Symlink _) => fail_io
      | _ =>
          match f with
          | Fine => put p (File content mode)
          | Fails => fail_io
          | Torn k => put p (File (take k content) mode);; fail_io
          end
      end
  | _ => fail_io
  end.

(** [fs::rename] of a file, over what is there. *)
Definition rename (src dst : rstring) : io unit :=
  f ← next_fault;
  s ← look (λ s, (nodes s !! src, nodes s !! dst));
  match f, s with
  | Fine, (Some (File content mode), None) | Fine, (Some (File content mode), Some (File _ _))
  | Fine, (Some (File content mode), Some (Symlink _)) => drop_node src;; put dst (File content mode)
  | _, _ => fail_io
  end.

(** What a path is put before to name what is below it; [path_join] of a relative name. *)
Definition dir_prefix (base : rstring) : rstring :=
  if bool_decide (base = [] ∨ last base = Some 47) then base else base ++ [47].

(** A removal that fails half-way leaves the directory. *)
Definition remove_dir_all (path : rstring) : io unit := λ s,
  let s1 := mkFiles (nodes s) (fresh_mode s) (tail (faults s)) in
  let below := filter (λ kv, ¬ dir_prefix path `prefix_of` kv.1) (nodes s) in
  match fault_of s, nodes s !! path with
  | Fine, Some Dir => (Ok tt, mkFiles (delete path below) (fresh_mode s) (tail (faults s)))
  | Torn _, Some Dir => (Err os_error, mkFiles below (fresh_mode s) (tail (faults s)))
  | _, _ => (Err os_error, s1)
  end.

(** A step whose failure does not end the program: [ok()], [is_ok()], [let _ =]. *)
Definition attempt {A} (m : io A) : io (option A) := λ s,
  let '(r, s') := m s in (Ok (match r with Ok a => Some a | Err _ => None end), s').
Definition succeeds {A} (m : io A) : io bool := r ← attempt m; mret (bool_decide (is_Some r)).
Definition ignore {A} (m : io A) : io unit := attempt m;; mret tt.

(** ** What the operations change *)

Lemma io_bind_ok {A B} (m : io A) (f : A → io B) s b s' :
  (m ≫= f) s = (Ok b, s') ↔ ∃ a s1, m s = (Ok a, s1) ∧ f a s1 = (Ok b, s').
Proof.
  unfold mbind, io_bind. destruct (m s) as [[a|e] s1]; split; [by eauto| |done|].
  - by intros (a' & s1' & [= <- <-] & ?).
  - by intros (a' & s1' & ? & ?).
Qed.

Lemma bind_snd {A B} (m : io A) (f : A → io B) s :
  ((m ≫= f) s).2 = match (m s).1 with Ok a => (f a (m s).2).2 | Err _ => (m s).2 end.
Proof. unfold mbind, io_bind. by destruct (m s) as [[] ?]. Qed.

Lemma context_ok {A} msg (m : io A) s a s' : context msg m s = (Ok a, s') ↔ m s = (Ok a, s').
Proof. unfold context. destruct (m s) as [[] ?]; naive_solver. Qed.

Definition no_links (s : files) : Prop := ∀ p t, nodes s !! p ≠ Some (Symlink t).

(** However [m] ends, it makes no link and changes nothing but the paths of [P]. *)
Definition only (P : rstring → Prop) {A} (m : io A) : Prop := ∀ s, no_links s →
  no_links (m s).2 ∧ ∀ q, ¬ P q → nodes (m s).2 !! q = nodes s !! q.

Lemma only_weaken (P Q : rstring → Prop) {A} (m : io A) : (∀ q, P q → Q q) → only P m → only Q m.
Proof. intros HPQ Hm s Hs. destruct (Hm s Hs) as [H1 H2]. split; [done|]. naive_solver. Qed.

Lemma only_bind P {A B} (m : io A) (f : A → io B) : only P m → (∀ a, only P (f a)) → only P (m ≫= f).
Proof.
  intros Hm Hf s Hs. destruct (Hm s Hs) as [H1 H2]. unfold mbind, io_bind. destruct (m s) as [[a|e] s1]; [|done].
  destruct (Hf a s1 H1) as [H3 H4]. split; [done|]. intros q Hq. by rewrite H4, H2.
Qed.

Lemma only_state P {A} (m : io A) : (∀ s, nodes (m s).2 = nodes s) → only P m.
Proof. intros H s Hs. unfold no_links. rewrite H. done. Qed.

Lemma only_ret P {A} (a : A) : only P (mret a).
Proof. by apply only_state. Qed.

Lemma only_look P {A} (f : files → A) : only P (look f).
Proof. by apply only_state. Qed.

Lemma only_lift P {A} (r : result chain A) : only P (lift r).
Proof. by apply only_state. Qed.

Lemma only_fail P {A} : only P (fail_io : io A).
Proof. by apply only_state. Qed.

Lemma only_bail P {A} msg : only P (bail msg : io A).
Proof. by apply only_state. Qed.

Lemma only_fault P : only P next_fault.
Proof. by apply only_state. Qed.

Lemma only_context P {A} msg (m : io A) : only P m → only P (context msg m).
Proof. intros Hm s Hs. pose proof (Hm s Hs) as H. unfold context. by destruct (m s) as [[] ?]. Qed.

Lemma no_links_insert ns m f m' f' path n :
  no_links (mkFiles ns m f) → (∀ t, n ≠ Symlink t) → no_links (mkFiles (<[path := n]> ns) m' f').
Proof.
  intros Hs Hn p t. cbn [nodes]. destruct (decide (p = path)) as [->|].
  - rewrite lookup_insert_eq. naive_solver.
  - rewrite lookup_insert_ne by done. apply Hs.
Qed.

Lemma only_put P path n : P path → (∀ t, n ≠ Symlink t) → only P (put path n).
Proof.
  intros HP Hn s Hs. split.
  - destruct s. by apply (no_links_insert _ _ _ _ _ _ _ Hs).
  - intros q Hq. cbn [put snd nodes]. rewrite lookup_insert_ne; [done|]. by intros ->.
Qed.

Lemma only_if P {A} (b : bool) (m1 m2 : io A) : only P m1 → only P m2 → only P (if b then m1 else m2).
Proof. by destruct b. Qed.

#[export] Hint Resolve only_ret only_look only_lift only_fail only_bail only_fault only_context only_if : vbox.

Lemma leads_plain s path : no_links s → leads_to (nodes s) path = Some path.
Proof. intros Hs. unfold leads_to. cbn. destruct (nodes s !! path) as [[]|] eqn:E; try done. by destruct (Hs path target). Qed.

Lemma canonical_plain s path : no_links s → canonicalize path s = (λ _, path) <$> nodes s !! path.
Proof. intros Hs. unfold canonicalize. rewrite leads_plain by done. cbn. by destruct (nodes s !! path). Qed.

Lemma exists_plain s path : no_links s → exists_ path s = bool_decide (is_Some (nodes s !! path)).
Proof. intros Hs. unfold exists_. rewrite canonical_plain by done. apply bool_decide_ext. by rewrite fmap_is_Some. Qed.

(** The node that a read or a change of mode finds. *)
Lemma node_plain s path : no_links s → canonicalize path s ≫= (λ p, nodes s !! p) = nodes s !! path.
Proof. intros Hs. rewrite canonical_plain by done. by destruct (nodes s !! path) eqn:E. Qed.

(** The fault consumed, the rest of an operation sees the same nodes. *)
Definition advance (s : files) : files := mkFiles (nodes s) (fresh_mode s) (tail (faults s)).

Lemma no_links_advance s : no_links s → no_links (advance s).
Proof. done. Qed.
#[export] Hint Resolve no_links_advance : vbox.

Lemma only_advance P {A} (m : io A) s : only P m → no_links s →
  no_links (m (advance s)).2 ∧ ∀ q, ¬ P q → nodes (m (advance s)).2 !! q = nodes s !! q.
Proof. intros Hm Hs. by apply (Hm (advance s)). Qed.

Lemma fault_bind {A} (f : fault → io A) s : (next_fault ≫= f) s = f (fault_of s) (advance s).
Proof. done. Qed.

Lemma look_bind {A B} (g : files → A) (f : A → io B) s : (look g ≫= f) s = f (g s) s.
Proof. done. Qed.

Lemma only_read P path : only P (read_to_string path).
Proof.
  apply only_bind; [apply only_fault|]. intros [| |n]; [|apply only_fail..]. apply only_bind; [apply only_look|].
  intros [[]|]; auto with vbox.
Qed.

Lemma only_metadata P path : only P (metadata path).
Proof.
  apply only_bind; [apply only_fault|]. intros f. apply only_bind; [apply only_look|]. intros b.
  destruct f; auto with vbox.
Qed.

Lemma only_write (P : rstring → Prop) path content : P path → only P (write path content).
Proof.
  intros HP s Hs. unfold write. rewrite fault_bind, look_bind, leads_plain by auto with vbox. cbn [nodes advance].
  apply only_advance; [|done]. destruct (nodes s !! path) as [[]|]; auto with vbox;
    (destruct (fault_of s) as [| |k]; [by apply only_put|by apply only_fail|]);
    (apply only_bind; [by apply only_put|intros; apply only_fail]).
Qed.

Lemma only_set_mode (P : rstring → Prop) path mode : P path → only P (set_mode path mode).
Proof.
  intros HP s Hs. unfold set_mode. rewrite fault_bind, look_bind, canonical_plain by auto with vbox. cbn [nodes advance].
  apply only_advance; [|done]. destruct (fault_of s) as [| |k]; auto with vbox.
  destruct (nodes s !! path) as [[|content m|]|] eqn:E; cbn [fmap option_fmap option_map]; rewrite ?E; auto with vbox. by apply only_put.
Qed.

Lemma only_create_dir (P : rstring → Prop) path : P path → only P (create_dir_all path).
Proof.
  intros HP s Hs. unfold create_dir_all. rewrite fault_bind, look_bind, canonical_plain by auto with vbox. cbn [nodes advance].
  apply only_advance; [|done]. destruct (fault_of s) as [| |k]; auto with vbox.
  destruct (nodes s !! path) as [[|content m|]|] eqn:E; cbn [fmap option_fmap option_map]; rewrite ?E; auto with vbox. by apply only_put.
Qed.
Lemma only_copy (P : rstring → Prop) src dst : P dst → only P (copy src dst).
Proof.
  intros HP s Hs. unfold copy. rewrite fault_bind, look_bind, leads_plain by auto with vbox. cbn [nodes advance].
  apply only_advance; [|done]. destruct (canonicalize src (advance s) ≫= _) as [[]|]; auto with vbox.
  destruct (nodes s !! dst) as [[]|]; auto with vbox;
    (destruct (fault_of s) as [| |k]; [by apply only_put|by apply only_fail|]);
    (apply only_bind; [by apply only_put|intros; apply only_fail]).
Qed.

Lemma only_drop (P : rstring → Prop) path : P path → only P (drop_node path).
Proof.
  intros HP s Hs. split.
  - intros p t. cbn. intros [_ ?]%lookup_delete_Some. by eapply Hs.
  - intros q Hq. cbn. rewrite lookup_delete_ne; [done|]. by intros ->.
Qed.

Lemma only_rename (P : rstring → Prop) src dst : P src → P dst → only P (rename src dst).
Proof.
  intros H1 H2 s Hs. unfold rename. rewrite fault_bind, look_bind. apply only_advance; [|done]. cbn [nodes advance].
  destruct (fault_of s), (nodes s !! src) as [[]|], (nodes s !! dst) as [[]|]; auto with vbox;
    (apply only_bind; [by apply only_drop|intros; by apply only_put]).
Qed.
#[export] Hint Resolve only_read only_metadata only_write only_set_mode only_create_dir : vbox.

(** *** When they work *)

Lemma read_ok s path content s' : no_links s →
  read_to_string path s = (Ok content, s') → s' = advance s ∧ ∃ mode, nodes s !! path = Some (File content mode).
Proof.
  intros Hs. unfold read_to_string. rewrite fault_bind. destruct (fault_of s) as [| |k]; [|done..].
  rewrite look_bind, node_plain by auto with vbox. cbn [nodes advance]. destruct (nodes s !! path) as [[]|]; try done.
  intros [= <- <-]. eauto.
Qed.

Lemma read_fine s path content mode : no_links s → faults s = [] → nodes s !! path = Some (File content mode) →
  read_to_string path s = (Ok content, s).
Proof.
  intros Hs Hf Hn. unfold read_to_string. rewrite fault_bind. unfold fault_of. rewrite Hf. cbn [default from_option head]. rewrite look_bind, node_plain by auto with vbox.
  cbn [nodes advance]. rewrite Hn. unfold mret, io_ret, advance. rewrite Hf. cbn [tail]. by rewrite <- Hf; destruct s.
Qed.

Lemma write_ok s path content u s' : no_links s → write path content s = (Ok u, s') →
  nodes s' = <[path := File content (match nodes s !! path with Some (File _ mode) => mode | _ => fresh_mode s end)]> (nodes s)
  ∧ nodes s !! path ≠ Some Dir ∧ faults s' = tail (faults s) ∧ fresh_mode s' = fresh_mode s.
Proof.
  intros Hs. unfold write. rewrite fault_bind, look_bind, leads_plain by auto with vbox. cbn [nodes advance fresh_mode].
  destruct (nodes s !! path) as [[]|]; try done; (destruct (fault_of s) as [| |k]; [|done..]); by intros [= <- <-].
Qed.

Lemma set_mode_ok s path mode u s' : no_links s → set_mode path mode s = (Ok u, s') →
  ∃ n, nodes s !! path = Some n ∧
    nodes s' = match n with File content _ => <[path := File content mode]> (nodes s) | _ => nodes s end.
Proof.
  intros Hs. unfold set_mode. rewrite fault_bind, look_bind, canonical_plain by auto with vbox. cbn [nodes advance fresh_mode].
  destruct (fault_of s) as [| |k]; [|done..]. destruct (nodes s !! path) as [[]|] eqn:E; cbn; rewrite ?E; try done; intros [= <- <-]; by eexists.
Qed.

Lemma create_dir_ok s path u s' : no_links s → create_dir_all path s = (Ok u, s') →
  nodes s' = <[path := Dir]> (nodes s).
Proof.
  intros Hs. unfold create_dir_all. rewrite fault_bind, look_bind, canonical_plain by auto with vbox. cbn [nodes advance fresh_mode].
  destruct (fault_of s) as [| |k]; [|done..]. destruct (nodes s !! path) as [[]|] eqn:E; cbn; rewrite ?E; try done; intros [= <- <-]; [|done].
  cbn. by rewrite insert_id.
Qed.

Lemma metadata_ok s path u s' : metadata path s = (Ok u, s') → s' = advance s.
Proof.
  unfold metadata. rewrite fault_bind, look_bind. destruct (fault_of s); try done. destruct (exists_ _ _); [|done]. by intros [= <- <-].
Qed.

Lemma no_links_after {A} P (m : io A) s r s' : only P m → no_links s → m s = (r, s') → no_links s'.
Proof. intros Hm Hs H. destruct (Hm s Hs) as [H1 _]. by rewrite H in H1. Qed.

(** *** Programs that keep an invariant *)

(** However [m] ends, it keeps [I]; when it works, what it yields and leaves fits [Q]. *)
Definition keeps (I : files → Prop) {A} (P : files → Prop) (m : io A) (Q : A → files → Prop) : Prop :=
  ∀ s, I s → P s → I (m s).2 ∧ ∀ a, (m s).1 = Ok a → Q a (m s).2.

Abbreviation true_pre := (λ _ : files, True) (only parsing).
Abbreviation true_post := (λ _ (_ : files), True) (only parsing).

Section keeps.
Context (I : files → Prop).

Lemma keeps_value {A} (a : A) (P : files → Prop) (Q : A → files → Prop) : (∀ s, P s → Q a s) → keeps I P (mret a) Q.
Proof. intros H s Hs HP. split; [done|]. intros a' [= <-]. by apply H. Qed.

Lemma keeps_step {A B} (P : files → Prop) (Q : A → files → Prop) (R : B → files → Prop) (m : io A) f :
  keeps I P m Q → (∀ a, keeps I (Q a) (f a) R) → keeps I P (m ≫= f) R.
Proof.
  intros Hm Hf s Hs HP. destruct (Hm s Hs HP) as [H1 H2]. unfold mbind, io_bind.
  destruct (m s) as [[a|e] s1]; [|by split]. apply Hf; [done|]. by apply H2.
Qed.

Lemma keeps_then {A B} (m : io A) (f : A → io B) (R : B → files → Prop) :
  keeps I true_pre m true_post → (∀ a, keeps I true_pre (f a) R) → keeps I true_pre (m ≫= f) R.
Proof. apply keeps_step. Qed.

Lemma keeps_post {A} (P : files → Prop) (Q R : A → files → Prop) (m : io A) :
  keeps I P m Q → (∀ a s, Q a s → R a s) → keeps I P m R.
Proof. intros Hm HQ s Hs HP. destruct (Hm s Hs HP) as [H1 H2]. eauto. Qed.

Lemma keeps_pre {A} (P P' : files → Prop) (Q : A → files → Prop) (m : io A) :
  (∀ s, P' s → P s) → keeps I P m Q → keeps I P' m Q.
Proof. intros HP Hm s Hs H. by apply Hm, HP. Qed.

Lemma keeps_forget {A} (P : files → Prop) (Q : A → files → Prop) (m : io A) : keeps I true_pre m Q → keeps I P m Q.
Proof. by apply keeps_pre. Qed.

Lemma keeps_fact {A} (φ : Prop) (Q : A → files → Prop) (m : io A) : (φ → keeps I true_pre m Q) → keeps I (λ _, φ) m Q.
Proof. intros Hm s Hs Hφ. by apply Hm. Qed.

Lemma keeps_attempt {A} (P : files → Prop) (Q : A → files → Prop) (m : io A) :
  keeps I P m Q → keeps I P (attempt m) (λ r s, match r with Some a => Q a s | None => True end).
Proof.
  intros Hm s Hs HP. destruct (Hm s Hs HP) as [H1 H2]. unfold attempt. destruct (m s) as [[a|e] s1]; (split; [done|]).
  - intros ? [= <-]. by apply H2.
  - by intros ? [= <-].
Qed.

Lemma keeps_let {A} (m : io A) : keeps I true_pre m true_post → keeps I true_pre (ignore m) true_post.
Proof. intros Hm. apply keeps_then; [by eapply keeps_post; [apply keeps_attempt, Hm|]|]. intros _. by apply keeps_value. Qed.

(** [succeeds]: what holds when it does. *)
Lemma keeps_succeeds {A} (P : files → Prop) (Q : files → Prop) (m : io A) :
  keeps I P m (λ _, Q) → keeps I P (succeeds m) (λ ok s, ok = true → Q s).
Proof.
  intros Hm. eapply keeps_step; [apply keeps_attempt, Hm|]. intros [a|]; apply keeps_value; [by intros|].
  intros s _. by rewrite bool_decide_false by (by intros []).
Qed.
End keeps.

(** *** Single runs *)

Lemma run_at {A} (m : io A) s a : (m s).1 = Ok a → m s = (Ok a, (m s).2).
Proof. intros <-. apply surjective_pairing. Qed.

Lemma write_torn s path content n fs : no_links s → nodes s !! path = None → faults s = Torn n :: fs →
  write path content s = (Err os_error, mkFiles (<[path := File (take n content) (fresh_mode s)]> (nodes s)) (fresh_mode s) fs).
Proof.
  intros Hs Hn Hf. unfold write. rewrite fault_bind, look_bind, leads_plain by auto with vbox. cbn [nodes advance fresh_mode].
  destruct s as [ns fm fs0]. cbn [nodes faults fresh_mode] in *. subst fs0. by rewrite Hn.
Qed.

Lemma write_fine s path content : no_links s → nodes s !! path = None → fault_of s = Fine →
  write path content s = (Ok tt, mkFiles (<[path := File content (fresh_mode s)]> (nodes s)) (fresh_mode s) (tail (faults s))).
Proof.
  intros Hs Hn Hf. unfold write. rewrite fault_bind, look_bind, leads_plain by auto with vbox. cbn [nodes advance fresh_mode].
  by rewrite Hn, Hf.
Qed.

Lemma create_dir_fine s path : no_links s → nodes s !! path = None ∨ nodes s !! path = Some Dir → fault_of s = Fine →
  create_dir_all path s = (Ok tt, mkFiles (<[path := Dir]> (nodes s)) (fresh_mode s) (tail (faults s))).
Proof.
  intros Hs Hn Hf. unfold create_dir_all. rewrite fault_bind, look_bind, canonical_plain, Hf by auto with vbox. cbn [nodes advance fresh_mode].
  destruct Hn as [Hn|Hn]; rewrite Hn; cbn; rewrite ?Hn; [done|]. by rewrite insert_id.
Qed.

Lemma context_run {A} msg (m : io A) s r s' : m s = (r, s') →
  context msg m s = (match r with Ok a => Ok a | Err e => Err (msg :: e) end, s').
Proof. intros E. unfold context. rewrite E. by destruct r. Qed.

Lemma bind_run {A B} (m : io A) (f : A → io B) s a s' : m s = (Ok a, s') → (m ≫= f) s = f a s'.
Proof. intros E. unfold mbind, io_bind. by rewrite E. Qed.

(** ** Paths below a directory *)

Lemma path_join_prefix base name : head name ≠ Some 47 → path_join base name = dir_prefix base ++ name.
Proof.
  intros Hn. unfold path_join, dir_prefix. destruct name as [|c name].
  - destruct base as [|b base]; [done|]. destruct (decide (last (b :: base) = Some 47)) as [E|E].
    + rewrite !bool_decide_true by auto. by rewrite app_nil_r.
    + rewrite !bool_decide_false by naive_solver. by rewrite <- app_assoc.
  - destruct (decide (c = 47)) as [->|Hc]; [done|]. assert (∀ {A} (x y : A), match c with 47 => x | _ => y end = y) as Hm.
    { intros A x y. repeat (destruct c as [|c|c]; try done). }
    rewrite Hm. destruct base as [|b base]; [done|]. destruct (decide (last (b :: base) = Some 47)) as [E|E].
    + by rewrite !bool_decide_true by auto.
    + rewrite !bool_decide_false by naive_solver. by rewrite <- app_assoc.
Qed.

Lemma dir_prefix_name base name : name ≠ [] → 47 ∉ name → dir_prefix (base ++ name) = base ++ name ++ [47].
Proof.
  intros Hn Hs. unfold dir_prefix. rewrite bool_decide_false; [by rewrite <- app_assoc|].
  intros [H|H]; [by apply app_nil in H as [_ ->]|].
  destruct name as [|c name _] using rev_ind; [done|]. rewrite app_assoc, last_snoc in H. simplify_eq. set_solver.
Qed.

Lemma dir_prefix_idem base : dir_prefix (dir_prefix base) = dir_prefix base.
Proof.
  unfold dir_prefix at 1. destruct (decide (dir_prefix base = [] ∨ last (dir_prefix base) = Some 47)) as [E|E]; [by rewrite bool_decide_true|].
  exfalso. apply E. unfold dir_prefix. case_bool_decide as E2; [done|]. right. apply last_snoc.
Qed.
