(* ===== verification/Links.v ===== *)
(** * The tool's link on the PATH (crates/vbox-cli/src/symlink.rs)

    Installing the tool puts a link to its executable into a directory; uninstalling takes it
    away. Whatever stands under the link's name and is not the tool's is left alone, unless
    the user insists. *)

From S2P Require Import Prelude Text Runtime Files.

(** ** Operations *)

Definition resolves_to (link target : rstring) (s : files) : bool :=
  match canonicalize link s, canonicalize target s with
  | Some link_real, Some target_real => bool_decide (link_real = target_real)
  | _, _ => false
  end.

(** [fs::symlink_metadata], as a step that may fail. *)
Definition inspect (path : rstring) : io node :=
  f ← next_fault;
  n ← look (symlink_metadata path);
  match f, n with Fine, Some n => mret n | _, _ => fail_io end.

Definition occupied (link : rstring) (s : files) : bool := exists_ link s || bool_decide (is_Some (symlink_metadata link s)).

Definition place_link (target link : rstring) : io unit :=
  context (lit "symlink " ++ link ++ lit " -> " ++ target) (symlink target link).

Definition is_dir (n : node) : bool := match n with Dir => true | _ => false end.
Definition is_symlink (n : node) : bool := match n with Symlink _ => true | _ => false end.

Definition install_link (link target : rstring) (force : bool) : io unit :=
  there ← look (occupied link);
  if negb there then place_link target link else
  owned ← look (resolves_to link target);
  if owned : bool then mret tt
  else if force then
    meta ← context (lit "inspect existing " ++ link) (inspect link);
    if is_dir meta then bail (lit "refusing to replace directory: " ++ link)
    else context (lit "remove " ++ link) (remove_file link);; place_link target link
  else bail (link ++ lit " already exists and does not point to " ++ target ++ lit "; use --force to replace it").

Definition remove_link_if_owned (link target : rstring) : io bool :=
  there ← look (occupied link);
  if negb there then mret false else
  meta ← context (lit "inspect " ++ link) (inspect link);
  if negb (is_symlink meta) then bail (lit "refusing to remove non-symlink: " ++ link) else
  owned ← look (resolves_to link target);
  if owned : bool then context (lit "remove " ++ link) (remove_file link);; mret true
  else bail (lit "refusing to remove symlink not owned by this checkout: " ++ link ++ lit " -> "
             ++ match meta with Symlink t => t | _ => lit "?" end).

(** The components by which two paths are compared: repeated and final slashes and inner dots do not count. *)
Definition path_components (p : rstring) : list rstring :=
  let parts := split 47 p in
  let names := filter (λ c, c ≠ [] ∧ c ≠ lit ".") parts in
  match parts with
  | [] :: _ :: _ => lit "/" :: names
  | first :: _ => if bool_decide (first = lit ".") then lit "." :: names else names
  | [] => []
  end.

Section commands.
(** The environment, and what [cargo build] does to the files and how it ends. *)
Context (env_var : rstring → option rstring) (cargo_build : io unit).

Definition default_install_dir : rstring :=
  match env_var (lit "VBOX_CLI_INSTALL_DIR"), env_var (lit "HOME") with
  | Some dir, _ => dir
  | None, Some home => path_join home (lit ".local/bin")
  | None, None => lit "."
  end.

Definition path_contains (dir : rstring) : bool :=
  match env_var (lit "PATH") with Some paths => existsb (λ p, bool_decide (path_components p = path_components dir)) (split 58 paths) | None => false end.

(** [install]: whether the user is told to extend the PATH. *)
Definition install (ctx : AppContext) (dir : option rstring) (force : bool) : io bool :=
  let dir := default default_install_dir dir in
  built ← look (is_file (cli_path ctx));
  (if built : bool then mret tt else cargo_build);;
  context (lit "create " ++ dir) (create_dir_all dir);;
  install_link (path_join dir (lit "vbox")) (cli_path ctx) force;;
  mret (negb (path_contains dir)).

(** [uninstall]: whether there was a link. *)
Definition uninstall (ctx : AppContext) (dir : option rstring) : io bool :=
  remove_link_if_owned (path_join (default default_install_dir dir) (lit "vbox")) (cli_path ctx).
End commands.

(** ** Single steps *)

Lemma inspect_state path s : nodes (inspect path s).2 = nodes s ∧ ∀ n, (inspect path s).1 = Ok n → nodes s !! path = Some n.
Proof.
  unfold inspect. rewrite fault_bind, look_bind. unfold symlink_metadata. cbn [nodes advance].
  destruct (fault_of s), (nodes s !! path); (split; [done|]); cbn; naive_solver.
Qed.

Lemma remove_state path s : let '(r, s') := remove_file path s in
  match r with
  | Ok _ => nodes s' = delete path (nodes s) ∧ ∃ n, nodes s !! path = Some n ∧ is_dir n = false
  | Err _ => nodes s' = nodes s
  end.
Proof.
  unfold remove_file. rewrite fault_bind, look_bind. unfold symlink_metadata. cbn [nodes advance].
  destruct (fault_of s), (nodes s !! path) as [[]|]; cbn; eauto.
Qed.

Lemma symlink_state target path s : let '(r, s') := symlink target path s in
  match r with
  | Ok _ => nodes s' = <[path := Symlink target]> (nodes s) ∧ nodes s !! path = None
  | Err _ => nodes s' = nodes s
  end.
Proof.
  unfold symlink. rewrite fault_bind, look_bind. unfold symlink_metadata. cbn [nodes advance].
  destruct (fault_of s), (nodes s !! path) eqn:E; cbn; eauto.
Qed.

Lemma place_state target path s : let '(r, s') := place_link target path s in
  match r with
  | Ok _ => nodes s' = <[path := Symlink target]> (nodes s) ∧ nodes s !! path = None
  | Err _ => nodes s' = nodes s
  end.
Proof.
  pose proof (symlink_state target path s) as H. unfold place_link, context. by destruct (symlink target path s) as [[] ?].
Qed.

Lemma occupied_iff link s : occupied link s = true ↔ is_Some (nodes s !! link) ∨ exists_ link s = true.
Proof. unfold occupied, symlink_metadata. rewrite orb_true_iff, bool_decide_eq_true. tauto. Qed.

(** What exists through links has a node at its name. *)
Lemma follow_head n ns path p : follow n ns path = Some p → is_Some (ns !! p) → is_Some (ns !! path).
Proof.
  destruct n; [done|]. cbn. destruct (ns !! path) eqn:E; [eauto|]. intros [= ->]. by rewrite E.
Qed.

Lemma exists_node path s : exists_ path s = true → is_Some (nodes s !! path).
Proof.
  unfold exists_, canonicalize. rewrite bool_decide_eq_true. intros [p (q & Hf & (n & Hn & _)%bind_Some)%bind_Some].
  by eapply follow_head; [exact Hf|eauto].
Qed.

Lemma occupied_node link s : occupied link s = bool_decide (is_Some (nodes s !! link)).
Proof.
  apply eq_bool_prop_intro. rewrite !Is_true_true, occupied_iff, bool_decide_eq_true. split; [|by left].
  intros [H|H]; [done|by apply exists_node].
Qed.

(** ** Outcomes *)

(** Installing touches nothing but the link; it never replaces a directory, and replaces
    something else that is not already the tool's only when forced; it reports success only
    when the name leads to the tool. *)
Theorem install_link_outcome link target force s :
  let '(r, s') := install_link link target force s in
  (∀ q, q ≠ link → nodes s' !! q = nodes s !! q) ∧
  match nodes s !! link with
  | None => nodes s' !! link = if is_ok r then Some (Symlink target) else None
  | Some n =>
      if resolves_to link target s then is_ok r = true ∧ nodes s' = nodes s
      else if is_ok r then force = true ∧ is_dir n = false ∧ nodes s' !! link = Some (Symlink target)
      else nodes s' !! link = Some n ∨ force = true ∧ is_dir n = false ∧ nodes s' !! link = None
  end.
Proof.
  unfold install_link. rewrite look_bind, occupied_node. destruct (nodes s !! link) as [n|] eqn:En.
  2: { rewrite bool_decide_false by (by intros []). cbn [negb]. pose proof (place_state target link s) as H.
       destruct (place_link target link s) as [[u|e] s']; [destruct H as [-> _]|rewrite H]; cbn [is_ok].
       - split; [intros; by rewrite lookup_insert_ne|apply lookup_insert_eq].
       - done. }
  rewrite bool_decide_true by eauto. cbn [negb]. rewrite look_bind. destruct (resolves_to link target s); [done|].
  destruct force; [|by cbn; auto]. unfold mbind at 1, io_bind at 1, context at 1.
  pose proof (inspect_state link s) as [H1 H2]. destruct (inspect link s) as [[meta|e] s1]; cbn [fst snd] in *; [|rewrite H1; cbn; auto].
  specialize (H2 _ eq_refl). rewrite En in H2. injection H2 as <-. destruct (is_dir n) eqn:Ed; [rewrite <- H1, <- ?En in *; cbn; rewrite H1; auto|].
  unfold mbind, io_bind, context at 1. pose proof (remove_state link s1) as H3.
  destruct (remove_file link s1) as [[u|e] s2]; [destruct H3 as [H3 _]|rewrite H3, H1; cbn; auto].
  pose proof (place_state target link s2) as H4. destruct (place_link target link s2) as [[v|e] s3]; cbn [is_ok].
  - destruct H4 as [-> _]. rewrite H3, H1. split; [intros; by rewrite lookup_insert_ne, lookup_delete_ne|].
    split_and!; [done..|apply lookup_insert_eq].
  - rewrite H4, H3, H1. split; [intros; by rewrite lookup_delete_ne|]. right. split_and!; [done..|apply lookup_delete_eq].
Qed.

(** Uninstalling touches nothing but the link, and takes it away only when it is a link
    that leads where the tool's executable is; success means that nothing is left of the name. *)
Theorem remove_link_outcome link target s :
  let '(r, s') := remove_link_if_owned link target s in
  (∀ q, q ≠ link → nodes s' !! q = nodes s !! q) ∧
  (nodes s' !! link = nodes s !! link ∨
     r = Ok true ∧ nodes s' !! link = None ∧ (∃ t, nodes s !! link = Some (Symlink t)) ∧ resolves_to link target s = true) ∧
  (∀ b, r = Ok b → nodes s' !! link = None ∧ b = bool_decide (is_Some (nodes s !! link))).
Proof.
  unfold remove_link_if_owned. rewrite look_bind, occupied_node. destruct (nodes s !! link) as [n|] eqn:En.
  2: { rewrite bool_decide_false by (by intros []). cbn [negb]. unfold mret, io_ret. rewrite En. split_and!; [done|by left|by intros b [= <-]]. }
  rewrite bool_decide_true by eauto. cbn [negb]. unfold mbind at 1, io_bind at 1, context at 1.
  pose proof (inspect_state link s) as [H1 H2]. destruct (inspect link s) as [[meta|e] s1]; cbn [fst snd] in *.
  2: { rewrite H1, En. split_and!; [done|by left|done]. }
  specialize (H2 _ eq_refl). rewrite En in H2. injection H2 as <-. destruct n as [| |t]; cbn [is_symlink negb].
  1, 2: unfold bail; rewrite H1, En; split_and!; [done|by left|done].
  rewrite look_bind. assert (resolves_to link target s1 = resolves_to link target s) as -> by (unfold resolves_to, canonicalize; by rewrite H1).
  destruct (resolves_to link target s).
  2: { unfold bail. rewrite H1, En. split_and!; [done|by left|done]. }
  unfold mbind, io_bind, context. pose proof (remove_state link s1) as H3. destruct (remove_file link s1) as [[u|e] s2]; cbn.
  - destruct H3 as [-> _]. rewrite H1, lookup_delete_eq. split_and!; [intros; by rewrite lookup_delete_ne| |by intros b [= <-]].
    right. eauto.
  - cbn. rewrite H3, H1, En. split_and!; [done|by left|done].
Qed.

Section roundtrip.
Context (env_var : rstring → option rstring) (cargo_build : io unit).

Lemma canonical_at s path n : nodes s !! path = Some n → is_symlink n = false → canonicalize path s = Some path.
Proof. intros Hn Hl. unfold canonicalize, leads_to. cbn. rewrite Hn. destruct n; [..|done]; cbn; by rewrite Hn. Qed.

(** A link to an absolute path leads where the path leads, when that is not a link itself. *)
Lemma linked_resolves link target s c m : head target = Some 47 → nodes s !! link = Some (Symlink target) →
  nodes s !! target = Some (File c m) → resolves_to link target s = true.
Proof.
  intros Habs Hl Ht. unfold resolves_to, canonicalize, leads_to. cbn. rewrite Hl, Ht.
  assert (path_join (dir_of link) target = target) as -> by (destruct target as [|x target]; [done|]; cbn in Habs; by simplify_eq).
  rewrite Ht. cbn. rewrite Ht. cbn. by apply bool_decide_eq_true.
Qed.

(** With the executable and the directory there, installing is placing the link. *)
Lemma install_run ctx dir ns fm content mode r s' :
  let bin := default (default_install_dir env_var) dir in
  ns !! cli_path ctx = Some (File content mode) → ns !! bin = Some Dir →
  install_link (path_join bin (lit "vbox")) (cli_path ctx) false (mkFiles ns fm []) = (r, s') →
  install env_var cargo_build ctx dir false (mkFiles ns fm []) =
  (match r with Ok _ => Ok (negb (path_contains env_var bin)) | Err e => Err e end, s').
Proof.
  intros bin H1 H2 H. unfold install. cbv zeta. fold bin. rewrite look_bind. set (s := mkFiles ns fm []) in *.
  assert (is_file (cli_path ctx) s = true) as ->.
  { unfold is_file. rewrite (canonical_at s _ _ H1) by done. cbn. by rewrite H1. }
  rewrite (bind_run _ _ _ tt s) by done. rewrite (bind_run _ _ _ tt s).
  - unfold mbind, io_bind. rewrite H. by destruct r.
  - apply context_ok. unfold create_dir_all. rewrite fault_bind, look_bind.
    rewrite (canonical_at (advance s) _ _ H2) by done. cbn. by rewrite H2.
Qed.

(** C28: with the executable in place and a free name, installing works, whatever else the
    directory holds, and the name then leads to the executable; installing again changes
    nothing; and uninstalling gives back every file there was before. *)
Theorem install_uninstall ctx dir s content mode :
  let bin := default (default_install_dir env_var) dir in
  let link := path_join bin (lit "vbox") in
  head (cli_path ctx) = Some 47 → nodes s !! cli_path ctx = Some (File content mode) →
  nodes s !! bin = Some Dir → nodes s !! link = None → faults s = [] →
  let '(r1, s1) := install env_var cargo_build ctx dir false s in
  let '(r2, s2) := install env_var cargo_build ctx dir false s1 in
  let '(r3, s3) := uninstall env_var ctx dir s2 in
  is_ok r1 = true ∧ canonicalize link s1 = Some (cli_path ctx) ∧ r2 = r1 ∧ s2 = s1 ∧ r3 = Ok true ∧ s3 = s.
Proof.
  intros bin link Habs Hcli Hbin Hlink Hf. destruct s as [ns fm fs]. cbn [nodes faults] in *. subst fs.
  assert (link ≠ cli_path ctx) as Hne1 by congruence. assert (link ≠ bin) as Hne2 by congruence.
  set (s := mkFiles ns fm []). set (s1 := mkFiles (<[link := Symlink (cli_path ctx)]> ns) fm []).
  assert (install_link link (cli_path ctx) false s = (Ok tt, s1)) as E1.
  { unfold install_link. rewrite look_bind, occupied_node. cbn [nodes s]. rewrite Hlink, bool_decide_false by (by intros []). cbn [negb].
    apply context_ok. unfold symlink. rewrite fault_bind, look_bind. unfold symlink_metadata. cbn [nodes advance s]. by rewrite Hlink. }
  assert (nodes s1 !! cli_path ctx = Some (File content mode)) as Hcli1 by (cbn; by rewrite lookup_insert_ne).
  assert (nodes s1 !! bin = Some Dir) as Hbin1 by (cbn; by rewrite lookup_insert_ne).
  assert (nodes s1 !! link = Some (Symlink (cli_path ctx))) as Hl1 by apply lookup_insert_eq.
  pose proof (linked_resolves link (cli_path ctx) s1 content mode Habs Hl1 Hcli1) as Hres.
  assert (install_link link (cli_path ctx) false s1 = (Ok tt, s1)) as E2.
  { unfold install_link. rewrite look_bind, occupied_node, Hl1, bool_decide_true by eauto. cbn [negb]. by rewrite look_bind, Hres. }
  pose proof (install_run ctx dir _ fm _ _ _ _ Hcli Hbin E1 : install env_var cargo_build ctx dir false s = _) as I1.
  pose proof (install_run ctx dir _ fm _ _ _ _ Hcli1 Hbin1 E2 : install env_var cargo_build ctx dir false s1 = _) as I2. rewrite I1, I2. unfold uninstall. fold bin. fold link.
  assert (remove_link_if_owned link (cli_path ctx) s1 = (Ok true, s)) as ->.
  { unfold remove_link_if_owned. rewrite look_bind, occupied_node, Hl1, bool_decide_true by eauto. cbn [negb].
    rewrite (bind_run _ _ _ (Symlink (cli_path ctx)) s1).
    2: { apply context_ok. unfold inspect. rewrite fault_bind, look_bind. unfold symlink_metadata. change (nodes (advance s1)) with (nodes s1). by rewrite Hl1. }
    cbn [is_symlink negb]. rewrite look_bind, Hres. rewrite (bind_run _ _ _ tt s); [done|]. apply context_ok.
    unfold remove_file. rewrite fault_bind, look_bind. unfold symlink_metadata. change (nodes (advance s1)) with (nodes s1). rewrite Hl1.
    unfold drop_node. cbn. by rewrite delete_insert_id. }
  split_and!; [done| |done..]. unfold resolves_to in Hres.
  rewrite (canonical_at s1 _ _ Hcli1) in Hres by done. destruct (canonicalize link s1); [|done]. by apply bool_decide_eq_true in Hres as ->.
Qed.
End roundtrip.

(** Once the executable is gone, uninstalling refuses to remove the link that it made. *)
Theorem stale_link_stays link target s : head target = Some 47 →
  nodes s !! link = Some (Symlink target) → nodes s !! target = None →
  is_ok (remove_link_if_owned link target s).1 = false ∧ nodes (remove_link_if_owned link target s).2 = nodes s.
Proof.
  intros Habs Hl Ht. assert (resolves_to link target s = false) as Hres.
  { unfold resolves_to. destruct (canonicalize link s); [|done]. assert (canonicalize target s = None) as ->; [|done].
    unfold canonicalize, leads_to. cbn. rewrite Ht. cbn. by rewrite Ht. }
  pose proof (remove_link_outcome link target s) as H. destruct (remove_link_if_owned link target s) as [r s'] eqn:E. cbn [fst snd].
  destruct H as (H1 & [H2|(-> & _ & _ & H2)] & H3); [|congruence]. split.
  - destruct r as [b|e]; [|done]. destruct (H3 b eq_refl). congruence.
  - apply map_eq. intros q. destruct (decide (q = link)) as [->|]; [done|by apply H1].
Qed.

(** ** Witnesses *)

Definition demo_ctx : AppContext :=
  mkAppContext (lit "/repo") (lit "/repo/.vbox") (lit "/repo/vbox") None None (lit "default") 5710 (lit "vbox-0") 1024 768 false false.
Definition demo_disk : files := mkFiles {[lit "/bin" := Dir; lit "/repo/vbox" := File (lit "elf") 493]} 420 [].
Definition no_vars (_ : rstring) : option rstring := None.

Lemma install_uninstall_witness :
  let s1 := (install no_vars (mret tt) demo_ctx (Some (lit "/bin")) false demo_disk).2 in
  canonicalize (lit "/bin/vbox") s1 = Some (lit "/repo/vbox") ∧ (uninstall no_vars demo_ctx (Some (lit "/bin")) s1).2 = demo_disk.
Proof.
  intros s1. unfold s1. clear s1.
  pose proof (install_uninstall no_vars (mret tt) demo_ctx (Some (lit "/bin")) demo_disk (lit "elf") 493 eq_refl
    ltac:(by vm_compute) ltac:(by vm_compute) ltac:(by vm_compute) eq_refl) as H. cbv zeta in H.
  destruct (install no_vars (mret tt) demo_ctx (Some (lit "/bin")) false demo_disk) as [r1 s1]. cbn [snd].
  destruct (install no_vars (mret tt) demo_ctx (Some (lit "/bin")) false s1) as [r2 s2].
  destruct (uninstall no_vars demo_ctx (Some (lit "/bin")) s2) as [r3 s3] eqn:E. destruct H as (_ & H1 & _ & -> & _ & ->).
  rewrite E. split; [exact H1|reflexivity].
Defined.

Lemma stale_link_stays_witness :
  is_ok (remove_link_if_owned (lit "/bin/vbox") (lit "/repo/vbox") (mkFiles {[lit "/bin/vbox" := Symlink (lit "/repo/vbox")]} 420 [])).1 = false.
Proof. apply stale_link_stays; [done|by vm_compute..]. Defined.
