(* ===== verification/Icons.v ===== *)
(** * The library of applications and their icons (crates/vbox-cli/src/runtime.rs)

    The tool keeps the list of the guest's applications and their icons in its state
    directory, and a copy of both per machine. What the scripts on the guest print, the
    programs that convert pictures and the base64 reader are parameters; the files are those
    of [Files], so that every step may fail and a write may be torn. *)

From S2P Require Import Prelude Text Shell Runtime Files.

(** ** Lines of text *)

(** [{:<width}]: a field that is filled up on the right. *)
Definition padded (width : nat) (s : rstring) : rstring := s ++ replicate (width - length s) 32.

(** A line of what the guest prints for the icons. *)
Definition icon_line (line : rstring) : option (rstring * rstring * rstring) :=
  '(app_id, rest) ← split_once 9 line;
  '(ext, encoded) ← split_once 9 rest;
  Some (app_id, ext, encoded).

(** [Path::file_name] of a path that does not end in a slash. *)
Definition file_name (path : rstring) : rstring := default path (last (split 47 path)).

(** ** Converting pictures *)

Section icons.
#[local] Set Default Proof Using "Type".
(** How a program ends, and what it writes to its output if anything. *)
Context (tool : command → files → bool * option rstring).

Definition run_tool (program : rstring) (args : list rstring) (output : rstring) : io bool :=
  r ← look (λ s, (tool (mkCommand program args []) s, fresh_mode s));
  match r with
  | (ok, Some text, mode) => put output (File text mode);; mret ok
  | (ok, None, _) => mret ok
  end.

(** [stamp]: the process and the time. *)
Definition convert_svg_to_png (stamp svg png : rstring) : io bool :=
  drawn ← run_tool (lit "rsvg-convert") [lit "-w"; lit "256"; lit "-h"; lit "256"; lit "-a"; lit "-o"; png; svg] png;
  if drawn : bool then mret true else
  let tmp_dir := path_join (dir_of png) (lit ".qlmanage-icon-" ++ stamp) in
  ignore (remove_dir_all tmp_dir);;
  made ← succeeds (create_dir_all tmp_dir);
  if negb made then mret false else
  let generated := path_join tmp_dir (file_name svg ++ lit ".png") in
  ok ← run_tool (lit "qlmanage") [lit "-t"; lit "-s"; lit "256"; lit "-o"; tmp_dir; svg] generated;
  there ← look (is_file generated);
  done ← if ok && there then succeeds (rename generated png) else mret false;
  ignore (remove_dir_all tmp_dir);;
  mret done.

Definition convert_guest_icon_to_png (stamp input ext png : rstring) : io bool :=
  if bool_decide (ext = lit "png") then succeeds (copy input png)
  else if bool_decide (ext = lit "svg") then convert_svg_to_png stamp input png
  else run_tool (lit "sips") [lit "-s"; lit "format"; lit "png"; input; lit "--out"; png] png.

Definition icon_sizes : list (rstring * Z) :=
  [(lit "icon_16x16.png", 16); (lit "icon_16x16@2x.png", 32); (lit "icon_32x32.png", 32); (lit "icon_32x32@2x.png", 64);
   (lit "icon_128x128.png", 128); (lit "icon_128x128@2x.png", 256); (lit "icon_256x256.png", 256);
   (lit "icon_256x256@2x.png", 512); (lit "icon_512x512.png", 512); (lit "icon_512x512@2x.png", 1024)].

Fixpoint scale_all (png iconset : rstring) (sizes : list (rstring * Z)) : io bool :=
  match sizes with
  | [] => mret true
  | (name, size) :: sizes =>
      ok ← run_tool (lit "sips") [lit "-z"; dec size; dec size; png; lit "--out"; path_join iconset name] (path_join iconset name);
      if ok : bool then scale_all png iconset sizes else mret false
  end.

Definition convert_png_to_icns (stamp png icns : rstring) : io bool :=
  let iconset := path_join (dir_of icns) (lit ".vbox-icon-" ++ stamp ++ lit ".iconset") in
  ignore (remove_dir_all iconset);;
  made ← succeeds (create_dir_all iconset);
  if negb made then mret false else
  scaled ← scale_all png iconset icon_sizes;
  ok ← if scaled : bool then run_tool (lit "iconutil") [lit "-c"; lit "icns"; iconset; lit "-o"; icns] icns else mret false;
  ignore (remove_dir_all iconset);;
  mret ok.

(** ** The library *)

Context (decode_argv_b64 : rstring → option (list rstring)) (b64 : rstring → option rstring) (ctx : AppContext).

Definition cached_rows : io (list AppRecord) :=
  text ← attempt (read_to_string (app_cache ctx));
  mret (read_app_cache decode_argv_b64 (Contents (default [] text))).

Definition machine_app_cache : option rstring := (λ dir, path_join dir (lit "app-library.tsv")) <$> machine_dir ctx.

Definition write_app_cache (text : rstring) : io unit :=
  create_dir_all (dir_of (app_cache ctx));;
  write (app_cache ctx) text;;
  match machine_app_cache with
  | Some path => create_dir_all (dir_of path);; write path text
  | None => mret tt
  end.

(** [answer]: what the guest prints, or why there is nothing. *)
Definition refresh_app_library (answer : result chain rstring) : io unit :=
  out ← lift answer; write_app_cache out.

(** [library]: what it prints. *)
Definition library_line (id name exec : rstring) : rstring :=
  padded 42 id ++ lit "  " ++ padded 32 name ++ lit "  " ++ exec ++ [10].

Definition library (refresh : bool) (filters : list rstring) (answer : result chain rstring) : io rstring :=
  there ← look (is_file (app_cache ctx));
  (if refresh || negb there then refresh_app_library answer else mret tt);;
  rows ← cached_rows;
  mret (library_line (lit "APP_ID") (lit "NAME") (lit "EXEC") ++ library_line (lit "------") (lit "------") (lit "----")
        ++ (filter (λ row, selected (app_id row) (app_name row) filters = true) rows ≫=
              λ row, library_line (app_id row) (app_name row) (app_exec row))).

(** ** The icons *)

Abbreviation primary := (icon_cache_dir ctx).

(** A copy for the machine. *)
Definition copy_icon (safe dir : rstring) : io unit :=
  create_dir_all dir;;
  ignore (copy (path_join primary (safe ++ lit ".png")) (path_join dir (safe ++ lit ".png")));;
  there ← look (is_file (path_join primary (safe ++ lit ".icns")));
  if there : bool then ignore (copy (path_join primary (safe ++ lit ".icns")) (path_join dir (safe ++ lit ".icns"))) else mret tt.

Fixpoint copy_icons (safe : rstring) (dirs : list rstring) : io unit :=
  match dirs with [] => mret tt | dir :: dirs => copy_icon safe dir;; copy_icons safe dirs end.

(** A new icon; whether it could be converted. *)
Definition store_icon (stamps : rstring * rstring) (safe ext bytes : rstring) : io bool :=
  let source_tmp := path_join primary (lit "." ++ safe ++ lit ".source." ++ ext ++ lit ".tmp") in
  let png_tmp := path_join primary (lit "." ++ safe ++ lit ".png.tmp") in
  let png_path := path_join primary (safe ++ lit ".png") in
  let icns_tmp := path_join primary (lit "." ++ safe ++ lit ".tmp.icns") in
  let icns_path := path_join primary (safe ++ lit ".icns") in
  write source_tmp bytes;;
  converted ← convert_guest_icon_to_png stamps.1 source_tmp ext png_tmp;
  ignore (remove_file source_tmp);;
  if negb converted then ignore (remove_file png_tmp);; mret false else
  rename png_tmp png_path;;
  icns ← convert_png_to_icns stamps.2 png_path icns_tmp;
  (if icns : bool then ignore (rename icns_tmp icns_path) else ignore (remove_file icns_tmp));;
  copy_icons safe (filter (λ dir, dir ≠ primary) (icon_cache_dirs ctx));;
  mret true.

Definition plain_ext (ext : rstring) : rstring := to_ascii_lowercase (drop_while (Z.eqb 46) (trim ext)).

(** One line: whether it counts as cached. *)
Definition cache_icon (refresh : bool) (rows : list AppRecord) (stamps : rstring * rstring) (line : rstring) : io bool :=
  match icon_line line with
  | None => mret false
  | Some (id, ext, encoded) =>
      let safe := sanitize_icon_id id in
      if negb (existsb (λ row, bool_decide (app_id row = id)) rows) || bool_decide (safe = []) then mret false else
      there ← look (λ s, existsb (λ dir, is_file (path_join dir (safe ++ lit ".png")) s) (icon_cache_dirs ctx));
      if negb refresh && there then mret true else
      bytes ← lift (ok_or [lit "decode icon for " ++ id; lit "base64"] (b64 (trim encoded)));
      store_icon stamps safe (plain_ext ext) bytes
  end.

(** [stamps]: those of each line. *)
Fixpoint cache_lines (refresh : bool) (rows : list AppRecord) (stamps : nat → rstring * rstring) (ls : list rstring) : io Z :=
  match ls with
  | [] => mret 0
  | line :: ls =>
      one ← cache_icon refresh rows (stamps (length ls)) line;
      rest ← cache_lines refresh rows stamps ls;
      mret ((if one : bool then 1 else 0) + rest)
  end.

Fixpoint create_dirs (dirs : list rstring) : io unit :=
  match dirs with [] => mret tt | dir :: dirs => create_dir_all dir;; create_dirs dirs end.

Definition fetch_guest_icons (refresh : bool) (stamps : nat → rstring * rstring) (answer : result chain rstring) : io Z :=
  rows ← cached_rows;
  match rows with
  | [] => mret 0
  | _ =>
      out ← lift answer;
      create_dirs (icon_cache_dirs ctx);;
      cache_lines refresh rows stamps (lines out)
  end.

(** [cache_icons]: [answer] for the library, [icons] for the icons. *)
Definition cache_icons (refresh : bool) (stamps : nat → rstring * rstring) (answer icons : result chain rstring) : io Z :=
  there ← look (is_file (app_cache ctx));
  (if refresh || negb there then refresh_app_library answer else mret tt);;
  fetch_guest_icons refresh stamps icons.

(** [suffix]: what it prints. *)
Definition suffix (clear : bool) (value : list rstring) : io rstring :=
  let path := path_join (state_dir ctx) (lit "launcher-suffix.txt") in
  if clear then ignore (remove_file path);; mret []
  else match value with
       | [] => text ← attempt (read_to_string path); mret (default (lit "(none - installed names will have no suffix)" ++ [10]) text)
       | _ => create_dir_all (state_dir ctx);; write path (join (lit " ") value ++ [10]);; mret []
       end.
End icons.

(** ** Where the files are *)

Lemma last_slash (a b c d : rstring) : 47 ∉ b → 47 ∉ d → a ++ 47 :: b = c ++ 47 :: d → a = c ∧ b = d.
Proof.
  intros Hb Hd H. apply (f_equal reverse) in H. rewrite !reverse_app, !reverse_cons, <- !app_assoc in H. cbn [app] in H.
  assert (47 ∉ reverse b) as Hb' by (by rewrite elem_of_reverse). assert (47 ∉ reverse d) as Hd' by (by rewrite elem_of_reverse).
  pose proof (split_once_app 47 (reverse b) (reverse a) Hb') as E1. pose proof (split_once_app 47 (reverse d) (reverse c) Hd') as E2.
  rewrite H, E2 in E1. injection E1 as E3 E4. apply (inj reverse) in E3, E4. by subst.
Qed.

Lemma dir_of_name base name : base ≠ [] → 47 ∉ name → dir_of (base ++ 47 :: name) = base.
Proof.
  intros Hb Hn. unfold dir_of. rewrite reverse_app, reverse_cons, <- app_assoc. cbn [app].
  assert (∀ s rest, 47 ∉ s → drop_while (λ c, negb (c =? 47)) (s ++ 47 :: rest) = 47 :: rest) as Hdrop.
  { intros s rest. induction s as [|c s IH]; [done|]. intros Hs. cbn. destruct (Z.eqb_spec c 47) as [->|]; [set_solver|]. apply IH. set_solver. }
  rewrite Hdrop by (by rewrite elem_of_reverse). destruct (reverse base) eqn:E; [by destruct base as [|? ? _] using rev_ind; [|rewrite reverse_snoc in E]|].
  by rewrite <- E, reverse_involutive.
Qed.

Lemma split_pieces sep s w : w ∈ split sep s → sep ∉ w.
Proof.
  revert w. induction s as [|c s IH]; cbn; intros w Hw.
  - apply list_elem_of_singleton in Hw as ->. by intros ?%elem_of_nil.
  - destruct (Z.eqb_spec c sep) as [->|Hc].
    + apply elem_of_cons in Hw as [->|Hw]; [by intros ?%elem_of_nil|by apply IH].
    + destruct (split sep s) as [|v vs]; [apply list_elem_of_singleton in Hw as ->; by intros ->%list_elem_of_singleton|].
      apply elem_of_cons in Hw as [->|Hw]; [|apply IH; by right]. intros [->|Hv]%elem_of_cons; [done|]. by apply (IH v); [left|].
Qed.

Lemma file_name_plain path : 47 ∉ file_name path.
Proof.
  unfold file_name. destruct (last (split 47 path)) as [w|] eqn:E.
  - cbn. apply (split_pieces _ path). apply last_Some in E as [l ->]. apply elem_of_app. right. left.
  - apply last_None in E. destruct path as [|c path]; [done|]. cbn in E. repeat case_match; done.
Qed.

Lemma icons_path b name : head name ≠ Some 47 → path_join (path_join b (lit "icons")) name = path_join b (lit "icons") ++ 47 :: name.
Proof.
  intros Hn. rewrite path_join_prefix by done. rewrite (path_join_prefix b) by by compute_done.
  rewrite dir_prefix_name by by compute_done. by rewrite <- !app_assoc.
Qed.

(** ** Steps that make no file *)

(** However it ends, what it changes is a file no more. *)
Definition makes_no_file {A} (m : io A) : Prop := ∀ s, no_links s → no_links (m s).2 ∧
  ∀ p, nodes (m s).2 !! p = nodes s !! p ∨ ∀ text mode, nodes (m s).2 !! p ≠ Some (File text mode).

Lemma same_no_file {A} (m : io A) : (∀ s, nodes (m s).2 = nodes s) → makes_no_file m.
Proof. intros H s Hs. unfold no_links. rewrite H. split; [done|]. by left. Qed.

Lemma attempt_snd {A} (m : io A) s : (attempt m s).2 = (m s).2.
Proof. unfold attempt. by destruct (m s). Qed.

Lemma ignore_no_file {A} (m : io A) : makes_no_file m → makes_no_file (ignore m).
Proof. intros Hm s Hs. unfold ignore. rewrite bind_snd. pose proof (attempt_snd m s) as E. destruct (attempt m s) as [[] s1]; cbn in *; subst; by apply Hm. Qed.

Lemma succeeds_no_file {A} (m : io A) : makes_no_file m → makes_no_file (succeeds m).
Proof. intros Hm s Hs. unfold succeeds. rewrite bind_snd. pose proof (attempt_snd m s) as E. destruct (attempt m s) as [[] s1]; cbn in *; subst; by apply Hm. Qed.

Lemma shrinks_no_file {A} (m : io A) : (∀ s p n, nodes (m s).2 !! p = Some n → nodes s !! p = Some n) → makes_no_file m.
Proof.
  intros H s Hs. split; [by intros p t E%H; destruct (Hs p t)|]. intros p.
  destruct (nodes (m s).2 !! p) as [n|] eqn:E; [left; by rewrite (H _ _ _ E)|by right].
Qed.

Lemma remove_file_no_file path : makes_no_file (remove_file path).
Proof.
  apply shrinks_no_file. intros s p n. unfold remove_file. rewrite fault_bind, look_bind. unfold symlink_metadata. cbn [nodes advance].
  destruct (fault_of s), (nodes s !! path) as [[]|]; cbn; try done; by intros [_ ?]%lookup_delete_Some.
Qed.

Lemma remove_dir_no_file path : makes_no_file (remove_dir_all path).
Proof.
  apply shrinks_no_file. intros s p n. unfold remove_dir_all. destruct (fault_of s), (nodes s !! path) as [[]|]; cbn [snd nodes]; try done.
  - intros [_ H]%lookup_delete_Some. by apply map_lookup_filter_Some in H as [].
  - intros H. by apply map_lookup_filter_Some in H as [].
Qed.

Lemma create_dir_no_file path : makes_no_file (create_dir_all path).
Proof.
  intros s Hs. destruct (only_create_dir (λ q, q = path) path eq_refl s Hs) as [H1 H2]. split; [done|]. intros p.
  destruct (decide (p = path)) as [->|Hp]; [|left; by apply H2]. unfold create_dir_all. rewrite fault_bind, look_bind, canonical_plain by auto with vbox. cbn [nodes advance].
  destruct (fault_of s), (nodes s !! path) as [[]|] eqn:E; cbn; rewrite ?E; cbn; rewrite ?lookup_insert_eq; eauto; right; intros ? ?; by rewrite lookup_insert_eq.
Qed.
#[export] Hint Resolve remove_file_no_file remove_dir_no_file create_dir_no_file ignore_no_file succeeds_no_file : vbox.

(** ** Pictures stay whole *)

Section places.
Context (ctx : AppContext).
Abbreviation primary := (icon_cache_dir ctx).

Definition cached_png (path : rstring) : Prop := ∃ name, 47 ∉ name ∧ path = path_join primary (name ++ lit ".png").

Lemma png_head name : 47 ∉ name → head (name ++ lit ".png") ≠ Some 47.
Proof. destruct name as [|c name]; [done|]. cbn. intros H [= ->]. set_solver. Qed.

(** A path that is none of the pictures': it ends otherwise, or lies in a directory of its own. *)
Lemma not_png path : last path ≠ Some 103 → ¬ cached_png path.
Proof. intros H (name & Hn & ->). apply H. unfold icon_cache_dir. rewrite icons_path by by apply png_head.
  rewrite app_comm_cons, app_assoc. by apply last_app_Some; left.
Qed.

Lemma deeper_not_png dir name : dir ≠ [] → head dir ≠ Some 47 → head name ≠ Some 47 → ¬ cached_png (path_join (path_join primary dir) name).
Proof.
  intros Hd Hh Hn (n & Hs & H). unfold icon_cache_dir in H. rewrite (icons_path _ dir), (icons_path _ (n ++ _)) in H by (done || by apply png_head).
  rewrite path_join_prefix in H by done. unfold dir_prefix in H.
  assert (47 ∈ n ++ lit ".png") as Hin.
  { case_bool_decide as E.
    - rewrite <- app_assoc in H. cbn [app] in H. apply app_inv_head in H. injection H as H.
      replace (n ++ lit ".png") with (dir ++ name) by exact H.
      destruct E as [E|E]; [by apply app_nil in E as [_ ?]|]. destruct dir as [|c dir _] using rev_ind; [done|].
      rewrite app_comm_cons, app_assoc, last_snoc in E. injection E as ->. set_solver.
    - rewrite <- !app_assoc in H. cbn [app] in H. apply app_inv_head in H. injection H as H.
      replace (n ++ lit ".png") with (dir ++ 47 :: name) by exact H. set_solver. }
  apply elem_of_app in Hin as [|Hin]; [done|]. revert Hin. by compute_done.
Qed.

Lemma in_primary name : head name ≠ Some 47 → path_join primary name = primary ++ 47 :: name.
Proof. apply icons_path. Qed.

Lemma primary_ne : primary ≠ [].
Proof. unfold icon_cache_dir. rewrite path_join_prefix by done. by intros [_ ?]%app_nil. Qed.

Lemma plain_head name : 47 ∉ name → head name ≠ Some 47.
Proof. destruct name as [|c name]; [done|]. cbn. intros H [= ->]. set_solver. Qed.

Lemma name_not_png name : name ≠ [] → head name ≠ Some 47 → last name ≠ Some 103 → ¬ cached_png (path_join primary name).
Proof. intros Hn Hh Hl. apply not_png. rewrite in_primary by done. rewrite last_app_cons. by destruct name. Qed.

Lemma parent_primary name : 47 ∉ name → dir_of (path_join primary name) = primary.
Proof. intros Hn. rewrite in_primary by by apply plain_head. apply dir_of_name; [apply primary_ne|done]. Qed.
End places.

Section whole.
#[local] Set Default Proof Using "Type".
Context (tool : command → files → bool * option rstring) (ctx : AppContext).
Abbreviation primary := (icon_cache_dir ctx).
Abbreviation cached_png := (cached_png ctx).

(** What is a whole picture. A program that reports success has written one. *)
Context (picture : rstring → Prop).
Hypothesis tool_whole : ∀ c s, (tool c s).1 = true → ∃ text, (tool c s).2 = Some text ∧ picture text.

Definition whole (path : rstring) (s : files) : Prop := ∀ text mode, nodes s !! path = Some (File text mode) → picture text.

Definition whole_cache (s : files) : Prop := no_links s ∧ ∀ path, cached_png path → whole path s.

Lemma elsewhere {A} (m : io A) : only (λ q, ¬ cached_png q) m → keeps whole_cache true_pre m true_post.
Proof.
  intros Hm s [Hs Hw] _. destruct (Hm s Hs) as [H1 H2]. split; [split; [done|]|done].
  intros p Hp text mode. rewrite H2 by (intros H; by apply H). by apply Hw.
Qed.

(** A step that makes no file keeps every picture whole. *)
Lemma no_file_when {A} (φ : Prop) r (m : io A) : makes_no_file m →
  keeps whole_cache (λ s, φ → whole r s) m (λ _ s, φ → whole r s).
Proof.
  intros Hm s [Hs Hw] Hr. destruct (Hm s Hs) as [H1 H2].
  assert (∀ p, whole p s → whole p (m s).2) as H. { intros p Hp text mode Hn. destruct (H2 p) as [E|E]; [rewrite E in Hn; by eapply Hp|by destruct (E _ _ Hn)]. }
  split; [split; [done|]; intros; by apply H, Hw|]. intros _ _ Hφ. by apply H, Hr.
Qed.

Lemma no_file_always {A} (m : io A) : makes_no_file m → keeps whole_cache true_pre m true_post.
Proof. intros Hm s Hs _. split; [|done]. by apply (no_file_when False [] m Hm s Hs). Qed.

Lemma write_keeps path content : ¬ cached_png path → keeps whole_cache true_pre (write path content) (λ _ s, picture content → whole path s).
Proof.
  intros Hp s [Hs Hw] _. split; [by apply (elsewhere (write path content)); [apply only_write|..]|].
  intros u Hu Hc text mode Hn. destruct (write path content s) as [r s'] eqn:E. cbn in Hu, Hn. subst r.
  apply write_ok in E as (E & _); [|done]. rewrite E, lookup_insert_eq in Hn. by injection Hn as <-.
Qed.

Lemma tool_keeps program args output : ¬ cached_png output →
  keeps whole_cache true_pre (run_tool tool program args output) (λ ok s, ok = true → whole output s).
Proof using Type tool_whole.
  intros Hp s [Hs Hw] _. unfold run_tool. rewrite look_bind.
  destruct (tool (mkCommand program args []) s) as [ok w] eqn:E. pose proof (tool_whole (mkCommand program args []) s) as Ht. rewrite E in Ht. cbn [fst snd] in Ht.
  destruct w as [text|]; unfold mbind, io_bind, put, mret, io_ret; cbn [fst snd].
  - split.
    + split; [by destruct s; eapply no_links_insert|]. intros p Hq t m. cbn. rewrite lookup_insert_ne by naive_solver. by apply Hw.
    + intros a [= <-] ->. destruct (Ht eq_refl) as (t & [= <-] & Hpic). intros t' m. cbn. rewrite lookup_insert_eq. by intros [= <- _].
  - split; [done|]. intros a [= <-] ->. by destruct (Ht eq_refl) as (t & [=] & _).
Qed.

Lemma rename_keeps src dst : keeps whole_cache (whole src) (rename src dst) (λ _, whole dst).
Proof.
  intros s [Hs Hw] Hsrc. unfold rename. rewrite fault_bind, look_bind. cbn [nodes advance].
  assert (∀ content mode, nodes s !! src = Some (File content mode) →
    let s' := (put dst (File content mode) (drop_node src (advance s)).2).2 in whole_cache s' ∧ whole dst s') as Hmove.
  { intros content mode Hn s'. assert (∀ p, p ≠ dst → whole p s → whole p s') as Hother.
    { intros p Hp Hwp t m. unfold s'. cbn. rewrite lookup_insert_ne by done. intros [_ ?]%lookup_delete_Some. by eapply Hwp. }
    assert (whole dst s') as Hdst by (intros t m; unfold s'; cbn; rewrite lookup_insert_eq; intros [= <- _]; by eapply Hsrc).
    split; [|done]. split.
    - intros p t. unfold s'. cbn. destruct (decide (p = dst)) as [->|]; [by rewrite lookup_insert_eq|]. rewrite lookup_insert_ne by done.
      intros [_ ?]%lookup_delete_Some. by eapply Hs.
    - intros p Hp. destruct (decide (p = dst)) as [->|]; [done|]. by apply Hother, Hw. }
  destruct (fault_of s), (nodes s !! src) as [[]|] eqn:E, (nodes s !! dst) as [[]|]; try (split; [by split|done]);
    destruct (Hmove _ _ eq_refl) as [H1 H2]; (split; [exact H1|]; intros; exact H2).
Qed.

Lemma copy_keeps src dst : ¬ cached_png dst → keeps whole_cache (whole src) (copy src dst) (λ _, whole dst).
Proof.
  intros Hd s [Hs Hw] Hsrc. unfold copy. rewrite fault_bind, look_bind, node_plain, leads_plain by auto with vbox. cbn [nodes advance].
  assert (∀ text mode, whole_cache (put dst (File text mode) (advance s)).2) as Hput.
  { intros text mode. split; [by destruct s; eapply no_links_insert|]. intros p Hp t m. cbn. rewrite lookup_insert_ne by naive_solver. by apply Hw. }
  destruct (nodes s !! src) as [[|content mode|]|] eqn:E; try (split; [by split|done]).
  assert (whole dst (put dst (File content mode) (advance s)).2) as Hnew
    by (intros t m; cbn; rewrite lookup_insert_eq; intros [= <- _]; by eapply Hsrc).
  destruct (nodes s !! dst) as [[]|]; try (split; [by split|done]); destruct (fault_of s); (split; [first [apply Hput|by split]|]); done.
Qed.

(** *** The conversions *)

Lemma kept (m : io unit) : keeps whole_cache true_pre m true_post → ∀ A (a : A), keeps whole_cache true_pre (m;; mret a) true_post.
Proof. intros Hm A a. apply keeps_then; [done|]. intros _. by apply keeps_value. Qed.

Lemma svg_keeps stamp svg name : name ≠ [] → 47 ∉ name → last name ≠ Some 103 →
  keeps whole_cache true_pre (convert_svg_to_png tool stamp svg (path_join primary name)) (λ ok s, ok = true → whole (path_join primary name) s).
Proof using Type tool_whole.
  intros Hn Hs Hl. pose proof (name_not_png ctx name Hn (plain_head _ Hs) Hl) as Hpng.
  unfold convert_svg_to_png. rewrite parent_primary by done.
  eapply keeps_step; [by apply tool_keeps|]. intros [|]; cbn match; [by apply keeps_value; auto|].
  apply keeps_forget.
  apply keeps_then; [by apply no_file_always; auto with vbox|]. intros _. apply keeps_then; [by apply no_file_always; auto with vbox|].
  intros [|]; cbn [negb]; [|by apply keeps_value; intros ? _ [=]].
  eapply keeps_step; [apply tool_keeps, deeper_not_png; [done|done|apply png_head, file_name_plain]|]. intros ok.
  eapply keeps_step; [by apply no_file_when, same_no_file|]. intros there.
  eapply (keeps_step _ _ (λ ok s, ok = true → whole (path_join primary name) s)).
  { destruct ok, there; cbn [andb]; try (by apply keeps_value; intros ? _ [=]). eapply keeps_succeeds, keeps_pre; [|apply rename_keeps]. by auto. }
  intros ok2. eapply keeps_step; [apply no_file_when; by auto with vbox|]. intros ?. by apply keeps_value.
Qed.

Lemma guest_icon_keeps stamp input ext name : name ≠ [] → 47 ∉ name → last name ≠ Some 103 →
  keeps whole_cache (λ s, ext = lit "png" → whole input s) (convert_guest_icon_to_png tool stamp input ext (path_join primary name))
    (λ ok s, ok = true → whole (path_join primary name) s).
Proof using Type tool_whole.
  intros Hn Hs Hl. pose proof (name_not_png ctx name Hn (plain_head _ Hs) Hl) as Hpng.
  unfold convert_guest_icon_to_png. case_bool_decide as E; [|apply keeps_forget; case_bool_decide].
  - eapply keeps_succeeds, keeps_pre; [|by apply copy_keeps]. intros s H. by apply H.
  - by apply svg_keeps.
  - by apply tool_keeps.
Qed.

Lemma scale_keeps png iconset sizes : iconset ≠ [] → head iconset ≠ Some 47 → Forall (λ kv, head kv.1 ≠ Some 47) sizes →
  keeps whole_cache true_pre (scale_all tool png (path_join primary iconset) sizes) true_post.
Proof using Type tool_whole.
  intros Hi Hh. induction 1 as [|[name size] sizes Hname _ IH]; [by apply keeps_value|]. cbn [scale_all].
  eapply keeps_step; [by apply tool_keeps, deeper_not_png|]. intros ok. apply keeps_forget.
  destruct ok; [done|by apply keeps_value].
Qed.

Lemma icns_keeps stamp png name : name ≠ [] → 47 ∉ name → last name ≠ Some 103 →
  keeps whole_cache true_pre (convert_png_to_icns tool stamp png (path_join primary name)) true_post.
Proof using Type tool_whole.
  intros Hn Hs Hl. pose proof (name_not_png ctx name Hn (plain_head _ Hs) Hl) as Hpng.
  unfold convert_png_to_icns. rewrite parent_primary by done.
  apply keeps_then; [by apply no_file_always; auto with vbox|]. intros _. apply keeps_then; [by apply no_file_always; auto with vbox|].
  intros [|]; cbn [negb]; [|by apply keeps_value].
  apply keeps_then; [apply scale_keeps; [done..|by repeat constructor]|]. intros scaled. apply keeps_then.
  { destruct scaled; [|by apply keeps_value]. eapply keeps_post; [by apply tool_keeps|done]. }
  intros ok. apply kept, no_file_always. auto with vbox.
Qed.

(** *** The commands *)

Lemma safe_plain id : 47 ∉ sanitize_icon_id id.
Proof. intros H%sanitize_icon_id_made_of. done. Qed.

Lemma tmp_plain safe suffix : 47 ∉ safe → 47 ∉ suffix → 47 ∉ lit "." ++ safe ++ suffix.
Proof. intros H1 H2 [H|[H|H]%elem_of_app]%elem_of_app; [|done..]. revert H. by compute_done. Qed.

Lemma elsewhere_ignore {A} (m : io A) : only (λ q, ¬ cached_png q) m → keeps whole_cache true_pre (ignore m) true_post.
Proof. intros Hm. by apply keeps_let, elsewhere. Qed.

(** A directory of icons other than this one. *)
Lemma other_dir_not_png b name : path_join b (lit "icons") ≠ primary → 47 ∉ name →
  ¬ cached_png (path_join (path_join b (lit "icons")) name).
Proof.
  intros Hd Hn (n & Hs & H). apply Hd. unfold icon_cache_dir in H. rewrite !icons_path in H by first [by apply plain_head|by apply png_head].
  apply last_slash in H as [H _]; [done|done|]. intros [?|Hi]%elem_of_app; [done|]. revert Hi. by compute_done.
Qed.

Lemma copy_icon_keeps safe b : 47 ∉ safe → path_join b (lit "icons") ≠ primary →
  keeps whole_cache true_pre (copy_icon ctx safe (path_join b (lit "icons"))) true_post.
Proof.
  intros Hs Hb. unfold copy_icon.
  assert (∀ ext, 47 ∉ ext → ¬ cached_png (path_join (path_join b (lit "icons")) (safe ++ ext))) as Hne
    by (intros ext He; apply other_dir_not_png; [done|by intros [?|?]%elem_of_app]).
  apply keeps_then; [by apply no_file_always, create_dir_no_file|]. intros _.
  apply keeps_then; [apply elsewhere_ignore, only_copy, Hne; by compute_done|]. intros _.
  apply keeps_then; [by apply no_file_always, same_no_file|]. intros there.
  destruct there; [apply elsewhere_ignore, only_copy, Hne; by compute_done|by apply keeps_value].
Qed.

Lemma copy_icons_keeps safe : 47 ∉ safe →
  keeps whole_cache true_pre (copy_icons ctx safe (filter (λ dir, dir ≠ primary) (icon_cache_dirs ctx))) true_post.
Proof.
  intros Hs. assert (Forall (λ dir, dir ≠ primary ∧ ∃ b, dir = path_join b (lit "icons")) (filter (λ dir, dir ≠ primary) (icon_cache_dirs ctx))) as Hd.
  { apply Forall_forall. intros dir [Hne Hin]%list_elem_of_filter. split; [done|].
    unfold icon_cache_dirs, machine_icon_dir in Hin. apply elem_of_app in Hin as [Hin|Hin].
    - destruct (machine_dir ctx) as [d|]; [|by apply elem_of_nil in Hin]. apply list_elem_of_singleton in Hin as ->. by exists d.
    - apply list_elem_of_singleton in Hin as ->. by exists (state_dir ctx). }
  induction Hd as [|dir dirs (Hne & b & ->) _ IH]; [by apply keeps_value|].
  apply keeps_then; [by apply copy_icon_keeps|]. by intros _.
Qed.

Lemma store_keeps stamps safe ext bytes : 47 ∉ safe → (ext = lit "png" → picture bytes) →
  keeps whole_cache true_pre (store_icon tool ctx stamps safe ext bytes) true_post.
Proof using Type tool_whole.
  intros Hs Hb. unfold store_icon.
  assert (47 ∉ lit "." ++ safe ++ lit ".png.tmp") as Hpng by (apply tmp_plain; [done|by compute_done]).
  assert (47 ∉ lit "." ++ safe ++ lit ".tmp.icns") as Hicns by (apply tmp_plain; [done|by compute_done]).
  assert (∀ name, last name ≠ None → last name ≠ Some 103 → last (lit "." ++ safe ++ name) ≠ Some 103) as Hlast
    by (intros name H1 H2; rewrite !last_app; by destruct (last name)).
  eapply keeps_step; [apply write_keeps, name_not_png; [done|done|apply Hlast; rewrite app_assoc, last_app; done]|]. intros ?.
  eapply keeps_step; [eapply keeps_pre; [|apply guest_icon_keeps; [done|done|by apply Hlast]]; by intros s H Hext; apply H, Hb|]. intros converted.
  eapply keeps_step; [apply no_file_when, ignore_no_file, remove_file_no_file|]. intros ?.
  destruct converted; cbn [negb]; [|apply keeps_forget, kept, no_file_always; auto with vbox].
  eapply keeps_step; [eapply keeps_pre; [|apply rename_keeps]; by intros s H; apply H|]. intros ?. apply keeps_forget.
  apply keeps_then; [apply icns_keeps; [done|done|by apply Hlast]|]. intros icns.
  apply keeps_then; [|intros _; apply kept, copy_icons_keeps, Hs].
  destruct icns; [|apply no_file_always; by auto with vbox]. apply elsewhere_ignore, only_rename.
  - apply name_not_png; [done|by apply plain_head|by apply Hlast].
  - apply not_png. rewrite in_primary by (apply plain_head; intros [?|H]%elem_of_app; [done|revert H; by compute_done]).
    rewrite app_comm_cons, app_assoc, last_app. done.
Qed.

Context (decode_argv_b64 : rstring → option (list rstring)) (b64 : rstring → option rstring).

Lemma cache_not_png dir : ¬ cached_png (path_join dir (lit "app-library.tsv")).
Proof. apply not_png. rewrite path_join_prefix by done. by rewrite last_app. Qed.

Lemma refresh_keeps answer : keeps whole_cache true_pre (refresh_app_library ctx answer) true_post.
Proof.
  apply keeps_then; [by apply no_file_always, same_no_file|]. intros out. unfold write_app_cache.
  apply keeps_then; [apply no_file_always; by auto with vbox|]. intros _.
  apply keeps_then; [apply elsewhere, only_write, cache_not_png|]. intros _.
  unfold machine_app_cache. destruct (machine_dir ctx) as [dir|]; [|by apply keeps_value]. cbn.
  apply keeps_then; [apply no_file_always; by auto with vbox|]. intros _. apply elsewhere, only_write, cache_not_png.
Qed.

(** The pictures that the guest sends as they are. *)
Definition sends_whole (line : rstring) : Prop := ∀ id ext encoded bytes, icon_line line = Some (id, ext, encoded) →
  plain_ext ext = lit "png" → b64 (trim encoded) = Some bytes → picture bytes.

Lemma line_keeps refresh rows stamps line : sends_whole line →
  keeps whole_cache true_pre (cache_icon tool b64 ctx refresh rows stamps line) true_post.
Proof using Type tool_whole.
  intros Hp. unfold cache_icon. destruct (icon_line line) as [[[id ext] encoded]|] eqn:El; [|by apply keeps_value].
  destruct (negb _ || _); [by apply keeps_value|]. apply keeps_then; [by apply no_file_always, same_no_file|]. intros there.
  destruct (negb refresh && there); [by apply keeps_value|].
  eapply (keeps_step _ _ (λ bytes _, b64 (trim encoded) = Some bytes)).
  { intros s Hs _. split; [done|]. intros bytes. unfold Files.lift, ok_or. destruct (b64 (trim encoded)); [by intros [= ->]|done]. }
  intros bytes. apply keeps_fact. intros Eb. apply store_keeps; [apply safe_plain|]. intros E. by eapply Hp.
Qed.

Lemma lines_keep refresh rows stamps ls : Forall sends_whole ls →
  keeps whole_cache true_pre (cache_lines tool b64 ctx refresh rows stamps ls) true_post.
Proof using Type tool_whole.
  induction 1 as [|line ls Hl _ IH]; [by apply keeps_value|]. cbn [cache_lines].
  apply keeps_then; [by apply line_keeps|]. intros one. apply keeps_then; [done|]. intros rest. by apply keeps_value.
Qed.

(** C33: a picture in the icon cache is whole. Whatever fails or is torn while the icons of the
    guest are fetched, converted and stored, a file [<name>.png] of the cache holds a whole
    picture if it did before: a torn one never gets that name. The pictures the guest sends as
    they are, and those that a converter reports to have written, are taken to be whole. *)
Theorem icons_whole refresh stamps answer icons s :
  whole_cache s → (∀ out, icons = Ok out → Forall sends_whole (lines out)) →
  whole_cache (cache_icons tool decode_argv_b64 b64 ctx refresh stamps answer icons s).2.
Proof using Type tool_whole.
  intros Hs Hicons. enough (keeps whole_cache true_pre (cache_icons tool decode_argv_b64 b64 ctx refresh stamps answer icons) true_post) as H
    by by apply H.
  apply keeps_then; [by apply no_file_always, same_no_file|]. intros there.
  apply keeps_then; [destruct (refresh || negb there); [apply refresh_keeps|by apply keeps_value]|]. intros _.
  apply keeps_then; [apply keeps_then|].
  { eapply keeps_post; [apply keeps_attempt, (elsewhere (read_to_string _)), only_read|]. done. }
  { intros text. by apply keeps_value. }
  intros [|row rows]; [by apply keeps_value|].
  eapply (keeps_step _ _ (λ out _, icons = Ok out)).
  { intros s0 Hs0 _. split; [done|]. by intros out H. }
  intros out. apply keeps_fact. intros Eout. apply keeps_then; [|intros _; by apply lines_keep, Hicons].
  clear. generalize (icon_cache_dirs ctx). intros dirs. induction dirs as [|dir dirs IH]; [by apply keeps_value|].
  apply keeps_then; [apply no_file_always; by auto with vbox|]. by intros _.
Qed.
End whole.

(** ** The copies for a machine *)

Section copies.
#[local] Set Default Proof Using "Type".
Context (tool : command → files → bool * option rstring) (b64 : rstring → option rstring) (ctx : AppContext).
Abbreviation primary := (icon_cache_dir ctx).

(** The copy of an icon for a machine is made in place and its failure ignored. When the
    write is torn the icon still counts as cached; no later run without a refresh looks at it
    again; and it is the torn copy that a launcher takes. *)
Theorem torn_copy_kept id dir n fs content mode s :
  let safe := sanitize_icon_id id in
  let png d := path_join d (safe ++ lit ".png") in
  no_links s → machine_icon_dir ctx = Some dir → safe ≠ [] →
  nodes s !! png primary = Some (File content mode) → nodes s !! dir = Some Dir → nodes s !! png dir = None →
  nodes s !! path_join primary (safe ++ lit ".icns") = None → faults s = Fine :: Torn n :: fs →
  let '(r, s1) := copy_icon ctx safe dir s in
  r = Ok tt ∧ nodes s1 !! png dir = Some (File (take n content) mode) ∧
  (∀ rows stamps line ext encoded, icon_line line = Some (id, ext, encoded) →
    id ∈ app_id <$> rows → cache_icon tool b64 ctx false rows stamps line s1 = (Ok true, s1)) ∧
  ∀ row, app_id row = id → cached_icon_path (λ p, is_file p s1) ctx row [lit "png"] = Some (png dir).
Proof.
  intros safe png Hs Hm Hsafe Hsrc Hdir Hdst Hicns Hf. destruct s as [ns fm fs0]. cbn [nodes faults] in *. subst fs0.
  set (s1 := mkFiles (<[png dir := File (take n content) mode]> ns) fm fs).
  assert (no_links s1) as Hs1 by (by eapply no_links_insert).
  assert (is_file (png dir) s1 = true) as Hfile by (unfold is_file; rewrite node_plain by done; unfold s1; cbn [nodes]; by rewrite lookup_insert_eq).
  assert (47 ∉ safe) as Hslash by apply safe_plain.
  assert (is_file (path_join primary (safe ++ lit ".icns")) s1 = false) as Hno.
  { unfold is_file. rewrite node_plain by done. unfold s1. cbn [nodes]. rewrite lookup_insert_ne; [by rewrite Hicns|]. unfold png.
    rewrite !path_join_prefix by (apply plain_head; intros [?|Hx]%elem_of_app; [done|revert Hx; by compute_done]).
    intros E%(f_equal last). by rewrite !last_app in E. }
  assert (copy_icon ctx safe dir (mkFiles ns fm (Fine :: Torn n :: fs)) = (Ok tt, s1)) as ->.
  { unfold copy_icon. fold (png primary) (png dir).
    rewrite (bind_run _ _ _ tt (mkFiles ns fm (Torn n :: fs))) by (rewrite create_dir_fine by (done || by right); cbn; by rewrite insert_id).
    rewrite (bind_run _ _ _ tt s1).
    - by rewrite look_bind, Hno.
    - unfold ignore. rewrite (bind_run _ _ _ None s1); [done|]. unfold attempt, copy.
      rewrite fault_bind, look_bind, node_plain, leads_plain by done. cbn [nodes advance]. by rewrite Hsrc, Hdst. }
  split_and!; [done|apply lookup_insert_eq|..].
  - intros rows stamps line ext encoded Hl Hrow. unfold cache_icon. rewrite Hl.
    assert (existsb (λ row, bool_decide (app_id row = id)) rows = true) as -> by
      (apply list_elem_of_fmap in Hrow as (row & -> & Hrow); apply existsb_exists; exists row; split; [by apply list_elem_of_In|by apply bool_decide_eq_true]).
    fold safe. rewrite bool_decide_false by done. cbn [negb orb]. rewrite look_bind. unfold icon_cache_dirs. rewrite Hm. change (option_list (Some dir) ++ [primary]) with [dir; primary]. cbn [existsb]. fold (png dir). by rewrite Hfile.
  - intros row <-. unfold cached_icon_path, icon_cache_dirs, icon_names. fold safe. rewrite Hm.
    assert (∃ names, filter (λ name, name ≠ []) (if bool_decide (sanitize_icon_id (app_icon row) = []) || bool_decide (sanitize_icon_id (app_icon row) = safe)
      then [safe] else [safe; sanitize_icon_id (app_icon row)]) = safe :: names) as [names ->] by (case_match; rewrite filter_cons_True by done; eauto).
    change (option_list (Some dir) ++ [primary]) with [dir; primary]. cbn [app mbind list_bind fmap list_fmap find]. change (lit "." ++ lit "png") with (lit ".png"). fold (png dir). by rewrite Hfile.
Qed.
End copies.

(** ** Witnesses *)

Module ToyIcons.
(** Every converter draws the same picture; the guest sends an SVG and that picture. *)
Definition drawn : rstring := lit "picture".
Definition tool (_ : command) (_ : files) : bool * option rstring := (true, Some drawn).
Definition decode (_ : rstring) : option (list rstring) := None.
Definition b64 (text : rstring) : option rstring := if bool_decide (text = lit "PNG") then Some drawn else Some (lit "<svg/>").
Definition ctx : AppContext :=
  mkAppContext (lit "/repo") (lit "/repo/.vbox") (lit "/repo/vbox") (Some (lit "user@guest")) (Some (lit "/home/user/vbox"))
    (lit "default") 5710 (lit "vbox-0") 1280 800 false false.
Definition tabbed (fields : list rstring) : rstring := join [9] fields ++ [10].
Definition listed (id : rstring) : rstring := tabbed [id; id; id; []; []; []; []].
Definition sent : rstring := tabbed [lit "calc"; lit "svg"; lit "SVG"] ++ tabbed [lit "edit"; lit ".PNG"; lit "PNG"].
Definition disk (faults : list fault) : files :=
  mkFiles (<[lit "/repo/.vbox/app-library.tsv" := File (listed (lit "calc") ++ listed (lit "edit")) 420]> ∅) 420 faults.
Definition fetched (faults : list fault) : result chain Z * files :=
  cache_icons tool decode b64 ctx false (λ n, (dec (Z.of_nat n), dec (Z.of_nat n))) (Ok []) (Ok sent) (disk faults).
End ToyIcons.

(** Two icons are cached; the fault tears the copy that would become the second. *)
Example two_icons :
  (ToyIcons.fetched []).1 = Ok 2 ∧
  nodes (ToyIcons.fetched []).2 !! lit "/repo/.vbox/icons/calc.png" = Some (File ToyIcons.drawn 420) ∧
  nodes (ToyIcons.fetched []).2 !! lit "/repo/.vbox/machines/user_at_guest/icons/edit.png" = Some (File ToyIcons.drawn 420).
Proof. by vm_compute. Qed.

Lemma icons_whole_witness :
  whole_cache ToyIcons.ctx (λ text, text = ToyIcons.drawn) (ToyIcons.fetched [Fine; Fine; Fine; Torn 3; Fails; Torn 2]).2.
Proof.
  apply (icons_whole ToyIcons.tool ToyIcons.ctx (λ text, text = ToyIcons.drawn)).
  - intros c s _. by eexists.
  - split.
    + intros p t. cbn. destruct (decide (p = lit "/repo/.vbox/app-library.tsv")) as [->|Hp]; [by rewrite lookup_insert_eq|].
      by rewrite lookup_insert_ne, lookup_empty by done.
    + intros p Hp text mode. cbn. destruct (decide (p = lit "/repo/.vbox/app-library.tsv")) as [->|Hn].
      * by destruct (not_png ToyIcons.ctx (lit "/repo/.vbox/app-library.tsv") ltac:(done) Hp).
      * by rewrite lookup_insert_ne, lookup_empty by done.
  - intros out [= <-]. change (lines ToyIcons.sent) with [join [9] [lit "calc"; lit "svg"; lit "SVG"]; join [9] [lit "edit"; lit ".PNG"; lit "PNG"]].
    repeat constructor; intros id ext encoded bytes [= <- <- <-]; [by vm_compute|]. intros _. vm_compute. by intros [= <-].
Defined.

Definition one_icon : files :=
  mkFiles (<[lit "/repo/.vbox/icons/calc.png" := File ToyIcons.drawn 420]>
           (<[lit "/repo/.vbox/machines/user_at_guest/icons" := Dir]> ∅)) 420 [Fine; Torn 3].

Lemma torn_copy_kept_witness : let '(r, s1) := copy_icon ToyIcons.ctx (lit "calc") (lit "/repo/.vbox/machines/user_at_guest/icons") one_icon in
  r = Ok tt ∧ ∀ row, app_id row = lit "calc" →
    cached_icon_path (λ p, is_file p s1) ToyIcons.ctx row [lit "png"] = Some (lit "/repo/.vbox/machines/user_at_guest/icons/calc.png").
Proof.
  pose proof (torn_copy_kept ToyIcons.tool ToyIcons.b64 ToyIcons.ctx (lit "calc") (lit "/repo/.vbox/machines/user_at_guest/icons") 3 []
    ToyIcons.drawn 420 one_icon) as H. cbv zeta in H. change (sanitize_icon_id (lit "calc")) with (lit "calc") in H.
  destruct (copy_icon _ _ _ _) as [r s1]. destruct H as (H1 & _ & _ & H2); [|by vm_compute..|by split].
  intros p t. cbn. destruct (decide (p = lit "/repo/.vbox/icons/calc.png")) as [->|Hp]; [by rewrite lookup_insert_eq|]. rewrite lookup_insert_ne by done.
  destruct (decide (p = lit "/repo/.vbox/machines/user_at_guest/icons")) as [->|Hq]; [by rewrite lookup_insert_eq|]. by rewrite lookup_insert_ne, lookup_empty by done.
Defined.
