(* ===== verification/Machines.v ===== *)
(** * Machines, remotes and their credentials (crates/vbox-cli/src/remote.rs, machines/, ssh.rs)

    The two files that list what can be reached (remote hosts, and overrides of the virtual
    machines), the keychain that holds the passwords, and what ssh is given for a guest. The
    files hold JSON, whose reader and writer are a parameter ([Json]); prlctl's answer, the
    environment and the clock are inputs; the keychain is a map. *)

From S2P Require Import Prelude Text Shell Runtime.

(** serde_json at a type: [to_string_pretty] and [from_str]. *)
Class Json (A : Type) := { to_json : A → option rstring; from_json : rstring → option A }.

(** Reading what was written gives it back. *)
Class JsonLaws (A : Type) `{Json A} := from_to_json (a : A) text : to_json a = Some text → from_json text = Some a.

(** ** remote.rs *)

Record RemoteHost := mkRemoteHost {
  host_name : rstring; host_ssh : rstring; host_guest_dir : rstring; host_os_kind : rstring;
  host_os_raw : rstring; host_added_at : rstring; host_identity_file : rstring; host_has_password : bool
}.

Abbreviation RemoteHosts := (list RemoteHost) (only parsing).

Record RemoteRecord := mkRemoteRecord {
  rr_id : rstring; rr_name : rstring; rr_ssh_user : rstring; rr_ssh_host : rstring; rr_guest_dir : rstring;
  rr_os_raw : rstring; rr_os_kind : rstring; rr_identity_file : rstring; rr_has_password : bool
}.

Record AddRemoteInput := mkAddRemoteInput {
  add_name : rstring; add_ssh : rstring; add_guest_dir : option rstring; add_os_kind : rstring;
  add_os_raw : rstring; add_identity_file : option rstring;
  (** What stdin holds, if the password is to be read from it. *)
  add_password_stdin : option rstring
}.

Inductive cli_error :=
  | Cannot_read | Cannot_write | Cannot_encode
  | Name_required | Ssh_not_user_host | Guest_dir_unset | Keychain_refused
  | No_such_remote (name : rstring) | Machine_not_found (target : rstring)
  | No_ssh_user | Bad_override | Unsupported_key (key : rstring)
  | Remote_not_controlled (name : rstring) | Still_running (name : rstring) | Prlctl_failed.

(** The state of the tool on the host; [writable]: its files can be replaced, [keychain_ok]:
    the keychain accepts an entry. *)
Record host := mkHost {
  remote_hosts_file : text_file; machines_file : text_file;
  keychain : gmap rstring rstring; keychain_ok : bool; writable : bool
}.

Definition set_remote_hosts_file (f : text_file) (h : host) : host :=
  mkHost f (machines_file h) (keychain h) (keychain_ok h) (writable h).
Definition set_machines_file (f : text_file) (h : host) : host :=
  mkHost (remote_hosts_file h) f (keychain h) (keychain_ok h) (writable h).
Definition set_keychain (k : gmap rstring rstring) (h : host) : host :=
  mkHost (remote_hosts_file h) (machines_file h) k (keychain_ok h) (writable h).

(** A command on the host: an answer or an error, and the host after it. *)
Definition cmd (A : Type) : Type := host → result cli_error A * host.

#[export] Instance cmd_ret : MRet cmd := λ A a h, (Ok a, h).
#[export] Instance cmd_bind : MBind cmd := λ A B f m h,
  match m h with (Ok a, h') => f a h' | (Err e, h') => (Err e, h') end.

Definition fail {A} (e : cli_error) : cmd A := λ h, (Err e, h).
Definition lift {A} (r : result cli_error A) : cmd A := λ h, (r, h).
Definition get {A} (f : host → A) : cmd A := λ h, (Ok (f h), h).

(** remote.rs's own [sanitize_id]. *)
Definition remote_char (s : rstring) (ch : char) : rstring :=
  if is_ascii_alphanumeric ch || (ch =? 46) || (ch =? 95) || (ch =? 45) then s ++ [ch]
  else if bool_decide (last s = Some 95) then s else s ++ [95].

Definition remote_sanitize_id (value : rstring) : rstring :=
  match trim_matches (Z.eqb 95) (foldl remote_char [] (to_ascii_lowercase value)) with
  | [] => lit "host"
  | out => out
  end.

Definition remote_keychain_account (name : rstring) : rstring := lit "remote:" ++ remote_sanitize_id name.

(** *** keychain.rs *)

Definition set_password (account password : rstring) : cmd unit := λ h,
  if keychain_ok h then (Ok tt, set_keychain (<[account := password]> (keychain h)) h) else (Err Keychain_refused, h).

Definition get_password (account : rstring) : cmd (option rstring) := get (λ h, keychain h !! account).

(** Whether there was an entry is not looked at. *)
Definition delete_password (account : rstring) : cmd unit := λ h, (Ok tt, set_keychain (delete account (keychain h)) h).

Section stores.
Context `{J : Json RemoteHosts}.

(** A missing file is an empty list, and so is one that does not parse. *)
Definition load : cmd RemoteHosts := λ h,
  match remote_hosts_file h with
  | Not_found => (Ok [], h)
  | Read_error => (Err Cannot_read, h)
  | Contents text => (Ok (default [] (from_json text)), h)
  end.

Definition save (hosts : RemoteHosts) : cmd unit := λ h,
  match to_json hosts with
  | None => (Err Cannot_encode, h)
  | Some text => if writable h then (Ok tt, set_remote_hosts_file (Contents text) h) else (Err Cannot_write, h)
  end.

Definition remote_record (row : RemoteHost) : option RemoteRecord :=
  '(user, ssh_host) ← split_once 64 (host_ssh row);
  Some (mkRemoteRecord (lit "remote:" ++ remote_sanitize_id (host_name row)) (host_name row) user ssh_host
          (host_guest_dir row) (host_os_raw row) (host_os_kind row) (host_identity_file row) (host_has_password row)).

Definition remote_records : cmd (list RemoteRecord) :=
  hosts ← load; mret (omap remote_record hosts).

Definition remote_find_by_ssh_target (ssh : rstring) : cmd (option RemoteRecord) :=
  rows ← remote_records;
  mret (find (λ row, bool_decide (rr_ssh_user row ++ lit "@" ++ rr_ssh_host row = ssh)) rows).

Fixpoint delete_passwords (removed : list RemoteHost) : cmd unit :=
  match removed with
  | [] => mret tt
  | row :: rest =>
      (if host_has_password row then delete_password (remote_keychain_account (host_name row)) else mret tt)
        ≫= λ _, delete_passwords rest
  end.

Definition remove_name (name : rstring) : cmd bool :=
  hosts ← load;
  let removed := filter (λ row, host_name row = name) hosts in
  let kept := filter (λ row, host_name row ≠ name) hosts in
  save kept ≫= λ _, delete_passwords removed ≫= λ _,
  mret (negb (bool_decide (length kept = length hosts))).

Definition set_has_password (name : rstring) (present : bool) : cmd unit :=
  hosts ← load;
  if existsb (λ row, bool_decide (host_name row = name)) hosts then
    save ((λ row, if bool_decide (host_name row = name)
                  then mkRemoteHost (host_name row) (host_ssh row) (host_guest_dir row) (host_os_kind row)
                         (host_os_raw row) (host_added_at row) (host_identity_file row) present
                  else row) <$> hosts)
  else fail (No_such_remote name).

(** [read_password_stdin] *)
Definition typed_password (stdin : rstring) : rstring :=
  trim_end_matches (λ c, (c =? 13) || (c =? 10)) stdin.

(** [now]: the seconds [now_string] prints. *)
Definition add_cmd (ctx : AppContext) (now : Z) (input : AddRemoteInput) : cmd unit :=
  if bool_decide (trim (add_name input) = []) then fail Name_required else
  if negb (contains (add_ssh input) (lit "@")) then fail Ssh_not_user_host else
  dir ← lift (match add_guest_dir input with Some dir => Ok dir | None => ok_or Guest_dir_unset (guest_dir ctx) end);
  let account := remote_keychain_account (add_name input) in
  has_password ← match typed_password <$> add_password_stdin input with
                 | Some (c :: value) => set_password account (c :: value) ≫= λ _, mret true
                 | _ => delete_password account ≫= λ _, mret false
                 end;
  hosts ← load;
  save (filter (λ row, host_name row ≠ add_name input) hosts ++
        [mkRemoteHost (add_name input) (add_ssh input) dir (add_os_kind input) (add_os_raw input)
           (lit "unix:" ++ dec now) (default [] (add_identity_file input)) has_password]).

Definition remove_cmd (name : rstring) : cmd unit :=
  removed ← remove_name name; if removed : bool then mret tt else fail (No_such_remote name).

End stores.

(** ** machines/ *)

(** An override: a string, a flag, or another JSON value printed as such. An entry that is not
    an object is refused where it would be changed. *)
Inductive Value := V_string (s : rstring) | V_bool (b : bool) | V_other (text : rstring).
Inductive override := Object (fields : gmap rstring Value) | Not_object.

#[export] Instance Value_eq_dec : EqDecision Value.
Proof. solve_decision. Defined.

Definition as_str (v : Value) : option rstring := match v with V_string s => Some s | _ => None end.
Definition as_bool (v : Value) : option bool := match v with V_bool b => Some b | _ => None end.
Definition as_object (o : override) : option (gmap rstring Value) :=
  match o with Object fields => Some fields | Not_object => None end.

Abbreviation overrides := (gmap rstring override) (only parsing).

Record MachineRecord := mkMachineRecord {
  uuid : rstring; name : rstring; status : rstring; ip : rstring; os_raw : rstring; os_kind : rstring;
  ssh_user : rstring; ssh_host : rstring; machine_guest_dir : rstring; machine_identity_file : rstring;
  machine_has_password : bool
}.

(** A virtual machine as prlctl lists it: the fields that are strings. *)
Record vm := mkVm {
  vm_uuid : option rstring; vm_name : option rstring; vm_status : option rstring;
  vm_ip_configured : option rstring; vm_OS : option rstring
}.

Inductive MachineKind := Parallels (uuid : rstring) | Remote (name : rstring).

Definition from_record (record : MachineRecord) : MachineKind :=
  if starts_with (lit "remote:") (uuid record) then Remote (name record) else Parallels (uuid record).

Definition kind_keychain_account (k : MachineKind) : rstring :=
  match k with
  | Remote name => remote_keychain_account name
  | Parallels uuid => lit "parallels:" ++ uuid
  end.

Definition classify_os (os_raw name : rstring) : rstring :=
  let hay := to_ascii_lowercase (os_raw ++ lit " " ++ name) in
  let any := existsb (contains hay) in
  if any [lit "windows"; lit "win-"; lit "win10"; lit "win11"] then lit "windows"
  else if any [lit "macos"; lit "darwin"; lit "osx"] then lit "macos"
  else if any [lit "fedora"; lit "ubuntu"; lit "debian"; lit "linux"; lit "centos"; lit "rhel"; lit "arch";
               lit "suse"; lit "mint"] then lit "linux"
  else lit "unknown".

Definition validate_config_key (key : rstring) : bool :=
  existsb (λ k, bool_decide (key = k))
    [lit "ssh_user"; lit "ssh_host"; lit "ssh_port"; lit "identity_file"; lit "guest_dir"; lit "port"; lit "socket";
     lit "width"; lit "height"; lit "debug"; lit "tls"; lit "notes"; lit "password"].

Inductive MachineStatus := St_running | St_stopped | St_suspended | St_paused | St_invalid | St_remote | St_all.

Record MachineListArgs := mkMachineListArgs {
  list_running : bool; list_stopped : bool; list_invalid : bool; list_all : bool; list_status : option MachineStatus
}.

Definition resolve_status (a : MachineListArgs) : rstring :=
  if list_running a then lit "running"
  else if list_stopped a then lit "stopped"
  else if list_invalid a then lit "invalid"
  else if list_all a then lit "all"
  else match list_status a with
       | Some St_running => lit "running" | Some St_stopped => lit "stopped"
       | Some St_suspended => lit "suspended" | Some St_paused => lit "paused"
       | Some St_invalid => lit "invalid" | Some St_remote => lit "remote"
       | Some St_all | None => lit "all"
       end.

Section machines.
Context `{J : Json RemoteHosts, JO : Json overrides}.
(** The environment, the guest's configuration, and prlctl's answer. *)
Context (env_var : rstring → option rstring) (ctx : AppContext) (vms : list vm).

Definition host_user : option rstring :=
  let named v := match env_var v with Some (c :: s) => Some (c :: s) | _ => None end in
  match named (lit "USER") with Some u => Some u | None => named (lit "LOGNAME") end.

Definition default_user : result cli_error rstring :=
  match guest ctx ≫= split_once 64 with
  | Some (c :: user, _) => Ok (c :: user)
  | _ => ok_or No_ssh_user host_user
  end.

Definition default_guest_dir (user : rstring) : rstring :=
  match guest_dir ctx with
  | Some (c :: dir) => c :: dir
  | _ => lit "/home/" ++ user ++ lit "/vbox"
  end.

Definition load_overrides : cmd overrides := λ h,
  match machines_file h with
  | Not_found => (Ok ∅, h)
  | Read_error => (Err Cannot_read, h)
  | Contents text => (Ok (default ∅ (from_json text)), h)
  end.

Definition save_overrides (o : overrides) : cmd unit := λ h,
  match to_json o with
  | None => (Err Cannot_encode, h)
  | Some text => if writable h then (Ok tt, set_machines_file (Contents text) h) else (Err Cannot_write, h)
  end.

Definition drop_override (uuid : rstring) : cmd unit := o ← load_overrides; save_overrides (delete uuid o).

Definition nonempty (s : option rstring) : option rstring := match s with Some [] => None | _ => s end.

Definition bare_uuid (machine : vm) : rstring :=
  trim_matches (λ c, (c =? 123) || (c =? 125)) (default [] (vm_uuid machine)).

Definition vm_record (o : overrides) (user dir : rstring) (machine : vm) : option MachineRecord :=
  match bare_uuid machine with
  | [] => None
  | _ =>
      let uuid := bare_uuid machine in
      let name := default [] (vm_name machine) in
      let ip := default (lit "-") (nonempty (vm_ip_configured machine)) in
      let os_raw := default [] (vm_OS machine) in
      let field key := (o !! uuid ≫= as_object) ≫= (.!! key) in
      let default_ssh_host := if bool_decide (ip = lit "-") then [] else ip in
      Some (mkMachineRecord uuid name (default [] (vm_status machine)) ip os_raw (classify_os os_raw name)
              (default user (field (lit "ssh_user") ≫= as_str))
              (default default_ssh_host (nonempty (field (lit "ssh_host") ≫= as_str)))
              (default dir (nonempty (field (lit "guest_dir") ≫= as_str)))
              (default [] (field (lit "identity_file") ≫= as_str))
              (default false (field (lit "has_password") ≫= as_bool)))
  end.

Definition remote_machine (row : RemoteRecord) : MachineRecord :=
  mkMachineRecord (rr_id row) (rr_name row) (lit "remote")
    (match rr_ssh_host row with [] => lit "-" | ip => ip end) (rr_os_raw row) (rr_os_kind row)
    (rr_ssh_user row) (rr_ssh_host row) (rr_guest_dir row) (rr_identity_file row) (rr_has_password row).

Definition records : cmd (list MachineRecord) :=
  o ← load_overrides;
  user ← lift default_user;
  rows ← remote_records;
  mret (omap (vm_record o user (default_guest_dir user)) vms ++ (remote_machine <$> rows)).

Definition find_one (target : rstring) : cmd MachineRecord :=
  rows ← records;
  lift (ok_or (Machine_not_found target)
          (find (λ row, bool_decide (uuid row = target) || bool_decide (name row = target)) rows)).

Definition find_by_ssh_target (ssh : rstring) : cmd (option MachineRecord) :=
  rows ← records;
  mret (find (λ row, bool_decide (ssh_user row ++ lit "@" ++ ssh_host row = ssh)) rows).

(** [list_cmd]: the rows of a status. *)
Definition listed (a : MachineListArgs) : cmd (list MachineRecord) :=
  rows ← records;
  let status_ := resolve_status a in
  mret (if bool_decide (status_ = lit "all") then rows else filter (λ row, status row = status_) rows).

Definition collect_extra_overrides (record : MachineRecord) : cmd (gmap rstring Value) :=
  all ← load_overrides;
  mret (filter (λ '(key, _), key ∉ [lit "ssh_user"; lit "ssh_host"; lit "guest_dir"; lit "identity_file"; lit "has_password"])
          (default ∅ (all !! uuid record ≫= as_object))).

(** *** password.rs *)

Definition mark_override_password (uuid : rstring) (present : bool) : cmd unit :=
  o ← load_overrides;
  match default (Object ∅) (o !! uuid) with
  | Not_object => fail Bad_override
  | Object fields =>
      let fields := if present then <[lit "has_password" := V_bool true]> fields
                    else delete (lit "has_password") fields in
      save_overrides (<[uuid := Object fields]> o)
  end.

Definition mark_has_password (k : MachineKind) (present : bool) : cmd unit :=
  match k with
  | Remote name => set_has_password name present
  | Parallels uuid => mark_override_password uuid present
  end.

Definition password_clear (record : MachineRecord) : cmd unit :=
  let kind := from_record record in
  delete_password (kind_keychain_account kind) ≫= λ _, mark_has_password kind false.

Definition password_set (record : MachineRecord) (password : rstring) : cmd unit :=
  match password with
  | [] => password_clear record
  | _ => let kind := from_record record in
         set_password (kind_keychain_account kind) password ≫= λ _, mark_has_password kind true
  end.

Definition set_cmd (target key value : rstring) : cmd unit :=
  if negb (validate_config_key key) then fail (Unsupported_key key) else
  row ← find_one target;
  if bool_decide (key = lit "password") then password_set row value else
  o ← load_overrides;
  match default (Object ∅) (o !! uuid row) with
  | Not_object => fail Bad_override
  | Object fields => save_overrides (<[uuid row := Object (<[key := V_string value]> fields)]> o)
  end.

Definition unset_cmd (target key : rstring) : cmd unit :=
  if negb (validate_config_key key) then fail (Unsupported_key key) else
  row ← find_one target;
  if bool_decide (key = lit "password") then password_clear row else
  o ← load_overrides;
  save_overrides (match o !! uuid row with
                  | Some (Object fields) => <[uuid row := Object (delete key fields)]> o
                  | _ => o
                  end).

(** [control_cmd]; [prlctl_ok]: prlctl did it. *)
Definition control_cmd (target : rstring) (prlctl_ok : bool) : cmd unit :=
  row ← find_one target;
  match from_record row with
  | Remote _ => fail (Remote_not_controlled (name row))
  | Parallels _ => if prlctl_ok then mret tt else fail Prlctl_failed
  end.

Definition delete_cmd (target : rstring) (prlctl_ok : bool) : cmd unit :=
  row ← find_one target;
  match from_record row with
  | Remote _ =>
      removed ← remove_name (name row);
      if removed : bool then mret tt else fail (No_such_remote (name row))
  | Parallels _ =>
      if bool_decide (status row = lit "running") then fail (Still_running (name row))
      else if prlctl_ok then drop_override (uuid row) else fail Prlctl_failed
  end.

(** *** ssh.rs: the credentials of the configured guest *)

Definition answer {A} (r : result cli_error (option A)) : option A := match r with Ok a => a | Err _ => None end.

Definition machine_creds (home : option rstring) (target : rstring) (h : host) : SshCreds :=
  match answer (find_by_ssh_target target h).1 with
  | Some row =>
      if negb (bool_decide (machine_identity_file row = [])) || machine_has_password row then
        mkSshCreds (option_path home (machine_identity_file row))
          (if machine_has_password row then Some (kind_keychain_account (from_record row)) else None)
      else mkSshCreds None None
  | None => mkSshCreds None None
  end.

Definition from_context (home : option rstring) (h : host) : SshCreds :=
  match guest ctx with
  | None | Some [] => mkSshCreds None None
  | Some target =>
      match answer (remote_find_by_ssh_target target h).1 with
      | Some row =>
          if negb (bool_decide (rr_identity_file row = [])) || rr_has_password row then
            mkSshCreds (option_path home (rr_identity_file row))
              (if rr_has_password row then Some (rr_id row) else None)
          else machine_creds home target h
      | None => machine_creds home target h
      end
  end.

(** [run_askpass]: the password printed for ssh. *)
Definition run_askpass (account : option rstring) (h : host) : option rstring :=
  match account with None | Some [] => None | Some account => keychain h !! account end.

End machines.

(** ** Lemmas *)

Lemma cmd_bind_ok {A B} (m : cmd A) (f : A → cmd B) h b h' :
  (m ≫= f) h = (Ok b, h') ↔ ∃ a h1, m h = (Ok a, h1) ∧ f a h1 = (Ok b, h').
Proof.
  unfold mbind, cmd_bind. destruct (m h) as [[a|e] h1]; [by naive_solver|].
  split; [done|]. by intros (? & ? & [=] & _).
Qed.

Lemma split_once_Some sep s a b : split_once sep s = Some (a, b) → s = a ++ sep :: b ∧ sep ∉ a.
Proof.
  revert a. induction s as [|c s IH]; intros a; [done|]. cbn. destruct (Z.eqb_spec c sep) as [->|Hc].
  { intros [= <- <-]. split; [done|apply not_elem_of_nil]. }
  destruct (split_once sep s) as [[x y]|]; [|done]. intros [= <- <-]. destruct (IH x eq_refl) as [-> Hx].
  split; [done|]. set_solver.
Qed.

Section remote_lemmas.
Context `{J : Json RemoteHosts, L : !JsonLaws RemoteHosts}.

Lemma load_keychain k h : load (set_keychain k h) = ((load h).1, set_keychain k h).
Proof. unfold load. cbn. by destruct (remote_hosts_file h). Qed.

Lemma load_host h : (load h).2 = h.
Proof. unfold load. by destruct (remote_hosts_file h). Qed.

Lemma save_ok hosts h h' :
  save hosts h = (Ok tt, h') → load h' = (Ok hosts, h') ∧ keychain h' = keychain h ∧ machines_file h' = machines_file h.
Proof.
  unfold save. destruct (to_json hosts) as [text|] eqn:Ht; [|done]. destruct (writable h); [|done].
  intros [= <-]. split_and!; [|done|done]. unfold load. cbn. by rewrite (from_to_json _ _ Ht).
Qed.

(** What [add_cmd] does when it succeeds. *)
Lemma add_cmd_ok ctx now input h h' :
  add_cmd ctx now input h = (Ok tt, h') →
  let account := remote_keychain_account (add_name input) in
  let password := default [] (typed_password <$> add_password_stdin input) in
  ∃ hosts row, (load h).1 = Ok hosts ∧
    load h' = (Ok (filter (λ row, host_name row ≠ add_name input) hosts ++ [row]), h') ∧
    host_name row = add_name input ∧ host_ssh row = add_ssh input ∧
    host_identity_file row = default [] (add_identity_file input) ∧
    host_has_password row = negb (bool_decide (password = [])) ∧
    contains (add_ssh input) (lit "@") = true ∧
    keychain h' = match password with [] => delete account (keychain h) | _ => <[account := password]> (keychain h) end.
Proof.
  intros H account. unfold add_cmd in H. cbv zeta in H. fold account in H. clearbody account.
  case_bool_decide as Hnm; [done|]. destruct (contains _ _) eqn:Hat; [|done]. cbn [negb] in H.
  apply cmd_bind_ok in H as (dir & h0 & Hdir & H). unfold lift in Hdir. injection Hdir as _ <-.
  apply cmd_bind_ok in H as (hp & h1 & Hkey & H). apply cmd_bind_ok in H as (hosts & h2 & Hload & Hsave). cbv zeta.
  assert (h1 = set_keychain (match default [] (typed_password <$> add_password_stdin input) with
                             | [] => delete account (keychain h)
                             | p => <[account := p]> (keychain h) end) h ∧
          hp = negb (bool_decide (default [] (typed_password <$> add_password_stdin input) = []))) as [-> ->].
  { destruct (typed_password <$> add_password_stdin input) as [[|c v]|]; cbn in *.
    1,3: by unfold delete_password, mbind, cmd_bind, mret, cmd_ret in Hkey; cbn in Hkey; simplify_eq.
    unfold set_password, mbind, cmd_bind, mret, cmd_ret in Hkey. destruct (keychain_ok h); by simplify_eq/=. }
  rewrite load_keychain in Hload. injection Hload as Hload <-.
  apply save_ok in Hsave as (Hafter & Hkc & _).
  eexists hosts, _. split_and!; [done|exact Hafter|done|done|done|done|done|].
  rewrite Hkc. by destruct (default [] _).
Qed.

Lemma find_remote_target h hosts target :
  (load h).1 = Ok hosts →
  answer (remote_find_by_ssh_target target h).1 =
  find (λ row, bool_decide (rr_ssh_user row ++ lit "@" ++ rr_ssh_host row = target)) (omap remote_record hosts).
Proof.
  intros Hload. unfold remote_find_by_ssh_target, remote_records, mbind, cmd_bind.
  pose proof (load_host h). destruct (load h) as [r h1]. by simplify_eq/=.
Qed.

(** The target of a record is the text it was read from. *)
Lemma remote_record_target row r : remote_record row = Some r → rr_ssh_user r ++ lit "@" ++ rr_ssh_host r = host_ssh row.
Proof.
  unfold remote_record. intros ([u hst] & Hs & [= <-])%bind_Some. cbn. by apply split_once_Some in Hs as [-> _].
Qed.

Lemma find_omap_last {A B} (f : A → option B) (p : B → bool) l a b :
  (∀ x y, x ∈ l → f x = Some y → p y = false) → f a = Some b → p b = true → find p (omap f (l ++ [a])) = Some b.
Proof.
  intros Hl Ha Hb. induction l as [|x l IH]; cbn.
  { rewrite Ha. cbn. by rewrite Hb. }
  assert (find p (omap f (l ++ [a])) = Some b) as IHl by (apply IH; intros; apply (Hl x0); set_solver).
  destruct (f x) as [y|] eqn:Hx; [|done]. cbn. rewrite (Hl x y) by set_solver. done.
Qed.

Lemma contains_split_once s : contains s (lit "@") = true → is_Some (split_once 64 s).
Proof.
  induction s as [|c s IH]; [done|]. cbn [contains split_once]. rewrite orb_true_iff, bool_decide_eq_true.
  intros [[k [= -> _]]|Hs]; [by eexists|]. destruct (c =? 64); [by eexists|].
  destruct (IH Hs) as [[x y] ->]. by eexists.
Qed.
End remote_lemmas.

(** ** Properties of the remotes *)

Section remote_properties.
Context `{J : Json RemoteHosts, L : !JsonLaws RemoteHosts, JO : Json overrides}.

(** The password typed for a remote. *)
Definition new_password (input : AddRemoteInput) : rstring := default [] (typed_password <$> add_password_stdin input).

Lemma run_askpass_some account h : account ≠ [] → run_askpass (Some account) h = keychain h !! account.
Proof. by destruct account. Qed.

(** C29: a remote that was added with a password is reached with it: for a guest that no other
    remote names, ssh's helper prints the password that was typed, and ssh is given the identity
    file of the remote. *)
Theorem saved_password_used env_var ctx ctx' vms home now input h h' hosts :
  add_cmd ctx now input h = (Ok tt, h') → new_password input ≠ [] →
  guest ctx' = Some (add_ssh input) → (load h).1 = Ok hosts →
  (∀ row, row ∈ hosts → host_name row ≠ add_name input → host_ssh row ≠ add_ssh input) →
  let creds := from_context env_var ctx' vms home h' in
  run_askpass (keychain_account creds) h' = Some (new_password input) ∧
  identity_file creds = option_path home (default [] (add_identity_file input)).
Proof.
  intros Hadd Hpw Hguest Hload Hother. apply add_cmd_ok in Hadd as (hosts' & row & Hl & Hafter & Hname & Hssh & Hid & Hp & Hat & Hk).
  rewrite Hload in Hl. injection Hl as <-. fold (new_password input) in Hp, Hk.
  rewrite bool_decide_false in Hp by done. cbn in Hp.
  destruct (contains_split_once _ Hat) as [[u hst] Hsplit].
  assert (remote_record row = Some (mkRemoteRecord (lit "remote:" ++ remote_sanitize_id (add_name input)) (add_name input)
            u hst (host_guest_dir row) (host_os_raw row) (host_os_kind row) (host_identity_file row) true)) as Hrec.
  { unfold remote_record. rewrite Hssh, Hsplit, Hname, Hp. done. }
  assert (answer (remote_find_by_ssh_target (add_ssh input) h').1 = remote_record row) as Hfind.
  { rewrite (find_remote_target h' (filter (λ row, host_name row ≠ add_name input) hosts ++ [row])) by by rewrite Hafter.
    rewrite Hrec. apply find_omap_last; [|done|].
    - intros x y Hx Hy. apply bool_decide_eq_false. rewrite (remote_record_target _ _ Hy).
      apply list_elem_of_filter in Hx as [Hn Hx]. by apply Hother.
    - apply bool_decide_eq_true. rewrite (remote_record_target _ _ Hrec). done. }
  unfold from_context. rewrite Hguest. destruct (add_ssh input) as [|c s] eqn:Hne; [by destruct u|].
  rewrite Hfind, Hrec. cbn [rr_identity_file rr_has_password rr_id]. rewrite orb_true_r. cbn [keychain_account identity_file].
  split; [|by rewrite Hid].
  fold (remote_keychain_account (add_name input)). rewrite run_askpass_some by done. rewrite Hk.
  destruct (new_password input) as [|p ps]; [done|]. apply lookup_insert_eq.
Qed.

(** Two remotes whose names differ in what the account name drops share one password:
    adding the second without a password deletes the first one's, whose record still says that
    it has one. *)
Theorem shared_account_lost ctx now now' first second h h1 h2 :
  add_name first ≠ add_name second →
  remote_keychain_account (add_name first) = remote_keychain_account (add_name second) →
  new_password first ≠ [] → new_password second = [] →
  add_cmd ctx now first h = (Ok tt, h1) → add_cmd ctx now' second h1 = (Ok tt, h2) →
  keychain h1 !! remote_keychain_account (add_name first) = Some (new_password first) ∧
  keychain h2 !! remote_keychain_account (add_name first) = None ∧
  ∃ hosts row, (load h2).1 = Ok hosts ∧ row ∈ hosts ∧ host_name row = add_name first ∧ host_has_password row = true.
Proof.
  intros Hne Hacc Hpw Hnone H1 H2.
  apply add_cmd_ok in H1 as (hosts & row & _ & Hafter & Hname & _ & _ & Hp & _ & Hk).
  apply add_cmd_ok in H2 as (hosts1 & row1 & Hl & Hafter1 & _ & _ & _ & _ & _ & Hk1).
  fold (new_password first) in Hp, Hk. fold (new_password second) in Hk1. rewrite Hnone in Hk1.
  split_and!.
  - rewrite Hk. destruct (new_password first); [done|]. apply lookup_insert_eq.
  - rewrite Hk1, Hacc. apply lookup_delete_eq.
  - rewrite Hafter in Hl. injection Hl as <-. eexists _, row. rewrite Hafter1. split_and!; [done| |done|].
    + apply elem_of_app. left. apply list_elem_of_filter. split; [congruence|]. set_solver.
    + rewrite Hp. by rewrite bool_decide_false.
Qed.

(** What the commands on remotes do to the file. *)
Inductive remote_command := Add (ctx : AppContext) (now : Z) (input : AddRemoteInput) | Remove (name : rstring)
  | Mark (name : rstring) (present : bool).

Definition run_remote (c : remote_command) : cmd unit :=
  match c with
  | Add ctx now input => add_cmd ctx now input
  | Remove name => remove_cmd name
  | Mark name present => set_has_password name present
  end.

Definition named_once (h : host) : Prop := ∀ hosts, (load h).1 = Ok hosts → NoDup (host_name <$> hosts).

Lemma save_named_once hosts h : NoDup (host_name <$> hosts) → named_once h → named_once (save hosts h).2.
Proof.
  intros Hnd Hh. unfold save. destruct (to_json hosts) as [text|] eqn:Ht; [|done]. destruct (writable h); [|done].
  intros hs. unfold load. cbn. rewrite (from_to_json _ _ Ht). by intros [= <-].
Qed.

Lemma NoDup_names_filter P `{!∀ r, Decision (P r)} (hosts : list RemoteHost) :
  NoDup (host_name <$> hosts) → NoDup (host_name <$> filter P hosts).
Proof.
  induction hosts as [|r rs IH]; [done|]. rewrite fmap_cons, NoDup_cons, filter_cons. intros [Hr Hrs].
  destruct (decide (P r)); [|auto]. rewrite fmap_cons, NoDup_cons. split; [|auto].
  intros (x & Hx & Hin)%list_elem_of_fmap. apply Hr, list_elem_of_fmap. exists x. split; [done|].
  by apply list_elem_of_filter in Hin as [_ ?].
Qed.

Lemma filter_all {A} (P : A → Prop) `{!∀ x, Decision (P x)} (l : list A) : (∀ x, x ∈ l → P x) → filter P l = l.
Proof.
  induction l as [|x l IH]; intros Hl; [done|]. rewrite filter_cons_True by (apply Hl; set_solver).
  f_equal. apply IH. intros. apply Hl. set_solver.
Qed.

Lemma delete_passwords_file removed h : load (delete_passwords removed h).2 = ((load h).1, (delete_passwords removed h).2).
Proof.
  revert h. induction removed as [|r rs IH]; intros h; [by cbn; rewrite (surjective_pairing (load h)), load_host|].
  cbn. unfold mbind, cmd_bind. destruct (host_has_password r); cbn; rewrite IH; [|done]. by rewrite load_keychain.
Qed.

Lemma named_once_load h h' : (load h').1 = (load h).1 → named_once h → named_once h'.
Proof. intros Heq Hh hosts. rewrite Heq. apply Hh. Qed.

Lemma bind_load {A} (f : RemoteHosts → cmd A) h :
  (load ≫= f) h = match (load h).1 with Ok hosts => f hosts h | Err e => (Err e, h) end.
Proof. unfold mbind, cmd_bind. pose proof (load_host h) as Hh. destruct (load h) as [[]]; by simplify_eq/=. Qed.

Lemma bind_named_once {A B} (m : cmd A) (f : A → cmd B) h :
  (∀ a, named_once (m h).2 → (m h).1 = Ok a → named_once (f a (m h).2).2) →
  named_once (m h).2 → named_once ((m ≫= f) h).2.
Proof. intros Hf Hm. unfold mbind, cmd_bind. destruct (m h) as [[a|e] h1]; cbn in *; auto. Qed.

Lemma add_cmd_named_once ctx now input h : named_once h → named_once (add_cmd ctx now input h).2.
Proof.
  intros Hh. unfold add_cmd. case_bool_decide; [done|]. destruct (negb _); [done|].
  apply bind_named_once; [|done]. intros dir _ _. cbv zeta.
  set (keychain_step := match typed_password <$> add_password_stdin input with Some (c :: value) => _ | _ => _ end).
  assert (∀ h, load (keychain_step h).2 = ((load h).1, (keychain_step h).2)) as Hload.
  { intros h0. subst keychain_step.
    assert (load h0 = ((load h0).1, h0)) as Hsame by by rewrite (surjective_pairing (load h0)), load_host.
    destruct (typed_password <$> _) as [[|c v]|]; [apply load_keychain| |apply load_keychain].
    unfold set_password, mbind, cmd_bind. destruct (keychain_ok h0); [apply load_keychain|done]. }
  apply bind_named_once; [|by eapply named_once_load; [|exact Hh]; rewrite Hload].
  intros hp Hk _. rewrite bind_load, Hload. cbn. destruct (load h).1 as [hosts|e] eqn:Hl; [|done].
  apply save_named_once; [|done]. rewrite fmap_app. apply NoDup_app. split_and!.
  - apply NoDup_names_filter, Hh, Hl.
  - intros n (r & Hn & Hr)%list_elem_of_fmap Hs%list_elem_of_singleton.
    apply list_elem_of_filter in Hr as [Hr _]. apply Hr. by rewrite <- Hn, Hs.
  - apply NoDup_singleton.
Qed.

Lemma remove_name_ok name h b h' :
  remove_name name h = (Ok b, h') →
  ∃ hosts, (load h).1 = Ok hosts ∧ (load h').1 = Ok (filter (λ row, host_name row ≠ name) hosts) ∧
           (b = true ↔ name ∈ host_name <$> hosts).
Proof.
  unfold remove_name. rewrite bind_load. destruct (load h).1 as [hosts|]; [|done].
  intros ([] & h1 & Hsave & H)%cmd_bind_ok. apply save_ok in Hsave as (Hafter & _ & _).
  apply cmd_bind_ok in H as ([] & h2 & Hdel & H). injection H as <- <-.
  exists hosts. split; [done|]. split.
  - pose proof (delete_passwords_file (filter (λ row, host_name row = name) hosts) h1) as Hd.
    rewrite Hdel in Hd. cbn in Hd. by rewrite Hd, Hafter.
  - rewrite negb_true_iff, bool_decide_eq_false. split.
    + intros Hlen. destruct (decide (name ∈ host_name <$> hosts)) as [|Hno]; [done|]. exfalso. apply Hlen.
      f_equal. apply filter_all. intros r Hr Hn. apply Hno. rewrite <- Hn. by apply list_elem_of_fmap_2.
    + intros (r & Hr & Hin)%list_elem_of_fmap Hlen.
      pose proof (length_filter_lt (λ row, host_name row ≠ name) hosts r Hin ltac:(by intros Hn; apply Hn)). lia.
Qed.

Lemma remove_name_named_once name h : named_once h → named_once (remove_name name h).2.
Proof.
  intros Hh. unfold remove_name. rewrite bind_load. destruct (load h).1 as [hosts|] eqn:Hl; [|done].
  apply bind_named_once.
  - intros _ Hs _. apply bind_named_once; [by intros|].
    eapply named_once_load; [|exact Hs]. by rewrite delete_passwords_file.
  - apply save_named_once; [|done]. apply NoDup_names_filter, Hh, Hl.
Qed.

Lemma set_has_password_named_once name present h : named_once h → named_once (set_has_password name present h).2.
Proof.
  intros Hh. unfold set_has_password. rewrite bind_load. destruct (load h).1 as [hosts|] eqn:Hl; [|done].
  destruct (existsb _ _); [|done]. apply save_named_once; [|done].
  rewrite <- list_fmap_compose. rewrite (list_fmap_ext _ host_name); [by apply Hh|].
  intros i r _. cbn. by case_bool_decide.
Qed.

(** Through any sequence of commands, failed ones among them, the file of remotes holds no
    name twice: adding replaces, removing removes the one entry. *)
Theorem remotes_named_once commands h :
  named_once h → named_once (foldl (λ h c, (run_remote c h).2) h commands).
Proof.
  revert h. induction commands as [|c cs IH]; intros h Hh; [done|]. cbn. apply IH.
  destruct c as [ctx now input|name|name present]; cbn.
  - by apply add_cmd_named_once.
  - unfold remove_cmd. apply bind_named_once; [|by apply remove_name_named_once]. by intros [] ? _.
  - by apply set_has_password_named_once.
Qed.
End remote_properties.

(** ** Properties of the machines *)

Section machine_properties.
Context `{J : Json RemoteHosts, JO : Json overrides, LO : !JsonLaws overrides}.
Context (env_var : rstring → option rstring) (ctx : AppContext) (vms : list vm).

Abbreviation the_records := (records env_var ctx vms).
Abbreviation the_machine := (find_one env_var ctx vms).
Abbreviation set_key := (set_cmd env_var ctx vms).

Lemma load_overrides_host h : (load_overrides h).2 = h.
Proof. unfold load_overrides. by destruct (machines_file h). Qed.

Lemma bind_load_overrides {A} (f : overrides → cmd A) h :
  (load_overrides ≫= f) h = match (load_overrides h).1 with Ok o => f o h | Err e => (Err e, h) end.
Proof.
  unfold mbind, cmd_bind. pose proof (load_overrides_host h) as Hh. destruct (load_overrides h) as [[]]; by simplify_eq/=.
Qed.

Lemma save_overrides_ok o h h' :
  save_overrides o h = (Ok tt, h') →
  (load_overrides h').1 = Ok o ∧ keychain h' = keychain h ∧ remote_hosts_file h' = remote_hosts_file h.
Proof.
  unfold save_overrides. destruct (to_json o) as [text|] eqn:Ht; [|done]. destruct (writable h); [|done].
  intros [= <-]. split_and!; [|done|done]. unfold load_overrides. cbn. by rewrite (from_to_json _ _ Ht).
Qed.

Lemma load_same h h' : remote_hosts_file h' = remote_hosts_file h → (load h').1 = (load h).1.
Proof. unfold load. intros ->. by destruct (remote_hosts_file h). Qed.

(** The records as a function of the two files. *)
Lemma records_eq h :
  the_records h =
  (o ← (load_overrides h).1; user ← default_user env_var ctx; hosts ← (load h).1;
   mret (omap (vm_record o user (default_guest_dir ctx user)) vms ++ (remote_machine <$> omap remote_record hosts)), h).
Proof.
  unfold records. rewrite bind_load_overrides. destruct (load_overrides h).1 as [o|]; [|done].
  unfold lift. unfold mbind at 1, cmd_bind at 1. destruct (default_user env_var ctx) as [user|]; [|done].
  unfold remote_records. unfold mbind at 1, cmd_bind at 1. rewrite bind_load. by destruct (load h).1.
Qed.

Lemma find_one_ok target h row h1 :
  the_machine target h = (Ok row, h1) → h1 = h ∧ ∃ rows, (the_records h).1 = Ok rows ∧ row ∈ rows.
Proof.
  unfold find_one. intros (rows & h2 & Hr & Hf)%cmd_bind_ok. rewrite records_eq in Hr.
  injection Hr as Hr <-. unfold lift in Hf. injection Hf as Hf <-. split; [done|]. exists rows. rewrite records_eq.
  split; [done|]. unfold ok_or in Hf. case_match eqn:Hfind; [|done]. injection Hf as ->.
  apply find_some in Hfind as [Hin _]. by apply list_elem_of_In.
Qed.

(** What a successful [set] wrote. *)
Lemma set_cmd_ok target key value h h' :
  key ≠ lit "password" → set_key target key value h = (Ok tt, h') →
  ∃ row o fields, the_machine target h = (Ok row, h) ∧ (load_overrides h).1 = Ok o ∧
    default (Object ∅) (o !! uuid row) = Object fields ∧
    (load_overrides h').1 = Ok (<[uuid row := Object (<[key := V_string value]> fields)]> o) ∧
    (load h').1 = (load h).1.
Proof.
  intros Hkey. unfold set_cmd. destruct (negb _); [done|].
  intros (row & h1 & Hrow & H)%cmd_bind_ok. destruct (find_one_ok _ _ _ _ Hrow) as [-> _].
  rewrite bool_decide_false in H by done. rewrite bind_load_overrides in H.
  destruct (load_overrides h).1 as [o|] eqn:Ho; [|done].
  destruct (default _ (o !! uuid row)) as [fields|] eqn:Hf; [|done].
  apply save_overrides_ok in H as (Hafter & _ & Hfile). exists row, o, fields. split_and!; try done. by apply load_same.
Qed.

(** A record with one field set. *)
Definition with_field (key value : rstring) (r : MachineRecord) : MachineRecord :=
  let sel k (old : rstring) := if bool_decide (key = lit k) then value else old in
  mkMachineRecord (uuid r) (name r) (status r) (ip r) (os_raw r) (os_kind r) (sel "ssh_user" (ssh_user r))
    (sel "ssh_host" (ssh_host r)) (sel "guest_dir" (machine_guest_dir r)) (sel "identity_file" (machine_identity_file r))
    (machine_has_password r).

(** The fields that an override of a virtual machine replaces, and with what. *)
Definition takes_effect (key value : rstring) : Prop :=
  key = lit "ssh_user" ∨ key = lit "identity_file" ∨ (key = lit "ssh_host" ∨ key = lit "guest_dir") ∧ value ≠ [].

Lemma vm_record_uuid o user dir machine r : vm_record o user dir machine = Some r → uuid r = bare_uuid machine.
Proof. unfold vm_record. destruct (bare_uuid machine); [done|]. by intros [= <-]. Qed.

Lemma vm_record_other o user dir machine u e :
  bare_uuid machine ≠ u → vm_record (<[u := e]> o) user dir machine = vm_record o user dir machine.
Proof. intros Hu. unfold vm_record. cbv zeta. by rewrite lookup_insert_ne. Qed.

Lemma vm_record_set o user dir machine u fields key value :
  bare_uuid machine = u → default (Object ∅) (o !! u) = Object fields → takes_effect key value →
  vm_record (<[u := Object (<[key := V_string value]> fields)]> o) user dir machine =
  with_field key value <$> vm_record o user dir machine.
Proof.
  intros Hu Hf Hkey. unfold vm_record. rewrite Hu. destruct u as [|c u]; [done|]. cbv zeta. rewrite lookup_insert_eq.
  set (u' := c :: u) in *. cbn [mbind option_bind as_object].
  assert (∀ k, (o !! u' ≫= as_object) ≫= (.!! k) = fields !! k) as Hold.
  { intros k. destruct (o !! u') as [e|]; cbn in *; [by subst|]. injection Hf as <-. by rewrite lookup_empty. }
  rewrite !Hold. cbn [fmap option_fmap option_map]. unfold with_field. cbn.
  destruct Hkey as [-> | [-> | [[-> | ->] Hv]]]; rewrite ?lookup_insert_eq, ?lookup_insert_ne by done;
    try done; by destruct value.
Qed.

Lemma remote_machine_uuid row r : remote_record row = Some r → starts_with (lit "remote:") (uuid (remote_machine r)) = true.
Proof.
  unfold remote_record. intros ([u hst] & _ & [= <-])%bind_Some. apply bool_decide_eq_true. by eexists.
Qed.

Lemma omap_fmap {A B} (f g : A → option B) (k : B → B) (l : list A) :
  (∀ x, x ∈ l → f x = k <$> g x) → omap f l = k <$> omap g l.
Proof.
  induction l as [|x l IH]; intros H; [done|]. cbn. rewrite H by set_solver. rewrite IH by (intros; apply H; set_solver).
  by destruct (g x).
Qed.

(** Setting the user, the host, the directory or the identity file of a virtual machine
    changes that field of its record and nothing else in the list of machines. *)
Theorem override_takes_effect target key value h h' rows row u :
  takes_effect key value → (the_records h).1 = Ok rows → the_machine target h = (Ok row, h) →
  from_record row = Parallels u → set_key target key value h = (Ok tt, h') →
  (the_records h').1 = Ok ((λ r, if bool_decide (uuid r = uuid row) then with_field key value r else r) <$> rows).
Proof.
  intros Hkey Hrows Hrow Hkind Hset.
  assert (key ≠ lit "password") as Hpw by (by destruct Hkey as [-> | [-> | [[-> | ->] _]]]).
  apply set_cmd_ok in Hset as (row' & o & fields & Hrow' & Ho & Hf & Ho' & Hload); [|done].
  rewrite Hrow in Hrow'. injection Hrow' as <-.
  rewrite records_eq in *. cbn [fst] in *. rewrite Ho', Hload. rewrite Ho in Hrows. cbn in *.
  destruct (default_user env_var ctx) as [user|]; [|done]. cbn in *. destruct (load h).1 as [hosts|]; [|done]. cbn in *.
  injection Hrows as <-. rewrite fmap_app. do 2 f_equal.
  - apply omap_fmap. intros m _. destruct (decide (bare_uuid m = uuid row)) as [Hm|Hm].
    + rewrite (vm_record_set _ _ _ _ _ fields) by done. destruct (vm_record o _ _ m) as [r|] eqn:Hr; [|done].
      cbn. by rewrite bool_decide_true by by rewrite (vm_record_uuid _ _ _ _ _ Hr).
    + rewrite vm_record_other by done. destruct (vm_record o _ _ m) as [r|] eqn:Hr; [|done].
      cbn. by rewrite bool_decide_false by by rewrite (vm_record_uuid _ _ _ _ _ Hr).
  - clear Hload. induction hosts as [|x l IH]; [done|]. cbn. destruct (remote_record x) as [r|] eqn:Hx; [|exact IH]. cbn.
    rewrite bool_decide_false; [f_equal; exact IH|]. intros Heq. apply remote_machine_uuid in Hx. cbn [remote_machine uuid] in Hx. rewrite Heq in Hx.
    unfold from_record in Hkind. by rewrite Hx in Hkind.
Qed.

(** On a remote the same command succeeds, writes the override, and changes nothing: the
    records of remotes are read from the other file. *)
Theorem remote_override_ignored target key value h h' row n :
  key ≠ lit "password" → the_machine target h = (Ok row, h) → from_record row = Remote n →
  (∀ m, m ∈ vms → starts_with (lit "remote:") (bare_uuid m) = false) →
  set_key target key value h = (Ok tt, h') →
  (the_records h').1 = (the_records h).1 ∧
  ∃ o, (load_overrides h').1 = Ok o ∧ (o !! uuid row ≫= as_object) ≫= (.!! key) = Some (V_string value).
Proof.
  intros Hpw Hrow Hkind Hvms Hset.
  apply set_cmd_ok in Hset as (row' & o & fields & Hrow' & Ho & Hf & Ho' & Hload); [|done].
  rewrite Hrow in Hrow'. injection Hrow' as <-. split.
  2: { eexists. split; [exact Ho'|]. rewrite lookup_insert_eq. cbn. apply lookup_insert_eq. }
  rewrite !records_eq. cbn [fst]. rewrite Ho', Hload, Ho. cbn.
  destruct (default_user env_var ctx) as [user|]; [|done]. cbn. destruct (load h).1 as [hosts|]; [|done]. cbn.
  do 2 f_equal. rewrite <- (list_fmap_id (omap (vm_record o user _) vms)). apply omap_fmap. intros m Hm.
  rewrite vm_record_other; [by destruct (vm_record _ _ _ _)|]. intros Heq. specialize (Hvms m Hm).
  unfold from_record in Hkind. rewrite <- Heq, Hvms in Hkind. done.
Qed.

(** Deleting a virtual machine forgets its overrides, the mark of its password with them,
    and leaves the password in the keychain. *)
Theorem delete_keeps_password target h h' row u :
  the_machine target h = (Ok row, h) → from_record row = Parallels u →
  delete_cmd env_var ctx vms target true h = (Ok tt, h') →
  keychain h' = keychain h ∧ ∃ o, (load_overrides h').1 = Ok o ∧ o !! uuid row = None.
Proof.
  intros Hrow Hkind. unfold delete_cmd. unfold mbind at 1, cmd_bind at 1. rewrite Hrow, Hkind.
  case_bool_decide; [done|]. unfold drop_override. rewrite bind_load_overrides.
  destruct (load_overrides h).1 as [o|]; [|done]. intros (Hafter & Hk & _)%save_overrides_ok. split; [done|].
  eexists. split; [done|]. apply lookup_delete_eq.
Qed.
End machine_properties.

(** *** Witnesses *)

(** A concrete format: texts and lists preceded by their lengths. *)
Class Format (A : Type) := { put : A → rstring; pick : rstring → option (A * rstring) }.
Class FormatLaws (A : Type) `{Format A} := pick_put (a : A) rest : pick (put a ++ rest) = Some (a, rest).

#[local] Instance format_json {A} `{Format A} : Json A :=
  {| to_json a := Some (put a); from_json text := match pick text with Some (a, []) => Some a | _ => None end |}.

#[local] Instance format_json_laws {A} `{FormatLaws A} : JsonLaws A.
Proof. intros a text [= <-]. cbn. by rewrite <- (app_nil_r (put a)), pick_put. Qed.

#[local] Instance text_format : Format rstring :=
  {| put s := Z.of_nat (length s) :: s;
     pick text := match text with n :: t => Some (take (Z.to_nat n) t, drop (Z.to_nat n) t) | [] => None end |}.

#[local] Instance text_laws : FormatLaws rstring.
Proof. intros s rest. cbn. by rewrite Nat2Z.id, take_app_length, drop_app_length. Qed.

#[local] Instance bool_format : Format bool :=
  {| put (b : bool) := [if b then 1 else 0]; pick text := match text with n :: t => Some (n =? 1, t) | [] => None end |}.

#[local] Instance bool_laws : FormatLaws bool.
Proof. by intros [] rest. Qed.

#[local] Instance pair_format {A B} `{Format A, Format B} : Format (A * B) :=
  {| put p := put p.1 ++ put p.2; pick text := '(a, t) ← pick text; '(b, t) ← pick t; Some ((a, b), t) |}.

#[local] Instance pair_laws {A B} `{FormatLaws A, FormatLaws B} : FormatLaws (A * B).
Proof. intros [a b] rest. cbn. by rewrite <- app_assoc, pick_put; cbn; rewrite pick_put. Qed.

Fixpoint pick_list {A} `{Format A} (n : nat) (text : rstring) : option (list A * rstring) :=
  match n with
  | O => Some ([], text)
  | S n' => '(a, t) ← pick text; '(l, t) ← pick_list n' t; Some (a :: l, t)
  end.

#[local] Instance list_format {A} `{Format A} : Format (list A) | 10 :=
  {| put l := Z.of_nat (length l) :: (l ≫= put);
     pick text := match text with n :: t => pick_list (Z.to_nat n) t | [] => None end |}.

#[local] Instance list_laws {A} `{FormatLaws A} : FormatLaws (list A) | 10.
Proof.
  intros l rest. cbn [put pick list_format app]. rewrite Nat2Z.id.
  induction l as [|a l IH]; [done|]. cbn [length pick_list]. rewrite bind_cons, <- app_assoc, pick_put. cbn.
  by rewrite IH.
Qed.

Section via.
Context {A B : Type} `{FormatLaws B} (f : A → B) (g : B → A) (Hfg : ∀ a, g (f a) = a).

Definition via : Format A := {| put a := put (f a); pick text := '(b, t) ← pick text; Some (g b, t) |}.

Lemma via_laws : @FormatLaws A via.
Proof. intros a rest. cbn. rewrite pick_put. cbn. by rewrite Hfg. Qed.
End via.

#[local] Instance host_format : Format RemoteHost :=
  via (λ r, (host_name r, host_ssh r, host_guest_dir r, host_os_kind r, host_os_raw r, host_added_at r,
             host_identity_file r, host_has_password r))
      (λ '(a, b, c, d, e, f, g, i), mkRemoteHost a b c d e f g i).

#[local] Instance host_laws : FormatLaws RemoteHost.
Proof. apply via_laws. by intros []. Qed.

#[local] Instance value_format : Format Value :=
  via (λ v, match v with V_string s => (true, false, s) | V_bool b => (false, b, []) | V_other t => (true, true, t) end)
      (λ x, match x with (true, false, s) => V_string s | (false, b, _) => V_bool b | (true, true, t) => V_other t end).

#[local] Instance value_laws : FormatLaws Value.
Proof. apply via_laws. by intros []. Qed.

#[local] Instance map_format {A} `{Format A} : Format (gmap rstring A) :=
  via (B := list (rstring * A)) map_to_list list_to_map.

#[local] Instance map_laws {A} `{FormatLaws A} : FormatLaws (gmap rstring A).
Proof. apply (via_laws (B := list (rstring * A))). apply list_to_map_to_list. Qed.

#[local] Instance override_format : Format override :=
  via (λ o, match o with Object f => (true, f) | Not_object => (false, ∅) end)
      (λ x : bool * gmap rstring Value, if x.1 then Object x.2 else Not_object).

#[local] Instance override_laws : FormatLaws override.
Proof. apply via_laws. by intros []. Qed.

Definition new_host : host := mkHost Not_found Not_found ∅ true true.

Definition lab (name ssh : rstring) (stdin : option rstring) : AddRemoteInput :=
  mkAddRemoteInput name ssh (Some (lit "/srv/vbox")) (lit "linux") [] None stdin.

Definition after {A} (m : cmd A) (h : host) : host := (m h).2.

Definition for_guest (g : rstring) : AppContext :=
  mkAppContext (lit "/src") (lit "/src/.vbox") (lit "/src/vbox") (Some g) None (lit "default") 5710 (lit "vbox-0") 1024 768 false true.

Definition secret : rstring := lit "pw" ++ [10].

Lemma saved_password_used_witness :
  let h := after (add_cmd sample_context 0 (lab (lit "Lab") (lit "ann@lab") (Some secret))) new_host in
  run_askpass (keychain_account (from_context no_env (for_guest (lit "ann@lab")) [] None h)) h = Some (lit "pw").
Proof.
  apply (saved_password_used no_env sample_context (for_guest (lit "ann@lab")) [] None 0
           (lab (lit "Lab") (lit "ann@lab") (Some secret)) new_host _ []); [by vm_compute|done|done|done|].
  by intros row ?%elem_of_nil.
Defined.

Lemma shared_account_lost_witness :
  let first := lab (lit "Lab A") (lit "ann@a") (Some secret) in
  let second := lab (lit "lab_a") (lit "ann@b") None in
  let h1 := after (add_cmd sample_context 0 first) new_host in
  let h2 := after (add_cmd sample_context 0 second) h1 in
  keychain h1 !! remote_keychain_account (lit "Lab A") = Some (lit "pw") ∧
  keychain h2 !! remote_keychain_account (lit "Lab A") = None.
Proof.
  intros first second h1 h2.
  destruct (shared_account_lost sample_context 0 0 first second new_host h1 h2) as (H1 & H2 & _);
    [done|by vm_compute|done|done|by vm_compute|by vm_compute|]. done.
Defined.

Lemma remotes_named_once_witness :
  named_once (after (run_remote (Add sample_context 0 (lab (lit "Lab") (lit "ann@lab") None)))
                (after (run_remote (Add sample_context 0 (lab (lit "Lab") (lit "bob@lab") None))) new_host)).
Proof.
  apply (remotes_named_once [Add sample_context 0 (lab (lit "Lab") (lit "bob@lab") None);
                             Add sample_context 0 (lab (lit "Lab") (lit "ann@lab") None)] new_host).
  intros hosts [= <-]. constructor.
Defined.

Definition sample_vm : vm := mkVm (Some (lit "{abc}")) (Some (lit "Fedora")) (Some (lit "stopped")) None None.

Lemma override_takes_effect_witness :
  let h := after (set_cmd no_env sample_context [sample_vm] (lit "Fedora") (lit "ssh_user") (lit "bob")) new_host in
  match (records no_env sample_context [sample_vm] h).1 with
  | Ok rows => ssh_user <$> rows = [lit "bob"]
  | Err _ => False
  end.
Proof.
  intros h. rewrite (override_takes_effect no_env sample_context [sample_vm] (lit "Fedora") (lit "ssh_user") (lit "bob")
    new_host h (omap (vm_record ∅ (lit "ann") (lit "/home/ann/vbox")) [sample_vm])
    (default (mkMachineRecord [] [] [] [] [] [] [] [] [] [] false) (vm_record ∅ (lit "ann") (lit "/home/ann/vbox") sample_vm))
    (lit "abc")); [by vm_compute|by left|by vm_compute..].
Defined.

Lemma remote_override_ignored_witness :
  let h0 := after (add_cmd sample_context 0 (lab (lit "Lab") (lit "ann@lab") None)) new_host in
  let h := after (set_cmd no_env sample_context [sample_vm] (lit "Lab") (lit "ssh_user") (lit "bob")) h0 in
  (records no_env sample_context [sample_vm] h).1 = (records no_env sample_context [sample_vm] h0).1.
Proof.
  intros h0 h.
  apply (remote_override_ignored no_env sample_context [sample_vm] (lit "Lab") (lit "ssh_user") (lit "bob") h0 h
    (mkMachineRecord (lit "remote:lab") (lit "Lab") (lit "remote") (lit "lab") [] (lit "linux") (lit "ann") (lit "lab")
       (lit "/srv/vbox") [] false) (lit "Lab")); [done|by vm_compute|by vm_compute| |by vm_compute].
  intros m ->%list_elem_of_singleton. by vm_compute.
Defined.

Lemma delete_keeps_password_witness :
  let h := after (set_cmd no_env sample_context [sample_vm] (lit "Fedora") (lit "password") (lit "pw")) new_host in
  let h' := after (delete_cmd no_env sample_context [sample_vm] (lit "Fedora") true) h in
  keychain h' !! lit "parallels:abc" = Some (lit "pw").
Proof.
  intros h h'.
  destruct (delete_keeps_password no_env sample_context [sample_vm] (lit "Fedora") h h'
    (mkMachineRecord (lit "abc") (lit "Fedora") (lit "stopped") (lit "-") [] (lit "linux") (lit "ann") []
       (lit "/home/ann/vbox") [] true) (lit "abc")) as [-> _]; by vm_compute.
Defined.
