(* ===== verification/Stack.v ===== *)
(** * Starting and stopping a session (crates/vbox-cli/src/runtime.rs)

    The processes a command of the tool runs: tunnels and a viewer in the background, each with
    a file that holds its pid, and commands run to their end. How each of those ends is the
    next of the [answers]; a background process lasts until it is killed, as far as the tool is
    concerned. A process starts before its file is written: when that fails the command fails
    too, but the process runs on. The credentials of ssh, the environment and the files of
    TLS are inputs. *)

From S2P Require Import Prelude Text Shell Runtime.

(** ** State *)

Record stack := mkStack {
  pid_files : gmap rstring Z;
  next_pid : Z;
  spawned : list (Z * command);
  killed : list Z;
  ran : list command;
  answers : list bool;
  unfiled : list Z
}.

Inductive run_error :=
  | Guest_unset | Guest_dir_unset | Spawn_failed | Command_failed (c : command) | No_ping | App_required | Unknown_app (query : rstring)
  | Files_failed.

Definition run_cmd (A : Type) : Type := stack → result run_error A * stack.

#[export] Instance run_ret : MRet run_cmd := λ A a s, (Ok a, s).
#[export] Instance run_bind : MBind run_cmd := λ A B f m s,
  match m s with (Ok a, s') => f a s' | (Err e, s') => (Err e, s') end.

Definition fail {A} (e : run_error) : run_cmd A := λ s, (Err e, s).

(** How the next thing outside the tool turns out. *)
Definition next_answer : run_cmd bool := λ s,
  (Ok (default false (head (answers s))),
   mkStack (pid_files s) (next_pid s) (spawned s) (killed s) (ran s) (tail (answers s)) (unfiled s)).

Definition log_run (c : command) : run_cmd unit := λ s,
  (Ok tt, mkStack (pid_files s) (next_pid s) (spawned s) (killed s) (ran s ++ [c]) (answers s) (unfiled s)).

(** [process::run] *)
Definition process_run (c : command) : run_cmd unit :=
  log_run c ≫= λ _, ok ← next_answer; if ok : bool then mret tt else fail (Command_failed c).

(** A process in the background, and the file with its pid. *)
Definition log_spawn (c : command) (path : rstring) : run_cmd unit := λ s,
  (Ok tt, mkStack (<[path := next_pid s]> (pid_files s)) (next_pid s + 1) (spawned s ++ [(next_pid s, c)])
            (killed s) (ran s) (answers s) (unfiled s)).

(** The process started, and its pid went nowhere; what was in the file is gone or still there. *)
Definition log_unfiled (c : command) (path : rstring) (gone : bool) : run_cmd unit := λ s,
  (Err Files_failed, mkStack (if gone then delete path (pid_files s) else pid_files s) (next_pid s + 1)
            (spawned s ++ [(next_pid s, c)]) (killed s) (ran s) (answers s) (unfiled s ++ [next_pid s])).

(** The log file and the process, then the directory and the file of the pid; a write takes
    the few digits or nothing. *)
Definition spawn_with_pid_file (c : command) (path : rstring) : run_cmd unit :=
  ok ← next_answer;
  if negb ok then fail Spawn_failed else
  written ← next_answer;
  if written : bool then log_spawn c path else
  gone ← next_answer;
  log_unfiled c path gone.

Definition kill_pid_file (path : rstring) : run_cmd unit := λ s,
  match pid_files s !! path with
  | None => (Ok tt, s)
  | Some pid => (Ok tt, mkStack (delete path (pid_files s)) (next_pid s) (spawned s) (killed s ++ [pid]) (ran s) (answers s) (unfiled s))
  end.

(** The outcome of a command that is tried only. *)
Definition ignore (m : run_cmd unit) : run_cmd unit := λ s, (Ok tt, (m s).2).

Section stack.
Context (env_var : rstring → option rstring) (is_file : rstring → bool) (ssh_opts : SshOptions).

(** ** The commands *)

Definition ssh_command : command := apply_to_command ssh_opts (command_new (lit "ssh")).

Definition with_args (l : list rstring) (c : command) : command := mkCommand (program c) (args c ++ l) (vars c).
Definition with_var (k v : rstring) (c : command) : command := mkCommand (program c) (args c) (vars c ++ [(k, v)]).

Definition add_default_tls_env (ctx : AppContext) (c : command) : command :=
  let tls_dir := path_join (state_dir ctx) (lit "tls") in
  let ca := path_join tls_dir (lit "ca.pem") in
  let cert := path_join tls_dir (lit "client.pem") in
  let key := path_join tls_dir (lit "client.key.pem") in
  let add k v c := match env_var k with None => with_var k v c | Some _ => c end in
  if negb (is_file ca && is_file cert && is_file key) then c else
  add (lit "VBOX_TLS_SERVER_NAME") (lit "vbox-controld")
    (add (lit "VBOX_TLS_KEY") key (add (lit "VBOX_TLS_CERT") cert (add (lit "VBOX_TLS_CA") ca c))).

Definition client_command (ctx : AppContext) : command := command_new (client_bin env_var ctx).
Definition client_ctl_command (ctx : AppContext) : command := add_default_tls_env ctx (client_command ctx).

Definition the_guest (ctx : AppContext) : run_cmd rstring :=
  match configured_guest ctx with Some g => mret g | None => fail Guest_unset end.

Definition viewer_pid (ctx : AppContext) : rstring := path_join (run_dir ctx) (lit "viewer.pid").
Definition tunnel_pid (ctx : AppContext) : rstring := path_join (run_dir ctx) (lit "tunnel.pid").
Definition control_tunnel_pid (ctx : AppContext) : rstring := path_join (run_dir ctx) (lit "control_tunnel.pid").

Definition forward_args (port guest : rstring) : list rstring :=
  [lit "-N"; lit "-L"; lit "127.0.0.1:" ++ port ++ lit ":localhost:" ++ port; guest].

(** ** The steps of a session *)

Definition control_tunnel_command (guest : rstring) : command :=
  with_args (forward_args (control_port env_var) guest) ssh_command.

(** The port of the daemon is tried first: the next answer. *)
Definition start_control_tunnel (ctx : AppContext) : run_cmd bool :=
  reachable ← next_answer;
  if reachable : bool then mret false else
  guest ← the_guest ctx;
  log_dir_made ← next_answer;
  if negb log_dir_made then fail Files_failed else
  kill_pid_file (control_tunnel_pid ctx) ≫= λ _,
  spawn_with_pid_file (control_tunnel_command guest) (control_tunnel_pid ctx) ≫= λ _,
  mret true.

Definition start_server (ctx : AppContext) : run_cmd unit :=
  process_run (with_args ([lit "ctl"; lit "start-instance"; control_addr env_var; instance ctx; dec (port ctx)]
                          ++ if debug ctx then [lit "--debug"] else []) (client_ctl_command ctx)).

Definition start_tunnel (ctx : AppContext) : run_cmd unit :=
  guest ← the_guest ctx;
  spawn_with_pid_file (with_args (forward_args (dec (port ctx)) guest) ssh_command) (tunnel_pid ctx).

Definition ping (ctx : AppContext) (timeout_secs : Z) : run_cmd unit :=
  process_run (with_args [lit "ping"; local_addr env_var ctx; lit "--timeout-secs"; dec timeout_secs] (client_command ctx)).

Fixpoint ping_loop (ctx : AppContext) (n : nat) : run_cmd unit :=
  match n with
  | O => fail No_ping
  | S n' => λ s, match ping ctx 1 s with
                 | (Ok _, s') => (Ok tt, s')
                 | (Err _, s') => ping_loop ctx n' s'
                 end
  end.

Definition wait_ping (ctx : AppContext) : run_cmd unit := ping_loop ctx 40.

Definition the_guest_dir (ctx : AppContext) : run_cmd rstring :=
  match guest_dir ctx with Some d => mret d | None => fail Guest_dir_unset end.

Definition sync (ctx : AppContext) : run_cmd unit :=
  guest ← the_guest ctx;
  dir ← the_guest_dir ctx;
  process_run (with_args [lit "-lc"; sync_script (root ctx) (to_shell_string ssh_opts (lit "ssh")) guest dir]
                 (command_new (lit "bash"))).

(** [ssh]: a script on the guest. *)
Definition ssh (ctx : AppContext) (script : rstring) : run_cmd unit :=
  guest ← the_guest ctx; process_run (with_args [guest; guest_command script] ssh_command).

Definition build_guest (ctx : AppContext) : run_cmd unit :=
  dir ← the_guest_dir ctx;
  ssh ctx (lit "cd " ++ shell_quote dir ++ lit " && cargo build --release -p vbox-server -p vbox-controld").

Definition build_all (ctx : AppContext) : run_cmd unit :=
  process_run (with_args [lit "build"; lit "--release"; lit "-p"; lit "vbox-cli"; lit "-p"; lit "vbox-client"]
                 (command_new (lit "cargo"))) ≫= λ _,
  sync ctx ≫= λ _,
  build_guest ctx.

Definition start_stack (ctx : AppContext) : run_cmd unit :=
  (if build ctx then build_all ctx else mret tt) ≫= λ _,
  start_control_tunnel ctx ≫= λ _,
  start_server ctx ≫= λ _,
  start_tunnel ctx ≫= λ _,
  wait_ping ctx.

Definition start_viewer_bg (ctx : AppContext) : run_cmd unit :=
  spawn_with_pid_file
    (with_var (lit "VBOX_DEBUG") (if debug ctx then lit "1" else lit "0")
       (with_args [lit "view"; local_addr env_var ctx; lit "--socket-name"; socket ctx; lit "--width"; dec (width ctx);
                   lit "--height"; dec (height ctx)] (client_command ctx)))
    (viewer_pid ctx).

Definition wait_socket (ctx : AppContext) : run_cmd unit :=
  process_run (with_args [lit "ctl"; lit "wait-socket"; control_addr env_var; socket ctx; lit "--timeout-ms"; lit "5000"]
                 (client_ctl_command ctx)).

Definition launch_app (ctx : AppContext) (argv : list rstring) : run_cmd unit :=
  process_run (with_args ([lit "ctl"; lit "launch-app"; control_addr env_var; lit "--wait-ready-ms";
                           default (lit "500") (env_var (lit "VBOX_LAUNCH_WAIT_READY_MS")); instance ctx; socket ctx; lit "--"]
                          ++ default_app_args argv) (client_ctl_command ctx)).

Definition stop (ctx : AppContext) : run_cmd unit :=
  kill_pid_file (viewer_pid ctx) ≫= λ _,
  kill_pid_file (tunnel_pid ctx) ≫= λ _,
  ignore (start_control_tunnel ctx ≫= λ _, mret tt) ≫= λ _,
  ignore (process_run (with_args [lit "ctl"; lit "stop-instance"; control_addr env_var; instance ctx]
                         (client_ctl_command ctx))) ≫= λ _,
  kill_pid_file (control_tunnel_pid ctx).

(** [wait_viewer] returns when the viewer is gone: nothing of the state is changed by it. *)
Definition stop_unless_kept (ctx : AppContext) : run_cmd unit :=
  if bool_decide (env_var (lit "VBOX_KEEP") = Some (lit "1")) then mret tt else stop ctx.

Definition with_debug (ctx : AppContext) : AppContext :=
  mkAppContext (root ctx) (state_dir ctx) (cli_path ctx) (guest ctx) (guest_dir ctx) (instance ctx) (port ctx)
    (socket ctx) (width ctx) (height ctx) true (build ctx).

Definition run_app (ctx : AppContext) (argv : list rstring) (debug : bool) : run_cmd unit :=
  let argv := default_app_args argv in
  let ctx := if debug then with_debug ctx else ctx in
  start_stack ctx ≫= λ _,
  start_viewer_bg ctx ≫= λ _,
  wait_socket ctx ≫= λ _,
  launch_app ctx argv ≫= λ _,
  stop_unless_kept ctx.

Definition view (ctx : AppContext) : run_cmd unit :=
  start_stack ctx ≫= λ _,
  start_viewer_bg ctx ≫= λ _,
  wait_socket ctx ≫= λ _,
  stop_unless_kept ctx.

Definition launch (ctx : AppContext) (argv : list rstring) : run_cmd unit :=
  let argv := default_app_args argv in
  start_stack ctx ≫= λ _,
  start_viewer_bg ctx ≫= λ _,
  wait_socket ctx ≫= λ _,
  launch_app ctx argv.

Definition memo (ctx : AppContext) (args : list rstring) : run_cmd unit :=
  run_app ctx ([lit "gnome-text-editor"; lit "--standalone"; lit "--ignore-session"] ++ args) true.

Definition app (ctx : AppContext) (argv : list rstring) : run_cmd unit :=
  match argv with
  | [] => fail App_required
  | _ => wait_socket ctx ≫= λ _, launch_app ctx argv
  end.

(** [bench_data_plane]: the pings that were answered and those that were not. *)
Fixpoint ping_samples (ctx : AppContext) (n : nat) (ok fail : Z) : stack → (Z * Z) * stack := λ s,
  match n with
  | O => ((ok, fail), s)
  | S n' => match ping ctx 2 s with
            | (Ok _, s') => ping_samples ctx n' (ok + 1) fail s'
            | (Err _, s') => ping_samples ctx n' ok (fail + 1) s'
            end
  end.

Definition status_call (ctx : AppContext) (started : bool) : run_cmd unit := λ s,
  let '(r, s') := process_run (with_args [lit "ctl"; lit "status"; control_addr env_var] (client_ctl_command ctx)) s in
  if started then (r, (kill_pid_file (control_tunnel_pid ctx) s').2) else (r, s').

Definition status (ctx : AppContext) : run_cmd unit :=
  ignore (ssh ctx (lit "systemctl --user status vbox-controld.service --no-pager")) ≫= λ _,
  started ← start_control_tunnel ctx; status_call ctx started.

End stack.

(** ** What a command keeps *)

(** [m] keeps [I], whether it succeeds or fails. *)
Definition keeps (I : stack → Prop) {A} (m : run_cmd A) : Prop := ∀ s, I s → I (m s).2.

(** If [m] succeeds from [P], [Q] holds of the state after it. *)
Definition leads {A} (P : stack → Prop) (m : run_cmd A) (Q : stack → Prop) : Prop :=
  ∀ s a s', P s → m s = (Ok a, s') → Q s'.

Lemma keeps_bind I {A B} (m : run_cmd A) (f : A → run_cmd B) : keeps I m → (∀ a, keeps I (f a)) → keeps I (m ≫= f).
Proof.
  intros Hm Hf s Hs. unfold mbind, run_bind. specialize (Hm s Hs). destruct (m s) as [[a|e] s1]; [|done].
  by apply Hf.
Qed.

Lemma keeps_ret I {A} (a : A) : keeps I (mret a).
Proof. by intros s. Qed.

Lemma keeps_fail I {A} e : keeps I (fail e : run_cmd A).
Proof. by intros s. Qed.

Lemma keeps_ignore I (m : run_cmd unit) : keeps I m → keeps I (ignore m).
Proof. intros Hm s Hs. by apply Hm. Qed.

Lemma keeps_if I {A} (b : bool) (m1 m2 : run_cmd A) : keeps I m1 → keeps I m2 → keeps I (if b then m1 else m2).
Proof. by destruct b. Qed.

Lemma leads_bind {A B} (P Q R : stack → Prop) (m : run_cmd A) (f : A → run_cmd B) :
  leads P m Q → (∀ a, leads Q (f a) R) → leads P (m ≫= f) R.
Proof.
  intros Hm Hf s b s' Hs. unfold mbind, run_bind. destruct (m s) as [[a|e] s1] eqn:Hms; [|done].
  apply Hf. by eapply Hm.
Qed.

Lemma leads_keeps {A} (I : stack → Prop) (m : run_cmd A) : keeps I m → leads I m I.
Proof. intros Hm s a s' Hs Heq. specialize (Hm s Hs). by rewrite Heq in Hm. Qed.

Lemma run_bind_ok {A B} (m : run_cmd A) (f : A → run_cmd B) s b s' :
  (m ≫= f) s = (Ok b, s') ↔ ∃ a s1, m s = (Ok a, s1) ∧ f a s1 = (Ok b, s').
Proof.
  unfold mbind, run_bind. destruct (m s) as [[a|e] s1]; [by naive_solver|]. split; [done|]. by intros (? & ? & [=] & _).
Qed.

Create HintDb stack discriminated.
#[export] Hint Resolve keeps_bind keeps_ret keeps_fail keeps_ignore keeps_if : stack.

(** Everything that only runs commands to their end keeps what does not speak of the answers
    and of what ran. *)
Definition background (I : stack → Prop) : Prop :=
  ∀ s r a, I s ↔ I (mkStack (pid_files s) (next_pid s) (spawned s) (killed s) r a (unfiled s)).

Section background.
Context (I : stack → Prop) (HI : background I).

Lemma keeps_next_answer : keeps I next_answer.
Proof. intros s Hs. by apply (HI s (ran s) (tail (answers s))). Qed.

Lemma answered s a : I s → I (mkStack (pid_files s) (next_pid s) (spawned s) (killed s) (ran s) a (unfiled s)).
Proof. apply (HI s (ran s) a). Qed.

Lemma keeps_log_run c : keeps I (log_run c).
Proof. intros s Hs. by apply (HI s (ran s ++ [c]) (answers s)). Qed.

Lemma keeps_process_run c : keeps I (process_run c).
Proof.
  unfold process_run. apply keeps_bind; [apply keeps_log_run|intros _].
  apply keeps_bind; [apply keeps_next_answer|intros []]; [apply keeps_ret|apply keeps_fail].
Qed.

Lemma keeps_spawn c path :
  keeps I (log_spawn c path) → (∀ gone, keeps I (log_unfiled c path gone)) → keeps I (spawn_with_pid_file c path).
Proof.
  intros H1 H2. unfold spawn_with_pid_file. apply keeps_bind; [apply keeps_next_answer|intros []]; [|apply keeps_fail].
  apply keeps_bind; [apply keeps_next_answer|intros []]; [done|]. apply keeps_bind; [apply keeps_next_answer|done].
Qed.

Context (env_var : rstring → option rstring) (is_file : rstring → bool) (ssh_opts : SshOptions) (ctx : AppContext).

Lemma keeps_the_guest : keeps I (the_guest ctx).
Proof. unfold the_guest. destruct (configured_guest ctx); [apply keeps_ret|apply keeps_fail]. Qed.

Lemma keeps_the_guest_dir : keeps I (the_guest_dir ctx).
Proof. unfold the_guest_dir. destruct (guest_dir ctx); [apply keeps_ret|apply keeps_fail]. Qed.

#[local] Hint Resolve keeps_process_run keeps_the_guest keeps_the_guest_dir keeps_next_answer : stack.

Lemma keeps_build_all : keeps I (build_all ssh_opts ctx).
Proof. unfold build_all, sync, build_guest, ssh. auto 10 with stack. Qed.

Lemma keeps_wait_ping : keeps I (wait_ping env_var ctx).
Proof.
  unfold wait_ping. generalize 40%nat as n. intros n. induction n as [|n IH]; intros s Hs; [done|]. cbn [ping_loop].
  pose proof (keeps_process_run (with_args [lit "ping"; local_addr env_var ctx; lit "--timeout-secs"; dec 1]
    (client_command env_var ctx)) s Hs) as H1. unfold ping. destruct (process_run _ s) as [[]]; [done|]. by apply IH.
Qed.

(** What killing and starting processes keeps as well, every command keeps. *)
Context (Hkill : ∀ path, keeps I (kill_pid_file path)) (Hspawn : ∀ c path, keeps I (log_spawn c path))
  (Hunfiled : ∀ c path gone, keeps I (log_unfiled c path gone)).

Lemma keeps_spawn_with c path : keeps I (spawn_with_pid_file c path).
Proof. by apply keeps_spawn. Qed.

#[local] Hint Resolve keeps_build_all keeps_wait_ping keeps_spawn_with Hkill : stack.

Lemma keeps_start_control_tunnel : keeps I (start_control_tunnel env_var ssh_opts ctx).
Proof. unfold start_control_tunnel. auto 10 with stack. Qed.

Lemma keeps_start_tunnel : keeps I (start_tunnel ssh_opts ctx).
Proof. unfold start_tunnel. auto 10 with stack. Qed.

Lemma keeps_start_viewer_bg : keeps I (start_viewer_bg env_var ctx).
Proof. unfold start_viewer_bg. auto 10 with stack. Qed.

#[local] Hint Resolve keeps_start_control_tunnel keeps_start_tunnel keeps_start_viewer_bg : stack.

Lemma keeps_start_stack : keeps I (start_stack env_var is_file ssh_opts ctx).
Proof. unfold start_stack, start_server. auto 10 with stack. Qed.

#[local] Hint Resolve keeps_start_stack : stack.

Lemma keeps_stop : keeps I (stop env_var is_file ssh_opts ctx).
Proof. unfold stop. auto 20 with stack. Qed.

Lemma keeps_launch argv : keeps I (launch env_var is_file ssh_opts ctx argv).
Proof. unfold launch, wait_socket, launch_app. auto 20 with stack. Qed.
End background.

(** ** The ping loop *)

Definition ping_command (env_var : rstring → option rstring) (ctx : AppContext) : command :=
  with_args [lit "ping"; local_addr env_var ctx; lit "--timeout-secs"; dec 1] (client_command env_var ctx).

(** The state after [n] pings. *)
Definition after_pings env_var ctx (n : nat) (s : stack) : stack :=
  mkStack (pid_files s) (next_pid s) (spawned s) (killed s)
    (ran s ++ replicate n (ping_command env_var ctx)) (drop n (answers s)) (unfiled s).

Lemma after_pings_S env_var ctx n s :
  after_pings env_var ctx n (after_pings env_var ctx 1 s) = after_pings env_var ctx (S n) s.
Proof. unfold after_pings. cbn [pid_files next_pid spawned killed ran answers unfiled]. by rewrite <- app_assoc, drop_drop. Qed.

Lemma ping_step env_var ctx s :
  ping env_var ctx 1 s =
  (if default false (answers s !! 0%nat) then Ok tt else Err (Command_failed (ping_command env_var ctx)),
   after_pings env_var ctx 1 s).
Proof.
  unfold ping, process_run, after_pings. fold (ping_command env_var ctx).
  unfold mbind, run_bind, mret, run_ret, log_run, next_answer, fail. cbn.
  by destruct (answers s) as [|[] l].
Qed.

(** C37: waiting for the server ends after at most forty pings: it succeeds at the first answered
    one, without asking again, and fails when none of the forty is answered. *)
Theorem wait_ping_ends env_var ctx s :
  (∃ i, (i < 40)%nat ∧ answers s !! i = Some true ∧ (∀ j, (j < i)%nat → answers s !! j ≠ Some true) ∧
        wait_ping env_var ctx s = (Ok tt, after_pings env_var ctx (S i) s)) ∨
  ((∀ j, (j < 40)%nat → answers s !! j ≠ Some true) ∧
   wait_ping env_var ctx s = (Err No_ping, after_pings env_var ctx 40 s)).
Proof.
  unfold wait_ping. generalize 40%nat as n. intros n. revert s. induction n as [|n IH]; intros s.
  { right. split; [lia|]. unfold after_pings. cbn. rewrite app_nil_r, drop_0. by destruct s. }
  cbn [ping_loop]. rewrite ping_step. destruct (decide (answers s !! 0%nat = Some true)) as [H0|H0].
  { left. exists 0%nat. rewrite H0. split_and!; [lia|done|lia|done]. }
  assert (default false (answers s !! 0%nat) = false) as -> by (destruct (answers s) as [|[] l]; done).
  destruct (IH (after_pings env_var ctx 1 s)) as [(i & Hi & Hans & Hbefore & ->)|[Hnone ->]].
  - left. exists (S i). rewrite after_pings_S. cbn [after_pings answers] in *. rewrite lookup_drop in Hans.
    split_and!; [lia|done| |done]. intros [|j] Hj; [done|]. specialize (Hbefore j ltac:(lia)).
    by rewrite lookup_drop in Hbefore.
  - right. rewrite after_pings_S. split; [|done]. intros [|j] Hj; [done|]. specialize (Hnone j ltac:(lia)).
    cbn [after_pings answers] in Hnone. by rewrite lookup_drop in Hnone.
Qed.

(** ** What is left running *)

Definition alive (s : stack) (pid : Z) : Prop := pid ∈ (spawned s).*1 ∧ pid ∉ killed s.

Definition pid_paths (ctx : AppContext) : list rstring := [viewer_pid ctx; tunnel_pid ctx; control_tunnel_pid ctx].

(** Every process is dead or in its file. *)
Definition tracked (ctx : AppContext) (s : stack) : Prop :=
  ∀ pid, alive s pid → ∃ path, path ∈ pid_paths ctx ∧ pid_files s !! path = Some pid.

Lemma tracked_background ctx : background (tracked ctx).
Proof. by intros s r a. Qed.

Lemma tracked_kill ctx path : keeps (tracked ctx) (kill_pid_file path).
Proof.
  intros s Hs. unfold kill_pid_file. destruct (pid_files s !! path) as [pid|] eqn:Hp; [|done]. cbn.
  intros q [Hq Hk]. cbn in *. rewrite not_elem_of_app, list_elem_of_singleton in Hk. destruct Hk as [Hk Hne].
  destruct (Hs q) as (path' & Hin & Hf); [by split|]. exists path'. split; [done|]. cbn.
  rewrite lookup_delete_ne; [done|]. intros ->. congruence.
Qed.

(** How the start of a background process turns out. *)
Lemma spawn_cases c path s : ∃ a, let s0 := mkStack (pid_files s) (next_pid s) (spawned s) (killed s) (ran s) a (unfiled s) in
  spawn_with_pid_file c path s = log_spawn c path s0 ∨ (∃ gone, spawn_with_pid_file c path s = log_unfiled c path gone s0)
  ∨ spawn_with_pid_file c path s = (Err Spawn_failed, s0).
Proof.
  unfold spawn_with_pid_file, mbind, run_bind, next_answer. cbn [answers pid_files next_pid spawned killed ran unfiled].
  destruct (default false (head (answers s))); cbn; [|eexists; by right; right].
  destruct (default false _); cbn; eexists; [by left|]. right. left. by eexists.
Qed.

Lemma spawn_ok c path s u s' : spawn_with_pid_file c path s = (Ok u, s') →
  ∃ a, s' = (log_spawn c path (mkStack (pid_files s) (next_pid s) (spawned s) (killed s) (ran s) a (unfiled s))).2.
Proof.
  destruct (spawn_cases c path s) as (a & [->|[[gone ->]| ->]]); [|done..]. intros [= _ <-]. by exists a.
Qed.

(** A control tunnel whose file could not be written, the last process started: at most one. *)
Definition stray env_var ssh_opts (s : stack) (pid : Z) : Prop :=
  pid ∈ unfiled s ∧ ∃ guest, last (spawned s) = Some (pid, control_tunnel_command env_var ssh_opts guest).

(** Every process is dead, in its file, or that tunnel. *)
Definition accounted env_var ssh_opts (ctx : AppContext) (s : stack) : Prop :=
  ∀ pid, alive s pid → (∃ path, path ∈ pid_paths ctx ∧ pid_files s !! path = Some pid) ∨ stray env_var ssh_opts s pid.

Lemma accounted_kill env_var ssh_opts ctx path : keeps (accounted env_var ssh_opts ctx) (kill_pid_file path).
Proof.
  intros s Hs. unfold kill_pid_file. destruct (pid_files s !! path) as [pid|] eqn:Hp; [|done]. cbn.
  intros q [Hq Hk]. cbn in *. rewrite not_elem_of_app, list_elem_of_singleton in Hk. destruct Hk as [Hk Hne].
  destruct (Hs q) as [(path' & Hin & Hf)|Hstray]; [by split| |by right]. left. exists path'. split; [done|]. cbn.
  rewrite lookup_delete_ne; [done|]. intros ->. congruence.
Qed.

Lemma tracked_accounted env_var ssh_opts ctx s : tracked ctx s → accounted env_var ssh_opts ctx s.
Proof. intros Hs pid Hal. left. by apply Hs. Qed.

Lemma accounted_unfiled env_var ssh_opts ctx guest path gone s :
  pid_files s !! path = None → tracked ctx s →
  accounted env_var ssh_opts ctx (log_unfiled (control_tunnel_command env_var ssh_opts guest) path gone s).2.
Proof.
  intros Hnone Hs q [Hq Hk]. cbn in *. rewrite fmap_app, elem_of_app in Hq. destruct Hq as [Hq|Hq%list_elem_of_singleton].
  - left. destruct (Hs q) as (path' & Hin' & Hf); [by split|]. exists path'. split; [done|].
    destruct gone; [|done]. rewrite lookup_delete_ne; [done|]. intros ->. congruence.
  - right. cbn in Hq. subst q. split; cbn; [set_solver|]. exists guest. apply last_snoc.
Qed.

Lemma tracked_spawn ctx c path s :
  path ∈ pid_paths ctx → pid_files s !! path = None → tracked ctx s → tracked ctx (log_spawn c path s).2.
Proof.
  intros Hin Hnone Hs q [Hq Hk]. cbn in *. rewrite fmap_app, elem_of_app in Hq. destruct Hq as [Hq|Hq%list_elem_of_singleton].
  - destruct (Hs q) as (path' & Hin' & Hf); [by split|]. exists path'. split; [done|].
    rewrite lookup_insert_ne; [done|]. intros ->. congruence.
  - cbn in Hq. subst q. exists path. split; [done|]. apply lookup_insert_eq.
Qed.

Lemma path_join_inj base x y :
  x ≠ [] → y ≠ [] → head x ≠ Some 47 → head y ≠ Some 47 → path_join base x = path_join base y → x = y.
Proof.
  intros Hx Hy Hhx Hhy. unfold path_join. destruct x as [|a x], y as [|b y]; try done.
  assert (a ≠ 47) by by intros ->. assert (b ≠ 47) by by intros ->.
  assert (∀ c t, c ≠ 47 → path_join base (c :: t) = match base with [] => c :: t | _ => if bool_decide (last base = Some 47) then base ++ c :: t else base ++ 47 :: c :: t end) as E.
  { intros c t Hc. unfold path_join. destruct base; repeat case_match; try done. }
  fold (path_join base (a :: x)) (path_join base (b :: y)). rewrite !E by done.
  destruct base as [|d base]; [done|]. case_bool_decide; intros Heq; [by apply app_inv_head in Heq|].
  apply app_inv_head in Heq. by injection Heq as -> ->.
Qed.

Lemma pid_paths_differ ctx :
  viewer_pid ctx ≠ tunnel_pid ctx ∧ viewer_pid ctx ≠ control_tunnel_pid ctx ∧ tunnel_pid ctx ≠ control_tunnel_pid ctx.
Proof. split_and!; intros H; apply path_join_inj in H; done. Qed.

Definition absent (path : rstring) (s : stack) : Prop := pid_files s !! path = None.

Lemma absent_background path : background (absent path).
Proof. by intros s r a. Qed.

Lemma absent_kill path path' : keeps (absent path) (kill_pid_file path').
Proof.
  intros s Hs. unfold kill_pid_file. destruct (pid_files s !! path') eqn:Hp; [|done]. unfold absent in *. cbn.
  by rewrite lookup_delete_None; right.
Qed.

Lemma absent_spawn path path' c : path ≠ path' → keeps (absent path) (log_spawn c path').
Proof. intros Hne s Hs. unfold absent in *. cbn. by rewrite lookup_insert_ne. Qed.

Lemma absent_unfiled path path' c gone : keeps (absent path) (log_unfiled c path' gone).
Proof. intros s Hs. unfold absent in *. destruct gone; [|done]. cbn. by rewrite lookup_delete_None; right. Qed.

Lemma kill_absent path s : absent path (kill_pid_file path s).2.
Proof. unfold kill_pid_file, absent. destruct (pid_files s !! path) eqn:Hp; [|done]. cbn. apply lookup_delete_eq. Qed.

Lemma run_ok_bind {A B} (m : run_cmd A) (f : A → run_cmd B) s a : (m s).1 = Ok a → (m ≫= f) s = f a (m s).2.
Proof. unfold mbind, run_bind. destruct (m s). cbn. by intros ->. Qed.

Lemma kill_ok path s : (kill_pid_file path s).1 = Ok tt.
Proof. unfold kill_pid_file. by destruct (pid_files s !! path). Qed.

Section properties.
Context (env_var : rstring → option rstring) (is_file : rstring → bool) (ssh_opts : SshOptions) (ctx : AppContext).

Abbreviation the_stack := (start_stack env_var is_file ssh_opts ctx).
Abbreviation the_stop := (stop env_var is_file ssh_opts ctx).

(** A tunnel to the daemon is in its file; only one that failed to be noted is not. *)
Lemma control_tunnel_outcome s : tracked ctx s →
  let '(r, s') := start_control_tunnel env_var ssh_opts ctx s in
  accounted env_var ssh_opts ctx s' ∧ (r ≠ Err Files_failed → tracked ctx s').
Proof.
  intros Hs. unfold start_control_tunnel.
  unfold mbind at 1, run_bind at 1. cbn [next_answer]. unfold next_answer at 1.
  destruct (default false (head (answers s))); [split; [by apply tracked_accounted|done]|].
  unfold the_guest. destruct (configured_guest ctx) as [g|]; [|split; [by apply tracked_accounted|done]].
  unfold mbind, run_bind, mret, run_ret, next_answer. cbn [answers pid_files next_pid spawned killed ran unfiled].
  destruct (default false _); cbn [negb]; [|split; [by apply tracked_accounted|done]].
  set (s0 := mkStack _ _ _ _ _ _ _). assert (tracked ctx s0) as Hs0 by done. clearbody s0. clear Hs s.
  pose proof (tracked_kill ctx (control_tunnel_pid ctx) s0 Hs0) as H1. pose proof (kill_absent (control_tunnel_pid ctx) s0) as H2.
  pose proof (kill_ok (control_tunnel_pid ctx) s0) as Hok.
  destruct (kill_pid_file _ s0) as [r s1]. cbn in H1, H2, Hok. subst r.
  destruct (spawn_cases (control_tunnel_command env_var ssh_opts g) (control_tunnel_pid ctx) s1) as (a & [->|[[gone ->]| ->]]);
    cbn [log_spawn log_unfiled].
  - set (s2 := mkStack _ _ _ _ _ a _). pose proof (tracked_spawn ctx (control_tunnel_command env_var ssh_opts g) (control_tunnel_pid ctx) s2) as H.
    split; [apply tracked_accounted|intros _]; (apply H; [set_solver|done|done]).
  - split; [|done]. by apply (accounted_unfiled env_var ssh_opts ctx g (control_tunnel_pid ctx) gone (mkStack _ _ _ _ _ a _)).
  - split; [by apply tracked_accounted|done].
Qed.

Lemma tracked_start_control_tunnel :
  leads (tracked ctx) (start_control_tunnel env_var ssh_opts ctx) (tracked ctx).
Proof.
  intros s b s' Hs H. pose proof (control_tunnel_outcome s Hs) as Ho. rewrite H in Ho. by apply Ho.
Qed.

Lemma absent_start_control_tunnel path :
  path ≠ control_tunnel_pid ctx → keeps (absent path) (start_control_tunnel env_var ssh_opts ctx).
Proof.
  intros Hne. unfold start_control_tunnel. apply keeps_bind; [apply keeps_next_answer, absent_background|].
  intros []; [apply keeps_ret|]. apply keeps_bind; [apply keeps_the_guest|intros g].
  apply keeps_bind; [apply keeps_next_answer, absent_background|intros []; [|apply keeps_fail]].
  apply keeps_bind; [apply absent_kill|intros _]. apply keeps_bind; [|intros; apply keeps_ret].
  apply keeps_spawn; [apply absent_background|by apply absent_spawn|intros; apply absent_unfiled].
Qed.

Lemma stop_dead s : tracked ctx s → (the_stop s).1 = Ok tt ∧ ∀ pid, alive (the_stop s).2 pid → stray env_var ssh_opts (the_stop s).2 pid.
Proof.
  intros Hs. destruct (pid_paths_differ ctx) as (_ & Hvc & Htc).
  set (I := λ s, accounted env_var ssh_opts ctx s ∧ absent (viewer_pid ctx) s ∧ absent (tunnel_pid ctx) s).
  set (s2 := (kill_pid_file (tunnel_pid ctx) (kill_pid_file (viewer_pid ctx) s).2).2).
  assert (tracked ctx s2 ∧ absent (viewer_pid ctx) s2 ∧ absent (tunnel_pid ctx) s2) as (Ht2 & Hv2 & Htp2).
  { split_and!; [by do 2 apply tracked_kill|apply absent_kill, kill_absent|apply kill_absent]. }
  set (body := ignore (start_control_tunnel env_var ssh_opts ctx ≫= λ _, mret tt) ≫= λ _,
    ignore (process_run (with_args [lit "ctl"; lit "stop-instance"; control_addr env_var; instance ctx]
      (client_ctl_command env_var is_file ctx)))).
  assert (I (body s2).2) as Hbody.
  { assert (background I) as Hbg by by intros ? ? ?. unfold body.
    assert (I (ignore (start_control_tunnel env_var ssh_opts ctx ≫= λ _, mret tt) s2).2) as H1.
    { pose proof (control_tunnel_outcome s2 Ht2) as Ho. pose proof (absent_start_control_tunnel _ Hvc s2 Hv2) as H3.
      pose proof (absent_start_control_tunnel _ Htc s2 Htp2) as H4. unfold ignore, mbind, run_bind.
      destruct (start_control_tunnel _ _ _ s2) as [[b|e] s3]; by split_and!; [apply Ho|..]. }
    unfold mbind at 1, run_bind at 1, ignore at 1. cbn [ignore] in *. by apply keeps_ignore; [apply keeps_process_run|]. }
  assert (the_stop s = kill_pid_file (control_tunnel_pid ctx) (body s2).2) as ->.
  { unfold stop, body, s2. rewrite !(run_ok_bind _ _ _ tt) by apply kill_ok || done. done. }
  split; [apply kill_ok|]. destruct Hbody as (H1 & H2 & H3).
  pose proof (accounted_kill env_var ssh_opts ctx (control_tunnel_pid ctx) _ H1) as Htr.
  intros pid Hal. destruct (Htr pid Hal) as [(path & Hin & Hf)|]; [exfalso|done].
  pose proof (absent_kill _ (control_tunnel_pid ctx) _ H2) as Hv. pose proof (absent_kill _ (control_tunnel_pid ctx) _ H3) as Ht.
  pose proof (kill_absent (control_tunnel_pid ctx) (body s2).2) as Hc. unfold absent in *.
  apply elem_of_cons in Hin as [->|Hin]; [congruence|]. apply elem_of_cons in Hin as [->|Hin]; [congruence|].
  apply list_elem_of_singleton in Hin as ->. congruence.
Qed.

(** [stop] always succeeds, and kills every process whose pid is in one of the files of the
    instance, a tunnel it started itself to reach the daemon among them, unless the pid of that
    tunnel could not be written. *)
Theorem stop_kills_tracked s :
  tracked ctx s → (the_stop s).1 = Ok tt ∧ ∀ pid, alive (the_stop s).2 pid → stray env_var ssh_opts (the_stop s).2 pid.
Proof. apply stop_dead. Qed.

(** *** Orphans *)

(** A live process that no file but [path] names. *)
Definition only_in (path : rstring) (p : Z) (s : stack) : Prop :=
  alive s p ∧ p < next_pid s ∧ ∀ path', pid_files s !! path' = Some p → path' = path.

Definition orphan (p : Z) (s : stack) : Prop :=
  alive s p ∧ p < next_pid s ∧ ∀ path', pid_files s !! path' ≠ Some p.

Lemma orphan_kill p path : keeps (orphan p) (kill_pid_file path).
Proof.
  intros s ([Hin Hk] & Hlt & Hf). unfold kill_pid_file. destruct (pid_files s !! path) as [q|] eqn:Hq; [|done].
  split_and!; cbn; [split; cbn; [done|]|done|].
  - rewrite not_elem_of_app, list_elem_of_singleton. split; [done|]. intros ->. by eapply Hf.
  - intros path' [_ Hp]%lookup_delete_Some. by eapply Hf.
Qed.

Lemma orphan_spawn p c path : keeps (orphan p) (log_spawn c path).
Proof.
  intros s ([Hin Hk] & Hlt & Hf). split_and!; cbn; [split; cbn; [|done]|lia|].
  - rewrite fmap_app. set_solver.
  - intros path' Hp. apply lookup_insert_Some in Hp as [[_ ?]|[_ Hp]]; [lia|by eapply Hf].
Qed.

Lemma orphan_unfiled p c path gone : keeps (orphan p) (log_unfiled c path gone).
Proof.
  intros s ([Hin Hk] & Hlt & Hf). split_and!; cbn; [split; cbn; [|done]|lia|].
  - rewrite fmap_app. set_solver.
  - intros path'. destruct gone; [|done]. intros [_ Hp]%lookup_delete_Some. by eapply Hf.
Qed.

Lemma orphan_background p : background (orphan p).
Proof. by intros s r a. Qed.

Lemma only_in_background path p : background (only_in path p).
Proof. by intros s r a. Qed.

Lemma only_in_kill path p path' : path' ≠ path → keeps (only_in path p) (kill_pid_file path').
Proof.
  intros Hne s ([Hin Hk] & Hlt & Hf). unfold kill_pid_file. destruct (pid_files s !! path') as [q|] eqn:Hq; [|done].
  split_and!; cbn; [split; cbn; [done|]|done|].
  - rewrite not_elem_of_app, list_elem_of_singleton. split; [done|]. intros ->. by apply Hne, Hf.
  - intros path'' [_ Hp]%lookup_delete_Some. by apply Hf.
Qed.

Lemma only_in_spawn path p c path' : keeps (only_in path p) (log_spawn c path').
Proof.
  intros s ([Hin Hk] & Hlt & Hf). split_and!; cbn; [split; cbn; [|done]|lia|].
  - rewrite fmap_app. set_solver.
  - intros path'' Hp. apply lookup_insert_Some in Hp as [[_ ?]|[_ Hp]]; [lia|by apply Hf].
Qed.

Lemma only_in_unfiled path p c path' gone : keeps (only_in path p) (log_unfiled c path' gone).
Proof.
  intros s ([Hin Hk] & Hlt & Hf). split_and!; cbn; [split; cbn; [|done]|lia|].
  - rewrite fmap_app. set_solver.
  - intros path''. destruct gone; [|apply Hf]. intros [_ Hp]%lookup_delete_Some. by apply Hf.
Qed.

Lemma only_in_start_control_tunnel p : keeps (only_in (tunnel_pid ctx) p) (start_control_tunnel env_var ssh_opts ctx).
Proof.
  unfold start_control_tunnel. apply keeps_bind; [apply keeps_next_answer, only_in_background|].
  intros []; [apply keeps_ret|]. apply keeps_bind; [apply keeps_the_guest|intros g].
  apply keeps_bind; [apply keeps_next_answer, only_in_background|intros []; [|apply keeps_fail]].
  apply keeps_bind; [apply only_in_kill; by destruct (pid_paths_differ ctx) as (_ & _ & Hne)|intros _].
  apply keeps_bind; [|intros; apply keeps_ret].
  apply keeps_spawn; [apply only_in_background|apply only_in_spawn|intros; apply only_in_unfiled].
Qed.

Lemma start_tunnel_orphans p : leads (only_in (tunnel_pid ctx) p) (start_tunnel ssh_opts ctx) (orphan p).
Proof.
  unfold start_tunnel. apply (leads_bind _ (only_in (tunnel_pid ctx) p)); [apply leads_keeps, keeps_the_guest|intros g].
  intros s [] s' Hs H. apply spawn_ok in H as (a & ->). set (s0 := mkStack _ _ _ _ _ _ _).
  assert (only_in (tunnel_pid ctx) p s0) as Hs0 by done. set (c := with_args _ _).
  destruct (only_in_spawn _ _ c (tunnel_pid ctx) s0 Hs0) as (Hal & Hlt & Hf).
  split_and!; [done|done|]. intros path' Hp. pose proof (Hf path' Hp) as ->. cbn in Hp. rewrite lookup_insert_eq in Hp.
  injection Hp as <-. destruct Hs as (_ & ? & _). lia.
Qed.

Lemma start_stack_orphans p : leads (only_in (tunnel_pid ctx) p) the_stack (orphan p).
Proof.
  unfold start_stack.
  apply (leads_bind _ (only_in (tunnel_pid ctx) p)).
  { apply leads_keeps. apply keeps_if; [apply keeps_build_all, only_in_background|apply keeps_ret]. }
  intros _. apply (leads_bind _ (only_in (tunnel_pid ctx) p)); [apply leads_keeps, only_in_start_control_tunnel|intros _].
  apply (leads_bind _ (only_in (tunnel_pid ctx) p)); [apply leads_keeps, keeps_process_run, only_in_background|intros _].
  apply (leads_bind _ (orphan p)); [apply start_tunnel_orphans|intros _]. apply leads_keeps, keeps_wait_ping, orphan_background.
Qed.

(** Launching into an instance that is already up replaces the file that names its tunnel
    without killing the tunnel: it holds the port, and no later [stop] ends it. *)
Theorem second_launch_orphans p argv s s1 ctx' :
  only_in (tunnel_pid ctx) p s →
  launch env_var is_file ssh_opts ctx argv s = (Ok tt, s1) →
  alive (stop env_var is_file ssh_opts ctx' s1).2 p.
Proof.
  intros Hs Hlaunch.
  assert (leads (only_in (tunnel_pid ctx) p) (launch env_var is_file ssh_opts ctx argv) (orphan p)) as Hleads.
  { unfold launch. apply (leads_bind _ (orphan p)); [apply start_stack_orphans|intros _].
    apply leads_keeps, keeps_bind; [apply keeps_start_viewer_bg; [apply orphan_background|apply orphan_spawn|apply orphan_unfiled]|intros _].
    apply keeps_bind; [|intros _]; apply keeps_process_run, orphan_background. }
  apply (keeps_stop (orphan p)); [apply orphan_background|apply orphan_kill|apply orphan_spawn|apply orphan_unfiled|].
  by eapply Hleads.
Qed.

(** *** One command, start to end *)

(** Pids are given once, and killed or noted after they were given. *)
Definition pids_below (s : stack) : Prop :=
  (∀ pid, pid ∈ killed s → pid < next_pid s) ∧ (∀ path pid, pid_files s !! path = Some pid → pid < next_pid s).

Lemma pids_below_background : background pids_below.
Proof. by intros s r a. Qed.

Lemma pids_below_kill path : keeps pids_below (kill_pid_file path).
Proof.
  intros s [Hk Hf]. unfold kill_pid_file. destruct (pid_files s !! path) as [q|] eqn:Hq; [|done]. split; cbn.
  - intros pid [?| ->%list_elem_of_singleton]%elem_of_app; [by apply Hk|by eapply Hf].
  - intros path' pid [_ Hp]%lookup_delete_Some. by eapply Hf.
Qed.

Lemma pids_below_spawn c path : keeps pids_below (log_spawn c path).
Proof.
  intros s [Hk Hf]. split; cbn; [intros pid Hp%Hk; lia|].
  intros path' pid [[_ <-]|[_ Hp%Hf]]%lookup_insert_Some; lia.
Qed.

Lemma pids_below_unfiled c path gone : keeps pids_below (log_unfiled c path gone).
Proof.
  intros s [Hk Hf]. split; cbn; [intros pid Hp%Hk; lia|].
  intros path' pid Hp. assert (pid_files s !! path' = Some pid) as ?%Hf; [|lia].
  destruct gone; [by apply lookup_delete_Some in Hp as [_ ?]|done].
Qed.

(** Nothing of this instance is up. *)
Definition idle (s : stack) : Prop :=
  pids_below s ∧ tracked ctx s ∧ absent (viewer_pid ctx) s ∧ absent (tunnel_pid ctx) s.

(** The tunnel is up and in its file; everything that lives is in a file. *)
Definition up (s : stack) : Prop :=
  ∃ p, only_in (tunnel_pid ctx) p s ∧ pid_files s !! tunnel_pid ctx = Some p ∧ tracked ctx s.

Lemma idle_before_tunnel :
  leads idle ((if build ctx then build_all ssh_opts ctx else mret tt) ≫= λ _, start_control_tunnel env_var ssh_opts ctx ≫= λ _,
              start_server env_var is_file ctx) idle.
Proof.
  assert (background idle) as Hbg by by intros ? ? ?. destruct (pid_paths_differ ctx) as (_ & Hvc & Htc).
  apply (leads_bind _ idle); [apply leads_keeps, keeps_if; [by apply keeps_build_all|apply keeps_ret]|intros _].
  apply (leads_bind _ idle); [|intros _; by apply leads_keeps, keeps_process_run].
  intros s b s' (H1 & H2 & H3 & H4) H. pose proof (f_equal snd H) as Hs'. cbn in Hs'. split_and!.
  - rewrite <- Hs'. apply keeps_start_control_tunnel;
      [apply pids_below_background|apply pids_below_kill|apply pids_below_spawn|apply pids_below_unfiled|done].
  - by eapply tracked_start_control_tunnel.
  - rewrite <- Hs'. by apply absent_start_control_tunnel.
  - rewrite <- Hs'. by apply absent_start_control_tunnel.
Qed.

Lemma start_tunnel_up : leads idle (start_tunnel ssh_opts ctx) (λ s, up s ∧ absent (viewer_pid ctx) s).
Proof.
  assert (background idle) as Hbg by by intros ? ? ?. destruct (pid_paths_differ ctx) as (Hvt & _ & _).
  unfold start_tunnel. apply (leads_bind _ idle); [by apply leads_keeps, keeps_the_guest|intros g].
  intros s1 [] s' Hs H. apply spawn_ok in H as (a & ->). set (c := with_args _ _). set (s := mkStack _ _ _ _ _ _ _).
  assert (idle s) as ((Hk & Hf) & Htr & Hv & Ht) by done. clearbody s. clear Hs s1 a.
  split; [|by apply absent_spawn]. exists (next_pid s). split; [|split].
  - split_and!; cbn; [split; cbn|lia|].
    + rewrite fmap_app. set_solver.
    + intros H%Hk. lia.
    + intros path [[-> _]|[_ Hp%Hf]]%lookup_insert_Some; [done|lia].
  - cbn. apply lookup_insert_eq.
  - apply tracked_spawn; [set_solver|done|done].
Qed.

(** The same two facts with the pid fixed. *)
Definition tunnel_up (p : Z) (s : stack) : Prop := only_in (tunnel_pid ctx) p s ∧ pid_files s !! tunnel_pid ctx = Some p.

Lemma start_stack_up : leads idle the_stack (λ s, up s ∧ absent (viewer_pid ctx) s).
Proof.
  intros s [] s' Hs H.
  assert ((((if build ctx then build_all ssh_opts ctx else mret tt) ≫= λ _, start_control_tunnel env_var ssh_opts ctx ≫= λ _,
              start_server env_var is_file ctx) ≫= λ _, start_tunnel ssh_opts ctx ≫= λ _, wait_ping env_var ctx) s = (Ok tt, s')) as H'.
  { unfold start_stack in H. apply run_bind_ok in H as (? & s1 & H1 & H). apply run_bind_ok in H as (? & s2 & H2 & H).
    apply run_bind_ok in H as (u & s3 & H3 & H). apply run_bind_ok. exists u, s3. split; [|done].
    apply run_bind_ok. eexists _, s1. split; [exact H1|]. apply run_bind_ok. by eexists _, s2. }
  clear H. apply run_bind_ok in H' as (? & s3 & H3 & H). apply run_bind_ok in H as (? & s4 & H4 & H5).
  assert (idle s3) as Hi by by eapply idle_before_tunnel.
  pose proof (start_tunnel_up _ _ _ Hi H4) as [(p & Hp & Hf & Htr) Hv].
  assert (background (λ s, (only_in (tunnel_pid ctx) p s ∧ pid_files s !! tunnel_pid ctx = Some p ∧ tracked ctx s) ∧ absent (viewer_pid ctx) s)) as Hbg
    by by intros ? ? ?.
  pose proof (keeps_wait_ping _ Hbg env_var ctx s4 (conj (conj Hp (conj Hf Htr)) Hv)) as [H6 H7]. rewrite H5 in H6, H7.
  split; [by exists p|done].
Qed.

Lemma start_viewer_up p s :
  tunnel_up p s → tracked ctx s → absent (viewer_pid ctx) s →
  let '(r, s') := start_viewer_bg env_var ctx s in tunnel_up p s' ∧ (r = Ok tt → tracked ctx s').
Proof.
  intros Hup Htr Hv. destruct (pid_paths_differ ctx) as (Hvt & _ & _). unfold start_viewer_bg. set (c := with_var _ _ _).
  destruct (spawn_cases c (viewer_pid ctx) s) as (a & H). set (s0 := mkStack _ _ _ _ _ a _) in H.
  assert (tunnel_up p s0 ∧ tracked ctx s0 ∧ absent (viewer_pid ctx) s0) as ([Hp0 Hf0] & Htr0 & Hv0) by done. clearbody s0.
  destruct H as [->|[[gone ->]| ->]]; [| |by split; [split|]]; cbn [log_spawn log_unfiled].
  - split; [split; [by apply (only_in_spawn _ p c (viewer_pid ctx))|cbn; by rewrite lookup_insert_ne]|intros _].
    by apply (tracked_spawn ctx c (viewer_pid ctx)); [unfold pid_paths; left|..].
  - split; [split; [by apply (only_in_unfiled _ p c (viewer_pid ctx))|]|done]. cbn. destruct gone; [by rewrite lookup_delete_ne|done].
Qed.

(** C30: running an application in an idle instance, a process that is killed being taken to
    end. When every step succeeds and the user has not set VBOX_KEEP=1, no process that the
    tool started on the host is left behind, except the tunnel that the final stop
    opens to reach the daemon again, if its pid could not be written. With VBOX_KEEP=1 the
    tunnel stays up and every process is in its file, for a later stop. When a step fails
    after the stack is up, the command reports the error and leaves the tunnel it opened
    running, and in its file. *)
Theorem run_app_outcomes argv s r s' :
  idle s → run_app env_var is_file ssh_opts ctx argv false s = (r, s') →
  (r = Ok tt → if bool_decide (env_var (lit "VBOX_KEEP") = Some (lit "1")) then up s'
    else ∀ pid, alive s' pid → stray env_var ssh_opts s' pid) ∧
  (∀ e s1, r = Err e → the_stack s = (Ok tt, s1) → ∃ p, alive s' p ∧ pid_files s' !! tunnel_pid ctx = Some p).
Proof.
  intros Hs H. unfold run_app in H. cbv zeta in H. cbn match in H.
  unfold mbind at 1, run_bind at 1 in H. destruct (the_stack s) as [[[]|e] s1] eqn:Hst.
  2: { injection H as <- <-. split; [done|]. by intros ? ? _ [=]. }
  destruct (start_stack_up _ _ _ Hs Hst) as [(p & Hp & Hf & Htr) Hv].
  pose proof (start_viewer_up p s1 (conj Hp Hf) Htr Hv) as Hview.
  unfold mbind at 1, run_bind at 1 in H. destruct (start_viewer_bg env_var ctx s1) as [[[]|e] s2]; destruct Hview as [Hup Htr2].
  2: { injection H as <- <-. split; [done|]. intros ? ? _ _. destruct Hup as [(Hal & _) Hf2]. eauto. }
  specialize (Htr2 eq_refl). set (I := λ s, tunnel_up p s ∧ tracked ctx s). assert (background I) as Hbg by by intros ? ? ?.
  unfold mbind at 1, run_bind at 1 in H.
  assert (I (wait_socket env_var is_file ctx s2).2) as HI3 by by apply (keeps_process_run I Hbg).
  destruct (wait_socket env_var is_file ctx s2) as [[[]|e] s3] eqn:Hws; cbn in HI3.
  2: { injection H as <- <-. split; [done|]. intros ? ? _ _. destruct HI3 as [[(Hal & _) Hf2] _]. eauto. }
  unfold mbind at 1, run_bind at 1 in H.
  assert (I (launch_app env_var is_file ctx (default_app_args argv) s3).2) as HI4
    by by apply (keeps_process_run I Hbg).
  destruct (launch_app env_var is_file ctx (default_app_args argv) s3) as [[[]|e] s4]; cbn in HI4.
  2: { injection H as <- <-. split; [done|]. intros ? ? _ _. destruct HI4 as [[(Hal & _) Hf2] _]. eauto. }
  unfold stop_unless_kept in H. case_bool_decide.
  - injection H as <- <-. split; [intros _|by intros ? ? [=]]. destruct HI4 as [[? ?] ?]. by exists p.
  - destruct (stop_dead s4 (proj2 HI4)) as [Hok Hdead]. rewrite H in Hok, Hdead. cbn in Hok, Hdead. subst r.
    split; [done|]. by intros ? ? [=].
Qed.
End properties.

(** *** Witnesses *)

Definition no_build : AppContext :=
  mkAppContext (lit "r") (lit "s") (lit "c") (Some (lit "g")) (Some (lit "d")) (lit "i") 1 (lit "v") 2 3 false false.

Definition no_files : rstring → bool := λ _, false.
Definition no_options : SshOptions := mkSshOptions [] [].

Definition the_answers (l : list bool) : stack := mkStack ∅ 100 [] [] [] l [].

(** A stack that is up: its tunnel has pid 101. *)
Definition stack_up (l : list bool) : stack :=
  mkStack {[tunnel_pid no_build := 101]} 102 [(101, command_new (lit "ssh"))] [] [] l [].

Lemma stack_up_lookup l path p : pid_files (stack_up l) !! path = Some p → path = tunnel_pid no_build ∧ p = 101.
Proof. unfold stack_up. cbn [pid_files]. by intros [<- <-]%lookup_singleton_Some. Qed.

Lemma alive_stack_up l : alive (stack_up l) 101.
Proof. split; [by apply list_elem_of_singleton|by intros ?%elem_of_nil]. Qed.

Lemma stop_kills_tracked_witness : ∀ pid, ¬ alive (stop no_env no_files no_options no_build (stack_up [])).2 pid.
Proof.
  intros pid Hal. destruct (stop_kills_tracked no_env no_files no_options no_build (stack_up [])) as [_ H].
  - intros q [->%list_elem_of_singleton _]. exists (tunnel_pid no_build).
    split; [unfold pid_paths; set_solver|]. apply lookup_singleton_eq.
  - destruct (H pid Hal) as [Hin _]. by apply elem_of_nil in Hin.
Defined.

(** The daemon is reached; the server, the tunnel and its file, a ping; the viewer and its file,
    its socket, the application. *)
Definition all_well : list bool := [true; true; true; true; true; true; true; true; true].

Lemma second_launch_orphans_witness :
  let again := launch no_env no_files no_options no_build [] (stack_up all_well) in
  again.1 = Ok tt ∧ alive (stop no_env no_files no_options no_build again.2).2 101.
Proof.
  intros again. assert (again.1 = Ok tt) as Hok by by vm_compute. split; [done|].
  assert (again = (Ok tt, again.2)) as Hl by (rewrite <- Hok; apply surjective_pairing).
  refine (second_launch_orphans no_env no_files no_options no_build 101 [] (stack_up all_well) _ no_build _ Hl).
  split_and!; [apply alive_stack_up|done|]. by intros path [-> _]%stack_up_lookup.
Defined.

Lemma idle_start l : idle no_build (the_answers l).
Proof.
  split_and!; [|by intros pid [?%elem_of_nil _]|done|done].
  split; [by intros pid ?%elem_of_nil|]. intros path pid. cbn. by rewrite lookup_empty.
Qed.

(** All is well; the viewer starts and its pid cannot be written; the final stop has to open
    a tunnel whose pid cannot be written, and that one is left. *)
Lemma run_app_outcomes_witness :
  let app l := run_app no_env no_files no_options no_build [] false (the_answers l) in
  let no_viewer_pid := [true; true; true; true; true; true; false] in
  let no_control_pid := all_well ++ [false; true; true; false] in
  (∀ pid, ¬ alive (app (all_well ++ [true])).2 pid) ∧
  (∃ p, alive (app no_viewer_pid).2 p ∧ pid_files (app no_viewer_pid).2 !! tunnel_pid no_build = Some p) ∧
  ((spawned (app no_control_pid).2).*1, killed (app no_control_pid).2) = ([100; 101; 102], [101; 100]) ∧
  (∀ pid, alive (app no_control_pid).2 pid → pid = 102).
Proof.
  intros app no_viewer_pid no_control_pid.
  pose proof (λ l, run_app_outcomes no_env no_files no_options no_build [] _ _ _ (idle_start l) (surjective_pairing (app l))) as H.
  change (bool_decide (no_env (lit "VBOX_KEEP") = Some (lit "1"))) with false in H. cbv iota in H. split_and!.
  - intros pid Hal. destruct (H (all_well ++ [true])) as [H1 _]. destruct (H1 ltac:(by vm_compute) pid Hal) as [Hin _].
    assert (unfiled (app (all_well ++ [true])).2 = []) as E by by vm_compute. rewrite E in Hin. by apply elem_of_nil in Hin.
  - refine (proj2 (H _) Files_failed (start_stack no_env no_files no_options no_build (the_answers no_viewer_pid)).2 _ _); by vm_compute.
  - by vm_compute.
  - intros pid Hal. destruct (H no_control_pid) as [H1 _]. destruct (H1 ltac:(by vm_compute) pid Hal) as [Hin _].
    assert (unfiled (app no_control_pid).2 = [102]) as E by by vm_compute. rewrite E in Hin. by apply list_elem_of_singleton in Hin.
Defined.
