(* ===== verification/Float.v ===== *)
(** * IEEE arithmetic, as Rust's [f32] and [f64] compute it

    The data are the standard library's [spec_float]; every operation goes through the exact
    rational value of its operands and one rounding function (to nearest, ties to even),
    which is what IEEE 754 asks of the basic operations. Comparisons are by value. The
    casts [as i32] and [as u32] truncate and saturate, NaN becoming 0. *)

From Stdlib Require Import SpecFloat.
From S2P Require Import Prelude.

(** ** Values *)

(** A finite float is [num / den]. *)
Definition fnum (x : spec_float) : Z :=
  match x with
  | S754_finite s m e => (if s then -1 else 1) * (Z.pos m * 2 ^ Z.max e 0)
  | _ => 0
  end.
Definition fden (x : spec_float) : Z :=
  match x with S754_finite _ _ e => 2 ^ Z.max (- e) 0 | _ => 1 end.

Definition fneg (x : spec_float) : bool :=
  match x with
  | S754_zero s | S754_infinity s | S754_finite s _ _ => s
  | S754_nan => false
  end.

Definition is_finite (x : spec_float) : bool :=
  match x with S754_zero _ | S754_finite _ _ _ => true | _ => false end.

(** [n / d], rounded to an integer, ties to even. *)
Definition nearest_even (n d : Z) : Z :=
  let q := n / d in
  let r := 2 * (n mod d) in
  if (r <? d) || ((r =? d) && Z.even q) then q else q + 1.

Section format.
Context (prec emax : Z).

(** The exponent of the last digit of a value in [n / d] (positive). *)
Definition last_digit (n d : Z) : Z :=
  let e := Z.log2 n - Z.log2 d - prec + 1 in
  let e := if n * 2 ^ Z.max (- (e + prec - 1)) 0 <? d * 2 ^ Z.max (e + prec - 1) 0 then e - 1 else e in
  Z.max e (3 - emax - prec).

(** The float nearest to [n / d], both nonnegative. *)
Definition round_ratio (neg : bool) (n d : Z) : spec_float :=
  if n =? 0 then S754_zero neg else
  let e := last_digit n d in
  let q := nearest_even (n * 2 ^ Z.max (- e) 0) (d * 2 ^ Z.max e 0) in
  let '(q, e) := if q =? 2 ^ prec then (2 ^ (prec - 1), e + 1) else (q, e) in
  match q with
  | Zpos m => if e + prec <=? emax then S754_finite neg m e else S754_infinity neg
  | _ => S754_zero neg
  end.

(** The float nearest to a signed ratio; [neg] is the sign of an exact zero. *)
Definition of_ratio (neg : bool) (n d : Z) : spec_float :=
  round_ratio (if n =? 0 then neg else n <? 0) (Z.abs n) d.

(** [f64::from] of an integer, [as f32] of an integer. *)
Definition of_Z (z : Z) : spec_float := of_ratio false z 1.

Definition fadd (x y : spec_float) : spec_float :=
  match x, y with
  | S754_nan, _ | _, S754_nan => S754_nan
  | S754_infinity s, S754_infinity s' => if Bool.eqb s s' then x else S754_nan
  | S754_infinity _, _ => x
  | _, S754_infinity _ => y
  | _, _ => of_ratio (fneg x && fneg y) (fnum x * fden y + fnum y * fden x) (fden x * fden y)
  end.

Definition fopp (x : spec_float) : spec_float :=
  match x with
  | S754_zero s => S754_zero (negb s)
  | S754_infinity s => S754_infinity (negb s)
  | S754_finite s m e => S754_finite (negb s) m e
  | S754_nan => S754_nan
  end.

Definition fsub (x y : spec_float) : spec_float := fadd x (fopp y).

Definition fmul (x y : spec_float) : spec_float :=
  let neg := xorb (fneg x) (fneg y) in
  match x, y with
  | S754_nan, _ | _, S754_nan => S754_nan
  | S754_infinity _, S754_zero _ | S754_zero _, S754_infinity _ => S754_nan
  | S754_infinity _, _ | _, S754_infinity _ => S754_infinity neg
  | _, _ => of_ratio neg (fnum x * fnum y) (fden x * fden y)
  end.

Definition fdiv (x y : spec_float) : spec_float :=
  let neg := xorb (fneg x) (fneg y) in
  match x, y with
  | S754_nan, _ | _, S754_nan => S754_nan
  | S754_infinity _, S754_infinity _ | S754_zero _, S754_zero _ => S754_nan
  | S754_infinity _, _ | _, S754_zero _ => S754_infinity neg
  | _, S754_infinity _ => S754_zero neg
  | _, _ => of_ratio neg (fnum x * fden y * Z.sgn (fnum y)) (fden x * Z.abs (fnum y))
  end.

(** [round()]: to the nearest integer, halves away from zero. *)
Definition fround (x : spec_float) : spec_float :=
  match x with
  | S754_finite s m e =>
      of_ratio s (Z.sgn (fnum x) * ((2 * Z.abs (fnum x) + fden x) / (2 * fden x))) 1
  | _ => x
  end.

End format.

(** ** Comparisons *)

Definition fcompare (x y : spec_float) : option comparison :=
  match x, y with
  | S754_nan, _ | _, S754_nan => None
  | S754_infinity true, S754_infinity true | S754_infinity false, S754_infinity false => Some Eq
  | S754_infinity true, _ | _, S754_infinity false => Some Lt
  | S754_infinity false, _ | _, S754_infinity true => Some Gt
  | _, _ => Some (Z.compare (fnum x * fden y) (fnum y * fden x))
  end.

Definition fltb (x y : spec_float) : bool :=
  match fcompare x y with Some Lt => true | _ => false end.
Definition fleb (x y : spec_float) : bool :=
  match fcompare x y with Some (Lt | Eq) => true | _ => false end.
Definition feqb (x y : spec_float) : bool :=
  match fcompare x y with Some Eq => true | _ => false end.

(** [f64::max] and [f64::min] return the other operand for a NaN. *)
Definition fmax (x y : spec_float) : spec_float :=
  match x with
  | S754_nan => y
  | _ => if fltb x y then y else x
  end.
Definition fmin (x y : spec_float) : spec_float :=
  match x with
  | S754_nan => y
  | _ => if fltb y x then y else x
  end.

(** [clamp] panics unless [min <= max]; a NaN stays. *)
Definition fclamp (x lo hi : spec_float) : option spec_float :=
  if fleb lo hi then Some (if fltb x lo then lo else if fltb hi x then hi else x) else None.

(** [as i32], [as u32]: truncate, then saturate. *)
Definition fcast (lo hi : Z) (x : spec_float) : Z :=
  match x with
  | S754_nan => 0
  | S754_infinity s => if s then lo else hi
  | _ => Z.max lo (Z.min hi (Z.quot (fnum x) (fden x)))
  end.
Definition as_i32_sat : spec_float → Z := fcast (- 2 ^ 31) (2 ^ 31 - 1).
Definition as_u32_sat : spec_float → Z := fcast 0 (2 ^ 32 - 1).

(** ** The two formats *)

Module F64.
Definition of_int : Z → spec_float := of_Z 53 1024.
Definition add := fadd 53 1024.
Definition sub := fsub 53 1024.
Definition mul := fmul 53 1024.
Definition div := fdiv 53 1024.
Definition round := fround 53 1024.
End F64.

Module F32.
Definition of_int : Z → spec_float := of_Z 24 128.
Definition mul := fmul 24 128.
Definition div := fdiv 24 128.
Definition round := fround 24 128.
End F32.

(** The nearest float to a decimal literal [n / d]. *)
Definition f64_lit (n d : Z) : spec_float := of_ratio 53 1024 false n d.
Definition f32_lit (n d : Z) : spec_float := of_ratio 24 128 false n d.

(** ** Integral floats

    The lemmas the geometry needs: a float whose value is an integer, and the operations
    that keep it so as long as the result fits the format. *)

Definition is_int (x : spec_float) (z : Z) : Prop := is_finite x = true ∧ fnum x = z * fden x.

Lemma fden_pos x : 0 < fden x.
Proof. destruct x; unfold fden; lia. Qed.

Lemma nearest_even_exact k d : 0 < d → nearest_even (k * d) d = k.
Proof.
  intros Hd. unfold nearest_even. rewrite Z.div_mul, Z.mod_mul by lia. cbn [Z.mul].
  by rewrite (proj2 (Z.ltb_lt _ _)).
Qed.

(** Powers of two, to compare [n] with [d * 2 ^ E] whatever the sign of [E]. *)
Lemma scale_pow E s : Z.max (- E) 0 ≤ s →
  ∃ c, 0 < c ∧ 2 ^ s = c * 2 ^ Z.max (- E) 0 ∧ 2 ^ (s + E) = c * 2 ^ Z.max E 0.
Proof.
  intros Hs. exists (2 ^ (s - Z.max (- E) 0)). split; [apply Z.pow_pos_nonneg; lia|].
  rewrite <- !Z.pow_add_r by lia. split; f_equal; lia.
Qed.

Lemma scale_lt n d E s : Z.max (- E) 0 ≤ s →
  n * 2 ^ Z.max (- E) 0 < d * 2 ^ Z.max E 0 ↔ n * 2 ^ s < d * 2 ^ (s + E).
Proof. intros (c & Hc & -> & ->)%scale_pow. rewrite !Z.mul_assoc, !(Z.mul_comm _ c), <- !Z.mul_assoc. nia. Qed.

Section normal.
Context (prec emax : Z) (Hprec : 1 < prec) (Hemax : prec < emax).

(** The digits of a value of at least one unit: between [2 ^ (prec - 1)] and [2 ^ prec] of
    them unless the exponent is the least one. *)
Lemma last_digit_spec n d : 0 < n → 0 < d →
  let e := last_digit prec emax n d in
  ∃ e', e = Z.max e' (3 - emax - prec) ∧
    n * 2 ^ Z.max (- (e' + prec)) 0 < d * 2 ^ Z.max (e' + prec) 0 ∧
    d * 2 ^ Z.max (e' + prec - 1) 0 ≤ n * 2 ^ Z.max (- (e' + prec - 1)) 0.
Proof.
  intros Hn Hd. unfold last_digit. cbv zeta.
  pose proof (Z.log2_spec n Hn) as [Hn1 Hn2]. pose proof (Z.log2_spec d Hd) as [Hd1 Hd2].
  pose proof (Z.log2_nonneg n). pose proof (Z.log2_nonneg d).
  set (ln := Z.log2 n) in *. set (ld := Z.log2 d) in *. set (E := ln - ld).
  replace (E - prec + 1 + prec - 1) with E by lia.
  destruct (Z.ltb_spec (n * 2 ^ Z.max (- E) 0) (d * 2 ^ Z.max E 0)) as [Hlt|Hge].
  - exists (E - prec + 1 - 1). split; [done|].
    replace (E - prec + 1 - 1 + prec) with E by lia. split; [done|].
    apply Z.nlt_ge. rewrite (scale_lt _ _ _ (ld + 1)) by lia.
    replace (ld + 1 + (E - 1)) with ln by (unfold E; lia).
    replace (ld + 1) with (Z.succ ld) by lia. nia.
  - exists (E - prec + 1). split; [done|].
    replace (E - prec + 1 + prec) with (E + 1) by lia.
    replace (E + 1 - 1) with E by lia. split; [|done].
    rewrite (scale_lt _ _ _ ld) by lia.
    replace (ld + (E + 1)) with (Z.succ ln) by (unfold E; lia). nia.
Qed.

Lemma round_ratio_int neg k d : 0 < k < 2 ^ prec → 0 < d →
  is_finite (round_ratio prec emax neg (k * d) d) = true ∧
  fneg (round_ratio prec emax neg (k * d) d) = neg ∧
  Z.abs (fnum (round_ratio prec emax neg (k * d) d)) = k * fden (round_ratio prec emax neg (k * d) d).
Proof.
  intros Hk Hd. unfold round_ratio. rewrite (proj2 (Z.eqb_neq _ _)) by nia.
  destruct (last_digit_spec (k * d) d) as (e' & He & Hup & Hlow); [nia|done|]. rewrite He. clear He.
  assert (e' ≤ 0) as He'.
  { apply Z.nlt_ge. intros Hpos. rewrite !(Z.max_l (e' + prec - 1)), (Z.max_r (- (e' + prec - 1))) in Hlow by lia.
    assert (2 ^ prec ≤ 2 ^ (e' + prec - 1)) by (apply Z.pow_le_mono_r; lia). nia. }
  set (e := Z.max e' (3 - emax - prec)). assert (e ≤ 0 ∧ e' ≤ e) as [He0 He1] by lia.
  rewrite (Z.max_l (- e)), (Z.max_r e) by lia. rewrite Z.pow_0_r, Z.mul_1_r.
  replace (k * d * 2 ^ (- e)) with (k * 2 ^ (- e) * d) by ring. rewrite nearest_even_exact by done.
  assert (k * 2 ^ (- e) < 2 ^ prec) as Hq.
  { assert (0 < k) as Hk0 by lia.
    assert (0 ≤ e' + prec) as Hep.
    { apply Z.nlt_ge. intros Hneg. rewrite (Z.max_l (- (e' + prec))), (Z.max_r (e' + prec)) in Hup by lia.
      assert (0 < 2 ^ (- (e' + prec))) by (apply Z.pow_pos_nonneg; lia).
      rewrite Z.pow_0_r in Hup. assert (d * 1 ≤ d * (k * 2 ^ (- (e' + prec)))) by (apply Z.mul_le_mono_nonneg_l; nia). lia. }
    rewrite (Z.max_r (- (e' + prec))), (Z.max_l (e' + prec)), Z.pow_0_r, Z.mul_1_r in Hup by lia.
    assert (k < 2 ^ (e' + prec)) as Hk1 by nia.
    apply Z.le_lt_trans with (k * 2 ^ (- e')).
    { apply Z.mul_le_mono_nonneg_l; [lia|]. apply Z.pow_le_mono_r; lia. }
    replace (2 ^ prec) with (2 ^ (e' + prec) * 2 ^ (- e')) by (rewrite <- Z.pow_add_r by lia; f_equal; lia).
    apply Z.mul_lt_mono_pos_r; [apply Z.pow_pos_nonneg; lia|done]. }
  assert (0 < k * 2 ^ (- e)) as Hq0 by (apply Z.mul_pos_pos; [lia|apply Z.pow_pos_nonneg; lia]).
  rewrite (proj2 (Z.eqb_neq _ _)) by lia.
  destruct (k * 2 ^ (- e)) as [|m|m] eqn:Em; [lia| |lia].
  rewrite (proj2 (Z.leb_le _ _)) by lia. cbn [is_finite fneg fnum fden].
  split; [done|]. split; [done|]. rewrite (Z.max_r e), (Z.max_l (- e)) by lia. rewrite Em.
  destruct neg; lia.
Qed.

Lemma of_ratio_int neg k n d : n = k * d → Z.abs k < 2 ^ prec → 0 < d →
  is_int (of_ratio prec emax neg n d) k.
Proof.
  intros -> Hk Hd. unfold is_int, of_ratio. destruct (decide (k = 0)) as [->|Hk0].
  { done. }
  rewrite (proj2 (Z.eqb_neq _ _)) by nia. rewrite Z.abs_mul, (Z.abs_eq d) by lia.
  destruct (round_ratio_int (k * d <? 0) (Z.abs k) d) as (H1 & H2 & H3); [lia|done|].
  split; [done|]. set (x := round_ratio _ _ _ _ _) in *.
  assert (fneg x = true → fnum x ≤ 0) as Hs1 by (destruct x as [| | |[] m e]; cbn; try lia; try done; nia).
  assert (fneg x = false → 0 ≤ fnum x) as Hs2 by (destruct x as [| | |[] m e]; cbn; try lia; try done; nia).
  pose proof (fden_pos x). destruct (Z.ltb_spec (k * d) 0) as [Hneg|Hpos]; rewrite H2 in *.
  - specialize (Hs1 eq_refl). rewrite (Z.abs_neq k) in H3 by nia. lia.
  - specialize (Hs2 eq_refl). rewrite (Z.abs_eq k) in H3 by nia. lia.
Qed.

Lemma of_Z_int z : Z.abs z < 2 ^ prec → is_int (of_Z prec emax z) z.
Proof. intros Hz. apply of_ratio_int; [lia|done|done]. Qed.

End normal.

Ltac int_cases x Hx := destruct x as [?|?| |? ? ?]; destruct Hx as [? ?]; try done.

Lemma fcompare_int x y a b : is_int x a → is_int y b → fcompare x y = Some (Z.compare a b).
Proof.
  intros Hx Hy. pose proof (fden_pos x). pose proof (fden_pos y).
  assert (fcompare x y = Some (Z.compare (fnum x * fden y) (fnum y * fden x))) as ->.
  { int_cases x Hx; int_cases y Hy. }
  destruct Hx as [_ ->], Hy as [_ ->]. f_equal.
  replace (a * fden x * fden y) with (a * (fden x * fden y)) by ring.
  replace (b * fden y * fden x) with (b * (fden x * fden y)) by ring.
  apply eq_sym, Zmult_compare_compat_r. nia.
Qed.

Lemma fltb_int x y a b : is_int x a → is_int y b → fltb x y = (a <? b).
Proof. intros Hx Hy. unfold fltb. rewrite (fcompare_int x y a b) by done. done. Qed.

Lemma fleb_int x y a b : is_int x a → is_int y b → fleb x y = (a <=? b).
Proof. intros Hx Hy. unfold fleb. rewrite (fcompare_int x y a b) by done. unfold Z.leb. by destruct (a ?= b). Qed.

Lemma fmax_int x y a b : is_int x a → is_int y b → is_int (fmax x y) (Z.max a b).
Proof.
  intros Hx Hy. pose proof (fltb_int x y a b Hx Hy) as Hc.
  assert (fmax x y = if fltb x y then y else x) as -> by (by int_cases x Hx).
  rewrite Hc. destruct (Z.ltb_spec a b); [by rewrite Z.max_r by lia|by rewrite Z.max_l by lia].
Qed.

Lemma fmin_int x y a b : is_int x a → is_int y b → is_int (fmin x y) (Z.min a b).
Proof.
  intros Hx Hy. pose proof (fltb_int y x b a Hy Hx) as Hc.
  assert (fmin x y = if fltb y x then y else x) as -> by (by int_cases x Hx).
  rewrite Hc. destruct (Z.ltb_spec b a); [by rewrite Z.min_r by lia|by rewrite Z.min_l by lia].
Qed.

Lemma fclamp_int x lo hi a l h : is_int x a → is_int lo l → is_int hi h → l ≤ h →
  ∃ y, fclamp x lo hi = Some y ∧ is_int y (Z.max l (Z.min h a)).
Proof.
  intros Hx Hl Hh Hlh. unfold fclamp.
  rewrite (fleb_int lo hi l h), (proj2 (Z.leb_le _ _)), (fltb_int x lo a l), (fltb_int hi x h a) by done.
  eexists. split; [done|].
  destruct (Z.ltb_spec a l); [by rewrite Z.max_l by lia|].
  destruct (Z.ltb_spec h a); [by rewrite Z.min_l, Z.max_r by lia|by rewrite Z.min_r, Z.max_r by lia].
Qed.

Lemma fcast_int lo hi x a : is_int x a → fcast lo hi x = Z.max lo (Z.min hi a).
Proof.
  intros Hx. assert (fcast lo hi x = Z.max lo (Z.min hi (Z.quot (fnum x) (fden x)))) as ->.
  { int_cases x Hx; cbn; done. }
  destruct Hx as [_ ->]. pose proof (fden_pos x). by rewrite Z.quot_mul by lia.
Qed.

Lemma fcast_range lo hi x : lo ≤ 0 ≤ hi → lo ≤ fcast lo hi x ≤ hi.
Proof. intros. destruct x as [[]|[]| |s m e]; unfold fcast; lia. Qed.

(** A clamped value, NaN included, casts into the bounds. *)
Lemma fcompare_finite x y : is_finite x = true → is_finite y = true →
  fcompare x y = Some (Z.compare (fnum x * fden y) (fnum y * fden x)).
Proof. by destruct x, y. Qed.

Lemma fclamp_cast x lo hi l h y lo' hi' : is_int lo l → is_int hi h → l ≤ 0 ≤ h →
  lo' ≤ l → h ≤ hi' → fclamp x lo hi = Some y → l ≤ fcast lo' hi' y ≤ h.
Proof.
  intros Hl Hh Hz Hlo Hhi. unfold fclamp. rewrite (fleb_int lo hi l h), (proj2 (Z.leb_le _ _)) by (done || lia).
  intros [= <-]. destruct (fltb x lo) eqn:H1; [rewrite (fcast_int _ _ _ l) by done; lia|].
  destruct (fltb hi x) eqn:H2; [rewrite (fcast_int _ _ _ h) by done; lia|].
  destruct (is_finite x) eqn:Hf.
  - assert (fcast lo' hi' x = Z.max lo' (Z.min hi' (Z.quot (fnum x) (fden x)))) as ->.
    { by destruct x. }
    unfold fltb in H1, H2. rewrite fcompare_finite in H1, H2 by (done || apply Hl || apply Hh).
    pose proof (fden_pos x). pose proof (fden_pos lo). pose proof (fden_pos hi).
    destruct Hl as [_ Hl], Hh as [_ Hh]. rewrite Hl in H1. rewrite Hh in H2.
    assert (l * fden x ≤ fnum x) as Hb1.
    { apply Z.nlt_ge. intros Hc. rewrite (proj2 (Z.compare_lt_iff _ _)) in H1 by nia. done. }
    assert (fnum x ≤ h * fden x) as Hb2.
    { apply Z.nlt_ge. intros Hc. rewrite (proj2 (Z.compare_lt_iff _ _)) in H2 by nia. done. }
    assert (l ≤ Z.quot (fnum x) (fden x) ≤ h) as Hq; [|lia].
    rewrite <- (Z.quot_mul l (fden x)), <- (Z.quot_mul h (fden x)) by lia.
    split; apply Z.quot_le_mono; lia.
  - destruct Hl as [Hl _], Hh as [Hh _].
    destruct x as [|[]| |]; [done|by destruct lo|by destruct hi|cbn; lia|done].
Qed.

Section normal_ops.
Context (prec emax : Z) (Hprec : 1 < prec) (Hemax : prec < emax).

Lemma fopp_int x a : is_int x a → is_int (fopp x) (- a).
Proof. intros Hx. int_cases x Hx; split; cbn in *; try done; try lia. destruct s; cbn in *; lia. Qed.

Lemma fadd_int x y a b : is_int x a → is_int y b → Z.abs (a + b) < 2 ^ prec →
  is_int (fadd prec emax x y) (a + b).
Proof.
  intros Hx Hy Hab. pose proof (fden_pos x). pose proof (fden_pos y).
  assert (fadd prec emax x y = of_ratio prec emax (fneg x && fneg y)
            (fnum x * fden y + fnum y * fden x) (fden x * fden y)) as ->.
  { int_cases x Hx; int_cases y Hy. }
  apply of_ratio_int; [done|done| |done|nia]. destruct Hx as [_ ->], Hy as [_ ->]. ring.
Qed.

Lemma fsub_int x y a b : is_int x a → is_int y b → Z.abs (a - b) < 2 ^ prec →
  is_int (fsub prec emax x y) (a - b).
Proof. intros Hx Hy Hab. apply fadd_int; [done|by apply fopp_int|done]. Qed.

Lemma fmul_int x y a b : is_int x a → is_int y b → Z.abs (a * b) < 2 ^ prec →
  is_int (fmul prec emax x y) (a * b).
Proof.
  intros Hx Hy Hab. pose proof (fden_pos x). pose proof (fden_pos y).
  assert (fmul prec emax x y = of_ratio prec emax (xorb (fneg x) (fneg y))
            (fnum x * fnum y) (fden x * fden y)) as ->.
  { int_cases x Hx; int_cases y Hy. }
  apply of_ratio_int; [done|done| |done|nia]. destruct Hx as [_ ->], Hy as [_ ->]. ring.
Qed.

(** An exact division. *)
Lemma fdiv_int x y a b : is_int x (a * b) → is_int y b → 0 < b → Z.abs a < 2 ^ prec →
  is_int (fdiv prec emax x y) a.
Proof.
  intros Hx Hy Hb Ha. pose proof (fden_pos x). pose proof (fden_pos y).
  assert (0 < fnum y) as Hny by (destruct Hy as [_ ->]; nia).
  assert (fdiv prec emax x y = of_ratio prec emax (xorb (fneg x) (fneg y))
            (fnum x * fden y * Z.sgn (fnum y)) (fden x * Z.abs (fnum y))) as ->.
  { int_cases x Hx; int_cases y Hy. }
  apply of_ratio_int; [done|done| |done|nia].
  rewrite Z.sgn_pos, Z.abs_eq by lia. destruct Hx as [_ ->], Hy as [_ ->]. ring.
Qed.

Lemma fround_int x a : is_int x a → Z.abs a < 2 ^ prec → is_int (fround prec emax x) a.
Proof.
  intros Hx Ha. destruct x as [|?| |s m e]; [done|by destruct Hx|by destruct Hx|].
  cbn [fround]. set (x := S754_finite s m e) in *. pose proof (fden_pos x). destruct Hx as [_ Hx].
  apply of_ratio_int; [done|done| |done|lia]. rewrite Hx, Z.abs_mul, (Z.abs_eq (fden x)) by lia.
  replace (2 * (Z.abs a * fden x) + fden x) with (fden x + Z.abs a * (2 * fden x)) by ring.
  rewrite Z.div_add, Z.div_small by lia. rewrite Z.sgn_mul, (Z.sgn_pos (fden x)) by lia.
  pose proof (Z.sgn_abs a). lia.
Qed.

End normal_ops.

(** The integers of the viewer are far below [2 ^ 53]. *)
Lemma f64_int z : Z.abs z < 2 ^ 53 → is_int (F64.of_int z) z.
Proof. by apply of_Z_int. Qed.

Lemma f64_add x y a b : is_int x a → is_int y b → Z.abs (a + b) < 2 ^ 53 → is_int (F64.add x y) (a + b).
Proof. by apply fadd_int. Qed.
Lemma f64_sub x y a b : is_int x a → is_int y b → Z.abs (a - b) < 2 ^ 53 → is_int (F64.sub x y) (a - b).
Proof. by apply fsub_int. Qed.
Lemma f64_mul x y a b : is_int x a → is_int y b → Z.abs (a * b) < 2 ^ 53 → is_int (F64.mul x y) (a * b).
Proof. by apply fmul_int. Qed.
Lemma f64_div x y a b : is_int x (a * b) → is_int y b → 0 < b → Z.abs a < 2 ^ 53 → is_int (F64.div x y) a.
Proof. by apply fdiv_int. Qed.
Lemma f64_round x a : is_int x a → Z.abs a < 2 ^ 53 → is_int (F64.round x) a.
Proof. by apply fround_int. Qed.

Lemma fclamp_total x lo hi l h : is_int lo l → is_int hi h → l ≤ h → is_Some (fclamp x lo hi).
Proof.
  intros Hl Hh Hlh. unfold fclamp. rewrite (fleb_int lo hi l h), (proj2 (Z.leb_le _ _)) by done. by eexists.
Qed.

#[export] Hint Resolve f64_int fmax_int fmin_int : vbox.
