(* ===== verification/State.v ===== *)
(** * A state monad that may panic

    Stateful code reads as a program of this monad: [None] is a panic, which nothing
    catches. [zoom] runs a program on a part of the state. The triples [hoare P m Q] are
    total: from [P], [m] does not panic and ends in [Q]. *)

From S2P Require Import Prelude.

Definition M (S A : Type) : Type := S → option (A * S).

#[export] Instance M_ret {S} : MRet (M S) := λ A a s, Some (a, s).
#[export] Instance M_bind {S} : MBind (M S) := λ A B f m s,
  match m s with Some (a, s') => f a s' | None => None end.

Section operations.
Context {S : Type}.

Definition gets {A} (f : S → A) : M S A := λ s, Some (f s, s).
Definition modify (f : S → S) : M S unit := λ s, Some (tt, f s).
Definition lift {A} (o : option A) : M S A := λ s, match o with Some a => Some (a, s) | None => None end.
Definition when (b : bool) (m : M S unit) : M S unit := if b then m else mret tt.

Fixpoint each {A} (f : A → M S unit) (l : list A) : M S unit :=
  match l with
  | [] => mret tt
  | x :: l' => f x;; each f l'
  end.

(** Run on a part of the state, if it is there. *)
Definition zoom {T A} (get : S → option T) (put : T → S → S) (default : A) (m : M T A) : M S A := λ s,
  match get s with
  | None => Some (default, s)
  | Some t => match m t with Some (a, t') => Some (a, put t' s) | None => None end
  end.

Definition hoare {A} (P : S → Prop) (m : M S A) (Q : A → S → Prop) : Prop :=
  ∀ s, P s → ∃ a s', m s = Some (a, s') ∧ Q a s'.

(** An invariant is kept, and there is no panic. *)
Definition sustains (I : S → Prop) {A} (m : M S A) : Prop := hoare I m (λ _, I).

Lemma run_bind {A B} (m : M S A) (f : A → M S B) s :
  (m ≫= f) s = match m s with Some (a, s') => f a s' | None => None end.
Proof. reflexivity. Qed.

Lemma hoare_ret {A} (P : S → Prop) (Q : A → S → Prop) a : (∀ s, P s → Q a s) → hoare P (mret a) Q.
Proof. intros H s Hs. exists a, s. auto. Qed.

Lemma hoare_bind {A B} P (R : A → S → Prop) (Q : B → S → Prop) (m : M S A) (f : A → M S B) :
  hoare P m R → (∀ a, hoare (R a) (f a) Q) → hoare P (m ≫= f) Q.
Proof.
  intros Hm Hf s Hs. destruct (Hm s Hs) as (a & s' & E & HR). destruct (Hf a s' HR) as (b & s'' & E' & HQ).
  exists b, s''. split; [|done]. unfold mbind, M_bind. by rewrite E.
Qed.

Lemma hoare_weaken {A} (P P' : S → Prop) (Q Q' : A → S → Prop) m :
  hoare P' m Q' → (∀ s, P s → P' s) → (∀ a s, Q' a s → Q a s) → hoare P m Q.
Proof. intros H HP HQ s Hs. destruct (H s (HP s Hs)) as (a & s' & ? & ?). eauto. Qed.

Lemma hoare_gets {A} (P : S → Prop) (f : S → A) Q : (∀ s, P s → Q (f s) s) → hoare P (gets f) Q.
Proof. intros H s Hs. exists (f s), s. auto. Qed.

Lemma hoare_modify (P : S → Prop) (f : S → S) (Q : unit → S → Prop) :
  (∀ s, P s → Q tt (f s)) → hoare P (modify f) Q.
Proof. intros H s Hs. exists tt, (f s). auto. Qed.

Lemma hoare_lift {A} (P : S → Prop) (o : option A) (Q : A → S → Prop) :
  (∀ s, P s → ∃ a, o = Some a ∧ Q a s) → hoare P (lift o) Q.
Proof. intros H s Hs. destruct (H s Hs) as (a & -> & ?). exists a, s. auto. Qed.

Lemma hoare_pre {A} (P : S → Prop) (m : M S A) Q :
  (∀ s, P s → hoare (λ s', s' = s) m Q) → hoare P m Q.
Proof. intros H s Hs. by apply (H s Hs). Qed.

(** *** The rules for an invariant *)

Lemma sustains_ret (I : S → Prop) {A} (a : A) : sustains I (mret a).
Proof. by apply hoare_ret. Qed.

Lemma sustains_bind (I : S → Prop) {A B} (m : M S A) (f : A → M S B) :
  sustains I m → (∀ a, sustains I (f a)) → sustains I (m ≫= f).
Proof. intros Hm Hf. by apply (hoare_bind _ (λ _, I)). Qed.

(** What was read of a well-formed state stays known. *)
Lemma sustains_read (I : S → Prop) {A B} (f : S → A) (k : A → M S B) :
  (∀ s, I s → sustains I (k (f s))) → sustains I (gets f ≫= k).
Proof. intros H s Hs. by apply (H s Hs). Qed.

(** A result with a property, used by what follows. *)
Lemma sustains_result (I : S → Prop) {A B} (P : A → Prop) (m : M S A) (f : A → M S B) :
  hoare I m (λ a s, I s ∧ P a) → (∀ a, P a → sustains I (f a)) → sustains I (m ≫= f).
Proof.
  intros Hm Hf. apply (hoare_bind _ (λ a s, I s ∧ P a)); [done|].
  intros a s [Hs Ha]. by apply (Hf a Ha).
Qed.

Lemma sustains_lift (I : S → Prop) {A B} (o : option A) (k : A → M S B) a :
  o = Some a → sustains I (k a) → sustains I (lift o ≫= k).
Proof. intros -> H s Hs. by apply H. Qed.

Lemma sustains_gets_any (I : S → Prop) {A} (f : S → A) : sustains I (gets f).
Proof. by apply hoare_gets. Qed.

Lemma sustains_modify (I : S → Prop) f : (∀ s, I s → I (f s)) → sustains I (modify f).
Proof. intros H. by apply hoare_modify. Qed.

Lemma sustains_when (I : S → Prop) b (m : M S unit) : sustains I m → sustains I (when b m).
Proof. destruct b; [done|]. intros _. apply sustains_ret. Qed.

Lemma sustains_each (I : S → Prop) {A} (f : A → M S unit) l :
  (∀ x, x ∈ l → sustains I (f x)) → sustains I (each f l).
Proof.
  induction l as [|x l IH]; intros H; [apply sustains_ret|].
  apply sustains_bind; [apply H; left|]. intros _. apply IH. intros y Hy. apply H. by right.
Qed.

Lemma each_app {X} (f : X → M S unit) l l' s :
  each f (l ++ l') s = match each f l s with Some (_, s') => each f l' s' | None => None end.
Proof.
  revert s. induction l as [|x l IH]; intros s; [done|]. cbn [each app]. rewrite !run_bind.
  destruct (f x s) as [[u s']|]; [apply IH|done].
Qed.

(** A loop whose state depends on the elements it has seen. *)
Lemma hoare_each {X} (I : list X → S → Prop) (f : X → M S unit) l :
  (∀ seen x, x ∈ l → hoare (I seen) (f x) (λ _, I (seen ++ [x]))) → hoare (I []) (each f l) (λ _, I l).
Proof.
  intros H. enough (∀ seen l', (∀ x, x ∈ l' → x ∈ l) → hoare (I seen) (each f l') (λ _, I (seen ++ l'))) as Hl
    by (by apply (Hl [] l)).
  intros seen l'. revert seen. induction l' as [|x l' IH]; intros seen Hin; cbn [each].
  - apply hoare_ret. intros s. by rewrite app_nil_r.
  - apply (hoare_bind _ (λ _, I (seen ++ [x]))); [apply H, Hin; left|]. intros _.
    rewrite (assoc_L (++) seen [x] l' : seen ++ x :: l' = _). apply IH. intros y Hy. apply Hin. by right.
Qed.

End operations.

(** A program on a part keeps the whole well formed if it keeps the part so. *)
Lemma sustains_zoom {S T} (I : S → Prop) (J : T → Prop) get put {A} (d : A) (m : M T A) :
  (∀ s t, I s → get s = Some t → J t) → (∀ s t t', I s → get s = Some t → J t' → I (put t' s)) →
  sustains J m → sustains I (zoom get put d m).
Proof.
  intros HJ Hput Hm s Hs. unfold zoom. destruct (get s) as [t|] eqn:E; [|by exists d, s].
  destruct (Hm t (HJ s t Hs E)) as (a & t' & -> & Ht'). exists a, (put t' s). eauto.
Qed.
Arguments M_bind : simpl never.

#[export] Hint Resolve sustains_ret sustains_gets_any sustains_when : vbox.
