(* ===== verification/Wire.v ===== *)
(** * The wire vocabulary (crates/proto)

    The message types of vbox-proto, constructor by constructor and field by field, with
    the kind tag that every frame repeats outside its payload. *)

From Stdlib Require Import SpecFloat.
From S2P Require Import Prelude.

(** An [f32] is an IEEE binary32 value. *)
Abbreviation f32 := spec_float (only parsing).

(** ** std::net addresses *)

Inductive IpAddr :=
  | IpAddr_V4 (bits : Z)
  | IpAddr_V6 (bits : Z).

Record SocketAddr := mkSocketAddr { sa_ip : IpAddr; sa_port : Z }.

(** ** handshake.rs *)

Record Hello := mkHello {
  hello_protocol_version : Z;
  hello_client_name : rstring
}.

Record Welcome := mkWelcome {
  welcome_protocol_version : Z;
  welcome_server_name : rstring;
  welcome_session_id : Z
}.

Record Goodbye := mkGoodbye { goodbye_reason : rstring }.

Record Ping := mkPing { ping_seq : Z; ping_stamp_ns : Z }.

Record Pong := mkPong { pong_seq : Z; pong_stamp_ns : Z }.

Record ProtoError := mkProtoError { perr_code : Z; perr_message : rstring }.

Record ViewRequest := mkViewRequest {
  vr_socket_name : rstring;
  vr_width : Z;
  vr_height : Z
}.

(** ** window.rs *)

Record WindowGeometry := mkWindowGeometry {
  geom_x : Z; geom_y : Z; geom_w : Z; geom_h : Z
}.

Inductive WindowEvent :=
  | WE_Created (id : Z) (geom : WindowGeometry) (title app_id : rstring)
  | WE_Configured (id : Z) (geom : WindowGeometry)
  | WE_Destroyed (id : Z)
  | WE_TitleChanged (id : Z) (title : rstring)
  | WE_Minimized (id : Z)
  | WE_MoveRequested (id : Z)
  | WE_FullscreenChanged (id : Z) (fullscreen : bool).

Inductive PixelEncoding := RawRgba | ZstdRgba.

Record FrameTile := mkFrameTile {
  tile_id : Z;
  tile_x : Z;
  tile_y : Z;
  tile_w : Z;
  tile_h : Z;
  tile_stride : Z;
  tile_encoding : PixelEncoding;
  tile_bytes : list byte
}.

(** ** input.rs *)

Inductive InputButtonState := Button_Pressed | Button_Released.
Inductive InputKeyState := Key_Pressed | Key_Released.

Inductive InputEvent :=
  | IE_PointerMotion (id x y : Z)
  | IE_PointerButton (id button : Z) (state : InputButtonState)
  | IE_PointerScroll (id delta_x_millis delta_y_millis : Z)
  | IE_Key (id keycode : Z) (state : InputKeyState)
  | IE_Text (id : Z) (text : rstring)
  | IE_Focus (id : Z) (focused : bool)
  | IE_Resize (id width height : Z)
  | IE_ToggleMaximize (id : Z)
  | IE_SetFullscreen (id : Z) (fullscreen : bool)
  | IE_Close (id : Z)
  | IE_Preedit (id : Z) (text : rstring) (cursor_begin cursor_end : Z).

(** ** clipboard.rs *)

Inductive ClipboardOrigin := Origin_Host | Origin_Guest.

Record Clipboard := mkClipboard {
  clip_origin : ClipboardOrigin;
  clip_serial : Z;
  clip_text : rstring
}.

Definition MAX_CLIPBOARD_TEXT_BYTES : Z := 256 * 1024.

(** ** volume.rs *)

Record VolumeChange := mkVolumeChange { vol_level : f32; vol_muted : bool }.

(** ** data_plane.rs: the bootstrap vocabulary *)

Inductive DataPlaneMode := TcpOnly | QuicOnly | Auto.

Record TransportCapabilities := mkTransportCapabilities {
  reliable_streams : bool;
  datagrams : bool;
  multi_app_channels : bool
}.

Definition TransportCapabilities_tcp : TransportCapabilities :=
  {| reliable_streams := true; datagrams := false; multi_app_channels := false |}.

Definition TransportCapabilities_quic_phase1 : TransportCapabilities :=
  {| reliable_streams := true; datagrams := true; multi_app_channels := true |}.

Record BootstrapBundle := mkBootstrapBundle {
  bundle_tcp_addr : SocketAddr;
  bundle_quic_addr : option SocketAddr;
  bundle_session_token : rstring;
  bundle_quic_server_cert_sha256 : option rstring;
  bundle_capabilities : TransportCapabilities
}.

Record DataPlaneAuth := mkDataPlaneAuth { auth_token : rstring }.

Inductive DataPlaneChannelPurpose := WindowReliable.

Record DataPlaneChannel := mkDataPlaneChannel {
  channel_id : Z;
  channel_purpose : DataPlaneChannelPurpose
}.

(** ** rpc.rs *)

Inductive RpcMethod :=
  | Rpc_Authenticate (token : rstring)
  | Rpc_Status
  | Rpc_StartInstance (instance : rstring) (port : Z) (debug : bool)
      (quic_bind : option IpAddr) (quic_port : option Z) (quic_token : option rstring)
  | Rpc_StopInstance (instance : rstring)
  | Rpc_LaunchApp (instance socket : rstring) (argv : list rstring) (wait_ready_ms : Z)
  | Rpc_WaitSocket (socket : rstring) (timeout_ms : Z)
  | Rpc_PrepareDataPlane (instance : option rstring) (tcp_addr : SocketAddr)
      (quic_addr : option SocketAddr) (session_token : rstring).

Record InstanceSummary := mkInstanceSummary {
  sum_instance : rstring;
  sum_port : Z;
  sum_server_pid : Z;
  sum_app_pids : list Z
}.

Record StatusReply := mkStatusReply {
  daemon_pid : Z;
  status_instances : list InstanceSummary
}.

Inductive RpcOk :=
  | RpcOk_Authenticated
  | RpcOk_Status (reply : StatusReply)
  | RpcOk_InstanceStarted (pid : Z)
  | RpcOk_InstanceStopped
  | RpcOk_AppLaunched (pid : Z)
  | RpcOk_SocketReady
  | RpcOk_DataPlanePrepared (bundle : BootstrapBundle).

Inductive RpcResult :=
  | RpcResult_Ok (ok : RpcOk)
  | RpcResult_Err (msg : rstring).

Record RpcRequest := mkRpcRequest { req_id : Z; req_method : RpcMethod }.
Record RpcResponse := mkRpcResponse { resp_id : Z; resp_result : RpcResult }.

(** ** message.rs and the kind tag of framing.rs *)

Inductive Kind :=
  | Kind_Hello | Kind_Welcome | Kind_Goodbye | Kind_ViewRequest | Kind_Ping | Kind_Pong
  | Kind_Error | Kind_DataPlaneAuth | Kind_DataPlaneChannel | Kind_WindowEvent
  | Kind_FrameTile | Kind_InputEvent | Kind_ImeEvent | Kind_RpcRequest
  | Kind_RpcResponse | Kind_Clipboard | Kind_VolumeChange.

#[export] Instance Kind_eq_dec : EqDecision Kind.
Proof. solve_decision. Defined.

(** The [repr(u32)] discriminants: [kind as u32]. *)
Definition kind_as_u32 (k : Kind) : Z :=
  match k with
  | Kind_Hello => 1 | Kind_Welcome => 2 | Kind_Goodbye => 3
  | Kind_ViewRequest => 20
  | Kind_Ping => 10 | Kind_Pong => 11
  | Kind_Error => 90 | Kind_DataPlaneAuth => 91 | Kind_DataPlaneChannel => 92
  | Kind_WindowEvent => 100 | Kind_FrameTile => 101
  | Kind_InputEvent => 200 | Kind_ImeEvent => 201
  | Kind_RpcRequest => 300 | Kind_RpcResponse => 301
  | Kind_Clipboard => 400
  | Kind_VolumeChange => 410
  end.

(** [Kind::from_u32]. *)
Definition kind_from_u32 (n : Z) : option Kind :=
  match n with
  | 1 => Some Kind_Hello
  | 2 => Some Kind_Welcome
  | 3 => Some Kind_Goodbye
  | 10 => Some Kind_Ping
  | 11 => Some Kind_Pong
  | 20 => Some Kind_ViewRequest
  | 90 => Some Kind_Error
  | 91 => Some Kind_DataPlaneAuth
  | 92 => Some Kind_DataPlaneChannel
  | 100 => Some Kind_WindowEvent
  | 101 => Some Kind_FrameTile
  | 200 => Some Kind_InputEvent
  | 201 => Some Kind_ImeEvent
  | 300 => Some Kind_RpcRequest
  | 301 => Some Kind_RpcResponse
  | 400 => Some Kind_Clipboard
  | 410 => Some Kind_VolumeChange
  | _ => None
  end.

Inductive Message :=
  | Message_Hello (m : Hello)
  | Message_Welcome (m : Welcome)
  | Message_Goodbye (m : Goodbye)
  | Message_Ping (m : Ping)
  | Message_Pong (m : Pong)
  | Message_Error (m : ProtoError)
  | Message_DataPlaneAuth (m : DataPlaneAuth)
  | Message_DataPlaneChannel (m : DataPlaneChannel)
  | Message_ViewRequest (m : ViewRequest)
  | Message_WindowEvent (m : WindowEvent)
  | Message_FrameTile (m : FrameTile)
  | Message_InputEvent (m : InputEvent)
  | Message_RpcRequest (m : RpcRequest)
  | Message_RpcResponse (m : RpcResponse)
  | Message_Clipboard (m : Clipboard)
  | Message_VolumeChange (m : VolumeChange).

(** [Message::kind]. *)
Definition message_kind (m : Message) : Kind :=
  match m with
  | Message_Hello _ => Kind_Hello
  | Message_Welcome _ => Kind_Welcome
  | Message_Goodbye _ => Kind_Goodbye
  | Message_ViewRequest _ => Kind_ViewRequest
  | Message_Ping _ => Kind_Ping
  | Message_Pong _ => Kind_Pong
  | Message_Error _ => Kind_Error
  | Message_DataPlaneAuth _ => Kind_DataPlaneAuth
  | Message_DataPlaneChannel _ => Kind_DataPlaneChannel
  | Message_WindowEvent _ => Kind_WindowEvent
  | Message_FrameTile _ => Kind_FrameTile
  | Message_InputEvent _ => Kind_InputEvent
  | Message_RpcRequest _ => Kind_RpcRequest
  | Message_RpcResponse _ => Kind_RpcResponse
  | Message_Clipboard _ => Kind_Clipboard
  | Message_VolumeChange _ => Kind_VolumeChange
  end.

(** ** Decidable equality *)

#[export] Instance byte_list_eq_dec : EqDecision (list byte) := list_eq_dec.
#[export] Instance PixelEncoding_eq_dec : EqDecision PixelEncoding.
Proof. solve_decision. Defined.
#[export] Instance FrameTile_eq_dec : EqDecision FrameTile.
Proof. solve_decision. Defined.
#[export] Instance ClipboardOrigin_eq_dec : EqDecision ClipboardOrigin.
Proof. solve_decision. Defined.
#[export] Instance WindowGeometry_eq_dec : EqDecision WindowGeometry.
Proof. solve_decision. Defined.
#[export] Instance WindowEvent_eq_dec : EqDecision WindowEvent.
Proof. solve_decision. Defined.
#[export] Instance DataPlaneMode_eq_dec : EqDecision DataPlaneMode.
Proof. solve_decision. Defined.

(** ** The tag is a faithful code of the kind *)

Lemma kind_from_as_u32 k : kind_from_u32 (kind_as_u32 k) = Some k.
Proof. by destruct k. Qed.

(** [kind_from_u32] names no number but the discriminants. *)
Lemma kind_as_from_u32 n k : kind_from_u32 n = Some k → kind_as_u32 k = n.
Proof.
  unfold kind_from_u32. intros H.
  repeat case_match; simplify_eq; done.
Qed.

Lemma kind_as_u32_range k : 1 ≤ kind_as_u32 k ≤ 410.
Proof. destruct k; simpl; lia. Qed.

#[export] Hint Rewrite kind_from_as_u32 : vbox_rw.
#[export] Hint Resolve kind_as_u32_range : vbox.

(** No message carries the reserved [ImeEvent] kind. *)
Lemma message_kind_not_ime m : message_kind m ≠ Kind_ImeEvent.
Proof. by destruct m. Qed.
