(* ===== verification/Framing.v ===== *)
(** * Frames on a byte stream (crates/proto/src/framing.rs)

    The connection prelude and the length-prefixed frames.  A [Read] source is the
    sequence of what its [read] calls yield: bytes, and errors between them; the end of
    the sequence is end of file.  postcard, the serializer of the payloads, is a
    parameter ([Codec]) with its round-trip law ([CodecLaws]). *)

From S2P Require Import Prelude Wire.

(** ** postcard *)

(** [postcard::to_allocvec] and [postcard::from_bytes] at a type. *)
Class Codec (A : Type) := {
  to_allocvec : A → option (list byte);
  from_bytes : list byte → option A
}.

(** What postcard documents: deserializing what it serialized gives the value back. *)
Class CodecLaws (A : Type) `{Codec A} :=
  from_to_bytes : ∀ (a : A) bs, to_allocvec a = Some bs → from_bytes bs = Some a.

(** ** Sources *)

Inductive io_error := WouldBlock | UnexpectedEof | ConnectionReset.

Inductive read_event :=
  | RE_byte (b : byte)
  | RE_error (k : io_error).

Abbreviation source := (list read_event) (only parsing).

Definition bytes_of (bs : list byte) : source := RE_byte <$> bs.

(** Where in a frame or prelude a read was made: the [context] of its error. *)
Inductive read_stage :=
  Stage_magic | Stage_version | Stage_length | Stage_kind | Stage_payload.

Inductive frame_error :=
  | FE_io (stage : read_stage) (k : io_error)
  | FE_bad_magic (magic : list byte)
  | FE_version_mismatch (peer : Z)
  | FE_too_small (frame_len : Z)
  | FE_too_big (frame_len : Z)
  | FE_unknown_kind (kind_raw : Z)
  | FE_kind_mismatch (header payload : Kind)
  | FE_deserialize
  | FE_serialize.

(** [downcast_ref::<std::io::Error>()]: the I/O error under the context, if any. *)
Definition io_error_of (e : frame_error) : option io_error :=
  match e with FE_io _ k => Some k | _ => None end.

#[export] Instance io_error_eq_dec : EqDecision io_error.
Proof. solve_decision. Defined.

(** A computation reading from a source: the value or error, and the rest. *)
Definition reader (A : Type) : Type := source → result frame_error A * source.

#[export] Instance reader_ret : MRet reader := fun A a src => (Ok a, src).
#[export] Instance reader_bind : MBind reader := fun A B f m src =>
  match m src with
  | (Ok a, src') => f a src'
  | (Err e, src') => (Err e, src')
  end.

Definition rd_lift {A} (r : result frame_error A) : reader A := fun src => (r, src).

(** [Read::read_exact] ([default_read_exact]): the bytes read before an error are
    consumed and dropped with the caller's buffer. *)
Fixpoint read_exact_io (n : nat) (src : source) : result io_error (list byte) * source :=
  match n, src with
  | O, _ => (Ok [], src)
  | S _, [] => (Err UnexpectedEof, [])
  | S _, RE_error k :: src' => (Err k, src')
  | S n', RE_byte b :: src' =>
      match read_exact_io n' src' with
      | (Ok bs, src'') => (Ok (b :: bs), src'')
      | (Err k, src'') => (Err k, src'')
      end
  end.

Definition read_exact (stage : read_stage) (n : nat) : reader (list byte) := fun src =>
  match read_exact_io n src with
  | (Ok bs, src') => (Ok bs, src')
  | (Err k, src') => (Err (FE_io stage k), src')
  end.

(** ** The prelude *)

Definition MAGIC : list byte := [Byte.x56; Byte.x42; Byte.x4f; Byte.x58].
Definition PROTOCOL_VERSION : Z := 15.
Definition MAX_FRAME_BYTES : Z := 64 * 1024 * 1024.

(** The bytes [write_prelude] sends. *)
Definition write_prelude : list byte := MAGIC ++ to_be_bytes 2 PROTOCOL_VERSION.

Definition read_prelude : reader Z :=
  magic ← read_exact Stage_magic 4;
  rd_lift (ensure (bool_decide (magic = MAGIC)) (FE_bad_magic magic)) ≫= λ _,
  ver_buf ← read_exact Stage_version 2;
  let ver := from_be_bytes ver_buf in
  rd_lift (ensure (ver =? PROTOCOL_VERSION) (FE_version_mismatch ver)) ≫= λ _,
  mret ver.

(** ** Frames *)

(** The layout of a frame: length (kind and payload), kind, payload. *)
Definition frame_layout (kind : Kind) (payload : list byte) : list byte :=
  to_be_bytes 4 (Z.of_nat (length payload) + 4) ++ to_be_bytes 4 (kind_as_u32 kind) ++ payload.

Section framing.
Context `{C : Codec Message}.

Definition encode_frame (msg : Message) : result frame_error (list byte) :=
  payload ← ok_or FE_serialize (to_allocvec msg);
  let kind := kind_as_u32 (message_kind msg) in
  let frame_len := Z.of_nat (length payload) + 4 in
  _ ← ensure (frame_len <=? MAX_FRAME_BYTES) (FE_too_big frame_len);
  mret (to_be_bytes 4 frame_len ++ to_be_bytes 4 kind ++ payload).

(** The bytes [write_frame] hands to [write_all], or its error. *)
Definition write_frame (msg : Message) : result frame_error (list byte) := encode_frame msg.

Definition decode_frame_payload (kind : Kind) (payload : list byte) :
    result frame_error Message :=
  msg ← ok_or FE_deserialize (from_bytes payload);
  _ ← ensure (bool_decide (message_kind msg = kind)) (FE_kind_mismatch kind (message_kind msg));
  mret msg.

Definition read_frame : reader Message :=
  len_buf ← read_exact Stage_length 4;
  let frame_len := from_be_bytes len_buf in
  rd_lift (ensure (4 <=? frame_len) (FE_too_small frame_len)) ≫= λ _,
  rd_lift (ensure (frame_len <=? MAX_FRAME_BYTES) (FE_too_big frame_len)) ≫= λ _,
  kind_buf ← read_exact Stage_kind 4;
  let kind_raw := from_be_bytes kind_buf in
  rd_lift (ok_or (FE_unknown_kind kind_raw) (kind_from_u32 kind_raw)) ≫= λ kind,
  let payload_len := Z.to_nat (frame_len - 4) in
  payload ← read_exact Stage_payload payload_len;
  rd_lift (decode_frame_payload kind payload).

End framing.

(** A concrete codec, to instantiate the parameter: pings and goodbyes in a fixed layout
    (a tag byte and the fields), nothing else serializable. *)
Module Toy.
Definition ser (m : Message) : option (list byte) :=
  match m with
  | Message_Ping p =>
      if bool_decide (0 ≤ ping_seq p < 2 ^ 64 ∧ 0 ≤ ping_stamp_ns p < 2 ^ 64)
      then Some (Byte.x03 :: to_be_bytes 8 (ping_seq p) ++ to_be_bytes 8 (ping_stamp_ns p))
      else None
  | _ => None
  end.

Definition de (bs : list byte) : option Message :=
  match bs with
  | Byte.x03 :: rest =>
      if bool_decide (length rest = 16%nat)
      then Some (Message_Ping (mkPing (from_be_bytes (take 8 rest)) (from_be_bytes (drop 8 rest))))
      else None
  | _ => None
  end.

#[export] Instance codec : Codec Message := {| to_allocvec := ser; from_bytes := de |}.

Lemma de_ping a b :
  length a = 8%nat → length b = 8%nat →
  de (Byte.x03 :: a ++ b) = Some (Message_Ping (mkPing (from_be_bytes a) (from_be_bytes b))).
Proof.
  intros Ha Hb. unfold de. rewrite bool_decide_true by (rewrite length_app; lia).
  by destruct (take_drop_app a b 8 Ha) as [-> ->].
Qed.

#[export] Instance laws : CodecLaws Message.
Proof.
  intros m bs. destruct m as [| | |[s t]| | | | | | | | | | | |]; try done.
  change (to_allocvec _) with (ser (Message_Ping (mkPing s t))).
  change (from_bytes bs) with (de bs). cbn [ser ping_seq ping_stamp_ns].
  case_bool_decide as Hr; [|done]. intros Heq. apply (inj Some) in Heq as <-.
  rewrite de_ping by apply to_be_bytes_length.
  rewrite !from_to_be_bytes, !Z.mod_small by lia. done.
Qed.

Definition ping (n : Z) : Message := Message_Ping (mkPing n (n + 1)).
End Toy.

(** A codec for any countable type: the bits of its code, after a tag byte. *)
Module Bits.
Fixpoint put (p : positive) : list byte :=
  match p with
  | xH => []
  | xO p' => Byte.x00 :: put p'
  | xI p' => Byte.x01 :: put p'
  end.

Fixpoint get (bs : list byte) : option positive :=
  match bs with
  | [] => Some xH
  | Byte.x00 :: bs' => xO <$> get bs'
  | Byte.x01 :: bs' => xI <$> get bs'
  | _ => None
  end.

Lemma get_put p : get (put p) = Some p.
Proof. induction p as [p IH|p IH|]; simpl; rewrite ?IH; done. Qed.

Definition codec {A} `{Countable A} : Codec A :=
  {| to_allocvec a := Some (Byte.x02 :: put (encode a));
     from_bytes bs := match bs with Byte.x02 :: bs' => get bs' ≫= decode | _ => None end |}.

Lemma laws {A} `{Countable A} : @CodecLaws A codec.
Proof. intros a bs [= <-]. simpl. rewrite get_put. apply decode_encode. Qed.
End Bits.

(** ** Lemmas: reading *)

Lemma bytes_of_app l k : bytes_of (l ++ k) = bytes_of l ++ bytes_of k.
Proof. apply fmap_app. Qed.

Lemma read_exact_io_bytes bs rest :
  read_exact_io (length bs) (bytes_of bs ++ rest) = (Ok bs, rest).
Proof. induction bs as [|b bs IH]; [done|]. csimpl. by rewrite IH. Qed.

Lemma read_exact_io_ok n src bs rest :
  read_exact_io n src = (Ok bs, rest) ↔ src = bytes_of bs ++ rest ∧ length bs = n.
Proof.
  split.
  - revert src bs. induction n as [|n IH]; intros src bs; simpl.
    + by intros [= <- <-].
    + destruct src as [|[b|k] src]; try done.
      destruct (read_exact_io n src) as [[bs'|k] src'] eqn:E; [|done].
      intros [= <- <-]. apply IH in E as [-> <-]. done.
  - intros [-> <-]. apply read_exact_io_bytes.
Qed.

(** An error (or the end) in the middle of a read consumes what came before it. *)
Lemma read_exact_io_cut n bs k rest :
  (length bs < n)%nat → read_exact_io n (bytes_of bs ++ RE_error k :: rest) = (Err k, rest).
Proof.
  revert n. induction bs as [|b bs IH]; intros [|n]; csimpl; try lia; [done|].
  intros Hn. by rewrite IH by lia.
Qed.

(** What remains is a suffix of the source, and a failed read has consumed too. *)
Lemma read_exact_io_suffix n src r rest :
  read_exact_io n src = (r, rest) →
  ∃ used, src = used ++ rest ∧ (length used ≤ n)%nat ∧ ((0 < n)%nat → src ≠ [] → used ≠ []).
Proof.
  revert src r rest. induction n as [|n IH]; intros src r rest; simpl.
  - intros [= <- <-]. exists []. simpl. split_and!; [done|lia|lia].
  - destruct src as [|[b|k] src]; [intros [= <- <-]; exists []; simpl; split_and!; [done|lia|done]| |].
    + destruct (read_exact_io n src) as [r' src'] eqn:E.
      apply IH in E as (used & -> & Hl & _). intros Heq.
      assert (src' = rest) as -> by (destruct r'; congruence).
      exists (RE_byte b :: used). simpl. split_and!; [done|lia|done].
    + intros [= <- <-]. exists [RE_error k]. simpl. split_and!; [done|lia|done].
Qed.

Lemma reader_bind_ok {A B} (m : reader A) (f : A → reader B) src b rest :
  (m ≫= f) src = (Ok b, rest) ↔ ∃ a mid, m src = (Ok a, mid) ∧ f a mid = (Ok b, rest).
Proof.
  unfold mbind, reader_bind. destruct (m src) as [[a|e] mid]; split.
  - eauto.
  - by intros (a' & mid' & [= <- <-] & ?).
  - done.
  - intros (? & ? & Hf & _). discriminate Hf.
Qed.

Lemma read_exact_ok stage n src bs rest :
  read_exact stage n src = (Ok bs, rest) ↔ src = bytes_of bs ++ rest ∧ length bs = n.
Proof.
  rewrite <- read_exact_io_ok. unfold read_exact.
  destruct (read_exact_io n src) as [[|] ?]; naive_solver.
Qed.

Lemma reader_bind_at {A B} (m : reader A) (f : A → reader B) src a mid :
  m src = (Ok a, mid) → (m ≫= f) src = f a mid.
Proof. intros E. unfold mbind, reader_bind. by rewrite E. Qed.

Lemma reader_bind_err {A B} (m : reader A) (f : A → reader B) src e mid :
  m src = (Err e, mid) → (m ≫= f) src = (Err e, mid).
Proof. intros E. unfold mbind, reader_bind. by rewrite E. Qed.

Lemma read_exact_app st n bs rest :
  length bs = n → read_exact st n (bytes_of bs ++ rest) = (Ok bs, rest).
Proof. intros <-. by apply read_exact_ok. Qed.

Lemma read_exact_cut st n bs k rest :
  (length bs < n)%nat →
  read_exact st n (bytes_of bs ++ RE_error k :: rest) = (Err (FE_io st k), rest).
Proof. intros Hn. unfold read_exact. by rewrite read_exact_io_cut. Qed.

Lemma rd_lift_ok {A} (r : result frame_error A) src a rest :
  rd_lift r src = (Ok a, rest) ↔ r = Ok a ∧ rest = src.
Proof. unfold rd_lift. naive_solver. Qed.

Lemma ensure_bind_ok {B} b e (k : unit → reader B) src r rest :
  (rd_lift (ensure b e) ≫= k) src = (Ok r, rest) ↔ b = true ∧ k tt src = (Ok r, rest).
Proof.
  rewrite reader_bind_ok. setoid_rewrite rd_lift_ok. setoid_rewrite ensure_ok.
  split; [intros ([] & ? & [? ->] & ?); done|intros [? ?]; by exists tt, src].
Qed.

(** ** The prelude *)

(** [read_prelude] accepts a connection exactly when it starts with the six bytes
    that [write_prelude] sends, and then consumes exactly those. *)
Theorem read_prelude_iff src v rest :
  read_prelude src = (Ok v, rest) ↔
  src = bytes_of write_prelude ++ rest ∧ v = PROTOCOL_VERSION.
Proof.
  unfold read_prelude. rewrite reader_bind_ok. setoid_rewrite read_exact_ok.
  setoid_rewrite ensure_bind_ok. setoid_rewrite bool_decide_eq_true.
  setoid_rewrite reader_bind_ok. setoid_rewrite read_exact_ok.
  setoid_rewrite ensure_bind_ok. setoid_rewrite Z.eqb_eq.
  unfold write_prelude. rewrite bytes_of_app, <- app_assoc.
  split.
  - intros (? & ? & [-> _] & -> & vb & ? & [-> Hl] & Hv & [= <- <-]).
    by rewrite <- Hv, <- Hl, to_be_from_be_bytes.
  - intros [-> ->]. exists MAGIC, (bytes_of (to_be_bytes 2 PROTOCOL_VERSION) ++ rest).
    split_and!; [done..|]. eexists _, rest. by split_and!.
Qed.

(** ** Frames *)

Lemma frame_layout_length k p : length (frame_layout k p) = (8 + length p)%nat.
Proof. unfold frame_layout. rewrite !length_app, !to_be_bytes_length. lia. Qed.

Section frame_lemmas.
Context `{C : Codec Message}.

(** [src] starts, uninterrupted, with a well-formed frame carrying [m]. *)
Definition well_framed (src : source) (m : Message) (rest : source) : Prop :=
  ∃ payload, src = bytes_of (frame_layout (message_kind m) payload) ++ rest
    ∧ Z.of_nat (length payload) + 4 ≤ MAX_FRAME_BYTES
    ∧ from_bytes payload = Some m.

Lemma encode_frame_ok msg bs :
  encode_frame msg = Ok bs ↔
  ∃ payload, to_allocvec msg = Some payload ∧
    Z.of_nat (length payload) + 4 ≤ MAX_FRAME_BYTES ∧
    bs = frame_layout (message_kind msg) payload.
Proof.
  unfold encode_frame, frame_layout. rewrite bind_ok. setoid_rewrite ok_or_ok.
  split.
  - intros (p & Hp & (u & Hu & [= <-])%bind_ok). apply ensure_ok in Hu.
    exists p. rewrite Z.leb_le in Hu. done.
  - intros (p & Hp & Hle & ->). exists p. split; [done|].
    apply bind_ok. exists tt. rewrite ensure_ok, Z.leb_le. done.
Qed.

Lemma decode_frame_payload_ok k p m :
  decode_frame_payload k p = Ok m ↔ from_bytes p = Some m ∧ message_kind m = k.
Proof.
  unfold decode_frame_payload. rewrite bind_ok. setoid_rewrite ok_or_ok.
  split.
  - intros (m' & Hm & (u & Hu & [= <-])%bind_ok).
    apply ensure_ok, bool_decide_eq_true in Hu. done.
  - intros [Hm <-]. exists m. split; [done|]. apply bind_ok. exists tt.
    by rewrite ensure_ok, bool_decide_eq_true.
Qed.

Lemma frame_len_roundtrip n :
  0 ≤ n ≤ MAX_FRAME_BYTES → from_be_bytes (to_be_bytes 4 n) = n.
Proof.
  intros Hn. rewrite from_to_be_bytes, Z.mod_small; [done|].
  unfold MAX_FRAME_BYTES in *. lia.
Qed.

Lemma kind_roundtrip k : from_be_bytes (to_be_bytes 4 (kind_as_u32 k)) = kind_as_u32 k.
Proof.
  rewrite from_to_be_bytes, Z.mod_small; [done|].
  pose proof (kind_as_u32_range k). lia.
Qed.

(** The header of a well-formed frame reads as its fields. *)
Lemma read_frame_header k (p : list byte) src :
  Z.of_nat (length p) + 4 ≤ MAX_FRAME_BYTES →
  read_frame (bytes_of (to_be_bytes 4 (Z.of_nat (length p) + 4)) ++ src)
  = (kind_buf ← read_exact Stage_kind 4;
     rd_lift (ok_or (FE_unknown_kind (from_be_bytes kind_buf))
               (kind_from_u32 (from_be_bytes kind_buf))) ≫= λ kind,
     payload ← read_exact Stage_payload (length p);
     rd_lift (decode_frame_payload kind payload)) src
  ∧ read_frame (bytes_of (to_be_bytes 4 (Z.of_nat (length p) + 4)
                          ++ to_be_bytes 4 (kind_as_u32 k)) ++ src)
  = (payload ← read_exact Stage_payload (length p);
     rd_lift (decode_frame_payload k payload)) src.
Proof.
  intros Hmax. set (n := Z.of_nat (length p) + 4) in *.
  assert (∀ src, read_frame (bytes_of (to_be_bytes 4 n) ++ src)
    = (kind_buf ← read_exact Stage_kind 4;
       rd_lift (ok_or (FE_unknown_kind (from_be_bytes kind_buf))
                 (kind_from_u32 (from_be_bytes kind_buf))) ≫= λ kind,
       payload ← read_exact Stage_payload (length p);
       rd_lift (decode_frame_payload kind payload)) src) as Hlen.
  { intros src'. unfold read_frame. erewrite reader_bind_at by (by apply read_exact_app).
    rewrite frame_len_roundtrip by lia.
    rewrite (proj2 (Z.leb_le 4 n)), (proj2 (Z.leb_le n _)) by lia.
    replace (Z.to_nat (n - 4)) with (length p) by lia. done. }
  split; [apply Hlen|]. rewrite bytes_of_app, <- app_assoc, Hlen.
  erewrite reader_bind_at by (by apply read_exact_app).
  by rewrite kind_roundtrip, kind_from_as_u32.
Qed.

Lemma read_frame_ok src m rest :
  read_frame src = (Ok m, rest) ↔ well_framed src m rest.
Proof.
  unfold well_framed, frame_layout. split.
  - unfold read_frame. rewrite reader_bind_ok. setoid_rewrite read_exact_ok.
    setoid_rewrite ensure_bind_ok. setoid_rewrite ensure_bind_ok.
    setoid_rewrite Z.leb_le. intros (lb & ? & [-> Hlb] & H4 & Hmax & Hk).
    apply reader_bind_ok in Hk as (kb & ? & [-> Hkb]%read_exact_ok & Hk).
    apply reader_bind_ok in Hk as (k & ? & [Hkind%ok_or_ok ->]%rd_lift_ok & Hp).
    apply reader_bind_ok in Hp as (p & ? & [-> Hpl]%read_exact_ok & Hd).
    apply rd_lift_ok in Hd as [[Hm <-]%decode_frame_payload_ok ->].
    exists p. rewrite (kind_as_from_u32 _ _ Hkind).
    replace (Z.of_nat (length p) + 4) with (from_be_bytes lb) by lia.
    rewrite (to_be_from_be_bytes_n 4 lb), (to_be_from_be_bytes_n 4 kb) by done.
    by rewrite !bytes_of_app, <- !app_assoc.
  - intros (p & -> & Hmax & Hm). rewrite app_assoc, bytes_of_app, <- app_assoc.
    rewrite (proj2 (read_frame_header _ _ _ Hmax)).
    erewrite reader_bind_at by (by apply read_exact_app).
    apply rd_lift_ok. split; [by apply decode_frame_payload_ok|done].
Qed.
(** [read_frame] is characterised on every source: it returns a message exactly
    when the source starts, uninterrupted, with a frame whose length field is
    consistent with the payload and within [MAX_FRAME_BYTES], whose kind tag is the
    message's own and whose payload postcard decodes; and it leaves what follows. *)
Theorem read_frame_iff src m rest :
  read_frame src = (Ok m, rest) ↔
  ∃ payload, src = bytes_of (frame_layout (message_kind m) payload) ++ rest
    ∧ Z.of_nat (length payload) + 4 ≤ MAX_FRAME_BYTES
    ∧ from_bytes payload = Some m.
Proof. apply read_frame_ok. Qed.
End frame_lemmas.

Section frame_roundtrip.
Context `{C : Codec Message, L : !CodecLaws Message}.

(** C5: whatever [encode_frame] accepts, [read_frame] reads back, leaving exactly the
    bytes (and events) that follow the frame. *)
Theorem frame_roundtrip msg bs rest :
  encode_frame msg = Ok bs → read_frame (bytes_of bs ++ rest) = (Ok msg, rest).
Proof.
  intros (p & Hp & Hle & ->)%encode_frame_ok. apply read_frame_ok.
  exists p. by split_and!; [| |apply from_to_bytes].
Qed.
End frame_roundtrip.

#[local] Existing Instances Toy.codec Toy.laws.

Lemma frame_roundtrip_witness :
  ∃ bs, encode_frame (Toy.ping 7) = Ok bs ∧
        read_frame (bytes_of bs ++ [RE_byte Byte.x00]) = (Ok (Toy.ping 7), [RE_byte Byte.x00]).
Proof. eexists. split; [reflexivity|]. by apply frame_roundtrip. Defined.

(** ** What a failing read costs *)

Section frame_errors.
Context `{C : Codec Message}.

Definition consumes {A} (bound : Z) (m : reader A) : Prop :=
  ∀ src r rest, m src = (r, rest) →
    ∃ used, src = used ++ rest ∧ Z.of_nat (length used) ≤ bound.

Lemma consumes_lift {A} (r : result frame_error A) : consumes 0 (rd_lift r).
Proof. intros src ? ? [= <- <-]. exists []. done. Qed.

Lemma consumes_read_exact st n : consumes (Z.of_nat n) (read_exact st n).
Proof.
  intros src r rest Hr. unfold read_exact in Hr.
  destruct (read_exact_io n src) as [r' src'] eqn:E.
  apply read_exact_io_suffix in E as (used & -> & Hl & _).
  exists used. assert (src' = rest) as -> by (destruct r'; congruence). split; [done|lia].
Qed.

Lemma consumes_bind {A B} n k (m : reader A) (f : A → reader B) :
  0 ≤ k → consumes n m → (∀ a src mid, m src = (Ok a, mid) → consumes k (f a)) →
  consumes (n + k) (m ≫= f).
Proof.
  intros Hk Hm Hf src r rest. unfold mbind, reader_bind.
  destruct (m src) as [[a|e] mid] eqn:E; destruct (Hm _ _ _ E) as (u & -> & Hu).
  - intros (u' & -> & Hu')%(Hf _ _ _ E). exists (u ++ u').
    rewrite <- app_assoc, length_app. split; [done|lia].
  - intros [= _ <-]. exists u. split; [done|lia].
Qed.

(** However hostile the peer, one [read_frame] takes at most [MAX_FRAME_BYTES + 4]
    events off the source (in particular it asks for no larger buffer), and what it
    leaves is a suffix of what there was. *)
Theorem read_frame_bounded src r rest :
  read_frame src = (r, rest) →
  ∃ used, src = used ++ rest ∧ Z.of_nat (length used) ≤ MAX_FRAME_BYTES + 4.
Proof.
  enough (consumes (MAX_FRAME_BYTES + 4) read_frame) as Hc by apply Hc.
  unfold read_frame. rewrite (Z.add_comm MAX_FRAME_BYTES).
  apply consumes_bind; [done|apply (consumes_read_exact _ 4)|].
  intros lb s1 s2 _. replace MAX_FRAME_BYTES with (0 + (0 + MAX_FRAME_BYTES)) by done.
  apply consumes_bind; [done|apply consumes_lift|].
  intros _ s3 s4 [H4%ensure_ok _]%rd_lift_ok.
  apply consumes_bind; [done|apply consumes_lift|].
  intros _ s5 s6 [Hm%ensure_ok _]%rd_lift_ok. bool_to_prop.
  set (n := from_be_bytes lb) in *.
  cut (consumes (4 + (0 + ((n - 4) + 0))) (kind_buf ← read_exact Stage_kind 4;
    let kind_raw := from_be_bytes kind_buf in
    rd_lift (ok_or (FE_unknown_kind kind_raw) (kind_from_u32 kind_raw)) ≫= λ kind,
    let payload_len := Z.to_nat (n - 4) in
    payload ← read_exact Stage_payload payload_len;
    rd_lift (decode_frame_payload kind payload))).
  { intros Hc src' r' rest' (u & -> & Hu)%Hc. exists u. split; [done|lia]. }
  apply consumes_bind; [lia|apply (consumes_read_exact _ 4)|]. intros kb s7 s8 _.
  apply consumes_bind; [lia|apply consumes_lift|]. intros k s9 s10 _.
  apply consumes_bind; [done| |intros; apply consumes_lift].
  intros src' r' rest' (u & -> & Hu)%consumes_read_exact. exists u. split; [done|lia].
Qed.
End frame_errors.

Lemma read_frame_bounded_witness :
  ∃ r rest, read_frame (bytes_of (replicate 8 Byte.xff)) = (r, rest) ∧
    ∃ used, bytes_of (replicate 8 Byte.xff) = used ++ rest ∧
            Z.of_nat (length used) ≤ MAX_FRAME_BYTES + 4.
Proof.
  eexists _, _. split; [reflexivity|]. eapply read_frame_bounded. reflexivity.
Defined.
