(* ===== verification/Transport.v ===== *)
(** * The compositor's TCP transport (crates/server/src/wayland_session/io.rs)

    The two threads [WaylandIo::from_tcp] spawns: the view reader, whose socket has a
    1 ms read timeout so that a read may fail with [WouldBlock] at any byte, and the
    view writer.  The channels between the threads and the compositor are the lists of
    the messages sent through them. *)

From S2P Require Import Prelude Wire Framing.

Section transport.
Context `{C : Codec Message}.

(** What a thread leaves behind: what it passed on, and whether it set [disconnected]. *)
Record thread_state (A : Type) := mkThread { passed : list A; disconnected : bool }.
Arguments mkThread {A} passed disconnected.
Arguments passed {A} _.
Arguments disconnected {A} _.

(** The ["vbox-tcp-view-read"] loop.  [open sent] says whether the receiving end of
    [inbound_tx] still exists after [sent] messages; [fuel] bounds the iterations, and an
    exhausted loop has not set the flag. *)
Fixpoint tcp_view_read (fuel : nat) (open : nat → bool) (sent : list Message) (reader : source) :
    thread_state Message :=
  match fuel with
  | O => mkThread sent false
  | S fuel' =>
      match read_frame reader with
      | (Ok msg, reader') =>
          if open (length sent) then tcp_view_read fuel' open (sent ++ [msg]) reader'
          else mkThread sent true
      | (Err e, reader') =>
          if bool_decide (io_error_of e = Some WouldBlock)
          then tcp_view_read fuel' open sent reader'
          else mkThread sent true
      end
  end.

(** Every iteration but the last consumes an event: the length of the source, and one
    more iteration to see its end, are enough. *)
Definition tcp_read_from (open : nat → bool) (sent : list Message) (reader : source) :
    thread_state Message :=
  tcp_view_read (S (length reader)) open sent reader.

Definition tcp_read_all (open : nat → bool) (reader : source) : thread_state Message :=
  tcp_read_from open [] reader.

(** The ["vbox-tcp-view-write"] loop: [works written] says whether the socket takes
    another frame after [written].  The flag is set when the queue ends, too. *)
Fixpoint tcp_view_write (works : list byte → bool) (written : list byte)
    (outbound : list Message) : thread_state byte :=
  match outbound with
  | [] => mkThread written true
  | msg :: rest =>
      match write_frame msg with
      | Ok bs => if works written then tcp_view_write works (written ++ bs) rest
                 else mkThread written true
      | Err _ => mkThread written true
      end
  end.

End transport.

Arguments passed {A} _.
Arguments disconnected {A} _.
Arguments mkThread {A} _ _.

(** ** Lemmas *)

(** A read timeout. *)
Definition timeout : read_event := RE_error WouldBlock.

(** A source in which timeouts fall between frames only: before each frame of [frs],
    the given number of them, and [n] at the end. *)
Definition between_frames (frs : list (nat * list byte)) (n : nat) : source :=
  concat ((λ '(k, bs), replicate k timeout ++ bytes_of bs) <$> frs) ++ replicate n timeout.

Section transport_lemmas.
Context `{C : Codec Message, L : !CodecLaws Message}.
Implicit Types (src rest : source) (open : nat → bool).

Lemma read_frame_timeout rest : read_frame (timeout :: rest) = (Err (FE_io Stage_length WouldBlock), rest).
Proof. done. Qed.

Lemma read_frame_eof : read_frame [] = (Err (FE_io Stage_length UnexpectedEof), []).
Proof. done. Qed.

(** A read of a nonempty source makes progress. *)
Lemma read_frame_progress src r rest :
  read_frame src = (r, rest) → src ≠ [] → (length rest < length src)%nat.
Proof.
  intros Hr Hne. unfold read_frame, mbind, reader_bind, read_exact in Hr.
  destruct (read_exact_io 4 src) as [r0 s0] eqn:E0.
  assert (length s0 < length src)%nat as H0.
  { apply read_exact_io_suffix in E0 as (u & -> & _ & Hu).
    rewrite length_app. destruct u; [|simpl; lia].
    exfalso. apply Hu; [lia|done..]. }
  cut (length rest ≤ length s0)%nat; [lia|]. clear - Hr.
  unfold rd_lift in Hr. destruct r0; [|by simplify_eq].
  destruct (ensure _ _); [|by simplify_eq].
  destruct (ensure _ _); [|by simplify_eq].
  destruct (read_exact_io 4 s0) as [[kb|] s1] eqn:E1;
    apply read_exact_io_suffix in E1 as (u1 & -> & _ & _); rewrite length_app;
    [|by simplify_eq; lia].
  destruct (ok_or _ _); [|simplify_eq; lia].
  destruct (read_exact_io _ s1) as [[p|] s2] eqn:E2;
    apply read_exact_io_suffix in E2 as (u2 & -> & _ & _); rewrite length_app;
    simplify_eq; lia.
Qed.

(** More fuel than needed changes nothing. *)
Lemma tcp_view_read_fuel fuel fuel' open sent src :
  (length src < fuel)%nat → (length src < fuel')%nat →
  tcp_view_read fuel open sent src = tcp_view_read fuel' open sent src.
Proof.
  revert fuel' sent src. induction fuel as [|fuel IH]; intros [|fuel'] sent src; try lia.
  intros Hf Hf'. cbn [tcp_view_read].
  destruct (read_frame src) as [r rest] eqn:E.
  destruct src as [|e src].
  { rewrite read_frame_eof in E. by injection E as <- <-. }
  apply read_frame_progress in E; [|done]. cbn [length] in *.
  destruct r as [m|e']; case_match; try done; apply IH; lia.
Qed.

Lemma tcp_step_ok src rest open sent m :
  read_frame src = (Ok m, rest) → open (length sent) = true → src ≠ [] →
  tcp_read_from open sent src = tcp_read_from open (sent ++ [m]) rest.
Proof.
  intros E Ho Hne. unfold tcp_read_from at 1. cbn [tcp_view_read]. rewrite E, Ho.
  apply read_frame_progress in E; [|done]. apply tcp_view_read_fuel; lia.
Qed.

Lemma tcp_step_block src rest open sent st :
  read_frame src = (Err (FE_io st WouldBlock), rest) → src ≠ [] →
  tcp_read_from open sent src = tcp_read_from open sent rest.
Proof.
  intros E Hne. unfold tcp_read_from at 1. cbn [tcp_view_read]. rewrite E.
  rewrite bool_decide_true by done.
  apply read_frame_progress in E; [|done]. apply tcp_view_read_fuel; lia.
Qed.

(** The view reader terminates on every source: it always ends by setting
    [disconnected], whatever bytes, timeouts and errors the socket yields. *)
Theorem tcp_read_all_terminates open src : disconnected (tcp_read_all open src) = true.
Proof.
  unfold tcp_read_all.
  enough (∀ fuel sent src, (length src < fuel)%nat →
    disconnected (tcp_view_read fuel open sent src) = true) as Hterm by (apply Hterm; lia).
  clear src. induction fuel as [|fuel IH]; intros sent src Hf; [lia|]. cbn [tcp_view_read].
  destruct (read_frame src) as [r rest] eqn:E.
  destruct src as [|e src].
  { rewrite read_frame_eof in E. by injection E as <- <-. }
  apply read_frame_progress in E; [|done]. cbn [length] in *.
  destruct r; case_match; try done; apply IH; lia.
Qed.

Lemma tcp_read_skip_timeouts n open sent rest :
  tcp_read_from open sent (replicate n timeout ++ rest) = tcp_read_from open sent rest.
Proof.
  induction n as [|n IH]; [done|]. rewrite <- IH.
  by apply (tcp_step_block _ _ _ _ _ (read_frame_timeout _)).
Qed.

Lemma tcp_read_one open sent m bs rest :
  encode_frame m = Ok bs → open (length sent) = true →
  tcp_read_from open sent (bytes_of bs ++ rest) = tcp_read_from open (sent ++ [m]) rest.
Proof.
  intros (p & Hp & Hle & ->)%encode_frame_ok Ho. apply tcp_step_ok; [|done|done].
  apply read_frame_ok. exists p. by split_and!; [| |apply from_to_bytes].
Qed.

(** The view reader is faithful as long as read timeouts fall between frames: it
    passes every message on, in order, and sets the flag at end of file. *)
Theorem tcp_read_all_frames (open : nat → bool) (ms : list Message)
    (frs : list (nat * list byte)) (n : nat) :
  (∀ i, open i = true) →
  Forall2 (λ m fr, encode_frame m = Ok fr.2) ms frs →
  tcp_read_all open (between_frames frs n) = mkThread ms true.
Proof.
  intros Hopen Hms. unfold tcp_read_all.
  enough (∀ sent, tcp_read_from open sent (between_frames frs n)
    = mkThread (sent ++ ms) true) as -> by done.
  induction Hms as [|m [k bs] ms frs Hm Hms IH]; intros sent; unfold between_frames.
  - cbn [fmap list_fmap concat app].
    rewrite <- (app_nil_r (replicate n timeout)), tcp_read_skip_timeouts.
    by rewrite app_nil_r.
  - cbn [fmap list_fmap concat]. rewrite <- !app_assoc.
    rewrite tcp_read_skip_timeouts.
    rewrite (tcp_read_one _ _ m) by done. cbn [snd] in *.
    unfold between_frames in IH. rewrite IH. by rewrite <- app_assoc.
Qed.

(** A frame that stops short makes [read_frame] fail wherever it stops, with the error the
    source has there. *)
Lemma read_frame_broken kd k p pre post tail rest :
  (∀ st n bs, (length bs < n)%nat → read_exact st n (bytes_of bs ++ tail) = (Err (FE_io st kd), rest)) →
  Z.of_nat (length p) + 4 ≤ MAX_FRAME_BYTES →
  frame_layout k p = pre ++ post → post ≠ [] →
  ∃ st, read_frame (bytes_of pre ++ tail) = (Err (FE_io st kd), rest).
Proof.
  unfold frame_layout. intros Htail Hmax Hbs Hpost.
  set (n := Z.of_nat (length p) + 4) in *.
  pose proof (to_be_bytes_length 4 n) as Hl.
  pose proof (to_be_bytes_length 4 (kind_as_u32 k)) as Hk.
  assert (0 < length post)%nat by (destruct post; simpl; [done|lia]).
  pose proof (f_equal length Hbs) as Hlen. rewrite !length_app in Hlen.
  destruct (decide (length pre < 4)%nat) as [H4|H4].
  { exists Stage_length. unfold read_frame. by apply reader_bind_err, Htail. }
  destruct (app_split_long _ _ _ _ Hbs ltac:(lia)) as (pre' & -> & Hbs').
  destruct (decide (length pre' < 4)%nat) as [H8|H8].
  { exists Stage_kind. rewrite bytes_of_app, <- app_assoc, (proj1 (read_frame_header k p _ Hmax)).
    by apply reader_bind_err, Htail. }
  destruct (app_split_long _ _ _ _ Hbs' ltac:(lia)) as (pre'' & -> & Ep).
  exists Stage_payload. rewrite app_assoc, bytes_of_app, <- app_assoc.
  rewrite (proj2 (read_frame_header k p _ Hmax)).
  apply reader_bind_err, Htail. rewrite Ep, length_app. lia.
Qed.

Lemma read_frame_cut k p pre post :
  Z.of_nat (length p) + 4 ≤ MAX_FRAME_BYTES →
  frame_layout k p = pre ++ post → post ≠ [] →
  ∀ rest, ∃ st, read_frame (bytes_of pre ++ timeout :: rest) = (Err (FE_io st WouldBlock), rest).
Proof.
  intros Hmax Hbs Hpost rest. eapply read_frame_broken; [|done..]. intros st n bs. apply read_exact_cut.
Qed.

Lemma read_exact_short st n bs :
  (length bs < n)%nat → read_exact st n (bytes_of bs ++ []) = (Err (FE_io st UnexpectedEof), []).
Proof.
  intros Hn. rewrite app_nil_r. unfold read_exact.
  assert (read_exact_io n (bytes_of bs) = (Err UnexpectedEof, [])) as ->; [|done].
  revert n Hn. induction bs as [|b bs IH]; intros [|n] Hn; cbn in *; try lia; [done|]. rewrite IH by lia. done.
Qed.

(** A frame at the end of a connection that ends inside it. *)
Lemma read_frame_short msg f k :
  encode_frame msg = Ok f → (k < length f)%nat →
  ∃ st, read_frame (bytes_of (take k f)) = (Err (FE_io st UnexpectedEof), []).
Proof.
  intros (p & Hp & Hle & ->)%encode_frame_ok Hk. rewrite <- (app_nil_r (bytes_of _)).
  eapply read_frame_broken; [intros; by apply read_exact_short|exact Hle|by rewrite take_drop|].
  intros H%(f_equal length). rewrite length_drop, length_nil in H. lia.
Qed.

(** A timeout in the middle of a frame is not resumable.  The error is an
    [io::Error] of kind [WouldBlock] wherever it strikes, so the loop goes on; but the
    bytes already taken from the socket are gone with [read_frame]'s buffers, and the
    reader starts parsing at the rest of the interrupted frame. *)
Theorem tcp_read_timeout_desync open sent msg bs pre post rest :
  encode_frame msg = Ok bs → bs = pre ++ post → post ≠ [] →
  tcp_read_from open sent (bytes_of pre ++ timeout :: bytes_of post ++ rest)
  = tcp_read_from open sent (bytes_of post ++ rest).
Proof.
  intros (p & Hp & Hle & ->)%encode_frame_ok Hbs Hpost.
  destruct (read_frame_cut _ _ pre post Hle Hbs Hpost (bytes_of post ++ rest)) as [st Hst].
  apply (tcp_step_block _ _ _ _ _ Hst). by destruct pre.
Qed.

(** The bytes of a source. *)
Definition data (src : source) : list byte :=
  omap (λ e, match e with RE_byte b => Some b | RE_error _ => None end) src.

(** How the frames [frs] come in when read timeouts fall between frames only, up to where
    the connection ends, which may be inside a frame. *)
Inductive calm : list (list byte) → source → Prop :=
  | Calm_done : calm [] []
  | Calm_end f frs k : (k < length f)%nat → calm (f :: frs) (bytes_of (take k f))
  | Calm_timeout frs src : calm frs src → calm frs (timeout :: src)
  | Calm_frame f frs src : calm frs src → calm (f :: frs) (bytes_of f ++ src).

(** How many of the frames lie within the first [k] bytes. *)
Fixpoint whole_frames (k : nat) (frs : list (list byte)) : nat :=
  match frs with
  | [] => O
  | f :: rest => if (length f <=? k)%nat then S (whole_frames (k - length f) rest) else O
  end.

Lemma whole_frames_all frs : whole_frames (length (concat frs)) frs = length frs.
Proof.
  induction frs as [|f frs IH]; [done|]. cbn [whole_frames concat length]. rewrite length_app.
  rewrite (proj2 (Nat.leb_le _ _)) by lia.
  replace (length f + length (concat frs) - length f)%nat with (length (concat frs)) by lia. by rewrite IH.
Qed.

Lemma whole_frames_app k frs frs' :
  whole_frames (length (concat frs) + k) (frs ++ frs') = (length frs + whole_frames k frs')%nat.
Proof.
  induction frs as [|f frs IH]; [done|]. cbn [whole_frames concat length app]. rewrite length_app.
  rewrite (proj2 (Nat.leb_le _ _)) by lia.
  replace (length f + length (concat frs) + k - length f)%nat with (length (concat frs) + k)%nat by lia. by rewrite IH.
Qed.

Lemma data_bytes bs src : data (bytes_of bs ++ src) = bs ++ data src.
Proof.
  induction bs as [|b bs IH]; [done|]. change (b :: data (bytes_of bs ++ src) = b :: (bs ++ data src)). by rewrite IH.
Qed.

Lemma tcp_read_calm open ms frs src sent :
  (∀ i, open i = true) → Forall2 (λ m f, encode_frame m = Ok f) ms frs → calm frs src →
  tcp_read_from open sent src = mkThread (sent ++ take (whole_frames (length (data src)) frs) ms) true.
Proof.
  intros Hopen Hms Hcalm. revert ms sent Hms.
  induction Hcalm as [|f frs k Hk|frs src _ IH|f frs src _ IH]; intros ms sent Hms.
  - inversion Hms; subst. cbn. by rewrite app_nil_r.
  - inversion Hms as [|m ? ms' ? Hm]; subst. destruct (read_frame_short m f k Hm Hk) as [st Hst].
    unfold tcp_read_from. cbn [tcp_view_read]. rewrite Hst. cbn [io_error_of].
    rewrite bool_decide_false by done. rewrite <- (app_nil_r (bytes_of _)), data_bytes. cbn [data omap list_omap whole_frames].
    rewrite app_nil_r, length_take, Nat.min_l, (proj2 (Nat.leb_gt _ _)) by lia. by rewrite app_nil_r.
  - rewrite (tcp_step_block _ _ _ _ _ (read_frame_timeout src)) by done. by apply IH.
  - inversion Hms as [|m ? ms' ? Hm Hms']; subst. rewrite (tcp_read_one _ _ m) by done. rewrite (IH ms') by done.
    rewrite data_bytes, length_app. cbn [whole_frames]. rewrite (proj2 (Nat.leb_le _ _)) by lia.
    replace (length f + length (data src) - length f)%nat with (length (data src)) by lia. cbn [take]. by rewrite <- app_assoc.
Qed.

(** The view writer writes the frames in order, up to where the socket breaks. *)
Lemma tcp_view_write_frames works written ms frs :
  Forall2 (λ m bs, encode_frame m = Ok bs) ms frs →
  ∃ j, passed (tcp_view_write works written ms) = written ++ concat (take j frs)
       ∧ ((∀ w, works w = true) → j = length frs).
Proof.
  intros Hms. revert written. induction Hms as [|m bs ms frs Hm Hms IH]; intros written.
  - exists O. cbn. by rewrite app_nil_r.
  - cbn [tcp_view_write]. unfold write_frame. rewrite Hm. destruct (works written) eqn:Hw.
    + destruct (IH (written ++ bs)) as (j & -> & Hj). exists (S j). cbn [take concat length]. rewrite <- app_assoc.
      split; [done|]. intros H. f_equal. by apply Hj.
    + exists O. cbn. rewrite app_nil_r. split; [done|]. intros H. by rewrite H in Hw.
Qed.
End transport_lemmas.

(** ** Witnesses *)

#[local] Existing Instances Toy.codec Toy.laws.

Definition toy_frame (n : Z) : list byte :=
  match encode_frame (Toy.ping n) with Ok bs => bs | Err _ => [] end.

Lemma tcp_read_all_frames_witness :
  tcp_read_all (λ _, true) (between_frames [(2%nat, toy_frame 7); (0%nat, toy_frame 8)] 1)
  = mkThread [Toy.ping 7; Toy.ping 8] true.
Proof.
  apply tcp_read_all_frames; [done|]. by repeat (constructor; [reflexivity|]).
Defined.

(** A peer that stalls for a millisecond after the length field of its first frame is
    disconnected, and neither of its two messages arrives. *)
Lemma tcp_read_timeout_desync_witness :
  let stalled := bytes_of (take 4 (toy_frame 7)) ++ timeout ::
                 bytes_of (drop 4 (toy_frame 7)) ++ bytes_of (toy_frame 8) in
  tcp_read_from (λ _, true) [] stalled
  = tcp_read_from (λ _, true) [] (bytes_of (drop 4 (toy_frame 7)) ++ bytes_of (toy_frame 8))
  ∧ tcp_read_all (λ _, true) stalled = mkThread [] true.
Proof.
  split; [|reflexivity].
  apply (tcp_read_timeout_desync _ _ (Toy.ping 7) (toy_frame 7)); [reflexivity|done..].
Defined.
