(* ===== verification/Datagram.v ===== *)
(** * Frame tiles over QUIC datagrams

    The sender cuts a tile into chunks (crates/proto/src/data_plane.rs,
    [frame_tile_datagrams]); the viewer puts them together again
    (crates/client/src/data_plane/quic.rs, [FrameTileDatagramAssembler]).  Datagrams may be
    lost, duplicated and reordered. *)

From S2P Require Import Prelude Wire Framing.

(** ** Data *)

Record FrameTileHeader := mkFrameTileHeader {
  hdr_id : Z; hdr_x : Z; hdr_y : Z; hdr_w : Z; hdr_h : Z; hdr_stride : Z;
  hdr_encoding : PixelEncoding
}.

Record FrameTileChunk := mkFrameTileChunk {
  chunk_channel_id : Z;
  chunk_frame_seq : Z;
  chunk_index : Z;
  chunk_count : Z;
  chunk_total_len : Z;
  chunk_header : FrameTileHeader;
  chunk_bytes : list byte
}.

Inductive DataPlaneDatagram := Datagram_FrameTileChunk (c : FrameTileChunk).

#[export] Instance FrameTileHeader_eq_dec : EqDecision FrameTileHeader.
Proof. solve_decision. Defined.
#[export] Instance FrameTileChunk_eq_dec : EqDecision FrameTileChunk.
Proof. solve_decision. Defined.

(** [FrameTileHeader::from(&tile)] and [into_tile]. *)
Definition header_from (tile : FrameTile) : FrameTileHeader :=
  {| hdr_id := tile_id tile; hdr_x := tile_x tile; hdr_y := tile_y tile;
     hdr_w := tile_w tile; hdr_h := tile_h tile; hdr_stride := tile_stride tile;
     hdr_encoding := tile_encoding tile |}.

Definition into_tile (h : FrameTileHeader) (bytes : list byte) : FrameTile :=
  {| tile_id := hdr_id h; tile_x := hdr_x h; tile_y := hdr_y h; tile_w := hdr_w h;
     tile_h := hdr_h h; tile_stride := hdr_stride h; tile_encoding := hdr_encoding h;
     tile_bytes := bytes |}.

(** ** The sender *)

Inductive datagram_error :=
  | DE_size_too_small (max : Z)
  | DE_serialize
  | DE_deserialize
  | DE_chunk_count_overflow
  | DE_chunk_index_overflow
  | DE_tile_too_large
  | DE_encoded_too_large (len max : Z).

Section sender.
Context `{C : Codec DataPlaneDatagram}.

Definition encode_datagram (d : DataPlaneDatagram) : result datagram_error (list byte) :=
  ok_or DE_serialize (to_allocvec d).

Definition decode_datagram (bs : list byte) : result datagram_error DataPlaneDatagram :=
  ok_or DE_deserialize (from_bytes bs).

(** [u32::try_from] of a [usize]. *)
Definition u32_try_from (e : datagram_error) (n : nat) : result datagram_error Z :=
  if Z.of_nat n <=? u32_max then Ok (Z.of_nat n) else Err e.

Definition payload_limit (max_datagram_size : Z) : nat :=
  Z.to_nat (Z.max (sat_sub (Z.min max_datagram_size 1200) 256) 256).

(** One datagram: serialized, and refused when larger than the connection takes. *)
Definition encode_checked (max_datagram_size : Z) (c : FrameTileChunk) :
    result datagram_error (list byte) :=
  encoded ← encode_datagram (Datagram_FrameTileChunk c);
  let len := Z.of_nat (length encoded) in
  _ ← ensure (len <=? max_datagram_size) (DE_encoded_too_large len max_datagram_size);
  mret encoded.

(** The loop over [tile.bytes.chunks(payload_limit).enumerate()], from [index] on. *)
Fixpoint chunk_loop (mk : Z → list byte → FrameTileChunk) (max_datagram_size : Z)
    (index : nat) (pieces : list (list byte)) : result datagram_error (list (list byte)) :=
  match pieces with
  | [] => mret []
  | piece :: pieces' =>
      i ← u32_try_from DE_chunk_index_overflow index;
      encoded ← encode_checked max_datagram_size (mk i piece);
      rest ← chunk_loop mk max_datagram_size (S index) pieces';
      mret (encoded :: rest)
  end.

Definition frame_tile_datagrams (tile : FrameTile) (channel_id frame_seq max_datagram_size : Z) :
    result datagram_error (list (list byte)) :=
  if max_datagram_size <? 512 then Err (DE_size_too_small max_datagram_size) else
  let limit := payload_limit max_datagram_size in
  let n := div_ceil (length (tile_bytes tile)) limit in
  count ← u32_try_from DE_chunk_count_overflow n;
  total ← u32_try_from DE_tile_too_large (length (tile_bytes tile));
  let header := header_from tile in
  match tile_bytes tile with
  | [] =>
      encoded ← encode_checked max_datagram_size
        (mkFrameTileChunk channel_id frame_seq 0 1 0 header []);
      mret [encoded]
  | _ =>
      chunk_loop (λ i piece, mkFrameTileChunk channel_id frame_seq i count total header piece)
        max_datagram_size 0 (chunks limit (tile_bytes tile))
  end.

End sender.

(** ** The assembler *)

Record PendingFrameTile := mkPending {
  slot_header : FrameTileHeader;
  slot_total_len : Z;
  slot_chunks : list (option (list byte));
  slot_received : Z
}.

(** [pending], keyed by channel and frame sequence number. *)
Abbreviation assembler := (gmap (Z * Z) PendingFrameTile) (only parsing).

Definition MAX_PENDING_FRAMES : nat := 32.
Definition MAX_CHUNKS_PER_FRAME : Z := 16384.

Definition chunk_key (c : FrameTileChunk) : Z * Z := (chunk_channel_id c, chunk_frame_seq c).

(** The bytes of a slot, [None] when a chunk is missing. *)
Fixpoint collect (cs : list (option (list byte))) : option (list byte) :=
  match cs with
  | [] => Some []
  | None :: _ => None
  | Some bs :: cs' => match collect cs' with Some rest => Some (bs ++ rest) | None => None end
  end.

(** The tests that refuse a chunk before the state is touched. *)
Definition chunk_admissible (c : FrameTileChunk) : bool :=
  negb ((chunk_count c =? 0) || (MAX_CHUNKS_PER_FRAME <? chunk_count c)
        || (chunk_count c <=? chunk_index c))
  && (chunk_total_len c <=? MAX_FRAME_BYTES).

(** [pending.entry(key).or_insert_with(..)], after making room for a new key. *)
Definition admit_slot (a : assembler) (c : FrameTileChunk) : assembler * PendingFrameTile :=
  let key := chunk_key c in
  let a := if bool_decide (a !! key = None) && (MAX_PENDING_FRAMES <=? size a)%nat then ∅ else a in
  match a !! key with
  | Some slot => (a, slot)
  | None =>
      let slot := {| slot_header := chunk_header c;
                     slot_total_len := chunk_total_len c;
                     slot_chunks := replicate (Z.to_nat (chunk_count c)) None;
                     slot_received := 0 |} in
      (<[key := slot]> a, slot)
  end.

Definition push (a : assembler) (c : FrameTileChunk) : assembler * option FrameTile :=
  if negb (chunk_admissible c) then (a, None) else
  let key := chunk_key c in
  let '(a, slot) := admit_slot a c in
  if bool_decide (slot_total_len slot ≠ chunk_total_len c)
     || bool_decide (slot_header slot ≠ chunk_header c)
     || negb (length (slot_chunks slot) =? Z.to_nat (chunk_count c))%nat
  then (delete key a, None) else
  let index := Z.to_nat (chunk_index c) in
  match slot_chunks slot !! index with
  | Some None =>
      match checked u64_max (slot_received slot + Z.of_nat (length (chunk_bytes c))) with
      | None => (a, None)
      | Some received =>
          if slot_total_len slot <? received then (delete key a, None) else
          let cs := <[index := Some (chunk_bytes c)]> (slot_chunks slot) in
          let slot' := mkPending (slot_header slot) (slot_total_len slot) cs received in
          match collect cs with
          | None => (<[key := slot']> a, None)
          | Some bytes =>
              (delete key a,
               if Z.of_nat (length bytes) =? slot_total_len slot
               then Some (into_tile (slot_header slot) bytes) else None)
          end
      end
  | _ => (a, None)
  end.

(** The datagrams that arrive, in order: the final state and what each one completed. *)
Fixpoint push_all (a : assembler) (cs : list FrameTileChunk) : assembler * list (option FrameTile) :=
  match cs with
  | [] => (a, [])
  | c :: cs' =>
      let '(a', out) := push a c in
      let '(a'', outs) := push_all a' cs' in (a'', out :: outs)
  end.

(** A concrete codec for the datagrams: the fields at a fixed width, then the bytes. *)
Module ToyDatagram.
Fixpoint put (ws : list nat) (zs : list Z) : list byte :=
  match ws, zs with
  | w :: ws', z :: zs' => to_be_bytes w z ++ put ws' zs'
  | _, _ => []
  end.

Fixpoint get (ws : list nat) (bs : list byte) : list Z * list byte :=
  match ws with
  | [] => ([], bs)
  | w :: ws' =>
      let '(zs, rest) := get ws' (drop w bs) in (from_be_bytes (take w bs) :: zs, rest)
  end.

Lemma get_put_words ws zs rest :
  Forall2 (λ w z, 0 ≤ z < 256 ^ Z.of_nat w) ws zs → get ws (put ws zs ++ rest) = (zs, rest).
Proof.
  induction 1 as [|w z ws zs Hz _ IH]; [done|]. cbn [get put]. rewrite <- app_assoc.
  destruct (take_drop_app (to_be_bytes w z) (put ws zs ++ rest) w (to_be_bytes_length w z))
    as [-> ->].
  by rewrite IH, from_to_be_bytes, Z.mod_small.
Qed.

Definition widths : list nat := [8; 8; 4; 4; 4; 8; 4; 4; 4; 4; 4; 1]%nat.

Definition fields (c : FrameTileChunk) : list Z :=
  let h := chunk_header c in
  [chunk_channel_id c; chunk_frame_seq c; chunk_index c; chunk_count c; chunk_total_len c;
   hdr_id h; hdr_x h; hdr_y h; hdr_w h; hdr_h h; hdr_stride h;
   match hdr_encoding h with RawRgba => 0 | ZstdRgba => 1 end].

Definition unfields (zs : list Z) (bs : list byte) : option DataPlaneDatagram :=
  match zs with
  | [ch; seq; i; n; t; id; x; y; w; h; st; e] =>
      Some (Datagram_FrameTileChunk (mkFrameTileChunk ch seq i n t
        (mkFrameTileHeader id x y w h st (if e =? 0 then RawRgba else ZstdRgba)) bs))
  | _ => None
  end.

Definition ser (d : DataPlaneDatagram) : option (list byte) :=
  let '(Datagram_FrameTileChunk c) := d in
  if decide (Forall2 (λ w z, 0 ≤ z < 256 ^ Z.of_nat w) widths (fields c))
  then Some (put widths (fields c) ++ chunk_bytes c) else None.

Definition de (bs : list byte) : option DataPlaneDatagram :=
  let '(zs, rest) := get widths bs in unfields zs rest.

#[export] Instance codec : Codec DataPlaneDatagram := {| to_allocvec := ser; from_bytes := de |}.

#[export] Instance laws : CodecLaws DataPlaneDatagram.
Proof.
  intros [c] bs. change (ser (Datagram_FrameTileChunk c) = Some bs →
    de bs = Some (Datagram_FrameTileChunk c)). unfold ser, de.
  case_decide as Hr; [|done]. intros Heq. apply (inj Some) in Heq as <-.
  rewrite get_put_words by done. destruct c as [? ? ? ? ? [? ? ? ? ? ? []] ?]; reflexivity.
Qed.

Lemma put_length ws zs : length ws = length zs → length (put ws zs) = sum_list ws.
Proof.
  revert zs. induction ws as [|w ws IH]; intros [|z zs] Hl; simplify_eq/=; [done|].
  by rewrite length_app, to_be_bytes_length, IH.
Qed.

(** Its overhead is within the 256 bytes the sender leaves for the header. *)
Lemma ser_fits max c :
  Forall2 (λ w z, 0 ≤ z < 256 ^ Z.of_nat w) widths (fields c) →
  Z.of_nat (length (chunk_bytes c)) + 256 ≤ max → is_ok (encode_checked max c) = true.
Proof.
  intros Hr Hl. unfold encode_checked, encode_datagram, to_allocvec, codec, ser.
  rewrite decide_True by done. unfold ok_or, mbind, result_bind.
  rewrite (proj2 (Z.leb_le _ max)); [done|].
  rewrite length_app, put_length by done. change (sum_list widths) with 57%nat. lia.
Qed.
End ToyDatagram.

(** ** Specification notions *)

(** The chunks of a tile, cut at [limit] bytes. *)
Definition tile_chunks (tile : FrameTile) (channel_id frame_seq : Z) (limit : nat) :
    list FrameTileChunk :=
  let mk := mkFrameTileChunk channel_id frame_seq in
  match tile_bytes tile with
  | [] => [mk 0 1 0 (header_from tile) []]
  | bs => imap (λ i piece, mk (Z.of_nat i) (Z.of_nat (div_ceil (length bs) limit))
                 (Z.of_nat (length bs)) (header_from tile) piece) (chunks limit bs)
  end.

(** The bytes a slot holds. *)
Definition held (cs : list (option (list byte))) : nat :=
  sum_list (from_option length 0%nat <$> cs).

(** The invariant of a slot: a bounded number of chunks, at least one of them missing,
    [received] counting the bytes held, within the announced and the allowed length. *)
Record slot_ok (s : PendingFrameTile) : Prop := {
  slot_ok_count : 1 ≤ Z.of_nat (length (slot_chunks s)) ≤ MAX_CHUNKS_PER_FRAME;
  slot_ok_incomplete : collect (slot_chunks s) = None;
  slot_ok_received : slot_received s = Z.of_nat (held (slot_chunks s));
  slot_ok_total : slot_received s ≤ slot_total_len s ≤ MAX_FRAME_BYTES
}.

Definition assembler_ok (a : assembler) : Prop :=
  (size a ≤ MAX_PENDING_FRAMES)%nat ∧ map_Forall (λ _, slot_ok) a.

(** No chunk of another frame makes the assembler drop everything to stay bounded. *)
Fixpoint undisturbed (k : Z * Z) (a : assembler) (cs : list FrameTileChunk) : Prop :=
  match cs with
  | [] => True
  | c :: cs' =>
      (chunk_key c ≠ k → is_Some (a !! chunk_key c) ∨ (size a < MAX_PENDING_FRAMES)%nat)
      ∧ undisturbed k (push a c).1 cs'
  end.

(** ** Lemmas: the sender *)

Lemma payload_limit_bounds max :
  512 ≤ max → (256 ≤ payload_limit max ≤ 944)%nat ∧ Z.of_nat (payload_limit max) + 256 ≤ max.
Proof. unfold payload_limit, sat_sub. lia. Qed.

Lemma u32_try_from_ok e n z : u32_try_from e n = Ok z ↔ z = Z.of_nat n ∧ Z.of_nat n ≤ u32_max.
Proof. unfold u32_try_from. destruct (Z.leb_spec (Z.of_nat n) u32_max); naive_solver lia. Qed.

Section sender_lemmas.
Context `{C : Codec DataPlaneDatagram}.

Lemma encode_checked_ok max c d :
  encode_checked max c = Ok d ↔
  to_allocvec (Datagram_FrameTileChunk c) = Some d ∧ Z.of_nat (length d) ≤ max.
Proof.
  unfold encode_checked, encode_datagram. rewrite bind_ok. setoid_rewrite ok_or_ok.
  split.
  - intros (d' & Hd & (u & Hu & [= ->])%bind_ok). apply ensure_ok, Z.leb_le in Hu. done.
  - intros [Hd Hl]. exists d. split; [done|]. apply bind_ok. exists tt.
    by rewrite ensure_ok, Z.leb_le.
Qed.

Lemma chunk_loop_ok mk max i ps ds :
  chunk_loop mk max i ps = Ok ds →
  Forall2 (λ c d, encode_checked max c = Ok d) (imap (λ j p, mk (Z.of_nat (i + j)) p) ps) ds.
Proof.
  revert i ds. induction ps as [|p ps IH]; intros i ds; cbn [chunk_loop].
  - intros [= <-]. constructor.
  - intros (iz & [-> _]%u32_try_from_ok & Hk)%bind_ok.
    apply bind_ok in Hk as (d & Hd & Hk). apply bind_ok in Hk as (ds' & Hds & [= <-]).
    cbn [imap]. constructor; [by rewrite Nat.add_0_r|].
    apply IH in Hds. erewrite imap_ext; [exact Hds|].
    intros j x _. simpl. by rewrite Nat.add_succ_r.
Qed.

(** Every datagram of a tile is the encoding of one of its chunks, in order. *)
Lemma frame_tile_datagrams_chunks tile ch seq max ds :
  frame_tile_datagrams tile ch seq max = Ok ds →
  512 ≤ max ∧
  Forall2 (λ c d, encode_checked max c = Ok d) (tile_chunks tile ch seq (payload_limit max)) ds.
Proof.
  unfold frame_tile_datagrams, tile_chunks.
  destruct (Z.ltb_spec max 512) as [|Hmax]; [done|].
  intros (n & [-> _]%u32_try_from_ok & Hk)%bind_ok. split; [done|].
  apply bind_ok in Hk as (t & [-> _]%u32_try_from_ok & Hk).
  destruct (tile_bytes tile) as [|b bs].
  - apply bind_ok in Hk as (d & Hd & [= <-]). by repeat constructor.
  - by apply chunk_loop_ok in Hk.
Qed.
End sender_lemmas.

Lemma tile_chunks_length tile ch seq limit :
  (0 < limit)%nat →
  length (tile_chunks tile ch seq limit) = (div_ceil (length (tile_bytes tile)) limit `max` 1)%nat.
Proof.
  intros Hl. unfold tile_chunks. destruct (tile_bytes tile) as [|b bs] eqn:E.
  - cbn [length]. unfold div_ceil. rewrite Nat.div_small by lia. done.
  - rewrite length_imap, chunks_length by done.
    pose proof (div_ceil_pos (length (b :: bs)) limit). cbn [length] in *. lia.
Qed.

(** What a chunk of a tile is, from its position. *)
Lemma tile_chunks_lookup tile ch seq limit i c :
  (0 < limit)%nat →
  tile_chunks tile ch seq limit !! i = Some c →
  chunk_key c = (ch, seq) ∧ chunk_index c = Z.of_nat i ∧
  chunk_count c = Z.of_nat (length (tile_chunks tile ch seq limit)) ∧
  chunk_total_len c = Z.of_nat (length (tile_bytes tile)) ∧
  chunk_header c = header_from tile.
Proof.
  intros Hl. pose proof (tile_chunks_length tile ch seq limit Hl) as ->.
  unfold tile_chunks. destruct (tile_bytes tile) as [|b bs] eqn:E.
  - intros [-> <-]%list_lookup_singleton_Some. split_and!; try done. cbn [length chunk_count].
    unfold div_ceil. rewrite Nat.div_small by lia. done.
  - rewrite list_lookup_imap. intros (p & Hp & ->)%fmap_Some.
    split_and!; try done. cbn [chunk_count].
    pose proof (div_ceil_pos (length (b :: bs)) limit). cbn [length] in *. lia.
Qed.

Lemma tile_chunks_bytes tile ch seq limit :
  (0 < limit)%nat → concat (chunk_bytes <$> tile_chunks tile ch seq limit) = tile_bytes tile.
Proof.
  intros Hl. unfold tile_chunks. destruct (tile_bytes tile) as [|b bs] eqn:E; [done|].
  rewrite fmap_imap. unfold compose. cbn [chunk_bytes].
  assert (∀ (l : list (list byte)), imap (λ _ p, p) l = l) as Hid.
  { intros l. apply list_eq. intros i. rewrite list_lookup_imap. by destruct (l !! i). }
  rewrite Hid. by apply chunks_concat.
Qed.

Lemma tile_chunks_nodup tile ch seq limit :
  (0 < limit)%nat → NoDup (tile_chunks tile ch seq limit).
Proof.
  intros Hl. apply NoDup_alt. intros i j c Hi Hj.
  apply tile_chunks_lookup in Hi as (_ & Hi & _); [|done].
  apply tile_chunks_lookup in Hj as (_ & Hj & _); [|done]. lia.
Qed.

Lemma tile_chunks_piece tile ch seq limit c :
  (0 < limit)%nat → c ∈ tile_chunks tile ch seq limit → (length (chunk_bytes c) ≤ limit)%nat.
Proof.
  intros Hl. unfold tile_chunks. destruct (tile_bytes tile) as [|b bs] eqn:E.
  - intros ->%list_elem_of_singleton. simpl. lia.
  - intros (i & Hi)%list_elem_of_lookup. rewrite list_lookup_imap in Hi.
    apply fmap_Some in Hi as (p & Hp & ->). cbn [chunk_bytes].
    apply (chunks_bound limit (b :: bs)); [done|]. by eapply list_elem_of_lookup_2.
Qed.

Section sender_theorems.
Context `{C : Codec DataPlaneDatagram, L : !CodecLaws DataPlaneDatagram}.

(** Whenever [frame_tile_datagrams] succeeds, each datagram fits the connection's
    limit, and what the receiver decodes is, in order, the chunks of the tile: numbered
    from 0, all announcing the same count and total, at most 944 bytes each, and
    concatenating to the tile's bytes. *)
Theorem frame_tile_datagrams_sound tile ch seq max ds :
  frame_tile_datagrams tile ch seq max = Ok ds →
  ∃ cs, Forall2 (λ d c, decode_datagram d = Ok (Datagram_FrameTileChunk c)
                        ∧ Z.of_nat (length d) ≤ max) ds cs
    ∧ concat (chunk_bytes <$> cs) = tile_bytes tile
    ∧ ∀ i c, cs !! i = Some c →
        chunk_key c = (ch, seq) ∧ chunk_index c = Z.of_nat i ∧
        chunk_count c = Z.of_nat (length ds) ∧
        chunk_total_len c = Z.of_nat (length (tile_bytes tile)) ∧
        chunk_header c = header_from tile ∧ (length (chunk_bytes c) ≤ 944)%nat.
Proof.
  intros (Hmax & Hds)%frame_tile_datagrams_chunks.
  destruct (payload_limit_bounds max Hmax) as [Hlim _].
  exists (tile_chunks tile ch seq (payload_limit max)). split_and!.
  - apply Forall2_flip. eapply Forall2_impl; [exact Hds|].
    intros c d [Hd Hl]%encode_checked_ok. split; [|done].
    unfold decode_datagram. by rewrite (from_to_bytes _ _ Hd).
  - apply tile_chunks_bytes. lia.
  - intros i c Hc. pose proof Hc as (? & ? & Hn & ? & ?)%tile_chunks_lookup; [|lia].
    rewrite (Forall2_length _ _ _ Hds) in Hn. split_and!; try done.
    apply list_elem_of_lookup_2, tile_chunks_piece in Hc; lia.
Qed.
End sender_theorems.

(** ** Lemmas: slots *)

Lemma collect_some cs bs :
  collect cs = Some bs ↔ ∃ ps, cs = Some <$> ps ∧ bs = concat ps.
Proof.
  revert bs. induction cs as [|[p|] cs IH]; intros bs; simpl.
  - split; [intros [= <-]; by exists []|]. intros ([|? ?] & ? & ->); [done|by simplify_eq].
  - split.
    + destruct (collect cs) as [rest|] eqn:E; [|done]. intros [= <-].
      destruct (proj1 (IH _) eq_refl) as (ps & -> & ->). by exists (p :: ps).
    + intros ([|p' ps] & Hcs & ->); [by simplify_eq|]. injection Hcs as -> ->.
      by rewrite (proj2 (IH (concat ps))) by eauto.
  - split; [done|]. intros ([|? ?] & ? & ?); by simplify_eq.
Qed.

Lemma collect_none cs i : cs !! i = Some None → collect cs = None.
Proof.
  intros Hi. destruct (collect cs) eqn:E; [|done].
  apply collect_some in E as (ps & -> & _). rewrite list_lookup_fmap in Hi.
  by destruct (ps !! i).
Qed.

Lemma held_collect cs bs : collect cs = Some bs → length bs = held cs.
Proof.
  intros (ps & -> & ->)%collect_some. rewrite concat_length. unfold held.
  by rewrite <- list_fmap_compose.
Qed.

Lemma held_insert cs i bs :
  cs !! i = Some None → held (<[i := Some bs]> cs) = (held cs + length bs)%nat.
Proof.
  unfold held. revert i. induction cs as [|c cs IH]; intros [|i] Hi; simplify_eq/=; [lia|].
  rewrite (IH i Hi). lia.
Qed.

Lemma held_replicate n : held (replicate n None) = 0%nat.
Proof. induction n; [done|]. exact IHn. Qed.

Lemma chunk_admissible_spec c :
  chunk_admissible c = true ↔
  chunk_count c ≠ 0 ∧ chunk_count c ≤ MAX_CHUNKS_PER_FRAME ∧ chunk_index c < chunk_count c
  ∧ chunk_total_len c ≤ MAX_FRAME_BYTES.
Proof.
  unfold chunk_admissible.
  rewrite andb_true_iff, negb_true_iff, !orb_false_iff, Z.eqb_neq, Z.ltb_ge, Z.leb_gt, Z.leb_le.
  tauto.
Qed.

(** The slot a first admissible chunk opens. *)
Definition fresh_slot (c : FrameTileChunk) : PendingFrameTile :=
  mkPending (chunk_header c) (chunk_total_len c) (replicate (Z.to_nat (chunk_count c)) None) 0.

Lemma fresh_slot_ok c :
  0 ≤ chunk_index c → 0 ≤ chunk_total_len c → chunk_admissible c = true → slot_ok (fresh_slot c).
Proof.
  intros Hi Ht (H0 & H1 & H2 & H3)%chunk_admissible_spec.
  split; unfold fresh_slot; cbn [slot_chunks slot_received slot_total_len].
  - rewrite length_replicate. lia.
  - apply (collect_none _ 0), lookup_replicate_2. lia.
  - by rewrite held_replicate.
  - lia.
Qed.

Lemma admit_slot_spec a c a' s :
  admit_slot a c = (a', s) →
  (a !! chunk_key c = Some s ∧ a' = a) ∨
  (a !! chunk_key c = None ∧ s = fresh_slot c ∧
   ∃ base, a' = <[chunk_key c := s]> base ∧ base !! chunk_key c = None ∧
     (base = a ∧ (size a < MAX_PENDING_FRAMES)%nat ∨
      base = ∅ ∧ (MAX_PENDING_FRAMES ≤ size a)%nat)).
Proof.
  unfold admit_slot. destruct (a !! chunk_key c) as [s0|] eqn:E.
  - rewrite bool_decide_false by done. cbn [andb]. rewrite E. intros [= <- <-]. auto.
  - rewrite bool_decide_true by done. cbn [andb]. intros Heq. right. split; [done|].
    destruct (Nat.leb_spec MAX_PENDING_FRAMES (size a)); rewrite ?lookup_empty, ?E in Heq;
      injection Heq as <- <-; (split; [done|]); eexists; split_and!; eauto.
Qed.

Lemma assembler_ok_delete a k : assembler_ok a → assembler_ok (delete k a).
Proof.
  intros [Hs Hm]. split.
  - rewrite map_size_delete. destruct (a !! k); simpl; lia.
  - intros k' s [_ Hk]%lookup_delete_Some. by eapply Hm.
Qed.

Lemma assembler_ok_update a k s s' :
  assembler_ok a → a !! k = Some s → slot_ok s' → assembler_ok (<[k := s']> a).
Proof.
  intros [Hs Hm] Hk Hok. split.
  - rewrite map_size_insert, Hk. exact Hs.
  - by apply map_Forall_insert_2.
Qed.

Lemma admit_slot_ok a c a' s :
  0 ≤ chunk_index c → 0 ≤ chunk_total_len c →
  assembler_ok a → chunk_admissible c = true → admit_slot a c = (a', s) →
  assembler_ok a' ∧ slot_ok s ∧ a' !! chunk_key c = Some s.
Proof.
  intros Hi Ht Ha Hc [[Hs ->]|(Hn & -> & base & -> & Hb & Hbase)]%admit_slot_spec.
  - split_and!; try done. by eapply (proj2 Ha).
  - pose proof (fresh_slot_ok c Hi Ht Hc) as Hok.
    rewrite lookup_insert_eq. split_and!; try done. split.
    + rewrite map_size_insert, Hb. destruct Hbase as [[-> ?]|[-> _]]; [lia|].
      rewrite map_size_empty. unfold MAX_PENDING_FRAMES. lia.
    + apply map_Forall_insert_2; [done|].
      destruct Hbase as [[-> ?]|[-> _]]; [apply Ha|apply map_Forall_empty].
Qed.

(** The chunks of a slot that are in. *)
Definition u32_fields (c : FrameTileChunk) : Prop :=
  is_u32 (chunk_index c) ∧ is_u32 (chunk_count c) ∧ is_u32 (chunk_total_len c).

(** Whatever datagrams arrive, the assembler never holds more than 32 frames, every
    slot stays incomplete, within 16384 chunks and within the length it announced, which
    is at most 64 MiB, and a completed tile has exactly the length and the header its
    chunks announced. *)
Theorem push_preserves a c a' out :
  assembler_ok a → u32_fields c → push a c = (a', out) →
  assembler_ok a' ∧
  ∀ t, out = Some t → t = into_tile (chunk_header c) (tile_bytes t) ∧
       Z.of_nat (length (tile_bytes t)) = chunk_total_len c ∧ chunk_total_len c ≤ MAX_FRAME_BYTES.
Proof.
  intros Ha (Hi & Hc & Ht). unfold is_u32 in *. unfold push.
  destruct (chunk_admissible c) eqn:Hadm; cbn [negb]; [|by intros [= <- <-]].
  destruct (admit_slot a c) as [b s] eqn:Hb.
  destruct (admit_slot_ok a c b s ltac:(lia) ltac:(lia) Ha Hadm Hb) as (Hb' & Hs & Hlk).
  case_bool_decide as Htot; cbn [orb].
  { intros [= <- <-]. split; [by apply assembler_ok_delete|done]. }
  case_bool_decide as Hhdr; cbn [orb].
  { intros [= <- <-]. split; [by apply assembler_ok_delete|done]. }
  destruct (Nat.eqb_spec (length (slot_chunks s)) (Z.to_nat (chunk_count c))) as [Hlen|]; cbn [negb].
  2:{ intros [= <- <-]. split; [by apply assembler_ok_delete|done]. }
  destruct (slot_chunks s !! Z.to_nat (chunk_index c)) as [[p|]|] eqn:Hix;
    [by intros [= <- <-]| |by intros [= <- <-]].
  unfold checked. destruct (_ <=? u64_max); [|by intros [= <- <-]].
  destruct Hs as [Hcount Hinc Hrec Hmax].
  destruct (Z.ltb_spec (slot_total_len s) (slot_received s + Z.of_nat (length (chunk_bytes c)))).
  { intros [= <- <-]. split; [by apply assembler_ok_delete|done]. }
  pose proof (held_insert _ _ (chunk_bytes c) Hix) as Hheld.
  destruct (collect (<[_ := _]> _)) as [bs|] eqn:Hcol.
  - apply held_collect in Hcol as Hbs. intros [= <- <-].
    split; [by apply assembler_ok_delete|]. intros t.
    destruct (Z.eqb_spec (Z.of_nat (length bs)) (slot_total_len s)); [|done].
    intros [= <-]. rewrite Hhdr. cbn [tile_bytes into_tile]. split_and!; [done|lia|lia].
  - intros [= <- <-]. split; [|done]. apply (assembler_ok_update _ _ s); [done..|].
    split; cbn [slot_chunks slot_received slot_total_len]; rewrite ?length_insert; try done; lia.
Qed.

Lemma assembler_ok_empty : assembler_ok ∅.
Proof.
  split; [rewrite map_size_empty; unfold MAX_PENDING_FRAMES; lia|apply map_Forall_empty].
Qed.

Definition sample_chunk : FrameTileChunk :=
  mkFrameTileChunk 4 1 0 2 3 (mkFrameTileHeader 4 0 0 1 1 4 RawRgba) [Byte.x01; Byte.x02].

Lemma push_preserves_witness :
  assembler_ok ∅ ∧ u32_fields sample_chunk ∧ assembler_ok (push ∅ sample_chunk).1.
Proof.
  assert (u32_fields sample_chunk) as Hu
    by (unfold u32_fields, is_u32, u32_max, sample_chunk; simpl; lia).
  split_and!; [apply assembler_ok_empty|done|].
  by apply (push_preserves ∅ sample_chunk _ (push ∅ sample_chunk).2 assembler_ok_empty Hu).
Defined.

(** ** Reassembly *)

Lemma into_tile_header_from t : into_tile (header_from t) (tile_bytes t) = t.
Proof. by destruct t. Qed.

Section reassembly.
Context (tile : FrameTile) (ch seq : Z) (limit : nat).
Hypothesis limit_pos : (0 < limit)%nat.

Let T := tile_chunks tile ch seq limit.
Let key := (ch, seq).

(** The chunks in a slot that has seen [l]. *)
Definition expected (l : list FrameTileChunk) : list (option (list byte)) :=
  (λ x, if decide (x ∈ l) then Some (chunk_bytes x) else None) <$> T.

Definition expected_slot (l : list FrameTileChunk) : PendingFrameTile :=
  mkPending (header_from tile) (Z.of_nat (length (tile_bytes tile))) (expected l)
    (Z.of_nat (held (expected l))).

Lemma T_lookup i c : T !! i = Some c →
  chunk_key c = key ∧ chunk_index c = Z.of_nat i ∧ chunk_count c = Z.of_nat (length T) ∧
  chunk_total_len c = Z.of_nat (length (tile_bytes tile)) ∧ chunk_header c = header_from tile.
Proof. by apply tile_chunks_lookup. Qed.

Lemma expected_length l : length (expected l) = length T.
Proof. apply length_fmap. Qed.

Lemma expected_lookup l i c :
  T !! i = Some c →
  expected l !! i = Some (if decide (c ∈ l) then Some (chunk_bytes c) else None).
Proof. intros Hi. unfold expected. by rewrite list_lookup_fmap, Hi. Qed.

Lemma expected_insert l i c :
  T !! i = Some c → <[i := Some (chunk_bytes c)]> (expected l) = expected (c :: l).
Proof.
  intros Hi. pose proof (lookup_lt_Some _ _ _ Hi) as Hlt. apply list_eq. intros j.
  destruct (decide (i = j)) as [<-|Hij].
  - rewrite list_lookup_insert_eq by (by rewrite expected_length).
    rewrite (expected_lookup _ _ _ Hi), decide_True by (apply list_elem_of_here). done.
  - rewrite list_lookup_insert_ne by done.
    destruct (T !! j) as [x|] eqn:Hj.
    + rewrite !(expected_lookup _ _ _ Hj).
      assert (x ≠ c) by (intros ->; destruct (T_lookup _ _ Hi) as (_ & ? & _);
        destruct (T_lookup _ _ Hj) as (_ & ? & _); lia).
      by rewrite (decide_ext (x ∈ c :: l) (x ∈ l)) by (rewrite elem_of_cons; naive_solver).
    + apply lookup_ge_None in Hj.
      by rewrite !(proj2 (lookup_ge_None _ _)) by (by rewrite expected_length).
Qed.

Lemma held_expected l : (held (expected l) ≤ length (tile_bytes tile))%nat.
Proof.
  rewrite <- (tile_chunks_bytes tile ch seq limit limit_pos). fold T.
  unfold held, expected. rewrite concat_length. induction T as [|x T' IH]; csimpl; [lia|].
  destruct (decide (x ∈ l)); simpl; lia.
Qed.

(** All chunks in: the tile's bytes. *)
Lemma collect_expected l :
  collect (expected l) = if decide (T ⊆ l) then Some (tile_bytes tile) else None.
Proof.
  destruct (decide (T ⊆ l)) as [Hall|Hmiss].
  - apply collect_some. exists (chunk_bytes <$> T). split.
    + unfold expected. rewrite <- list_fmap_compose. apply list_fmap_ext.
      intros i x Hx%list_elem_of_lookup_2. simpl. by rewrite decide_True by auto.
    + symmetry. by apply tile_chunks_bytes.
  - destruct (decide (Exists (λ x, x ∉ l) T)) as [Hex|Hno].
    + apply Exists_exists in Hex as (x & [i Hi]%list_elem_of_lookup & Hnl).
      apply (collect_none _ i). rewrite (expected_lookup _ _ _ Hi). by rewrite decide_False.
    + exfalso. apply Hmiss. intros x Hx. apply dec_stable. intros Hnl.
      apply Hno, Exists_exists. eauto.
Qed.

Hypothesis count_fits : Z.of_nat (length T) ≤ MAX_CHUNKS_PER_FRAME.
Hypothesis len_fits : Z.of_nat (length (tile_bytes tile)) ≤ MAX_FRAME_BYTES.

(** The assembler's slot for the tile, once the chunks of [l] are in. *)
Definition seen (a : assembler) (l : list FrameTileChunk) : Prop :=
  a !! key = match l with [] => None | _ => Some (expected_slot l) end.

Lemma own_admissible c : c ∈ T → chunk_admissible c = true.
Proof.
  intros [i Hi]%list_elem_of_lookup. pose proof (lookup_lt_Some _ _ _ Hi).
  destruct (T_lookup _ _ Hi) as (_ & Hix & Hn & Ht & _).
  apply chunk_admissible_spec. rewrite Hix, Hn, Ht. lia.
Qed.

Lemma fresh_expected c : c ∈ T → fresh_slot c = expected_slot [].
Proof.
  intros [i Hi]%list_elem_of_lookup. destruct (T_lookup _ _ Hi) as (_ & _ & Hn & Ht & Hh).
  unfold fresh_slot, expected_slot. rewrite Hn, Ht, Hh, Nat2Z.id.
  assert (expected [] = replicate (length T) None) as ->.
  { apply list_eq. intros j. destruct (T !! j) as [x|] eqn:Hj.
    - rewrite (expected_lookup _ _ _ Hj).
      symmetry. apply lookup_replicate_2. by eapply lookup_lt_Some.
    - apply lookup_ge_None in Hj.
      by rewrite !(proj2 (lookup_ge_None _ _)) by (rewrite ?expected_length, ?length_replicate; lia). }
  by rewrite held_replicate.
Qed.

Lemma admit_own a l c :
  c ∈ T → seen a l → ∃ a', admit_slot a c = (a', expected_slot l)
    ∧ a' !! key = Some (expected_slot l) ∧ (c ∈ l → a' = a).
Proof.
  intros Hc Hs. pose proof Hc as [i Hi]%list_elem_of_lookup.
  destruct (T_lookup _ _ Hi) as (Hk & _). unfold seen in Hs.
  destruct (admit_slot a c) as [a' s] eqn:E.
  apply admit_slot_spec in E as [[Hl ->]|(Hl & -> & base & -> & _)]; rewrite Hk in *; rewrite Hl in Hs.
  - destruct l as [|x l]; [done|]. injection Hs as ->. eauto.
  - destruct l as [|x l]; [|done]. rewrite (fresh_expected c Hc).
    eexists. split; [done|]. split; [by rewrite lookup_insert_eq|].
    by intros ?%elem_of_nil.
Qed.

Lemma push_own_dup a l c : c ∈ T → c ∈ l → seen a l → push a c = (a, None).
Proof.
  intros Hc Hcl Hs. destruct (admit_own a l c Hc Hs) as (a' & E & Ha' & Heq).
  rewrite (Heq Hcl) in E. unfold push. rewrite (own_admissible c Hc), E. cbn [negb].
  apply list_elem_of_lookup in Hc as [i Hi].
  destruct (T_lookup _ _ Hi) as (_ & Hix & Hn & Ht & Hh).
  unfold expected_slot. cbn [slot_total_len slot_header slot_chunks].
  rewrite Ht, Hh, Hn, Hix, !Nat2Z.id, expected_length, Nat.eqb_refl.
  rewrite !bool_decide_false by (intros Hne; by apply Hne). cbn [orb negb].
  by rewrite (expected_lookup _ _ _ Hi), decide_True by done.
Qed.

Lemma push_own_new a l c :
  c ∈ T → c ∉ l → seen a l →
  ∃ a', push a c = (a', if decide (T ⊆ c :: l) then Some tile else None)
    ∧ a' !! key = if decide (T ⊆ c :: l) then None else Some (expected_slot (c :: l)).
Proof.
  intros Hc Hcl Hs. destruct (admit_own a l c Hc Hs) as (a' & E & Ha' & _).
  unfold push. rewrite (own_admissible c Hc), E. cbn [negb].
  apply list_elem_of_lookup in Hc as [i Hi].
  destruct (T_lookup _ _ Hi) as (Hk & Hix & Hn & Ht & Hh).
  change (slot_chunks (expected_slot l)) with (expected l).
  change (slot_header (expected_slot l)) with (header_from tile).
  change (slot_total_len (expected_slot l)) with (Z.of_nat (length (tile_bytes tile))).
  change (slot_received (expected_slot l)) with (Z.of_nat (held (expected l))).
  rewrite Ht, Hh, Hn, Hix, !Nat2Z.id, expected_length, Nat.eqb_refl.
  rewrite !bool_decide_false by (intros Hne; by apply Hne). cbn [orb negb].
  pose proof (expected_lookup l _ _ Hi) as Hlk. rewrite decide_False in Hlk by done.
  pose proof (held_insert _ _ (chunk_bytes c) Hlk) as Hheld.
  rewrite (expected_insert _ _ _ Hi) in *. pose proof (held_expected (c :: l)).
  rewrite Hlk. unfold checked. rewrite (proj2 (Z.leb_le _ u64_max)) by
    (unfold MAX_FRAME_BYTES, u64_max in *; lia).
  rewrite (proj2 (Z.ltb_ge _ _)) by lia. rewrite collect_expected, Hk.
  destruct (decide (T ⊆ c :: l)).
  - eexists. split; [|by rewrite lookup_delete_eq]. by rewrite Z.eqb_refl, into_tile_header_from.
  - eexists. split; [done|]. rewrite lookup_insert_eq. unfold expected_slot.
    rewrite Hheld, Nat2Z.inj_add. done.
Qed.

Lemma push_other a c :
  chunk_key c ≠ key → is_Some (a !! chunk_key c) ∨ (size a < MAX_PENDING_FRAMES)%nat →
  (push a c).1 !! key = a !! key.
Proof.
  intros Hk Hquiet. unfold push. destruct (chunk_admissible c); cbn [negb]; [|done].
  destruct (admit_slot a c) as [b s] eqn:E.
  assert (b !! key = a !! key) as Hb.
  { apply admit_slot_spec in E as [[_ ->]|(Hn & _ & base & -> & _ & [[-> _]|[-> ?]])]; [done| |].
    - by rewrite lookup_insert_ne.
    - destruct Hquiet as [[? ?]|?]; [congruence|lia]. }
  rewrite <- Hb. 
  repeat case_match; simpl; rewrite ?lookup_delete_ne, ?lookup_insert_ne by done; done.
Qed.

(** The tile stays in progress through any arrivals that do not complete it. *)
Lemma run_incomplete cs a l :
  seen a l → undisturbed key a cs →
  (∀ x, x ∈ cs → chunk_key x = key → x ∈ T) → ¬ T ⊆ l ++ cs →
  ∃ l', seen (push_all a cs).1 l'
    ∧ (∀ x, x ∈ l' ↔ x ∈ l ∨ (x ∈ cs ∧ chunk_key x = key))
    ∧ (∀ i x, cs !! i = Some x → chunk_key x = key → (push_all a cs).2 !! i = Some None).
Proof.
  revert a l. induction cs as [|c cs IH]; intros a l Hs Hq Hown Hmiss.
  - exists l. split_and!; [done| |done]. intros x. split; [eauto|].
    by intros [?|[?%elem_of_nil _]].
  - cbn [push_all undisturbed] in *. destruct Hq as [Hq1 Hq].
    assert (∃ l1, seen (push a c).1 l1 ∧ (∀ x, x ∈ l1 ↔ x ∈ l ∨ (x = c ∧ chunk_key x = key))
      ∧ (chunk_key c = key → (push a c).2 = None)) as (l1 & Hs1 & Hl1 & Hout).
    { destruct (decide (chunk_key c = key)) as [Hk|Hk].
      - pose proof (Hown c ltac:(left) Hk) as HcT.
        destruct (decide (c ∈ l)) as [Hcl|Hcl].
        + exists l. rewrite (push_own_dup a l c) by done. split_and!; [done| |done].
          intros x. split; [by left|]. by intros [?|[-> _]].
        + exists (c :: l). destruct (push_own_new a l c HcT Hcl Hs) as (a' & -> & Ha').
          assert (¬ T ⊆ c :: l) as Hno.
          { intros Hall. apply Hmiss. intros x Hx%Hall.
            rewrite elem_of_app, elem_of_cons. rewrite elem_of_cons in Hx. tauto. }
          rewrite decide_False in Ha' by done. rewrite decide_False by done.
          split_and!; [exact Ha'| |done]. intros x. rewrite elem_of_cons. naive_solver.
      - exists l. split_and!; [|naive_solver|done].
        unfold seen. by rewrite (push_other a c) by auto. }
    destruct (push a c) as [a1 out] eqn:Ea. cbn [fst snd] in *.
    destruct (IH a1 l1 Hs1 Hq) as (l' & Hs' & Hl' & Houts).
    { intros x Hx. apply Hown. by right. }
    { intros Hall. apply Hmiss. intros x Hx%Hall. apply elem_of_app in Hx as [Hx|Hx].
      - apply Hl1 in Hx as [?|[-> _]]; apply elem_of_app; [by left|right; left].
      - apply elem_of_app. right. by right. }
    destruct (push_all a1 cs) as [a2 outs] eqn:Er. cbn [fst snd] in *.
    exists l'. split_and!; [done| |].
    + intros x. rewrite Hl', Hl1, elem_of_cons. naive_solver.
    + intros [|i] x; simpl; [intros [= ->] Hk; by rewrite Hout|apply Houts].
Qed.

(** The chunk that completes the tile yields it. *)
Lemma run_complete cs a c :
  a !! key = None → undisturbed key a cs →
  (∀ x, x ∈ cs → chunk_key x = key → x ∈ T) →
  c ∈ T → c ∉ cs → (∀ x, x ∈ T → x ≠ c → x ∈ cs) →
  (push (push_all a cs).1 c).2 = Some tile ∧ (push (push_all a cs).1 c).1 !! key = None
  ∧ (∀ i x, cs !! i = Some x → chunk_key x = key → (push_all a cs).2 !! i = Some None).
Proof.
  intros Ha Hq Hown HcT Hc Hall.
  destruct (run_incomplete cs a [] Ha Hq Hown) as (l' & Hs & Hl' & Houts).
  { intros Hsub. by apply Hc, Hsub. }
  assert (c ∉ l') as Hcl by (rewrite Hl'; intros [?%elem_of_nil|[? _]]; done).
  destruct (push_own_new _ l' c HcT Hcl Hs) as (a' & -> & Ha').
  assert (T ⊆ c :: l') as Hyes.
  { intros x Hx. destruct (decide (x = c)) as [->|Hne]; [left|right].
    apply Hl'. right. split; [by apply Hall|].
    apply list_elem_of_lookup in Hx as [i Hi]. by apply T_lookup in Hi as [? _]. }
  rewrite decide_True in Ha' by done. by rewrite decide_True.
Qed.
End reassembly.

Section end_to_end.
Context `{C : Codec DataPlaneDatagram, L : !CodecLaws DataPlaneDatagram}.

(** The chunks that the receiver decodes from datagrams. *)
Definition decodes_to (ds : list (list byte)) (cs : list FrameTileChunk) : Prop :=
  Forall2 (λ d c, decode_datagram d = Ok (Datagram_FrameTileChunk c)) ds cs.

Lemma datagrams_decode tile ch seq max ds :
  frame_tile_datagrams tile ch seq max = Ok ds →
  decodes_to ds (tile_chunks tile ch seq (payload_limit max)).
Proof.
  intros (_ & Hds)%frame_tile_datagrams_chunks. apply Forall2_flip.
  eapply Forall2_impl; [exact Hds|]. intros c d [Hd _]%encode_checked_ok.
  unfold decode_datagram. by rewrite (from_to_bytes _ _ Hd).
Qed.

Lemma decodes_to_inj ds cs cs' : decodes_to ds cs → decodes_to ds cs' → cs = cs'.
Proof.
  intros H. revert cs'. induction H as [|d c ds cs Hd _ IH]; intros cs' H'.
  - by apply Forall2_nil_inv_l in H'.
  - apply Forall2_cons_inv_l in H' as (c' & cs'' & Hc & Hcs & ->).
    rewrite Hd in Hc. injection Hc as ->. by rewrite (IH cs'').
Qed.

(** C8: reassembly is insensitive to the order of arrival, to duplicates and to the
    datagrams of other frames.  Of a tile that was sent in at most 16384 datagrams,
    chunks [arrivals] arrive before [last], in any order, any number of times and
    interleaved with anything that does not overflow the 32 slots: as long as a chunk
    is missing nothing comes out, and when the last one arrives the very tile does. *)
Theorem reassembly tile ch seq max ds cs a arrivals last :
  frame_tile_datagrams tile ch seq max = Ok ds → decodes_to ds cs →
  Z.of_nat (length ds) ≤ MAX_CHUNKS_PER_FRAME →
  Z.of_nat (length (tile_bytes tile)) ≤ MAX_FRAME_BYTES →
  a !! (ch, seq) = None → undisturbed (ch, seq) a arrivals →
  (∀ x, x ∈ arrivals → chunk_key x = (ch, seq) → x ∈ cs) →
  last ∈ cs → last ∉ arrivals → (∀ x, x ∈ cs → x ≠ last → x ∈ arrivals) →
  (∀ i x, arrivals !! i = Some x → chunk_key x = (ch, seq) →
     (push_all a arrivals).2 !! i = Some None)
  ∧ (push (push_all a arrivals).1 last).2 = Some tile
  ∧ (push (push_all a arrivals).1 last).1 !! (ch, seq) = None.
Proof.
  intros Hok Hcs Hn Hlen Ha Hq Hown Hlast Hnew Hall.
  pose proof Hok as (Hmax & Hds)%frame_tile_datagrams_chunks.
  destruct (payload_limit_bounds max Hmax) as [Hlim _].
  rewrite (decodes_to_inj ds cs _ Hcs (datagrams_decode _ _ _ _ _ Hok)) in *.
  rewrite <- (Forall2_length _ _ _ Hds) in Hn.
  destruct (run_complete tile ch seq (payload_limit max) ltac:(lia) Hn Hlen arrivals a last)
    as (? & ? & ?); auto.
Qed.

(** A tile of more than 15,466,496 bytes (a raw 4K frame has 33,177,600) never gets
    through: [frame_tile_datagrams] reports success, so the sender does not fall back to
    the stream, and the assembler discards every one of its chunks unseen. *)
Theorem large_tile_never_arrives tile ch seq max ds :
  frame_tile_datagrams tile ch seq max = Ok ds →
  15466496 < Z.of_nat (length (tile_bytes tile)) →
  ∀ d c a, d ∈ ds → decode_datagram d = Ok (Datagram_FrameTileChunk c) → push a c = (a, None).
Proof.
  intros (Hmax & Hds)%frame_tile_datagrams_chunks Hbig d c a Hd Hc.
  destruct (payload_limit_bounds max Hmax) as [Hlim _].
  apply list_elem_of_lookup in Hd as [i Hi].
  destruct (Forall2_lookup_r _ _ _ _ _ Hds Hi) as (c' & Hi' & Henc).
  apply encode_checked_ok in Henc as [Henc _]. unfold decode_datagram in Hc.
  rewrite (from_to_bytes _ _ Henc) in Hc. injection Hc as ->.
  apply tile_chunks_lookup in Hi' as (_ & _ & Hn & _); [|lia].
  rewrite tile_chunks_length in Hn by lia. unfold push.
  destruct (chunk_admissible c) eqn:Hadm; [|done]. exfalso.
  apply chunk_admissible_spec in Hadm as (_ & Hadm & _).
  unfold MAX_CHUNKS_PER_FRAME in Hadm.
  pose proof (div_ceil_covers (length (tile_bytes tile)) (payload_limit max) ltac:(lia)) as Hc.
  apply inj_le in Hc. rewrite Nat2Z.inj_mul in Hc. nia.
Qed.
End end_to_end.

(** ** The sender succeeds when the serializer keeps within the header allowance *)

Lemma is_ok_bind {E A B} (m : result E A) (f : A → result E B) :
  is_ok m = true → (∀ a, m = Ok a → is_ok (f a) = true) → is_ok (m ≫= f) = true.
Proof. destruct m; [intros _ Hf; by apply Hf|done]. Qed.

Lemma chunk_loop_total `{C : Codec DataPlaneDatagram} mk max i ps :
  (∀ j p, ps !! j = Some p →
     Z.of_nat (i + j) ≤ u32_max ∧ is_ok (encode_checked max (mk (Z.of_nat (i + j)) p)) = true) →
  is_ok (chunk_loop mk max i ps) = true.
Proof.
  revert i. induction ps as [|p ps IH]; intros i Hps; [done|]. cbn [chunk_loop].
  destruct (Hps 0%nat p eq_refl) as [Hi Hp]. rewrite Nat.add_0_r in *.
  unfold u32_try_from. rewrite (proj2 (Z.leb_le _ _) Hi).
  apply is_ok_bind; [done|]. intros z [= <-]. apply is_ok_bind; [done|]. intros d _.
  apply is_ok_bind; [|done]. apply IH. intros j q Hj.
  rewrite Nat.add_succ_comm. by apply Hps.
Qed.

(** A raw frame of [n] bytes, 3840 pixels wide. *)
Definition sample_tile (n : nat) : FrameTile :=
  mkFrameTile 9 0 0 3840 2160 15360 RawRgba (replicate n Byte.xaa).

Lemma sample_tile_sent n :
  (0 < n)%nat → Z.of_nat n ≤ u32_max →
  is_ok (frame_tile_datagrams (C := ToyDatagram.codec) (sample_tile n) 9 1 1200) = true.
Proof.
  intros Hn Hmax. unfold frame_tile_datagrams. cbn [tile_bytes sample_tile].
  change (1200 <? 512) with false. cbv iota.
  change (payload_limit 1200) with 944%nat. rewrite length_replicate.
  assert (Z.of_nat (div_ceil n 944) ≤ Z.of_nat n) as Hcount.
  { unfold div_ceil. rewrite Nat2Z.inj_div. apply Z.lt_succ_r, Z.div_lt_upper_bound; lia. }
  unfold u32_try_from. rewrite !(proj2 (Z.leb_le _ u32_max)) by lia.
  apply is_ok_bind; [done|]. intros c Hc. apply (inj Ok) in Hc as <-.
  apply is_ok_bind; [done|]. intros t Ht. apply (inj Ok) in Ht as <-.
  destruct n as [|n]; [lia|]. cbn [replicate]. change (Byte.xaa :: replicate n Byte.xaa)
    with (replicate (S n) Byte.xaa). apply chunk_loop_total. intros j p Hj.
  pose proof (lookup_lt_Some _ _ _ Hj) as Hlt. rewrite chunks_length in Hlt by lia.
  rewrite length_replicate in Hlt. cbn [Nat.add].
  apply list_elem_of_lookup_2, chunks_bound in Hj; [|lia].
  unfold u32_max in *. set (k := div_ceil (S n) 944) in *. clearbody k. split; [lia|].
  apply ToyDatagram.ser_fits; cbn [chunk_bytes]; [|lia].
  unfold ToyDatagram.widths, ToyDatagram.fields; cbn [chunk_header chunk_channel_id chunk_frame_seq
    chunk_index chunk_count chunk_total_len header_from sample_tile hdr_id hdr_x hdr_y hdr_w hdr_h
    hdr_stride hdr_encoding tile_id tile_x tile_y tile_w tile_h tile_stride tile_encoding].
  repeat (apply Forall2_cons; split; [simpl; lia|]). by apply Forall2_nil.
Qed.

(** ** Witnesses *)

#[local] Existing Instances ToyDatagram.codec ToyDatagram.laws.

Definition sent (tile : FrameTile) (max : Z) : list (list byte) :=
  match frame_tile_datagrams tile 9 1 max with Ok ds => ds | Err _ => [] end.

Lemma frame_tile_datagrams_sound_witness :
  frame_tile_datagrams (sample_tile 600) 9 1 512 = Ok (sent (sample_tile 600) 512) ∧
  ∃ cs, Forall2 (λ d c, decode_datagram d = Ok (Datagram_FrameTileChunk c)
                        ∧ Z.of_nat (length d) ≤ 512) (sent (sample_tile 600) 512) cs
    ∧ concat (chunk_bytes <$> cs) = tile_bytes (sample_tile 600).
Proof.
  assert (frame_tile_datagrams (sample_tile 600) 9 1 512 = Ok (sent (sample_tile 600) 512)) as E
    by (vm_compute; reflexivity).
  split; [exact E|]. destruct (frame_tile_datagrams_sound _ _ _ _ _ E) as (cs & H1 & H2 & _).
  by exists cs.
Defined.

(** Three chunks: the last, then the first twice, then the middle one. *)
Lemma reassembly_witness :
  let T := tile_chunks (sample_tile 600) 9 1 256 in
  let c i := default sample_chunk (T !! i) in
  (push (push_all ∅ [c 2%nat; c 0%nat; c 0%nat]).1 (c 1%nat)).2 = Some (sample_tile 600).
Proof.
  intros T c.
  assert (frame_tile_datagrams (sample_tile 600) 9 1 512 = Ok (sent (sample_tile 600) 512)) as E
    by (vm_compute; reflexivity).
  assert (∀ i, (i < 3)%nat → T !! i = Some (c i)) as HT
    by (intros [|[|[|?]]] ?; [vm_compute; reflexivity..|lia]).
  assert (∀ x i, T !! i = Some x → x = c i) as Hc by (intros x i Hi; unfold c; by rewrite Hi).
  apply (reassembly (sample_tile 600) 9 1 512 (sent (sample_tile 600) 512) T ∅
           [c 2%nat; c 0%nat; c 0%nat] (c 1%nat)).
  - exact E.
  - exact (datagrams_decode _ _ _ _ _ E).
  - vm_compute. congruence.
  - vm_compute. congruence.
  - reflexivity.
  - repeat split; intros Hk; exfalso; apply Hk; vm_compute; reflexivity.
  - intros x Hx _. rewrite !elem_of_cons, elem_of_nil in Hx.
    destruct Hx as [-> |[-> |[-> |[]]]]; (eapply list_elem_of_lookup_2, HT; lia).
  - eapply list_elem_of_lookup_2, HT. lia.
  - apply (bool_decide_unpack _). vm_compute. exact I.
  - intros x [i Hi]%list_elem_of_lookup Hne.
    assert (i < 3)%nat as Hlt by (apply lookup_lt_Some in Hi; exact Hi).
    rewrite (Hc _ _ Hi) in *. rewrite !elem_of_cons.
    destruct i as [|[|[|?]]]; [auto|done|auto|lia].
Defined.

Lemma large_tile_never_arrives_witness :
  let tile := sample_tile (Z.to_nat 15466497) in
  ∃ ds, frame_tile_datagrams tile 9 1 1200 = Ok ds ∧
    ∀ d c a, d ∈ ds → decode_datagram d = Ok (Datagram_FrameTileChunk c) → push a c = (a, None).
Proof.
  intros tile.
  pose proof (sample_tile_sent (Z.to_nat 15466497) ltac:(lia) ltac:(unfold u32_max; lia)) as Hok.
  fold tile in Hok. destruct (frame_tile_datagrams tile 9 1 1200) as [ds|e] eqn:E;
    [|discriminate Hok].
  exists ds. split; [reflexivity|]. apply (large_tile_never_arrives tile 9 1 1200 ds E).
  unfold tile, sample_tile. cbn [tile_bytes]. rewrite length_replicate. lia.
Defined.
