(* ===== verification/Ime.v ===== *)
(** * The multilingual input composers (crates/client/src/viewer/ime)

    [Hangul] assembles compatibility jamo into syllables, [Kana] pairs kana with voicing
    marks, [Input] is the dispatcher that picks one of them, [Emoji] splits committed text
    into clusters.  A character is its code point. *)

From S2P Require Import Prelude.

Inductive ComposerAction :=
  | Commit (text : rstring)
  | Preedit (text : option rstring).

(** [char::from_u32]: scalar values only. *)
Definition char_from_u32 (n : Z) : option char :=
  if (n <=? 0x10FFFF) && negb ((0xD800 <=? n) && (n <=? 0xDFFF)) then Some n else None.

(** Indexing a constant table; an index out of range panics in the code, and the
    invariants below rule it out. *)
Definition table_at (t : list char) (i : nat) : char := default 0xFFFD (t !! i).

(** ** hangul.rs *)

Module Hangul.

Inductive Pending :=
  | Pending_None
  | Pending_Initial (l : nat)
  | Pending_Vowel (v : nat)
  | Pending_Syllable (l v t : nat).

(** [HangulComposer] is its [pending] field. *)
Definition is_empty (p : Pending) : bool :=
  match p with Pending_None => true | _ => false end.

Definition is_compat_jamo (ch : char) : bool := (0x3130 <=? ch) && (ch <=? 0x318F).

Definition can_compose (text : rstring) : bool :=
  negb (bool_decide (text = [])) && forallb is_compat_jamo text.

Definition initial_index (ch : char) : option nat :=
  match ch with
  | 0x3131 => Some 0%nat
  | 0x3132 => Some 1%nat
  | 0x3134 => Some 2%nat
  | 0x3137 => Some 3%nat
  | 0x3138 => Some 4%nat
  | 0x3139 => Some 5%nat
  | 0x3141 => Some 6%nat
  | 0x3142 => Some 7%nat
  | 0x3143 => Some 8%nat
  | 0x3145 => Some 9%nat
  | 0x3146 => Some 10%nat
  | 0x3147 => Some 11%nat
  | 0x3148 => Some 12%nat
  | 0x3149 => Some 13%nat
  | 0x314A => Some 14%nat
  | 0x314B => Some 15%nat
  | 0x314C => Some 16%nat
  | 0x314D => Some 17%nat
  | 0x314E => Some 18%nat
  | _ => None
  end.

Definition initial_chars : list char :=
    [0x3131; 0x3132; 0x3134; 0x3137; 0x3138; 0x3139; 0x3141; 0x3142; 0x3143; 0x3145;
     0x3146; 0x3147; 0x3148; 0x3149; 0x314A; 0x314B; 0x314C; 0x314D; 0x314E].
Definition initial_char (l : nat) : char := table_at initial_chars l.

Definition vowel_index (ch : char) : option nat :=
  match ch with
  | 0x314F => Some 0%nat
  | 0x3150 => Some 1%nat
  | 0x3151 => Some 2%nat
  | 0x3152 => Some 3%nat
  | 0x3153 => Some 4%nat
  | 0x3154 => Some 5%nat
  | 0x3155 => Some 6%nat
  | 0x3156 => Some 7%nat
  | 0x3157 => Some 8%nat
  | 0x3158 => Some 9%nat
  | 0x3159 => Some 10%nat
  | 0x315A => Some 11%nat
  | 0x315B => Some 12%nat
  | 0x315C => Some 13%nat
  | 0x315D => Some 14%nat
  | 0x315E => Some 15%nat
  | 0x315F => Some 16%nat
  | 0x3160 => Some 17%nat
  | 0x3161 => Some 18%nat
  | 0x3162 => Some 19%nat
  | 0x3163 => Some 20%nat
  | _ => None
  end.

Definition vowel_chars : list char :=
    [0x314F; 0x3150; 0x3151; 0x3152; 0x3153; 0x3154; 0x3155; 0x3156; 0x3157; 0x3158;
     0x3159; 0x315A; 0x315B; 0x315C; 0x315D; 0x315E; 0x315F; 0x3160; 0x3161; 0x3162;
     0x3163].
Definition vowel_char (v : nat) : char := table_at vowel_chars v.

Definition final_index (ch : char) : option nat :=
  match ch with
  | 0x3131 => Some 1%nat
  | 0x3132 => Some 2%nat
  | 0x3133 => Some 3%nat
  | 0x3134 => Some 4%nat
  | 0x3135 => Some 5%nat
  | 0x3136 => Some 6%nat
  | 0x3137 => Some 7%nat
  | 0x3139 => Some 8%nat
  | 0x313A => Some 9%nat
  | 0x313B => Some 10%nat
  | 0x313C => Some 11%nat
  | 0x313D => Some 12%nat
  | 0x313E => Some 13%nat
  | 0x313F => Some 14%nat
  | 0x3140 => Some 15%nat
  | 0x3141 => Some 16%nat
  | 0x3142 => Some 17%nat
  | 0x3144 => Some 18%nat
  | 0x3145 => Some 19%nat
  | 0x3146 => Some 20%nat
  | 0x3147 => Some 21%nat
  | 0x3148 => Some 22%nat
  | 0x314A => Some 23%nat
  | 0x314B => Some 24%nat
  | 0x314C => Some 25%nat
  | 0x314D => Some 26%nat
  | 0x314E => Some 27%nat
  | _ => None
  end.

Definition compose_syllable (l v t : nat) : char :=
  let code := 0xAC00 + ((Z.of_nat l * 21 + Z.of_nat v) * 28 + Z.of_nat t) in
  default 0xFFFD (char_from_u32 code).

Definition combine_vowel (left right : nat) : option nat :=
  match left, right with
  | 8, 0 => Some 9
  | 8, 1 => Some 10
  | 8, 20 => Some 11
  | 13, 4 => Some 14
  | 13, 5 => Some 15
  | 13, 20 => Some 16
  | 18, 20 => Some 19
  | _, _ => None
  end%nat.

Definition combine_final (left right : nat) : option nat :=
  match left, right with
  | 1, 19 => Some 3
  | 4, 22 => Some 5
  | 4, 27 => Some 6
  | 8, 1 => Some 9
  | 8, 16 => Some 10
  | 8, 17 => Some 11
  | 8, 19 => Some 12
  | 8, 25 => Some 13
  | 8, 26 => Some 14
  | 8, 27 => Some 15
  | 17, 19 => Some 18
  | _, _ => None
  end%nat.

Definition final_to_initial (t : nat) : nat :=
  match t with
  | 1 => 0
  | 2 => 1
  | 4 => 2
  | 7 => 3
  | 8 => 5
  | 16 => 6
  | 17 => 7
  | 19 => 9
  | 20 => 10
  | 21 => 11
  | 22 => 12
  | 23 => 14
  | 24 => 15
  | 25 => 16
  | 26 => 17
  | 27 => 18
  | _ => 11
  end%nat.

Definition split_final (t : nat) : nat * nat :=
  match t with
  | 3 => (1, 9)
  | 5 => (4, 12)
  | 6 => (4, 18)
  | 9 => (8, 0)
  | 10 => (8, 6)
  | 11 => (8, 7)
  | 12 => (8, 9)
  | 13 => (8, 16)
  | 14 => (8, 17)
  | 15 => (8, 18)
  | 18 => (17, 9)
  | _ => (0, final_to_initial t)
  end%nat.

Definition pending_text (p : Pending) : option rstring :=
  match p with
  | Pending_None => None
  | Pending_Initial l => Some [initial_char l]
  | Pending_Vowel v => Some [vowel_char v]
  | Pending_Syllable l v t => Some [compose_syllable l v t]
  end.

Definition preedit_text := pending_text.

(** [if let Some(text) = self.take_pending_text() { actions.push(Commit(text)) }] *)
Definition commit_pending (p : Pending) : list ComposerAction :=
  match pending_text p with Some text => [Commit text] | None => [] end.

Definition push_consonant (p : Pending) (ch : char) (l_new : nat) : Pending * list ComposerAction :=
  match p with
  | Pending_None => (Pending_Initial l_new, [])
  | Pending_Initial _ | Pending_Vowel _ => (Pending_Initial l_new, commit_pending p)
  | Pending_Syllable l v O =>
      match final_index ch with
      | Some t_new => (Pending_Syllable l v t_new, [])
      | None => (Pending_Initial l_new, commit_pending p)
      end
  | Pending_Syllable l v t =>
      match final_index ch ≫= combine_final t with
      | Some t_new => (Pending_Syllable l v t_new, [])
      | None => (Pending_Initial l_new, commit_pending p)
      end
  end.

Definition push_vowel (p : Pending) (v_new : nat) : Pending * list ComposerAction :=
  match p with
  | Pending_None => (Pending_Vowel v_new, [])
  | Pending_Initial l => (Pending_Syllable l v_new 0, [])
  | Pending_Vowel v =>
      match combine_vowel v v_new with
      | Some v' => (Pending_Vowel v', [])
      | None => (Pending_Vowel v_new, commit_pending p)
      end
  | Pending_Syllable l v O =>
      match combine_vowel v v_new with
      | Some v' => (Pending_Syllable l v' 0, [])
      | None => (Pending_Vowel v_new, commit_pending p)
      end
  | Pending_Syllable l v t =>
      let '(remaining_t, moved_l) := split_final t in
      (Pending_Syllable moved_l v_new 0, [Commit [compose_syllable l v remaining_t]])
  end.

Definition push_char (p : Pending) (ch : char) : Pending * list ComposerAction :=
  let '(p', actions) :=
    match initial_index ch with
    | Some l => push_consonant p ch l
    | None =>
        match vowel_index ch with
        | Some v => push_vowel p v
        | None => (Pending_None, commit_pending p ++ [Commit [ch]])
        end
    end in
  (p', actions ++ [Preedit (preedit_text p')]).

Fixpoint push_text (p : Pending) (text : rstring) : Pending * list ComposerAction :=
  match text with
  | [] => (p, [])
  | ch :: text' =>
      let '(p1, a1) := push_char p ch in
      let '(p2, a2) := push_text p1 text' in (p2, a1 ++ a2)
  end.

Definition flush (p : Pending) : Pending * list ComposerAction :=
  match pending_text p with
  | Some text => (Pending_None, [Commit text; Preedit None])
  | None => (Pending_None, [])
  end.

Definition backspace (p : Pending) : Pending * list ComposerAction :=
  match p with
  | Pending_None => (p, [])
  | Pending_Initial _ | Pending_Vowel _ => (Pending_None, [Preedit None])
  | Pending_Syllable l v (S _) =>
      let p' := Pending_Syllable l v 0 in (p', [Preedit (preedit_text p')])
  | Pending_Syllable l _ O =>
      let p' := Pending_Initial l in (p', [Preedit (preedit_text p')])
  end.

End Hangul.

(** ** kana.rs *)

Module Kana.

(** [KanaComposer] is its [pending] field. *)
Abbreviation state := (option char) (only parsing).

Definition is_empty (p : state) : bool := match p with None => true | Some _ => false end.

Definition is_voicing_mark (ch : char) : bool :=
  (ch =? 0x3099) || (ch =? 0x309A) || (ch =? 0x309B) || (ch =? 0x309C).

Definition is_kana_base (ch : char) : bool :=
  let in_hiragana := (0x3040 <=? ch) && (ch <=? 0x309F) in
  let in_katakana := (0x30A0 <=? ch) && (ch <=? 0x30FF) in
  let in_phonetic_ext := (0x31F0 <=? ch) && (ch <=? 0x31FF) in
  (in_hiragana || in_katakana || in_phonetic_ext) && negb (is_voicing_mark ch).

Definition is_kana_or_mark (ch : char) : bool := is_kana_base ch || is_voicing_mark ch.

Fixpoint can_compose_loop (has_mark : bool) (text : rstring) : bool :=
  match text with
  | [] => has_mark
  | ch :: text' =>
      if negb (is_kana_or_mark ch) then false
      else can_compose_loop (if is_voicing_mark ch then true else has_mark) text'
  end.

Definition can_compose (text : rstring) : bool :=
  match text with [] => false | _ => can_compose_loop false text end.

(** base, voiced, semi-voiced *)
Definition VOICING_TABLE : list (char * option char * option char) :=
    [(0x3046, Some 0x3094, None); (0x304B, Some 0x304C, None);
     (0x304D, Some 0x304E, None); (0x304F, Some 0x3050, None);
     (0x3051, Some 0x3052, None); (0x3053, Some 0x3054, None);
     (0x3055, Some 0x3056, None); (0x3057, Some 0x3058, None);
     (0x3059, Some 0x305A, None); (0x305B, Some 0x305C, None);
     (0x305D, Some 0x305E, None); (0x305F, Some 0x3060, None);
     (0x3061, Some 0x3062, None); (0x3064, Some 0x3065, None);
     (0x3066, Some 0x3067, None); (0x3068, Some 0x3069, None);
     (0x306F, Some 0x3070, Some 0x3071); (0x3072, Some 0x3073, Some 0x3074);
     (0x3075, Some 0x3076, Some 0x3077); (0x3078, Some 0x3079, Some 0x307A);
     (0x307B, Some 0x307C, Some 0x307D); (0x30A6, Some 0x30F4, None);
     (0x30AB, Some 0x30AC, None); (0x30AD, Some 0x30AE, None);
     (0x30AF, Some 0x30B0, None); (0x30B1, Some 0x30B2, None);
     (0x30B3, Some 0x30B4, None); (0x30B5, Some 0x30B6, None);
     (0x30B7, Some 0x30B8, None); (0x30B9, Some 0x30BA, None);
     (0x30BB, Some 0x30BC, None); (0x30BD, Some 0x30BE, None);
     (0x30BF, Some 0x30C0, None); (0x30C1, Some 0x30C2, None);
     (0x30C4, Some 0x30C5, None); (0x30C6, Some 0x30C7, None);
     (0x30C8, Some 0x30C9, None); (0x30CF, Some 0x30D0, Some 0x30D1);
     (0x30D2, Some 0x30D3, Some 0x30D4); (0x30D5, Some 0x30D6, Some 0x30D7);
     (0x30D8, Some 0x30D9, Some 0x30DA); (0x30DB, Some 0x30DC, Some 0x30DD);
     (0x30EF, Some 0x30F7, None); (0x30F0, Some 0x30F8, None);
     (0x30F1, Some 0x30F9, None); (0x30F2, Some 0x30FA, None)].

Definition apply_mark (base mark : char) : option char :=
  let want_semi := (mark =? 0x309A) || (mark =? 0x309C) in
  '(_, voiced, semi) ← find (λ '(b, _, _), b =? base) VOICING_TABLE;
  if want_semi then semi else voiced.

Definition preedit_text (p : state) : option rstring := (λ c, [c]) <$> p.

Definition push_char (p : state) (ch : char) : state * list ComposerAction :=
  if is_voicing_mark ch then
    match p with
    | Some base =>
        match apply_mark base ch with
        | Some out => (None, [Commit [out]])
        | None => (None, [Commit [base]; Commit [ch]])
        end
    | None => (None, [Commit [ch]])
    end
  else
    let a := match p with Some base => [Commit [base]] | None => [] end in
    if is_kana_base ch then (Some ch, a) else (None, a ++ [Commit [ch]]).

Fixpoint push_chars (p : state) (text : rstring) : state * list ComposerAction :=
  match text with
  | [] => (p, [])
  | ch :: text' =>
      let '(p1, a1) := push_char p ch in
      let '(p2, a2) := push_chars p1 text' in (p2, a1 ++ a2)
  end.

Definition push_text (p : state) (text : rstring) : state * list ComposerAction :=
  let '(p', a) := push_chars p text in (p', a ++ [Preedit (preedit_text p')]).

Definition flush (p : state) : state * list ComposerAction :=
  match p with
  | Some ch => (None, [Commit [ch]; Preedit None])
  | None => (None, [])
  end.

Definition backspace (p : state) : state * list ComposerAction :=
  match p with
  | Some _ => (None, [Preedit None])
  | None => (None, [])
  end.

End Kana.

(** ** mod.rs *)

Module Input.

Inductive Backend :=
  | Backend_Idle
  | Backend_Hangul (c : Hangul.Pending)
  | Backend_Kana (c : option char).

Inductive Target := Target_None | Target_Hangul | Target_Kana.

Definition can_compose (text : rstring) : bool :=
  Hangul.can_compose text || Kana.can_compose text.

Definition is_empty (b : Backend) : bool :=
  match b with
  | Backend_Idle => true
  | Backend_Hangul c => Hangul.is_empty c
  | Backend_Kana c => Kana.is_empty c
  end.

Definition detect (text : rstring) : Target :=
  if Hangul.can_compose text then Target_Hangul
  else if Kana.can_compose text then Target_Kana
  else Target_None.

Definition backend_matches (b : Backend) (t : Target) : bool :=
  match b, t with
  | Backend_Idle, Target_None | Backend_Hangul _, Target_Hangul
  | Backend_Kana _, Target_Kana => true
  | _, _ => false
  end.

Definition flush (b : Backend) : Backend * list ComposerAction :=
  (Backend_Idle,
   match b with
   | Backend_Idle => []
   | Backend_Hangul c => (Hangul.flush c).2
   | Backend_Kana c => (Kana.flush c).2
   end).

Definition switch_for (b : Backend) (text : rstring) : Backend * list ComposerAction :=
  let target := detect text in
  if backend_matches b target then (b, [])
  else
    let '(_, actions) := flush b in
    (match target with
     | Target_None => Backend_Idle
     | Target_Hangul => Backend_Hangul Hangul.Pending_None
     | Target_Kana => Backend_Kana None
     end, actions).

Definition push_text (b : Backend) (text : rstring) : Backend * list ComposerAction :=
  match text with
  | [] => (b, [])
  | _ =>
      let '(b1, actions) := switch_for b text in
      match b1 with
      | Backend_Hangul c => let '(c', a) := Hangul.push_text c text in (Backend_Hangul c', actions ++ a)
      | Backend_Kana c => let '(c', a) := Kana.push_text c text in (Backend_Kana c', actions ++ a)
      | Backend_Idle => (Backend_Idle, actions ++ [Commit text])
      end
  end.

Definition backspace (b : Backend) : Backend * list ComposerAction :=
  match b with
  | Backend_Idle => (Backend_Idle, [])
  | Backend_Hangul c => let '(c', a) := Hangul.backspace c in (Backend_Hangul c', a)
  | Backend_Kana c => let '(c', a) := Kana.backspace c in (Backend_Kana c', a)
  end.

End Input.

(** ** emoji.rs *)

Module Emoji.

Definition is_emoji (c : char) : bool :=
  ((0x1F000 <=? c) && (c <=? 0x1FFFF))
  || ((0x2300 <=? c) && (c <=? 0x23FF))
  || ((0x2500 <=? c) && (c <=? 0x27BF))
  || ((0x2900 <=? c) && (c <=? 0x29FF))
  || ((0x2B00 <=? c) && (c <=? 0x2BFF))
  || (c =? 0x200D)
  || ((0xFE0E <=? c) && (c <=? 0xFE0F)).

Definition contains_emoji (text : rstring) : bool := existsb is_emoji text.

Definition is_zwj (ch : char) : bool := ch =? 0x200D.
Definition is_variation_selector (ch : char) : bool := (0xFE0E <=? ch) && (ch <=? 0xFE0F).
Definition is_skin_tone (ch : char) : bool := (0x1F3FB <=? ch) && (ch <=? 0x1F3FF).
Definition is_regional_indicator (ch : char) : bool := (0x1F1E6 <=? ch) && (ch <=? 0x1F1FF).
Definition is_continuation (ch : char) : bool :=
  is_zwj ch || is_variation_selector ch || is_skin_tone ch.

Definition cluster_flag_open (cluster : rstring) : bool :=
  match cluster with
  | first :: rest => is_regional_indicator first && bool_decide (rest = [])
  | [] => false
  end.

(** The loop state of [split_clusters]. *)
Record splitter := mkSplitter {
  clusters : list rstring;
  current : rstring;
  expecting_continuation : bool
}.

Definition joins_flag (current : rstring) (ch : char) : bool :=
  match last current with
  | Some prev => is_regional_indicator prev && is_regional_indicator ch
                 && cluster_flag_open current
  | None => false
  end.

Definition split_step (s : splitter) (ch : char) : splitter :=
  if is_continuation ch then
    if bool_decide (current s = [])
    then mkSplitter (clusters s ++ [[ch]]) (current s) (expecting_continuation s)
    else mkSplitter (clusters s) (current s ++ [ch]) (is_zwj ch)
  else if expecting_continuation s then mkSplitter (clusters s) (current s ++ [ch]) false
  else if joins_flag (current s) ch
  then mkSplitter (clusters s) (current s ++ [ch]) (expecting_continuation s)
  else mkSplitter
         (if bool_decide (current s = []) then clusters s else clusters s ++ [current s])
         [ch] (expecting_continuation s).

Definition split_done (s : splitter) : list rstring :=
  if bool_decide (current s = []) then clusters s else clusters s ++ [current s].

Definition split_clusters (text : rstring) : list rstring :=
  split_done (fold_left split_step text (mkSplitter [] [] false)).

End Emoji.

(** ** Strokes

    What a character is made of: a syllable or a compound vowel in jamo, voiced kana in
    base and mark.  Composition moves strokes between characters and never adds or loses
    one. *)

Definition vowel_strokes (v : nat) : list char :=
  let j := Hangul.vowel_char in
  match v with
  | 9 => [j 8; j 0] | 10 => [j 8; j 1] | 11 => [j 8; j 20]
  | 14 => [j 13; j 4] | 15 => [j 13; j 5] | 16 => [j 13; j 20]
  | 19 => [j 18; j 20] | _ => [j v]
  end%nat.

Definition final_strokes (t : nat) : list char :=
  match t with
  | O => []
  | _ => let '(remaining, moved) := Hangul.split_final t in
         (if (remaining =? 0)%nat then [] else [Hangul.initial_char (Hangul.final_to_initial remaining)])
         ++ [Hangul.initial_char moved]
  end.

Definition hangul_strokes (c : char) : list char :=
  if (0xAC00 <=? c) && (c <=? 0xD7A3) then
    let n := Z.to_nat (c - 0xAC00) in
    Hangul.initial_char (n / 588) :: vowel_strokes ((n / 28) mod 21) ++ final_strokes (n mod 28)
  else match Hangul.vowel_index c with Some v => vowel_strokes v | None => [c] end.

(** The combining and the spacing form of a mark are the same stroke. *)
Definition kana_strokes (c : char) : list char :=
  match find (λ '(_, v, s), bool_decide (v = Some c) || bool_decide (s = Some c)) Kana.VOICING_TABLE with
  | Some (b, v, _) => [b; if bool_decide (v = Some c) then 0x3099 else 0x309A]
  | None => [if c =? 0x309B then 0x3099 else if c =? 0x309C then 0x309A else c]
  end.

Definition jamo (text : rstring) : list char := flat_map hangul_strokes text.
Definition strokes (text : rstring) : list char := flat_map kana_strokes (jamo text).

(** The text a sequence of actions commits, and the preedit it leaves on the screen. *)
Fixpoint committed (actions : list ComposerAction) : rstring :=
  match actions with
  | [] => []
  | Commit t :: rest => t ++ committed rest
  | Preedit _ :: rest => committed rest
  end.

Fixpoint shown (before : option rstring) (actions : list ComposerAction) : option rstring :=
  match actions with
  | [] => before
  | Commit _ :: rest => shown before rest
  | Preedit p :: rest => shown p rest
  end.

Definition pending_text (b : Input.Backend) : option rstring :=
  match b with
  | Input.Backend_Idle => None
  | Input.Backend_Hangul c => Hangul.preedit_text c
  | Input.Backend_Kana c => Kana.preedit_text c
  end.

(** The indices of a pending syllable are those of the tables. *)
Definition hangul_ok (p : Hangul.Pending) : Prop :=
  match p with
  | Hangul.Pending_None => True
  | Hangul.Pending_Initial l => (l < 19)%nat
  | Hangul.Pending_Vowel v => (v < 21)%nat
  | Hangul.Pending_Syllable l v t => (l < 19)%nat ∧ (v < 21)%nat ∧ (t < 28)%nat
  end.

Definition composer_ok (b : Input.Backend) : Prop :=
  match b with Input.Backend_Hangul c => hangul_ok c | _ => True end.

(** What the viewer does to a composer, one operation after the other. *)
Inductive op := Op_push (text : rstring) | Op_flush | Op_backspace.

Definition run_op (b : Input.Backend) (o : op) : Input.Backend * list ComposerAction :=
  match o with
  | Op_push text => Input.push_text b text
  | Op_flush => Input.flush b
  | Op_backspace => Input.backspace b
  end.

Fixpoint run_ops (b : Input.Backend) (os : list op) : Input.Backend * list ComposerAction :=
  match os with
  | [] => (b, [])
  | o :: os' => let '(b1, a1) := run_op b o in
                let '(b2, a2) := run_ops b1 os' in (b2, a1 ++ a2)
  end.

Definition pushed (o : op) : rstring := match o with Op_push t => t | _ => [] end.

(** ** Lemmas: finite tables *)

Lemma forallb_seq (f : nat → bool) n :
  forallb f (seq 0 n) = true → ∀ i, (i < n)%nat → f i = true.
Proof. intros Hf i Hi. rewrite forallb_forall in Hf. apply Hf, in_seq. lia. Qed.

(** Decide a property of all indices below the given bounds by evaluation. *)
Ltac by_table :=
  match goal with
  | |- ∀ i : nat, (i < ?n)%nat → @?P i =>
      let H := fresh in
      pose proof (forallb_seq (λ i, bool_decide (P i)) n) as H; cbv beta in H;
      intros i Hi; apply (bool_decide_unpack _), Is_true_true, H;
      [vm_compute; reflexivity|done]
  end.

Lemma strokes_app s t : strokes (s ++ t) = strokes s ++ strokes t.
Proof. unfold strokes, jamo. by rewrite !flat_map_app. Qed.

Lemma jamo_app s t : jamo (s ++ t) = jamo s ++ jamo t.
Proof. apply flat_map_app. Qed.

Lemma initial_index_some c l :
  Hangul.initial_index c = Some l → (l < 19)%nat ∧ c = Hangul.initial_char l.
Proof. unfold Hangul.initial_index. intros. repeat case_match; simplify_eq; (split; [lia|reflexivity]). Qed.

Lemma vowel_index_some c v :
  Hangul.vowel_index c = Some v → (v < 21)%nat ∧ c = Hangul.vowel_char v.
Proof. unfold Hangul.vowel_index. intros. repeat case_match; simplify_eq; (split; [lia|reflexivity]). Qed.

Lemma strokes_initial : ∀ l, (l < 19)%nat → hangul_strokes (Hangul.initial_char l) = [Hangul.initial_char l].
Proof. by_table. Qed.

Lemma strokes_vowel : ∀ v, (v < 21)%nat → hangul_strokes (Hangul.vowel_char v) = vowel_strokes v.
Proof. by_table. Qed.

(** The code of a syllable and back to its letters. *)
Lemma compose_syllable_code l v t :
  (l < 19)%nat → (v < 21)%nat → (t < 28)%nat →
  Hangul.compose_syllable l v t = 0xAC00 + Z.of_nat ((l * 21 + v) * 28 + t) ∧
  Z.of_nat ((l * 21 + v) * 28 + t) < 11172.
Proof.
  intros Hl Hv Ht. split; [|lia]. unfold Hangul.compose_syllable, char_from_u32.
  replace (0xAC00 + ((Z.of_nat l * 21 + Z.of_nat v) * 28 + Z.of_nat t))
    with (0xAC00 + Z.of_nat ((l * 21 + v) * 28 + t)) by lia.
  rewrite (proj2 (Z.leb_le _ 0x10FFFF)), (proj2 (Z.leb_gt 0xD800 _)) by lia.
  done.
Qed.

Lemma syllable_letters l v t :
  (v < 21)%nat → (t < 28)%nat →
  let n := ((l * 21 + v) * 28 + t)%nat in
  (n / 588 = l ∧ (n / 28) mod 21 = v ∧ n mod 28 = t)%nat.
Proof.
  intros Hv Ht n.
  assert (n / 28 = l * 21 + v)%nat as E1 by (symmetry; apply (Nat.div_unique _ 28 _ t); lia).
  split_and!.
  - symmetry. apply (Nat.div_unique _ 588 _ (v * 28 + t)); lia.
  - rewrite E1. symmetry. apply (Nat.mod_unique _ 21 l); lia.
  - symmetry. apply (Nat.mod_unique _ 28 (l * 21 + v)); lia.
Qed.

Lemma strokes_syllable l v t :
  (l < 19)%nat → (v < 21)%nat → (t < 28)%nat →
  hangul_strokes (Hangul.compose_syllable l v t)
  = Hangul.initial_char l :: vowel_strokes v ++ final_strokes t.
Proof.
  intros Hl Hv Ht. destruct (compose_syllable_code l v t Hl Hv Ht) as [-> Hn]. unfold hangul_strokes.
  rewrite (proj2 (Z.leb_le _ _)), (proj2 (Z.leb_le _ _)) by lia. cbn [andb].
  replace (Z.to_nat (0xAC00 + Z.of_nat ((l * 21 + v) * 28 + t) - 0xAC00))
    with ((l * 21 + v) * 28 + t)%nat by lia.
  by destruct (syllable_letters l v t Hv Ht) as (-> & -> & ->).
Qed.

(** Combination and splitting only regroup strokes. *)
Lemma combine_vowel_strokes a b v :
  Hangul.combine_vowel a b = Some v → (v < 21)%nat ∧ vowel_strokes v = vowel_strokes a ++ vowel_strokes b.
Proof.
  unfold Hangul.combine_vowel. intros. repeat case_match; simplify_eq; (split; [lia|reflexivity]).
Qed.

Lemma combine_final_strokes a b t :
  Hangul.combine_final a b = Some t → (t < 28)%nat ∧ final_strokes t = final_strokes a ++ final_strokes b.
Proof.
  unfold Hangul.combine_final. intros. repeat case_match; simplify_eq; (split; [lia|reflexivity]).
Qed.

Lemma split_final_strokes : ∀ t, (t < 27)%nat →
  ((Hangul.split_final (S t)).1 < 28)%nat ∧ ((Hangul.split_final (S t)).2 < 19)%nat ∧
  final_strokes (S t) = final_strokes (Hangul.split_final (S t)).1
    ++ [Hangul.initial_char (Hangul.split_final (S t)).2].
Proof. by_table. Qed.

Lemma final_index_strokes : ∀ l, (l < 19)%nat →
  match Hangul.final_index (Hangul.initial_char l) with
  | Some t => (t < 28)%nat ∧ final_strokes t = [Hangul.initial_char l]
  | None => True
  end.
Proof.
  intros l Hl. do 19 (destruct l as [|l]; [vm_compute; first [exact I|split; [lia|reflexivity]]|]). lia.
Qed.

(** ** Hangul: the operations keep every stroke *)

Definition hangul_rest (p : Hangul.Pending) : list char := jamo (default [] (Hangul.pending_text p)).

(** What one operation owes: a good state, every stroke, and an up-to-date preedit. *)
Definition keeps (before : list char) (r : Hangul.Pending * list ComposerAction) : Prop :=
  hangul_ok r.1 ∧ jamo (committed r.2) ++ hangul_rest r.1 = before.

Lemma hangul_rest_syllable l v t :
  (l < 19)%nat → (v < 21)%nat → (t < 28)%nat →
  hangul_rest (Hangul.Pending_Syllable l v t)
  = Hangul.initial_char l :: vowel_strokes v ++ final_strokes t.
Proof. intros. unfold hangul_rest. simpl. by rewrite app_nil_r, strokes_syllable. Qed.

Lemma hangul_rest_initial l : (l < 19)%nat → hangul_rest (Hangul.Pending_Initial l) = [Hangul.initial_char l].
Proof. intros. unfold hangul_rest. simpl. by rewrite app_nil_r, strokes_initial. Qed.

Lemma hangul_rest_vowel v : (v < 21)%nat → hangul_rest (Hangul.Pending_Vowel v) = vowel_strokes v.
Proof. intros. unfold hangul_rest. simpl. by rewrite app_nil_r, strokes_vowel. Qed.

Lemma committed_app a b : committed (a ++ b) = committed a ++ committed b.
Proof. induction a as [|[t|t] a IH]; simpl; rewrite ?IH, ?app_assoc; done. Qed.

Lemma commit_pending_jamo p : jamo (committed (Hangul.commit_pending p)) = hangul_rest p.
Proof.
  unfold Hangul.commit_pending, hangul_rest. destruct (Hangul.pending_text p); simpl;
    by rewrite ?app_nil_r.
Qed.

(** Committing what is pending and starting over keeps every stroke. *)
Lemma keeps_commit p q new :
  hangul_ok q → hangul_rest q = new → keeps (hangul_rest p ++ new) (q, Hangul.commit_pending p).
Proof. intros Hq <-. split; [done|]. cbn [fst snd]. by rewrite commit_pending_jamo. Qed.

Lemma keeps_silent q before : hangul_ok q → hangul_rest q = before → keeps before (q, []).
Proof. by intros Hq <-. Qed.

Lemma push_consonant_keeps p l :
  hangul_ok p → (l < 19)%nat →
  keeps (hangul_rest p ++ [Hangul.initial_char l])
    (Hangul.push_consonant p (Hangul.initial_char l) l).
Proof.
  intros Hp Hl. pose proof (final_index_strokes l Hl) as Hfin.
  pose proof (hangul_rest_initial l Hl) as Hrest.
  assert (keeps (hangul_rest p ++ [Hangul.initial_char l])
    (Hangul.Pending_Initial l, Hangul.commit_pending p)) as Hcommit by (by apply keeps_commit).
  destruct p as [|l0|v0|l0 v0 t0]; try exact Hcommit.
  destruct Hp as (Hl0 & Hv0 & Ht0). rewrite hangul_rest_syllable in * by done.
  destruct t0 as [|t0]; unfold Hangul.push_consonant;
    destruct (Hangul.final_index _) as [t|]; try exact Hcommit.
  - destruct Hfin as [Ht Hs]. apply keeps_silent; [done|].
    rewrite hangul_rest_syllable, Hs by done. simpl. by rewrite app_nil_r.
  - destruct Hfin as [Ht Hs]. unfold mbind, option_bind.
    destruct (Hangul.combine_final (S t0) t) as [t'|] eqn:E; [|exact Hcommit].
    apply combine_final_strokes in E as [Ht' Hs']. apply keeps_silent; [done|].
    rewrite hangul_rest_syllable, Hs', Hs by done. simpl. by rewrite <- app_assoc.
Qed.

Lemma push_vowel_keeps p v :
  hangul_ok p → (v < 21)%nat →
  keeps (hangul_rest p ++ vowel_strokes v) (Hangul.push_vowel p v).
Proof.
  intros Hp Hv. pose proof (hangul_rest_vowel v Hv) as Hrest.
  assert (keeps (hangul_rest p ++ vowel_strokes v)
    (Hangul.Pending_Vowel v, Hangul.commit_pending p)) as Hcommit by (by apply keeps_commit).
  destruct p as [|l0|v0|l0 v0 t0]; cbn [Hangul.push_vowel] in *.
  - by apply keeps_silent.
  - cbn [hangul_ok] in Hp. rewrite hangul_rest_initial by done.
    apply keeps_silent; [cbn [hangul_ok]; lia|].
    rewrite hangul_rest_syllable by lia. simpl. by rewrite app_nil_r.
  - destruct (Hangul.combine_vowel v0 v) as [v'|] eqn:E; [|exact Hcommit].
    apply combine_vowel_strokes in E as [Hv' Hs]. apply keeps_silent; [done|].
    rewrite (hangul_rest_vowel v0 Hp), (hangul_rest_vowel v' Hv'). exact Hs.
  - destruct Hp as (Hl0 & Hv0 & Ht0). destruct t0 as [|t0].
    + destruct (Hangul.combine_vowel v0 v) as [v'|] eqn:E; [|exact Hcommit].
      apply combine_vowel_strokes in E as [Hv' Hs]. apply keeps_silent; [simpl; lia|].
      rewrite !hangul_rest_syllable, Hs by lia. simpl. by rewrite !app_nil_r.
    + destruct (split_final_strokes t0 ltac:(lia)) as (Hr & Hm & Hs).
      destruct (Hangul.split_final (S t0)) as [r m]. cbn [fst snd] in *.
      split; cbn [fst snd hangul_ok]; [lia|].
      rewrite !hangul_rest_syllable, Hs by lia. cbn [committed jamo flat_map app].
      rewrite app_nil_r, strokes_syllable by lia. cbn. by rewrite app_nil_r, <- !app_assoc.
Qed.

Lemma keeps_preedit before r :
  keeps before r →
  keeps before (let '(p', actions) := r in (p', actions ++ [Preedit (Hangul.preedit_text p')])).
Proof.
  destruct r as [q a]. intros [Hq <-]. split; [done|]. cbn [fst snd].
  rewrite committed_app. simpl. by rewrite app_nil_r.
Qed.

Lemma push_char_keeps p c :
  hangul_ok p → keeps (hangul_rest p ++ hangul_strokes c) (Hangul.push_char p c).
Proof.
  intros Hp. unfold Hangul.push_char. apply keeps_preedit. destruct (Hangul.initial_index c) as [l|] eqn:El.
  { apply initial_index_some in El as [Hl ->]. rewrite strokes_initial by done.
    by apply push_consonant_keeps. }
  destruct (Hangul.vowel_index c) as [v|] eqn:Ev.
  { apply vowel_index_some in Ev as [Hv ->]. rewrite strokes_vowel by done.
    by apply push_vowel_keeps. }
  split; [done|]. cbn [fst snd]. rewrite committed_app, jamo_app, commit_pending_jamo.
  unfold hangul_rest at 2. simpl. by rewrite !app_nil_r.
Qed.

Lemma hangul_push_text_keeps p text :
  hangul_ok p → keeps (hangul_rest p ++ jamo text) (Hangul.push_text p text).
Proof.
  revert p. induction text as [|c text IH]; intros p Hp; cbn [Hangul.push_text].
  - split; [done|]. simpl. by rewrite app_nil_r.
  - destruct (push_char_keeps p c Hp) as [Hp1 Hk]. destruct (Hangul.push_char p c) as [p1 a1].
    destruct (IH p1 Hp1) as [Hp2 Hk2]. destruct (Hangul.push_text p1 text) as [p2 a2].
    split; [done|]. cbn [fst snd] in *. rewrite committed_app, jamo_app, <- app_assoc, Hk2.
    by rewrite app_assoc, Hk, <- app_assoc.
Qed.

Lemma hangul_flush_spec p :
  (Hangul.flush p).1 = Hangul.Pending_None ∧ jamo (committed (Hangul.flush p).2) = hangul_rest p.
Proof.
  unfold Hangul.flush, hangul_rest. destruct (Hangul.pending_text p); simpl; by rewrite ?app_nil_r.
Qed.

(** ** Kana *)

Definition kana_rest (p : option char) : list char := strokes (default [] (Kana.preedit_text p)).

Lemma strokes_one c : jamo [c] = [c] → strokes [c] = kana_strokes c.
Proof. unfold strokes. intros ->. simpl. by rewrite app_nil_r. Qed.

(** Every entry of the table puts base and mark together, stroke for stroke. *)
Lemma voicing_table_ok :
  Forall (λ '(b, v, s),
    (∀ o, v = Some o → strokes [o] = strokes [b] ++ [0x3099]) ∧
    (∀ o, s = Some o → strokes [o] = strokes [b] ++ [0x309A])) Kana.VOICING_TABLE.
Proof.
  unfold Kana.VOICING_TABLE.
  repeat (apply Forall_cons; split; [split; intros o [= <-]; vm_compute; reflexivity|]).
  by apply Forall_nil.
Qed.

Lemma apply_mark_strokes b m o :
  Kana.is_voicing_mark m = true → Kana.apply_mark b m = Some o → strokes [o] = strokes [b; m].
Proof.
  intros Hm Ho. change [b; m] with ([b] ++ [m]). rewrite strokes_app.
  unfold Kana.apply_mark, mbind, option_bind in Ho.
  destruct (find _ _) as [[[b' v] s]|] eqn:E; [|done].
  apply find_some in E as [Hin Hb]. apply Z.eqb_eq in Hb as ->.
  apply list_elem_of_In in Hin.
  pose proof (proj1 (Forall_forall _ _) voicing_table_ok _ Hin) as [Hv Hs].
  unfold Kana.is_voicing_mark in Hm. rewrite !orb_true_iff, !Z.eqb_eq in Hm.
  destruct Hm as [[[-> | ->]| ->]| ->]; [rewrite (Hv _ Ho)|rewrite (Hs _ Ho)|rewrite (Hv _ Ho)|rewrite (Hs _ Ho)];
    reflexivity.
Qed.

#[local] Arguments strokes : simpl never.
#[local] Arguments Kana.apply_mark : simpl never.
#[local] Arguments Kana.is_voicing_mark : simpl never.
#[local] Arguments Kana.is_kana_base : simpl never.

Lemma kana_push_char_keeps p c :
  strokes (committed (Kana.push_char p c).2) ++ kana_rest (Kana.push_char p c).1
  = kana_rest p ++ strokes [c].
Proof.
  unfold Kana.push_char, kana_rest. destruct (Kana.is_voicing_mark c) eqn:Hm.
  - destruct p as [b|]; cbn; [|by rewrite app_nil_r].
    destruct (Kana.apply_mark b c) as [o|] eqn:Ho; cbn.
    + rewrite app_nil_r, (apply_mark_strokes b c o Hm Ho).
      by rewrite <- strokes_app.
    + by rewrite app_nil_r, <- strokes_app.
  - destruct p as [b|], (Kana.is_kana_base c); cbn; try done;
      rewrite app_nil_r; try done; by rewrite <- strokes_app.
Qed.

Lemma kana_push_chars_keeps p text :
  strokes (committed (Kana.push_chars p text).2) ++ kana_rest (Kana.push_chars p text).1
  = kana_rest p ++ strokes text.
Proof.
  revert p. induction text as [|c text IH]; intros p; cbn [Kana.push_chars].
  - simpl. by rewrite app_nil_r.
  - pose proof (kana_push_char_keeps p c) as Hc. destruct (Kana.push_char p c) as [p1 a1].
    specialize (IH p1). destruct (Kana.push_chars p1 text) as [p2 a2]. cbn [fst snd] in *.
    change (c :: text) with ([c] ++ text).
    rewrite committed_app, !strokes_app, <- app_assoc, IH. by rewrite !app_assoc, Hc.
Qed.

(** ** The dispatcher *)

Definition rest_strokes (b : Input.Backend) : list char := strokes (default [] (pending_text b)).

Lemma rest_strokes_hangul c : rest_strokes (Input.Backend_Hangul c) = flat_map kana_strokes (hangul_rest c).
Proof. done. Qed.

Lemma input_flush_spec b :
  (Input.flush b).1 = Input.Backend_Idle ∧
  strokes (committed (Input.flush b).2) = rest_strokes b ∧
  ∀ s, s = pending_text b → shown s (Input.flush b).2 = None.
Proof.
  unfold Input.flush. cbn [fst snd]. destruct b as [|c|[c|]]; split_and!; try done; try by intros ? ->.
  - rewrite rest_strokes_hangul, <- (proj2 (hangul_flush_spec c)). done.
  - intros s ->. unfold pending_text, Hangul.flush, Hangul.preedit_text.
    by destruct (Hangul.pending_text c) eqn:E.
Qed.

Lemma switch_for_spec b text :
  composer_ok b →
  composer_ok (Input.switch_for b text).1 ∧
  strokes (committed (Input.switch_for b text).2) ++ rest_strokes (Input.switch_for b text).1
  = rest_strokes b ∧
  ∀ s, s = pending_text b →
    shown s (Input.switch_for b text).2 = pending_text (Input.switch_for b text).1.
Proof.
  intros Hb. unfold Input.switch_for. destruct (Input.backend_matches b (Input.detect text)); [done|].
  destruct (input_flush_spec b) as (_ & Hf & Hs). destruct (Input.flush b) as [b' a].
  cbn [fst snd] in *. rewrite <- Hf.
  destruct (Input.detect text); cbn; rewrite app_nil_r; auto.
Qed.

Lemma shown_app s a b : shown s (a ++ b) = shown (shown s a) b.
Proof. revert s. induction a as [|[t|t] a IH]; intros s; simpl; auto. Qed.

Lemma shown_preedit s (r : Hangul.Pending * list ComposerAction) :
  let r' := let '(p', actions) := r in (p', actions ++ [Preedit (Hangul.preedit_text p')]) in
  shown s r'.2 = Hangul.preedit_text r'.1.
Proof. destruct r as [p a]. cbn [fst snd]. by rewrite shown_app. Qed.

Lemma hangul_push_text_shown p text s :
  s = Hangul.preedit_text p →
  shown s (Hangul.push_text p text).2 = Hangul.preedit_text (Hangul.push_text p text).1.
Proof.
  revert p s. induction text as [|c text IH]; intros p s Hs; cbn [Hangul.push_text]; [done|].
  assert (∀ s, shown s (Hangul.push_char p c).2 = Hangul.preedit_text (Hangul.push_char p c).1) as Hc.
  { intros s'. apply (shown_preedit s'). }
  destruct (Hangul.push_char p c) as [p1 a1]. specialize (IH p1 _ eq_refl).
  destruct (Hangul.push_text p1 text) as [p2 a2]. cbn [fst snd] in *.
  by rewrite shown_app, Hc.
Qed.

Lemma kana_push_text_shown p text s :
  shown s (Kana.push_text p text).2 = Kana.preedit_text (Kana.push_text p text).1.
Proof.
  unfold Kana.push_text. destruct (Kana.push_chars p text). cbn [fst snd]. by rewrite shown_app.
Qed.

(** One push to the dispatcher: invariant, strokes and preedit. *)
Lemma input_push_text_spec b text :
  composer_ok b →
  composer_ok (Input.push_text b text).1 ∧
  strokes (committed (Input.push_text b text).2) ++ rest_strokes (Input.push_text b text).1
    = rest_strokes b ++ strokes text ∧
  shown (pending_text b) (Input.push_text b text).2 = pending_text (Input.push_text b text).1.
Proof.
  intros Hb. unfold Input.push_text. destruct text as [|x text]; [by rewrite app_nil_r|].
  set (t := x :: text). destruct (switch_for_spec b t Hb) as (Hok & Hs & Hsh).
  specialize (Hsh _ eq_refl). destruct (Input.switch_for b t) as [b1 a1]. cbn [fst snd] in *.
  destruct b1 as [|c|c].
  - cbn [fst snd]. rewrite committed_app, strokes_app, shown_app, Hsh.
    split_and!; [done| |done]. rewrite <- Hs. cbn [committed]. unfold rest_strokes; simpl.
    by rewrite !app_nil_r.
  - destruct (hangul_push_text_keeps c t Hok) as [Hok' Hk].
    pose proof (hangul_push_text_shown c t _ eq_refl) as Hps.
    destruct (Hangul.push_text c t) as [c' a]. cbn [fst snd] in *.
    rewrite committed_app, strokes_app, shown_app, Hsh, <- Hs.
    split_and!; [done| |done]. rewrite <- !app_assoc, !rest_strokes_hangul. f_equal.
    unfold strokes at 1 2. by rewrite <- !flat_map_app, Hk.
  - pose proof (kana_push_text_shown c t (Kana.preedit_text c)) as Hps.
    pose proof (kana_push_chars_keeps c t) as Hk. unfold Kana.push_text in *.
    destruct (Kana.push_chars c t) as [c' a]. cbn [fst snd] in *.
    rewrite !committed_app, !strokes_app, shown_app, Hsh, <- Hs.
    split_and!; [done| |done]. rewrite <- !app_assoc. f_equal.
    cbn [committed]. exact Hk.
Qed.

Lemma hangul_backspace_spec p :
  hangul_ok p →
  hangul_ok (Hangul.backspace p).1 ∧ committed (Hangul.backspace p).2 = [] ∧
  shown (Hangul.preedit_text p) (Hangul.backspace p).2 = Hangul.preedit_text (Hangul.backspace p).1 ∧
  ∃ lost, hangul_rest p = hangul_rest (Hangul.backspace p).1 ++ lost
          ∧ (p ≠ Hangul.Pending_None → lost ≠ []).
Proof.
  destruct p as [|l|v|l v [|t]]; intros Hp; cbn [Hangul.backspace fst snd]; split_and!;
    try done; try (by simpl in *; lia).
  - by exists [].
  - exists (hangul_rest (Hangul.Pending_Initial l)). by rewrite hangul_rest_initial.
  - exists (hangul_rest (Hangul.Pending_Vowel v)). rewrite hangul_rest_vowel by done.
    split; [done|]. intros _. by do 20 (destruct v as [|v]; [done|]).
  - destruct Hp as (Hl & Hv & Ht). exists (vowel_strokes v).
    rewrite hangul_rest_syllable, hangul_rest_initial by done. simpl.
    rewrite app_nil_r. split; [done|]. intros _. by do 20 (destruct v as [|v]; [done|]).
  - destruct Hp as (Hl & Hv & Ht). exists (final_strokes (S t)).
    rewrite !hangul_rest_syllable by lia. cbn [final_strokes app]. rewrite app_nil_r.
    split; [done|]. intros _. destruct (Hangul.split_final (S t)) as [r m].
    by intros [_ ?]%app_eq_nil.
Qed.

Lemma input_backspace_spec b :
  composer_ok b →
  composer_ok (Input.backspace b).1 ∧ committed (Input.backspace b).2 = [] ∧
  shown (pending_text b) (Input.backspace b).2 = pending_text (Input.backspace b).1 ∧
  ∃ lost, rest_strokes b = rest_strokes (Input.backspace b).1 ++ lost
          ∧ (Input.is_empty b = false → lost ≠ []).
Proof.
  destruct b as [|p|[c|]]; intros Hb; cbn [Input.backspace Kana.backspace fst snd].
  - split_and!; [done..|]. by exists [].
  - destruct (hangul_backspace_spec p Hb) as (H1 & H2 & H3 & lost & H4 & H5).
    destruct (Hangul.backspace p) as [p' a]. cbn [fst snd] in *. split_and!; [done..|].
    exists (flat_map kana_strokes lost). rewrite !rest_strokes_hangul, H4, flat_map_app.
    split; [done|]. intros Hp Hnil. assert (lost ≠ []) as Hl by (apply H5; by intros ->).
    destruct lost as [|x lost]; [done|]. simpl in Hnil. apply app_eq_nil in Hnil as [Hx _].
    unfold kana_strokes in Hx. by destruct (find _ _) as [[[? ?] ?]|].
  - split_and!; [done..|]. exists (rest_strokes (Input.Backend_Kana (Some c))).
    split; [done|]. intros _ Hnil. unfold rest_strokes, strokes, jamo in Hnil. simpl in Hnil.
    rewrite app_nil_r in Hnil.
    assert (hangul_strokes c ≠ []) as Hc.
    { unfold hangul_strokes. case_match; [done|].
      destruct (Hangul.vowel_index c) as [v|]; [|done]. by do 20 (destruct v as [|v]; [done|]). }
    destruct (hangul_strokes c) as [|x xs]; [done|]. simpl in Hnil.
    apply app_eq_nil in Hnil as [Hx _]. unfold kana_strokes in Hx.
    by destruct (find _ _) as [[[? ?] ?]|].
  - split_and!; [done..|]. by exists [].
Qed.

(** One operation of any kind. *)
Lemma run_op_spec b o :
  composer_ok b →
  composer_ok (run_op b o).1 ∧
  shown (pending_text b) (run_op b o).2 = pending_text (run_op b o).1 ∧
  (o ≠ Op_backspace →
   strokes (committed (run_op b o).2) ++ rest_strokes (run_op b o).1
   = rest_strokes b ++ strokes (pushed o)).
Proof.
  intros Hb. destruct o as [t| |]; cbn [run_op pushed].
  - destruct (input_push_text_spec b t Hb) as (? & ? & ?). auto.
  - destruct (input_flush_spec b) as (Hi & Hc & Hs). rewrite Hc, Hi, (Hs _ eq_refl).
    split_and!; done.
  - destruct (input_backspace_spec b Hb) as (? & _ & ? & _). split_and!; done.
Qed.

Lemma run_ops_spec b os :
  composer_ok b →
  composer_ok (run_ops b os).1 ∧
  shown (pending_text b) (run_ops b os).2 = pending_text (run_ops b os).1 ∧
  (Forall (λ o, o ≠ Op_backspace) os →
   strokes (committed (run_ops b os).2) ++ rest_strokes (run_ops b os).1
   = rest_strokes b ++ strokes (concat (pushed <$> os))).
Proof.
  revert b. induction os as [|o os IH]; intros b Hb; cbn [run_ops].
  - split_and!; [done..|]. intros _. simpl. by rewrite app_nil_r.
  - destruct (run_op_spec b o Hb) as (H1 & H2 & H3). destruct (run_op b o) as [b1 a1].
    cbn [fst snd] in *. destruct (IH b1 H1) as (I1 & I2 & I3).
    destruct (run_ops b1 os) as [b2 a2]. cbn [fst snd] in *.
    rewrite shown_app, H2. split_and!; [done..|]. intros [Ho Hos]%Forall_cons. csimpl.
    rewrite committed_app, !strokes_app, <- app_assoc, I3 by done.
    by rewrite !app_assoc, H3.
Qed.

(** Composition is lossless: whatever the host sends, in whatever pieces and across
    scripts, once the composer is flushed the guest has been sent exactly the strokes
    that came in, in the same order, regrouped into characters. *)
Theorem composer_lossless os :
  Forall (λ o, o ≠ Op_backspace) os →
  strokes (committed (run_ops Input.Backend_Idle (os ++ [Op_flush])).2)
  = strokes (concat (pushed <$> os)).
Proof.
  intros Hos.
  destruct (run_ops_spec Input.Backend_Idle (os ++ [Op_flush]) I) as (_ & _ & H).
  rewrite fmap_app, concat_app in H. csimpl in H. rewrite app_nil_r in H. cbn [app] in H.
  rewrite <- H by (apply Forall_app; by repeat constructor).
  enough ((run_ops Input.Backend_Idle (os ++ [Op_flush])).1 = Input.Backend_Idle) as ->
    by by rewrite app_nil_r.
  generalize Input.Backend_Idle at 1 as b. clear. induction os as [|o os IH]; intros b; [done|].
  cbn [run_ops app]. destruct (run_op b o) as [b1 a1]. specialize (IH b1).
  by destruct (run_ops b1 (os ++ [Op_flush])).
Qed.

Lemma composer_lossless_witness :
  strokes (committed (run_ops Input.Backend_Idle
    ([Op_push [0x3147; 0x314F; 0x3142; 0x3145]; Op_push [0x314F]; Op_push [0x304B; 0x3099]]
     ++ [Op_flush])).2)
  = strokes [0x3147; 0x314F; 0x3142; 0x3145; 0x314F; 0x304B; 0x3099].
Proof. apply composer_lossless. repeat constructor; discriminate. Defined.

(** The guest's preedit is the composer's: after any operations, backspaces included,
    what the last [Preedit] action left on the screen is the pending text, and the indices
    of a pending syllable are within the jamo tables. *)
Theorem composer_in_sync os :
  shown None (run_ops Input.Backend_Idle os).2 = pending_text (run_ops Input.Backend_Idle os).1
  ∧ composer_ok (run_ops Input.Backend_Idle os).1.
Proof. destruct (run_ops_spec Input.Backend_Idle os I) as (? & ? & _). done. Qed.

(** A backspace in any reachable state commits nothing, drops a nonempty tail of the
    pending strokes (all of it stays pending, the rest is gone) unless nothing is pending,
    and updates the preedit. *)
Theorem composer_backspace os :
  let b := (run_ops Input.Backend_Idle os).1 in
  let '(b', actions) := Input.backspace b in
  committed actions = [] ∧ shown (pending_text b) actions = pending_text b' ∧
  ∃ lost, rest_strokes b = rest_strokes b' ++ lost ∧ (Input.is_empty b = false → lost ≠ []).
Proof.
  intros b. destruct (run_ops_spec Input.Backend_Idle os I) as (Hok & _).
  destruct (input_backspace_spec b Hok) as (_ & ? & ? & ?).
  by destruct (Input.backspace b).
Qed.

(** What the jamo typed leave pending, and the text they commit. *)
Definition stroked (p : Hangul.Pending) (text : rstring) : Hangul.Pending * rstring :=
  let '(p', actions) := Hangul.push_text p text in (p', committed actions).

Lemma stroked_app p s t :
  stroked p (s ++ t) = (let '(p1, c1) := stroked p s in let '(p2, c2) := stroked p1 t in (p2, c1 ++ c2)).
Proof.
  unfold stroked. revert p. induction s as [|c s IH]; intros p; cbn [app Hangul.push_text].
  - by destruct (Hangul.push_text p t).
  - destruct (Hangul.push_char p c) as [p1 a1]. specialize (IH p1).
    destruct (Hangul.push_text p1 (s ++ t)), (Hangul.push_text p1 s) as [p2 a2].
    destruct (Hangul.push_text p2 t). injection IH as -> E. by rewrite !committed_app, E, app_assoc.
Qed.

Ltac by_cases := intros; repeat (match goal with H : (?i < S _)%nat |- _ =>
    destruct i as [|i]; [reflexivity|apply PeanoNat.Nat.succ_lt_mono in H] end); exfalso; lia.

Lemma stroked_initial l : (l < 19)%nat →
  stroked Hangul.Pending_None [Hangul.initial_char l] = (Hangul.Pending_Initial l, []).
Proof. by_cases. Qed.

Lemma stroked_vowel v : (v < 21)%nat → ∀ l,
  stroked (Hangul.Pending_Initial l) (vowel_strokes v) = (Hangul.Pending_Syllable l v 0, []).
Proof. by_cases. Qed.

Lemma stroked_final t : (t < 28)%nat → ∀ l v,
  stroked (Hangul.Pending_Syllable l v 0) (final_strokes t) = (Hangul.Pending_Syllable l v t, []).
Proof. by_cases. Qed.

Lemma stroked_syllable l v t : (l < 19)%nat → (v < 21)%nat → (t < 28)%nat →
  stroked Hangul.Pending_None (Hangul.initial_char l :: vowel_strokes v ++ final_strokes t)
  = (Hangul.Pending_Syllable l v t, []).
Proof.
  intros Hl Hv Ht. change (?a :: ?b) with ([a] ++ b).
  by rewrite stroked_app, stroked_initial, stroked_app, stroked_vowel, stroked_final.
Qed.

(** Jamo, from idle, go to the Hangul composer. *)
Lemma initial_jamo l : (l < 19)%nat → Hangul.is_compat_jamo (Hangul.initial_char l) = true.
Proof. by_cases. Qed.

Lemma vowel_jamo v : (v < 21)%nat → forallb Hangul.is_compat_jamo (vowel_strokes v) = true.
Proof. by_cases. Qed.

Lemma final_jamo t : (t < 28)%nat → forallb Hangul.is_compat_jamo (final_strokes t) = true.
Proof. by_cases. Qed.

Lemma syllable_jamo l v t : (l < 19)%nat → (v < 21)%nat → (t < 28)%nat →
  Hangul.can_compose (Hangul.initial_char l :: vowel_strokes v ++ final_strokes t) = true.
Proof.
  intros. unfold Hangul.can_compose. rewrite bool_decide_false by done. cbn [forallb negb andb].
  by rewrite initial_jamo, forallb_app, vowel_jamo, final_jamo.
Qed.

Lemma push_idle_jamo text :
  Hangul.can_compose text = true →
  Input.push_text Input.Backend_Idle text
  = (let '(p, a) := Hangul.push_text Hangul.Pending_None text in (Input.Backend_Hangul p, a)).
Proof.
  intros H. destruct text as [|c text]; [done|].
  unfold Input.push_text, Input.switch_for, Input.detect. rewrite H. cbn [Input.backend_matches Input.flush].
  by destruct (Hangul.push_text _ _).
Qed.

(** Each of the 11,172 precomposed syllables can be typed: fed its jamo, stroke by
    stroke, the composer commits that one syllable. *)
Theorem every_syllable_typable c :
  0xAC00 ≤ c ≤ 0xD7A3 →
  committed (run_ops Input.Backend_Idle [Op_push (hangul_strokes c); Op_flush]).2 = [c].
Proof.
  intros Hc. set (n := Z.to_nat (c - 0xAC00)).
  assert (n < Z.to_nat 11172)%nat as Hn by (unfold n; lia).
  assert (n / 588 < 19)%nat as Hl by (apply Nat.div_lt_upper_bound; lia).
  assert ((n / 28) mod 21 < 21)%nat as Hv by (apply Nat.mod_upper_bound; lia).
  assert (n mod 28 < 28)%nat as Ht by (apply Nat.mod_upper_bound; lia).
  assert (Hangul.compose_syllable (n / 588) ((n / 28) mod 21) (n mod 28) = c) as Ec.
  { destruct (compose_syllable_code _ _ _ Hl Hv Ht) as [-> _].
    replace (n / 588)%nat with (n / 28 / 21)%nat by (by rewrite Nat.Div0.div_div).
    rewrite (Nat.mul_comm _ 21), <- Nat.div_mod_eq, (Nat.mul_comm _ 28), <- Nat.div_mod_eq.
    unfold n. lia. }
  rewrite <- Ec at 1. rewrite strokes_syllable by done. cbn [run_ops run_op].
  rewrite push_idle_jamo by (by apply syllable_jamo).
  pose proof (stroked_syllable _ _ _ Hl Hv Ht) as Hst. unfold stroked in Hst.
  destruct (Hangul.push_text _ _) as [p' a]. injection Hst as -> Ha.
  cbn. rewrite committed_app, Ha. exact (f_equal (λ x, [x]) Ec).
Qed.

Lemma every_syllable_typable_witness :
  committed (run_ops Input.Backend_Idle [Op_push [0x3131; 0x314F; 0x3142; 0x3145]; Op_flush]).2
  = [0xAC12].
Proof. apply (every_syllable_typable 0xAC12). lia. Defined.

(** ** Emoji clusters *)

Definition ends_zwj (c : rstring) : bool := from_option Emoji.is_zwj false (last c).
Definition starts_continuation (c : rstring) : bool := from_option Emoji.is_continuation false (head c).

(** A cluster may be cut off between [c] and [c']: no join is left open at its end, and
    it is not the first half of a flag whose second half follows. *)
Definition cut_ok (c c' : rstring) : Prop :=
  ends_zwj c = false ∧
  ∀ a b, c = [a] → head c' = Some b →
    Emoji.is_regional_indicator a && Emoji.is_regional_indicator b = false.

Definition cuts_ok (l : list rstring) : Prop :=
  ∀ i c c', l !! i = Some c → l !! S i = Some c' → cut_ok c c'.

Definition lone_continuation (c : rstring) : Prop := ∃ x, c = [x] ∧ Emoji.is_continuation x = true.

(** The loop invariant, after the text [seen]. *)
Record splitter_ok (seen : rstring) (s : Emoji.splitter) : Prop := {
  splitter_seen : concat (Emoji.clusters s) ++ Emoji.current s = seen;
  splitter_expects : Emoji.expecting_continuation s = ends_zwj (Emoji.current s);
  splitter_shape : ∃ lones rest, Emoji.clusters s = lones ++ rest
    ∧ Forall lone_continuation lones
    ∧ (Emoji.current s = [] → rest = [])
    ∧ (Emoji.current s ≠ [] →
       Forall (λ c, c ≠ [] ∧ starts_continuation c = false) (rest ++ [Emoji.current s])
       ∧ cuts_ok (rest ++ [Emoji.current s]))
}.

Lemma cuts_ok_snoc l c c' : cuts_ok (l ++ [c]) → cut_ok c c' → cuts_ok ((l ++ [c]) ++ [c']).
Proof.
  intros Hl Hc i a b Ha Hb. apply lookup_app_Some in Hb as [Hb|[Hge Hb]].
  - apply (Hl i); [|done]. apply lookup_app_Some in Ha as [Ha|[Hge Ha]]; [done|].
    apply lookup_lt_Some in Hb. rewrite length_app in Hge. simpl in *. rewrite length_app in Hb.
    simpl in *. lia.
  - apply list_lookup_singleton_Some in Hb as [Hi <-].
    rewrite lookup_app_l in Ha by lia. rewrite length_app in *. simpl in *.
    rewrite lookup_app_r in Ha by lia. replace (i - length l)%nat with 0%nat in Ha by lia.
    by injection Ha as <-.
Qed.

Lemma cuts_ok_grow l c ch : c ≠ [] → cuts_ok (l ++ [c]) → cuts_ok (l ++ [c ++ [ch]]).
Proof.
  intros Hne Hl i a b Ha Hb. apply lookup_app_Some in Hb as [Hb|[Hge Hb]].
  - apply (Hl i); [|by apply lookup_app_l_Some].
    pose proof (lookup_lt_Some _ _ _ Hb). rewrite lookup_app_l in * by lia. done.
  - apply list_lookup_singleton_Some in Hb as [Hi <-].
    rewrite lookup_app_l in Ha by lia.
    destruct (Hl i a c) as [H1 H2]; [by apply lookup_app_l_Some|
      rewrite lookup_app_r by lia; by replace (S i - length l)%nat with 0%nat by lia|].
    split; [done|]. intros x y -> Hy. apply (H2 x y); [done|]. by destruct c.
Qed.

Lemma ends_zwj_snoc c ch : ends_zwj (c ++ [ch]) = Emoji.is_zwj ch.
Proof. unfold ends_zwj. by rewrite last_snoc. Qed.

Lemma zwj_continuation ch : Emoji.is_continuation ch = false → Emoji.is_zwj ch = false.
Proof. unfold Emoji.is_continuation. by rewrite !orb_false_iff; intros [[? _] _]. Qed.

Lemma split_step_ok seen s ch :
  splitter_ok seen s → splitter_ok (seen ++ [ch]) (Emoji.split_step s ch).
Proof.
  intros [Hseen Hexp (lones & rest & Hcl & Hlone & Hnil & Hcur)]. unfold Emoji.split_step.
  destruct s as [cl cur ex]. cbn [Emoji.clusters Emoji.current Emoji.expecting_continuation] in *.
  assert (∀ e, cur ≠ [] → e = Emoji.is_zwj ch → splitter_ok (seen ++ [ch])
    (Emoji.mkSplitter cl (cur ++ [ch]) e)) as Hgrow.
  { intros e Hne ->. destruct (Hcur Hne) as [Hall Hcuts].
    apply Forall_app in Hall as [Hr Hc]. apply Forall_singleton in Hc as [_ Hc].
    split; cbn [Emoji.clusters Emoji.current Emoji.expecting_continuation].
    - by rewrite app_assoc, Hseen.
    - by rewrite ends_zwj_snoc.
    - exists lones, rest. split_and!; try done; [by destruct cur|]. intros _.
      split; [|by apply cuts_ok_grow]. apply Forall_app. split; [done|].
      apply Forall_singleton. by destruct cur. }
  destruct (Emoji.is_continuation ch) eqn:Hch.
  - case_bool_decide as Hne; [|by apply Hgrow]. subst cur. rewrite (Hnil eq_refl) in *.
    split; cbn [Emoji.clusters Emoji.current Emoji.expecting_continuation].
    + rewrite concat_app. simpl. by rewrite !app_nil_r in *; rewrite Hseen.
    + done.
    + exists (lones ++ [[ch]]), []. rewrite Hcl, !app_nil_r. split_and!; try done.
      apply Forall_app. split; [done|]. apply Forall_singleton. by exists ch.
  - pose proof (zwj_continuation ch Hch) as Hz. destruct ex.
    { apply Hgrow; [|done]. intros ->. done. }
    destruct (Emoji.joins_flag cur ch) eqn:Hj.
    { apply Hgrow; [|done]. intros ->. done. }
    assert (∀ l, Forall (λ c, c ≠ [] ∧ starts_continuation c = false) l →
      Forall (λ c, c ≠ [] ∧ starts_continuation c = false) (l ++ [[ch]])) as Hall'.
    { intros l Hl. apply Forall_app. split; [done|]. by apply Forall_singleton. }
    split; cbn [Emoji.clusters Emoji.current Emoji.expecting_continuation].
    + rewrite <- Hseen. case_bool_decide as Hne; [subst; by rewrite app_nil_r|].
      rewrite concat_app. simpl. by rewrite app_nil_r.
    + unfold ends_zwj. simpl. by rewrite Hz.
    + case_bool_decide as Hne.
      * exists lones, []. rewrite Hcl, (Hnil Hne). split_and!; try done. intros _.
        split; [by apply (Hall' [])|]. by intros [|i] c c' _.
      * exists lones, (rest ++ [cur]). rewrite Hcl, <- app_assoc. split_and!; try done. intros _.
        destruct (Hcur Hne) as [Hall Hcuts]. split; [by apply Hall'|].
        apply cuts_ok_snoc; [done|]. split; [done|]. intros a b -> [= <-].
        unfold Emoji.joins_flag in Hj. simpl in Hj.
        by destruct (Emoji.is_regional_indicator a), (Emoji.is_regional_indicator ch).
Qed.

Lemma split_fold_ok text seen s :
  splitter_ok seen s → splitter_ok (seen ++ text) (fold_left Emoji.split_step text s).
Proof.
  revert seen s. induction text as [|ch text IH]; intros seen s Hs; simpl; [by rewrite app_nil_r|].
  change (ch :: text) with ([ch] ++ text). rewrite app_assoc. by apply IH, split_step_ok.
Qed.

(** Splitting a picker emission into clusters loses nothing and never cuts inside a
    glyph: the clusters concatenate to the text; after a run of lone continuation marks
    at the very start, every cluster is nonempty and begins with a base character, no
    cluster ends in an open ZWJ join unless it is the last, and no flag is cut in two. *)
Theorem split_clusters_sound text :
  concat (Emoji.split_clusters text) = text ∧
  ∃ lones rest, Emoji.split_clusters text = lones ++ rest
    ∧ Forall lone_continuation lones
    ∧ Forall (λ c, c ≠ [] ∧ starts_continuation c = false) rest
    ∧ cuts_ok rest.
Proof.
  assert (splitter_ok text (fold_left Emoji.split_step text (Emoji.mkSplitter [] [] false))) as H.
  { apply (split_fold_ok text []). split; [done..|]. exists [], []. split_and!; done. }
  unfold Emoji.split_clusters, Emoji.split_done.
  set (s := fold_left _ _ _) in *. destruct H as [Hseen _ (lones & rest & Hcl & Hlone & Hnil & Hcur)].
  rewrite <- Hseen, Hcl. case_bool_decide as Hne.
  - rewrite (Hnil Hne), Hne, !app_nil_r. split; [done|]. exists lones, [].
    rewrite app_nil_r. split_and!; try done.
  - rewrite !concat_app. simpl. rewrite app_nil_r. split; [by rewrite <- ?app_assoc|].
    exists lones, (rest ++ [Emoji.current s]). destruct (Hcur Hne). by rewrite <- app_assoc.
Qed.
