(* ===== verification/Frame.v ===== *)
(** * The viewer's frame buffer (crates/client/src/viewer/frame.rs)

    Pixels are u32 values, tiles are blitted into a row-major plane, the content rectangle
    is recomputed after every tile, and the plane is scaled into the window.  u32
    multiplications and additions that the code does unchecked wrap; a slice index out of
    range panics, which is [None] here (and [Err Tile_panic] for [apply_tile]). *)

From S2P Require Import Prelude Wire.

Definition wrap32 (z : Z) : Z := z mod 4294967296.

(** Indexing a slice. *)
Definition px_at (pixels : list Z) (i : Z) : option Z := pixels !! Z.to_nat i.
Definition byte_at (bytes : list byte) (i : Z) : option Z := byte_to_Z <$> bytes !! Z.to_nat i.

(** Assignment through an index. *)
Definition px_set (pixels : list Z) (i v : Z) : option (list Z) :=
  if (Z.to_nat i <? length pixels)%nat then Some (<[Z.to_nat i := v]> pixels) else None.

(** ** Pixels *)

Definition DARK_MATTE_PIXEL : Z := 0x00181818.
Definition DEFAULT_MATTE_PIXEL : Z := DARK_MATTE_PIXEL.
Definition TRANSPARENT_PIXEL : Z := 0.
Definition VISIBLE_ALPHA_THRESHOLD : Z := 48.
Definition CONTENT_EDGE_TRIM_PX : Z := 0.

Definition rgba_to_pixel (r g b a : Z) : Z :=
  Z.lor (Z.lor (Z.lor (Z.shiftl (Z.land a 0xff) 24) (Z.shiftl (Z.land r 0xff) 16))
    (Z.shiftl (Z.land g 0xff) 8)) (Z.land b 0xff).

Definition rgb_to_pixel (r g b : Z) : Z :=
  Z.lor (Z.lor (Z.shiftl (Z.land r 0xff) 16) (Z.shiftl (Z.land g 0xff) 8)) (Z.land b 0xff).

Definition pixel_alpha (pixel : Z) : Z := Z.land (Z.shiftr pixel 24) 0xff.
Definition pixel_r (pixel : Z) : Z := Z.land (Z.shiftr pixel 16) 0xff.
Definition pixel_g (pixel : Z) : Z := Z.land (Z.shiftr pixel 8) 0xff.
Definition pixel_b (pixel : Z) : Z := Z.land pixel 0xff.

Definition opaque_softbuffer_pixel (pixel : Z) : Z := Z.lor 0xff000000 (Z.land pixel 0x00ffffff).

Definition pixel_for_softbuffer (pixel matte : Z) : Z :=
  let a := pixel_alpha pixel in
  if 255 <=? a then opaque_softbuffer_pixel pixel
  else if a <? VISIBLE_ALPHA_THRESHOLD then opaque_softbuffer_pixel matte
  else
    let matte_r := Z.land (Z.shiftr matte 16) 0xff in
    let matte_g := Z.land (Z.shiftr matte 8) 0xff in
    let matte_b := Z.land matte 0xff in
    let r := (pixel_r pixel * a + matte_r * (255 - a)) / 255 in
    let g := (pixel_g pixel * a + matte_g * (255 - a)) / 255 in
    let b := (pixel_b pixel * a + matte_b * (255 - a)) / 255 in
    opaque_softbuffer_pixel (rgb_to_pixel r g b).

(** ** Rectangles *)

Record FrameRect := mkFrameRect { fr_x : Z; fr_y : Z; fr_w : Z; fr_h : Z }.

Definition FrameRect_new (x y w h : Z) : FrameRect := mkFrameRect x y (Z.max w 1) (Z.max h 1).

Definition trim_content_rect (rect : FrameRect) : FrameRect :=
  let trim := CONTENT_EDGE_TRIM_PX in
  if (fr_w rect <=? trim * 2) || (fr_h rect <=? trim * 2) then rect
  else FrameRect_new (fr_x rect + trim) (fr_y rect + trim) (fr_w rect - trim * 2) (fr_h rect - trim * 2).

(** ** Uniform padding *)

Definition UNIFORM_PADDING_MIN_RUN : Z := 16.
Definition PADDING_COLOR_TOLERANCE : Z := 12.
Definition PADDING_OUTLIER_RATIO : Z := 20.

Definition pixel_distance (a b : Z) : Z :=
  Z.abs (pixel_r a - pixel_r b) + Z.abs (pixel_g a - pixel_g b) + Z.abs (pixel_b a - pixel_b b).

(** The outlier loop of [is_uniform_row] and [is_uniform_col]: [n] more pixels from
    [pos], each read by [at_]. *)
Fixpoint few_outliers (at_ : Z → option Z) (first allow : Z) (n : nat) (pos outliers : Z) : option bool :=
  match n with
  | O => Some true
  | S n' =>
      p ← at_ pos;
      if PADDING_COLOR_TOLERANCE <? pixel_distance p first then
        if allow <? outliers + 1 then Some false
        else few_outliers at_ first allow n' (pos + 1) (outliers + 1)
      else few_outliers at_ first allow n' (pos + 1) outliers
  end.

Definition is_uniform_row (pixels : list Z) (stride y x_start x_end : Z) : option bool :=
  if x_end <=? x_start then Some true else
  let row := wrap32 (y * stride) in
  first ← px_at pixels (row + x_start);
  let width := x_end - x_start in
  let allow := Z.max (width / PADDING_OUTLIER_RATIO) 1 in
  few_outliers (λ x, px_at pixels (row + x)) first allow (Z.to_nat (x_end - (x_start + 1))) (x_start + 1) 0.

Definition is_uniform_col (pixels : list Z) (stride x y_start y_end : Z) : option bool :=
  if y_end <=? y_start then Some true else
  first ← px_at pixels (wrap32 (y_start * stride) + x);
  let height := y_end - y_start in
  let allow := Z.max (height / PADDING_OUTLIER_RATIO) 1 in
  few_outliers (λ y, px_at pixels (wrap32 (y * stride) + x)) first allow
    (Z.to_nat (y_end - (y_start + 1))) (y_start + 1) 0.

(** The loop [while hi > lo + 1 { if !uniform(hi - 1) { break } hi -= 1; run += 1 }] and the
    loop [while lo + 1 < hi { if !uniform(lo) { break } lo += 1; run += 1 }]; [fuel] is the
    distance of the two edges. *)
Fixpoint shrink_high (uniform : Z → option bool) (fuel : nat) (lo hi run : Z) : option (Z * Z) :=
  match fuel with
  | O => Some (hi, run)
  | S fuel' =>
      if lo + 1 <? hi then
        u ← uniform (hi - 1);
        if negb u then Some (hi, run) else shrink_high uniform fuel' lo (hi - 1) (run + 1)
      else Some (hi, run)
  end.

Fixpoint shrink_low (uniform : Z → option bool) (fuel : nat) (lo hi run : Z) : option (Z * Z) :=
  match fuel with
  | O => Some (lo, run)
  | S fuel' =>
      if lo + 1 <? hi then
        u ← uniform lo;
        if negb u then Some (lo, run) else shrink_low uniform fuel' (lo + 1) hi (run + 1)
      else Some (lo, run)
  end.

(** A run too short to be padding is given back. *)
Definition trim_high (uniform : Z → option bool) (lo hi : Z) : option Z :=
  '(hi', run) ← shrink_high uniform (Z.to_nat (hi - lo)) lo hi 0;
  Some (if run <? UNIFORM_PADDING_MIN_RUN then hi' + run else hi').

Definition trim_low (uniform : Z → option bool) (lo hi : Z) : option Z :=
  '(lo', run) ← shrink_low uniform (Z.to_nat (hi - lo)) lo hi 0;
  Some (if run <? UNIFORM_PADDING_MIN_RUN then lo' - run else lo').

Definition trim_uniform_padding (pixels : list Z) (stride : Z) (rect : FrameRect) : option FrameRect :=
  let top := fr_y rect in
  let bottom := fr_y rect + fr_h rect in
  let left := fr_x rect in
  let right := fr_x rect + fr_w rect in
  bottom ← trim_high (λ y, is_uniform_row pixels stride y left right) top bottom;
  top ← trim_low (λ y, is_uniform_row pixels stride y left right) top bottom;
  right ← trim_high (λ x, is_uniform_col pixels stride x top bottom) left right;
  left ← trim_low (λ x, is_uniform_col pixels stride x top bottom) left right;
  Some (FrameRect_new left top (right - left) (bottom - top)).

(** ** The buffer *)

Record FrameBuffer := mkFrameBuffer {
  fb_width : Z; fb_height : Z; fb_pixels : list Z; fb_content : FrameRect; fb_matte : Z
}.

Definition display_size (fb : FrameBuffer) : Z * Z :=
  (Z.max (fr_w (fb_content fb)) 1, Z.max (fr_h (fb_content fb)) 1).

Definition blank (width height : Z) : list Z :=
  replicate (Z.to_nat width * Z.to_nat height) TRANSPARENT_PIXEL.

(** [dst[off .. off + src.len()].copy_from_slice(src)] *)
Definition copy_row (dst : list Z) (off : nat) (src : list Z) : option (list Z) :=
  if (off + length src <=? length dst)%nat
  then Some (take off dst ++ src ++ drop (off + length src) dst) else None.

Definition slice (l : list Z) (off n : nat) : option (list Z) :=
  if (off + n <=? length l)%nat then Some (take n (drop off l)) else None.

Definition replace_buffer_preserving_pixels (fb : FrameBuffer) (width height : Z) : option FrameBuffer :=
  let copy_w := Z.to_nat (Z.min (fb_width fb) width) in
  let copy_h := Z.to_nat (Z.min (fb_height fb) height) in
  pixels ← for_range copy_h (λ y dst,
             src ← slice (fb_pixels fb) (y * Z.to_nat (fb_width fb)) copy_w;
             copy_row dst (y * Z.to_nat width) src) (blank width height);
  Some (mkFrameBuffer width height pixels (fb_content fb) (fb_matte fb)).

Definition replace_buffer_clearing (fb : FrameBuffer) (width height : Z) : FrameBuffer :=
  mkFrameBuffer width height (blank width height) (fb_content fb) (fb_matte fb).

Definition set_content (fb : FrameBuffer) (r : FrameRect) : FrameBuffer :=
  mkFrameBuffer (fb_width fb) (fb_height fb) (fb_pixels fb) r (fb_matte fb).

Definition same_size (fb : FrameBuffer) (width height : Z) : bool :=
  (fb_width fb =? width) && (fb_height fb =? height).

Definition resize (fb : FrameBuffer) (width height : Z) : option FrameBuffer :=
  if same_size fb width height then Some fb else
  fb' ← replace_buffer_preserving_pixels fb width height;
  Some (set_content fb' (FrameRect_new 0 0 (Z.max width 1) (Z.max height 1))).

Definition FrameBuffer_new (width height : Z) : option FrameBuffer :=
  resize (mkFrameBuffer 0 0 [] (FrameRect_new 0 0 1 1) DEFAULT_MATTE_PIXEL) width height.

Definition resize_for_remote_size (fb : FrameBuffer) (width height : Z) : option FrameBuffer :=
  if same_size fb width height then Some fb else
  let shrinks := (width <? fb_width fb) || (height <? fb_height fb) in
  fb' ← (if shrinks then Some (replace_buffer_clearing fb width height)
         else replace_buffer_preserving_pixels fb width height);
  Some (set_content fb' (FrameRect_new 0 0 (Z.max width 1) (Z.max height 1))).

Definition grow_preserving_pixels (fb : FrameBuffer) (width height : Z) : option FrameBuffer :=
  if same_size fb width height then Some fb else replace_buffer_preserving_pixels fb width height.

(** The accumulators of [update_content_rect]. *)
Record bounds := mkBounds {
  min_x : Z; min_y : Z; max_x : Z; max_y : Z; r_sum : Z; g_sum : Z; b_sum : Z; count : Z
}.

Definition visit_pixel (b : bounds) (x y pixel : Z) : bounds :=
  if pixel_alpha pixel <? VISIBLE_ALPHA_THRESHOLD then b else
  mkBounds (Z.min (min_x b) x) (Z.min (min_y b) y) (Z.max (max_x b) x) (Z.max (max_y b) y)
    (r_sum b + pixel_r pixel) (g_sum b + pixel_g pixel) (b_sum b + pixel_b pixel) (count b + 1).

Definition scan_pixels (fb : FrameBuffer) : option bounds :=
  for_range (Z.to_nat (fb_height fb)) (λ y,
    for_range (Z.to_nat (fb_width fb)) (λ x b,
      pixel ← px_at (fb_pixels fb) (Z.of_nat y * fb_width fb + Z.of_nat x);
      Some (visit_pixel b (Z.of_nat x) (Z.of_nat y) pixel)))
    (mkBounds (fb_width fb) (fb_height fb) 0 0 0 0 0 0).

Definition update_content_rect (fb : FrameBuffer) : option FrameBuffer :=
  b ← scan_pixels fb;
  if count b =? 0 then
    Some (mkFrameBuffer (fb_width fb) (fb_height fb) (fb_pixels fb)
            (FrameRect_new 0 0 (Z.max (fb_width fb) 1) (Z.max (fb_height fb) 1)) DEFAULT_MATTE_PIXEL)
  else
    let alpha_rect := trim_content_rect (FrameRect_new (min_x b) (min_y b)
                        (max_x b - min_x b + 1) (max_y b - min_y b + 1)) in
    content ← trim_uniform_padding (fb_pixels fb) (fb_width fb) alpha_rect;
    Some (mkFrameBuffer (fb_width fb) (fb_height fb) (fb_pixels fb) content
            (rgb_to_pixel (r_sum b / count b) (g_sum b / count b) (b_sum b / count b))).

Inductive tile_error :=
  | Tile_unsupported_encoding (e : PixelEncoding)
  | Tile_stride_overflow
  | Tile_short_stride (stride minimum : Z)
  | Tile_length_overflow
  | Tile_short_bytes (len needed : Z)
  | Tile_panic.

(** One cell of the copy loop of [apply_tile]. *)
Definition apply_pixel (tile : FrameTile) (width : Z) (row col : nat) (pixels : list Z) : option (list Z) :=
  let src := wrap32 (Z.of_nat row * tile_stride tile) + wrap32 (Z.of_nat col * 4) in
  let dst := wrap32 ((tile_y tile + Z.of_nat row) * width + tile_x tile) + Z.of_nat col in
  r ← byte_at (tile_bytes tile) src;
  g ← byte_at (tile_bytes tile) (src + 1);
  b ← byte_at (tile_bytes tile) (src + 2);
  a ← byte_at (tile_bytes tile) (src + 3);
  if a <? VISIBLE_ALPHA_THRESHOLD then Some pixels
  else px_set pixels dst (rgba_to_pixel r g b a).

(** The tests before the buffer is touched. *)
Definition check_tile (tile : FrameTile) : result tile_error unit :=
  ensure (bool_decide (tile_encoding tile = RawRgba)) (Tile_unsupported_encoding (tile_encoding tile)) ≫= λ _,
  min_stride ← ok_or Tile_stride_overflow (checked u32_max (tile_w tile * 4));
  ensure (min_stride <=? tile_stride tile) (Tile_short_stride (tile_stride tile) min_stride) ≫= λ _,
  needed ← ok_or Tile_length_overflow (checked u32_max (tile_stride tile * tile_h tile));
  let len := Z.of_nat (length (tile_bytes tile)) in
  ensure (needed <=? len) (Tile_short_bytes len needed).

(** The extent of the buffer that takes a tile in. *)
Definition grown_width (fb : FrameBuffer) (tile : FrameTile) : Z :=
  Z.max (Z.max (fb_width fb) (sat_add u32_max (tile_x tile) (tile_w tile))) 1.
Definition grown_height (fb : FrameBuffer) (tile : FrameTile) : Z :=
  Z.max (Z.max (fb_height fb) (sat_add u32_max (tile_y tile) (tile_h tile))) 1.

Definition apply_tile (fb : FrameBuffer) (tile : FrameTile) : result tile_error (FrameBuffer * bool) :=
  _ ← check_tile tile;
  let old_display_size := display_size fb in
  ok_or Tile_panic (
    fb1 ← grow_preserving_pixels fb (grown_width fb tile) (grown_height fb tile);
    pixels ← for_range (Z.to_nat (tile_h tile)) (λ row,
               for_range (Z.to_nat (tile_w tile)) (λ col, apply_pixel tile (fb_width fb1) row col))
               (fb_pixels fb1);
    fb2 ← update_content_rect
            (mkFrameBuffer (fb_width fb1) (fb_height fb1) pixels (fb_content fb1) (fb_matte fb1));
    Some (fb2, bool_decide (old_display_size ≠ display_size fb2))).

(** ** Rendering *)

Record RenderRect := mkRenderRect { rr_x : Z; rr_y : Z; rr_w : Z; rr_h : Z }.

Definition aspect_fit_rect (src_width src_height dst_width dst_height : Z) : RenderRect :=
  let src_width := Z.max src_width 1 in
  let src_height := Z.max src_height 1 in
  let dst_width_u64 := Z.max dst_width 1 in
  let dst_height_u64 := Z.max dst_height 1 in
  let '(width, height) :=
    if dst_width_u64 * src_height <? src_width * dst_height_u64 then
      let width := dst_width_u64 in
      let height := Z.max ((dst_width_u64 * src_height + src_width / 2) / src_width) 1 in
      (width, Z.min height dst_height_u64)
    else
      let height := dst_height_u64 in
      let width := Z.max ((dst_height_u64 * src_width + src_height / 2) / src_height) 1 in
      (Z.min width dst_width_u64, height) in
  mkRenderRect ((dst_width_u64 - width) / 2) ((dst_height_u64 - height) / 2) width height.

(** The source pixel of cell [(y, x)] of the render rectangle, and where it goes. *)
Definition scaled_src (region : FrameRect) (src_width : Z) (render : RenderRect) (y x : nat) : Z :=
  let src_y := fr_y region + Z.of_nat y * fr_h region / rr_h render in
  let src_x := fr_x region + Z.of_nat x * fr_w region / rr_w render in
  src_y * src_width + src_x.

Definition scaled_dst (dst_width : Z) (render : RenderRect) (y x : nat) : Z :=
  (rr_y render + Z.of_nat y) * dst_width + rr_x render + Z.of_nat x.

Definition copy_scaled_frame_region_into_rect (src : list Z) (src_width : Z) (region : FrameRect)
    (matte : Z) (dst : list Z) (dst_width : Z) (render : RenderRect) : option (list Z) :=
  for_range (Z.to_nat (rr_h render)) (λ y,
    for_range (Z.to_nat (rr_w render)) (λ x dst,
      p ← px_at src (scaled_src region src_width render y x);
      px_set dst (scaled_dst dst_width render y x) (pixel_for_softbuffer p matte))) dst.

Definition copy_frame_region_preserve_aspect (src : list Z) (src_width : Z) (region : FrameRect)
    (matte : Z) (dst : list Z) (dst_width dst_height : Z) : option (list Z) :=
  let dst := replicate (length dst) (opaque_softbuffer_pixel matte) in
  let render := aspect_fit_rect (fr_w region) (fr_h region) dst_width dst_height in
  copy_scaled_frame_region_into_rect src src_width region matte dst dst_width render.

(** ** Specification notions *)

(** A buffer has one pixel per position; its content rectangle is a nonempty part of it. *)
Definition rect_in (r : FrameRect) (w h : Z) : Prop :=
  0 ≤ fr_x r ∧ 0 ≤ fr_y r ∧ 1 ≤ fr_w r ∧ 1 ≤ fr_h r ∧ fr_x r + fr_w r ≤ w ∧ fr_y r + fr_h r ≤ h.

Record fb_ok (fb : FrameBuffer) : Prop := {
  fb_ok_width : 0 ≤ fb_width fb;
  fb_ok_height : 0 ≤ fb_height fb;
  fb_ok_pixels : Z.of_nat (length (fb_pixels fb)) = fb_width fb * fb_height fb;
  fb_ok_content : rect_in (fb_content fb) (Z.max (fb_width fb) 1) (Z.max (fb_height fb) 1)
}.

(** The pixel at column [x] of row [y]. *)
Definition pixel_at (fb : FrameBuffer) (x y : Z) : option Z :=
  if (0 <=? x) && (x <? fb_width fb) && (0 <=? y) && (y <? fb_height fb)
  then px_at (fb_pixels fb) (y * fb_width fb + x) else None.

(** What a tile has to say about a position of the buffer. *)
Definition tile_pixel (tile : FrameTile) (x y : Z) : option Z :=
  if (tile_x tile <=? x) && (x <? tile_x tile + tile_w tile)
     && (tile_y tile <=? y) && (y <? tile_y tile + tile_h tile) then
    let src := (y - tile_y tile) * tile_stride tile + (x - tile_x tile) * 4 in
    let ch i := default 0 (byte_at (tile_bytes tile) (src + i)) in
    if ch 3 <? VISIBLE_ALPHA_THRESHOLD then None else Some (rgba_to_pixel (ch 0) (ch 1) (ch 2) (ch 3))
  else None.

(** The fields of a tile are unsigned. *)
Definition tile_u32 (tile : FrameTile) : Prop :=
  is_u32 (tile_x tile) ∧ is_u32 (tile_y tile) ∧ is_u32 (tile_w tile) ∧ is_u32 (tile_h tile)
  ∧ is_u32 (tile_stride tile).

(** ** Lemmas: channels *)

Lemma lor_shiftl_add x y n : 0 ≤ n → 0 ≤ y < 2 ^ n → Z.lor (Z.shiftl x n) y = x * 2 ^ n + y.
Proof.
  intros Hn Hy. rewrite <- Z.shiftl_mul_pow2 by done.
  assert (Z.land (Z.shiftl x n) y = 0) as H0.
  { apply Z.bits_inj'. intros i Hi. rewrite Z.land_spec, Z.bits_0.
    destruct (Z.lt_ge_cases i n).
    - by rewrite Z.shiftl_spec_low.
    - rewrite <- (Z.mod_small y (2 ^ n)) by done.
      by rewrite Z.mod_pow2_bits_high, andb_false_r by lia. }
  rewrite <- Z.lxor_lor by done. symmetry. by apply Z.add_nocarry_lxor.
Qed.

Lemma land_255 z : Z.land z 0xff = z mod 256.
Proof. change 255 with (Z.ones 8). by rewrite Z.land_ones. Qed.

Lemma lor_8 x y : 0 ≤ y < 256 → Z.lor (Z.shiftl x 8) y = x * 256 + y.
Proof. intros. by apply (lor_shiftl_add x y 8). Qed.
Lemma lor_16 x y : 0 ≤ y < 65536 → Z.lor (Z.shiftl x 16) y = x * 65536 + y.
Proof. intros. by apply (lor_shiftl_add x y 16). Qed.
Lemma lor_24 x y : 0 ≤ y < 16777216 → Z.lor (Z.shiftl x 24) y = x * 16777216 + y.
Proof. intros. by apply (lor_shiftl_add x y 24). Qed.

Lemma rgb_to_pixel_value r g b :
  rgb_to_pixel r g b = (r mod 256) * 65536 + (g mod 256) * 256 + b mod 256.
Proof.
  unfold rgb_to_pixel. rewrite !land_255, <- !Z.lor_assoc.
  rewrite lor_8, lor_16 by div_lia. lia.
Qed.

Lemma rgba_to_pixel_value r g b a :
  rgba_to_pixel r g b a
  = (a mod 256) * 16777216 + (r mod 256) * 65536 + (g mod 256) * 256 + b mod 256.
Proof.
  unfold rgba_to_pixel. rewrite !land_255, <- !Z.lor_assoc.
  rewrite lor_8, lor_16, lor_24 by div_lia. lia.
Qed.

Lemma channel_value p n : 0 ≤ n → Z.land (Z.shiftr p n) 0xff = (p / 2 ^ n) mod 256.
Proof. intros. by rewrite land_255, Z.shiftr_div_pow2. Qed.

Lemma channel_range p :
  0 ≤ pixel_alpha p ≤ 255 ∧ 0 ≤ pixel_r p ≤ 255 ∧ 0 ≤ pixel_g p ≤ 255 ∧ 0 ≤ pixel_b p ≤ 255.
Proof. unfold pixel_alpha, pixel_r, pixel_g, pixel_b. rewrite !land_255. div_lia. Qed.

Lemma rgba_channels r g b a :
  0 ≤ r < 256 → 0 ≤ g < 256 → 0 ≤ b < 256 → 0 ≤ a < 256 →
  pixel_r (rgba_to_pixel r g b a) = r ∧ pixel_g (rgba_to_pixel r g b a) = g ∧
  pixel_b (rgba_to_pixel r g b a) = b ∧ pixel_alpha (rgba_to_pixel r g b a) = a.
Proof.
  intros. rewrite rgba_to_pixel_value, !Z.mod_small by lia.
  unfold pixel_alpha, pixel_r, pixel_g, pixel_b.
  rewrite !channel_value, land_255 by lia. change (2 ^ 24) with 16777216. change (2 ^ 16) with 65536.
  change (2 ^ 8) with 256. div_lia.
Qed.

Lemma rgb_channels r g b :
  0 ≤ r < 256 → 0 ≤ g < 256 → 0 ≤ b < 256 →
  pixel_r (rgb_to_pixel r g b) = r ∧ pixel_g (rgb_to_pixel r g b) = g ∧ pixel_b (rgb_to_pixel r g b) = b.
Proof.
  intros. rewrite rgb_to_pixel_value, (Z.mod_small r), (Z.mod_small g), (Z.mod_small b) by lia.
  unfold pixel_r, pixel_g, pixel_b. rewrite !channel_value, land_255 by lia.
  change (2 ^ 16) with 65536. change (2 ^ 8) with 256. div_lia.
Qed.

Lemma opaque_value p : opaque_softbuffer_pixel p = 0xff000000 + p mod 16777216.
Proof.
  unfold opaque_softbuffer_pixel. change 0xffffff with (Z.ones 24). rewrite Z.land_ones by lia.
  change 0xff000000 with (Z.shiftl 255 24). by rewrite lor_24 by div_lia.
Qed.

Lemma opaque_alpha p : pixel_alpha (opaque_softbuffer_pixel p) = 255.
Proof.
  unfold pixel_alpha. rewrite channel_value, opaque_value by lia.
  change (2 ^ 24) with 16777216. div_lia.
Qed.

Lemma softbuffer_alpha p m : pixel_alpha (pixel_for_softbuffer p m) = 255.
Proof. unfold pixel_for_softbuffer. repeat case_match; apply opaque_alpha. Qed.

(** Drawing a pixel over the matte always gives an opaque pixel, and mixes each
    channel between the two: fully transparent-ish pixels show the matte, opaque ones
    show themselves, and in between no channel leaves the range of its two sources. *)
Theorem pixel_for_softbuffer_spec pixel matte :
  let out := pixel_for_softbuffer pixel matte in
  pixel_alpha out = 255 ∧
  (pixel_alpha pixel = 255 → pixel_r out = pixel_r pixel ∧ pixel_g out = pixel_g pixel ∧ pixel_b out = pixel_b pixel) ∧
  (pixel_alpha pixel < VISIBLE_ALPHA_THRESHOLD →
     pixel_r out = pixel_r matte ∧ pixel_g out = pixel_g matte ∧ pixel_b out = pixel_b matte) ∧
  (∀ ch, ch ∈ [pixel_r; pixel_g; pixel_b] →
     Z.min (ch pixel) (ch matte) ≤ ch out ≤ Z.max (ch pixel) (ch matte)).
Proof.
  assert (∀ p, pixel_alpha (opaque_softbuffer_pixel p) = 255 ∧
    pixel_r (opaque_softbuffer_pixel p) = pixel_r p ∧ pixel_g (opaque_softbuffer_pixel p) = pixel_g p ∧
    pixel_b (opaque_softbuffer_pixel p) = pixel_b p) as Hop.
  { intros p. unfold pixel_alpha, pixel_r, pixel_g, pixel_b.
    rewrite !channel_value, !land_255, !opaque_value by lia.
    change (2 ^ 24) with 16777216. change (2 ^ 16) with 65536. change (2 ^ 8) with 256. div_lia. }
  assert (∀ x y a, 0 ≤ x ≤ 255 → 0 ≤ y ≤ 255 → 0 ≤ a < 255 →
    Z.min x y ≤ (x * a + y * (255 - a)) / 255 ≤ Z.max x y) as Hmix.
  { intros x y a Hx Hy Ha. split; [apply Z.div_le_lower_bound|apply Z.lt_succ_r, Z.div_lt_upper_bound]; nia. }
  intros out. subst out. unfold pixel_for_softbuffer.
  fold (pixel_r matte) (pixel_g matte) (pixel_b matte).
  pose proof (channel_range pixel) as (Ha & Hr & Hg & Hb).
  pose proof (channel_range matte) as (Ha' & Hr' & Hg' & Hb').
  destruct (Z.leb_spec 255 (pixel_alpha pixel)); [|destruct (Z.ltb_spec (pixel_alpha pixel) VISIBLE_ALPHA_THRESHOLD)].
  - destruct (Hop pixel) as (-> & Er & Eg & Eb). rewrite Er, Eg, Eb. unfold VISIBLE_ALPHA_THRESHOLD.
    split_and!; try done; [lia|]. intros ch.
    rewrite !elem_of_cons, elem_of_nil. intros [-> |[-> |[-> |[]]]]; lia.
  - destruct (Hop matte) as (-> & Er & Eg & Eb). rewrite Er, Eg, Eb. split_and!; try done.
    { unfold VISIBLE_ALPHA_THRESHOLD in *. lia. } intros ch.
    rewrite !elem_of_cons, elem_of_nil. intros [-> |[-> |[-> |[]]]]; lia.
  - set (r := (pixel_r pixel * _ + _) / 255). set (g := (pixel_g pixel * _ + _) / 255).
    set (b := (pixel_b pixel * _ + _) / 255).
    pose proof (Hmix _ _ (pixel_alpha pixel) Hr Hr' ltac:(lia)) as Hmr. fold r in Hmr.
    pose proof (Hmix _ _ (pixel_alpha pixel) Hg Hg' ltac:(lia)) as Hmg. fold g in Hmg.
    pose proof (Hmix _ _ (pixel_alpha pixel) Hb Hb' ltac:(lia)) as Hmb. fold b in Hmb.
    destruct (Hop (rgb_to_pixel r g b)) as (-> & Er & Eg & Eb). rewrite Er, Eg, Eb.
    assert (pixel_r (rgb_to_pixel r g b) = r ∧ pixel_g (rgb_to_pixel r g b) = g
            ∧ pixel_b (rgb_to_pixel r g b) = b) as (Fr & Fg & Fb).
    { apply rgb_channels; lia. }
    split_and!; [done|lia|lia|]. intros ch.
    rewrite !elem_of_cons, elem_of_nil. intros [-> |[-> |[-> |[]]]]; lia.
Qed.

(** ** Lemmas: planes *)

(** Positions of a row-major plane are distinct and in range. *)
Lemma plane_index w h y x : 0 ≤ x < w → 0 ≤ y < h → 0 ≤ y * w + x < w * h.
Proof. nia. Qed.

Lemma plane_index_inj w y x y' x' :
  0 ≤ x < w → 0 ≤ x' < w → 0 ≤ y → 0 ≤ y' → y * w + x = y' * w + x' → y = y' ∧ x = x'.
Proof.
  intros Hx Hx' Hy Hy' E. enough (y = y') as -> by (split; [done|lia]).
  destruct (Z.lt_trichotomy y y') as [Hlt|[->|Hlt]]; [exfalso|done|exfalso].
  - assert ((y + 1) * w ≤ y' * w) by (apply Z.mul_le_mono_nonneg_r; lia). lia.
  - assert ((y' + 1) * w ≤ y * w) by (apply Z.mul_le_mono_nonneg_r; lia). lia.
Qed.

Lemma to_nat_index w y x :
  0 ≤ w → 0 ≤ y → 0 ≤ x → (Z.to_nat y * Z.to_nat w + Z.to_nat x)%nat = Z.to_nat (y * w + x).
Proof. intros. rewrite Z2Nat.inj_add, Z2Nat.inj_mul by nia. done. Qed.

Lemma px_at_in pixels i :
  0 ≤ i < Z.of_nat (length pixels) → ∃ p, px_at pixels i = Some p.
Proof.
  intros Hi. unfold px_at. destruct (lookup_lt_is_Some_2 pixels (Z.to_nat i)) as [p Hp]; [lia|].
  by exists p.
Qed.

Lemma px_set_in pixels i v :
  0 ≤ i < Z.of_nat (length pixels) → px_set pixels i v = Some (<[Z.to_nat i := v]> pixels).
Proof. intros Hi. unfold px_set. by rewrite (proj2 (Nat.ltb_lt _ _)) by lia. Qed.

Lemma copy_row_spec dst off src :
  (off + length src ≤ length dst)%nat →
  ∃ d, copy_row dst off src = Some d ∧ length d = length dst ∧
    ∀ i, d !! i = if decide (off ≤ i < off + length src)%nat then src !! (i - off)%nat else dst !! i.
Proof.
  intros Hlen. unfold copy_row. rewrite (proj2 (Nat.leb_le _ _)) by done.
  eexists. split; [done|]. split.
  - rewrite !length_app, length_take, length_drop. lia.
  - intros i. rewrite lookup_app. case_decide as Hi.
    + rewrite (proj2 (lookup_ge_None _ _)) by (rewrite length_take; lia).
      rewrite length_take, Nat.min_l by lia. by rewrite lookup_app_l by lia.
    + destruct (decide (i < off)%nat).
      * rewrite lookup_take_lt by done. destruct (dst !! i) eqn:E; [done|].
        apply lookup_ge_None in E. lia.
      * rewrite (proj2 (lookup_ge_None _ _)) by (rewrite length_take; lia).
        rewrite length_take, Nat.min_l by lia. rewrite lookup_app_r by lia.
        rewrite lookup_drop. f_equal. lia.
Qed.

Lemma slice_spec l off n :
  (off + n ≤ length l)%nat →
  ∃ s, slice l off n = Some s ∧ length s = n ∧ ∀ i, (i < n)%nat → s !! i = l !! (off + i)%nat.
Proof.
  intros Hlen. unfold slice. rewrite (proj2 (Nat.leb_le _ _)) by done. eexists. split; [done|].
  split; [rewrite length_take, length_drop; lia|].
  intros i Hi. by rewrite lookup_take_lt, lookup_drop.
Qed.

(** The row-by-row copy, in terms of positions. *)
Lemma copy_rows_spec old ow oh w h r :
  length old = (ow * oh)%nat → (r ≤ Nat.min oh h)%nat →
  ∃ px, for_range r (λ y dst,
      src ← slice old (y * ow) (Nat.min ow w);
      copy_row dst (y * w) src) (replicate (w * h) TRANSPARENT_PIXEL) = Some px
    ∧ length px = (w * h)%nat
    ∧ ∀ x y, (x < w)%nat → (y < h)%nat →
        px !! (y * w + x)%nat
        = if decide (y < r ∧ x < ow)%nat then old !! (y * ow + x)%nat else Some TRANSPARENT_PIXEL.
Proof.
  intros Hold Hr.
  destruct (for_range_inv (λ r px, length px = (w * h)%nat ∧
    ∀ x y, (x < w)%nat → (y < h)%nat → px !! (y * w + x)%nat
      = if decide (y < r ∧ x < ow)%nat then old !! (y * ow + x)%nat else Some TRANSPARENT_PIXEL) r
    (λ y dst, src ← slice old (y * ow) (Nat.min ow w); copy_row dst (y * w) src)
    (replicate (w * h) TRANSPARENT_PIXEL)) as (px & E & Hpx).
  - split; [apply length_replicate|]. intros x y Hx Hy. rewrite decide_False by lia.
    apply lookup_replicate_2. nia.
  - intros i px Hi [Hlen Hpx].
    destruct (slice_spec old (i * ow) (Nat.min ow w)) as (src & -> & Hsl & Hs); [rewrite Hold; nia|].
    destruct (copy_row_spec px (i * w) src) as (d & E & Hd & Hdl); [rewrite Hlen, Hsl; nia|].
    exists d. split; [exact E|]. split; [lia|]. intros x y Hx Hy. rewrite Hdl, Hsl.
    destruct (decide (y = i)) as [->|Hne].
    + destruct (decide (x < ow)%nat).
      * rewrite !decide_True by lia. rewrite Hs by lia. f_equal. lia.
      * rewrite decide_False by lia. rewrite Hpx by done. by rewrite !decide_False by lia.
    + rewrite decide_False by nia. rewrite Hpx by done.
      destruct (decide (y < i ∧ x < ow)%nat); [by rewrite decide_True by lia|by rewrite decide_False by lia].
  - by exists px.
Qed.

Definition plane_ok (fb : FrameBuffer) : Prop :=
  0 ≤ fb_width fb ∧ 0 ≤ fb_height fb ∧
  length (fb_pixels fb) = (Z.to_nat (fb_width fb) * Z.to_nat (fb_height fb))%nat.

Lemma plane_ok_length fb : plane_ok fb → Z.of_nat (length (fb_pixels fb)) = fb_width fb * fb_height fb.
Proof. intros (? & ? & ->). rewrite Nat2Z.inj_mul, !Z2Nat.id by lia. done. Qed.

Lemma fb_ok_plane fb : fb_ok fb → plane_ok fb.
Proof. intros [? ? Hl _]. split_and!; [done..|]. nia. Qed.

Lemma pixel_at_px fb x y :
  0 ≤ x < fb_width fb → 0 ≤ y < fb_height fb →
  pixel_at fb x y = px_at (fb_pixels fb) (y * fb_width fb + x).
Proof.
  intros Hx Hy. unfold pixel_at.
  by rewrite (proj2 (Z.leb_le 0 x)), (proj2 (Z.ltb_lt x _)), (proj2 (Z.leb_le 0 y)),
    (proj2 (Z.ltb_lt y _)) by lia.
Qed.

Lemma pixel_at_in fb x y :
  0 ≤ x < fb_width fb → 0 ≤ y < fb_height fb →
  pixel_at fb x y = fb_pixels fb !! (Z.to_nat y * Z.to_nat (fb_width fb) + Z.to_nat x)%nat.
Proof. intros Hx Hy. rewrite pixel_at_px by done. unfold px_at. f_equal. nia. Qed.

Lemma pixel_at_some fb x y p :
  pixel_at fb x y = Some p → 0 ≤ x < fb_width fb ∧ 0 ≤ y < fb_height fb.
Proof.
  unfold pixel_at. destruct (_ && _) eqn:E; [|done]. rewrite !andb_true_iff in E. lia.
Qed.

Lemma replace_preserving_spec fb w h :
  plane_ok fb → 0 ≤ w → 0 ≤ h →
  ∃ fb', replace_buffer_preserving_pixels fb w h = Some fb' ∧ plane_ok fb'
    ∧ fb_width fb' = w ∧ fb_height fb' = h ∧ fb_content fb' = fb_content fb
    ∧ fb_matte fb' = fb_matte fb
    ∧ ∀ x y, 0 ≤ x < w → 0 ≤ y < h →
        pixel_at fb' x y = Some (default TRANSPARENT_PIXEL (pixel_at fb x y)).
Proof.
  intros (Hw0 & Hh0 & Hlen) Hw Hh. unfold replace_buffer_preserving_pixels, blank.
  rewrite !Z2Nat.inj_min.
  destruct (copy_rows_spec (fb_pixels fb) (Z.to_nat (fb_width fb)) (Z.to_nat (fb_height fb))
    (Z.to_nat w) (Z.to_nat h) (Nat.min (Z.to_nat (fb_height fb)) (Z.to_nat h)) Hlen)
    as (px & E & Hpl & Hpx); [lia|].
  setoid_rewrite E. eexists. split; [done|]. cbn. split_and!; try done.
  intros x y Hx Hy. rewrite pixel_at_in by done. cbn [fb_pixels fb_width].
  rewrite Hpx by lia. case_decide as Hin.
  - rewrite pixel_at_in by lia.
    destruct (lookup_lt_is_Some_2 (fb_pixels fb)
      (Z.to_nat y * Z.to_nat (fb_width fb) + Z.to_nat x)%nat) as [p ->]; [nia|done].
  - destruct (pixel_at fb x y) eqn:Ep; [|done]. apply pixel_at_some in Ep. lia.
Qed.

(** ** Resizing *)

Lemma rect_in_whole w h : rect_in (FrameRect_new 0 0 (Z.max w 1) (Z.max h 1)) (Z.max w 1) (Z.max h 1).
Proof. unfold rect_in, FrameRect_new; cbn. lia. Qed.

Lemma same_size_true fb w h : same_size fb w h = true → w = fb_width fb ∧ h = fb_height fb.
Proof. unfold same_size. rewrite andb_true_iff, !Z.eqb_eq. lia. Qed.

Lemma pixel_at_default fb x y :
  plane_ok fb → 0 ≤ x < fb_width fb → 0 ≤ y < fb_height fb →
  pixel_at fb x y = Some (default TRANSPARENT_PIXEL (pixel_at fb x y)).
Proof.
  intros (Hw & Hh & Hl) Hx Hy. rewrite pixel_at_in by done.
  destruct (lookup_lt_is_Some_2 (fb_pixels fb)
    (Z.to_nat y * Z.to_nat (fb_width fb) + Z.to_nat x)%nat) as [p ->]; [nia|done].
Qed.

Lemma fb_ok_intro fb :
  plane_ok fb → rect_in (fb_content fb) (Z.max (fb_width fb) 1) (Z.max (fb_height fb) 1) → fb_ok fb.
Proof.
  intros Hp Hr. pose proof (plane_ok_length fb Hp) as Hl. destruct Hp as (? & ? & ?). by split.
Qed.

(** Resizing never panics, keeps the buffer well formed and the matte; a resize of
    the viewer keeps every old pixel that still fits, and a resize of the remote side
    that shrinks either dimension starts from a transparent buffer. *)
Theorem resize_spec fb w h :
  fb_ok fb → 0 ≤ w → 0 ≤ h →
  (∃ fb', resize fb w h = Some fb' ∧ fb_ok fb' ∧ fb_width fb' = w ∧ fb_height fb' = h
     ∧ fb_matte fb' = fb_matte fb
     ∧ ∀ x y, 0 ≤ x < w → 0 ≤ y < h →
         pixel_at fb' x y = Some (default TRANSPARENT_PIXEL (pixel_at fb x y))) ∧
  (∃ fb', resize_for_remote_size fb w h = Some fb' ∧ fb_ok fb' ∧ fb_width fb' = w ∧ fb_height fb' = h
     ∧ fb_matte fb' = fb_matte fb
     ∧ ∀ x y, 0 ≤ x < w → 0 ≤ y < h →
         pixel_at fb' x y = Some (if (w <? fb_width fb) || (h <? fb_height fb) then TRANSPARENT_PIXEL
                                  else default TRANSPARENT_PIXEL (pixel_at fb x y))).
Proof.
  intros Hok Hw Hh. unfold resize, resize_for_remote_size.
  destruct (same_size fb w h) eqn:Hs.
  { apply same_size_true in Hs as [-> ->]. rewrite !Z.ltb_irrefl. cbn [orb].
    split; exists fb; split_and!; try done; intros; apply pixel_at_default; by try apply fb_ok_plane. }
  destruct (replace_preserving_spec fb w h (fb_ok_plane _ Hok) Hw Hh)
    as (fb1 & E & Hp & Hw1 & Hh1 & Hc & Hm & Hpx).
  assert (fb_ok (set_content fb1 (FrameRect_new 0 0 (Z.max w 1) (Z.max h 1)))) as Hok1.
  { apply fb_ok_intro; [exact Hp|]. cbn. rewrite Hw1, Hh1. apply rect_in_whole. }
  rewrite E. split.
  { eexists. split; [reflexivity|]. split_and!; done. }
  destruct ((w <? fb_width fb) || (h <? fb_height fb)).
  - eexists. split; [reflexivity|]. unfold replace_buffer_clearing, set_content, blank.
    split_and!; try done; [|].
    + apply fb_ok_intro; cbn; [|apply rect_in_whole]. split_and!; cbn; [done..|apply length_replicate].
    + intros x y Hx Hy. rewrite pixel_at_in by done. apply lookup_replicate_2. cbn. nia.
  - eexists. split; [reflexivity|]. split_and!; done.
Qed.

(** ** The content rectangle *)

Lemma for_range_pure {S} n (f : nat → S → S) s :
  ∃ s', for_range n (λ i s, Some (f i s)) s = Some s'.
Proof. induction n as [|n [s' E]]; [by exists s|]. cbn [for_range]. rewrite E. by eexists. Qed.

(** The scan, position by position: what the accumulators say of the cells seen. *)
Definition scanned (fb : FrameBuffer) (y x : nat) (b : bounds) : Prop :=
  0 ≤ count b ∧
  (count b = 0 ∨ 0 ≤ min_x b ≤ max_x b ∧ max_x b < fb_width fb
                 ∧ 0 ≤ min_y b ≤ max_y b ∧ max_y b < fb_height fb) ∧
  (0 ≤ max_x b < Z.max (fb_width fb) 1 ∧ 0 ≤ max_y b < Z.max (fb_height fb) 1
   ∧ 0 ≤ min_x b ∧ 0 ≤ min_y b) ∧
  (∀ y' x' p, before y' x' y x → (x' < Z.to_nat (fb_width fb))%nat →
     pixel_at fb (Z.of_nat x') (Z.of_nat y') = Some p → VISIBLE_ALPHA_THRESHOLD ≤ pixel_alpha p →
     0 < count b ∧ min_x b ≤ Z.of_nat x' ≤ max_x b ∧ min_y b ≤ Z.of_nat y' ≤ max_y b).

Lemma scanned_step fb y x b :
  plane_ok fb → (y < Z.to_nat (fb_height fb))%nat → (x < Z.to_nat (fb_width fb))%nat →
  scanned fb y x b →
  ∃ p, px_at (fb_pixels fb) (Z.of_nat y * fb_width fb + Z.of_nat x) = Some p
    ∧ scanned fb y (S x) (visit_pixel b (Z.of_nat x) (Z.of_nat y) p).
Proof.
  intros Hok Hy Hx (Hc0 & Hrange & Hr2 & Hseen).
  pose proof (plane_ok_length fb Hok) as Hl. destruct Hok as (Hw & Hh & _).
  destruct (px_at_in (fb_pixels fb) (Z.of_nat y * fb_width fb + Z.of_nat x)) as [p Hp].
  { rewrite Hl. apply plane_index; lia. }
  exists p. split; [done|]. unfold visit_pixel.
  assert (pixel_at fb (Z.of_nat x) (Z.of_nat y) = Some p) as Hp'.
  { rewrite pixel_at_in by lia. unfold px_at in Hp. rewrite <- Hp. f_equal. nia. }
  assert (∀ y' x', before y' x' y (S x) → before y' x' y x ∨ (y' = y ∧ x' = x)) as Hb
    by (unfold before; lia).
  destruct (Z.ltb_spec (pixel_alpha p) VISIBLE_ALPHA_THRESHOLD).
  - split_and!; try done; try lia. intros y' x' q [Hbef|[-> ->]]%Hb Hx' Hq Hv; [eauto|].
    rewrite Hp' in Hq. injection Hq as <-. lia.
  - unfold scanned. cbn [count min_x max_x min_y max_y].
    split_and!; [lia| |lia..|].
    { right. destruct Hrange as [E0|?]; lia. }
    intros y' x' q [Hbef|[-> ->]]%Hb Hx' Hq Hv; [|lia].
    destruct (Hseen y' x' q Hbef Hx' Hq Hv) as (? & ? & ?). lia.
Qed.

Lemma scan_pixels_spec fb :
  plane_ok fb → ∃ b, scan_pixels fb = Some b ∧ scanned fb (Z.to_nat (fb_height fb)) 0 b.
Proof.
  intros Hok. unfold scan_pixels.
  apply (for_range_inv (λ y b, scanned fb y 0 b)).
  - destruct Hok as (? & ? & _). unfold scanned, before. cbn. split_and!; try lia.
  - intros y b Hy Hb.
    destruct (for_range_inv (λ x b, scanned fb y x b) (Z.to_nat (fb_width fb))
      (λ x b, pixel ← px_at (fb_pixels fb) (Z.of_nat y * fb_width fb + Z.of_nat x);
              Some (visit_pixel b (Z.of_nat x) (Z.of_nat y) pixel)) b) as (b' & E & Hb'); [done| |].
    + intros x b1 Hx Hb1. destruct (scanned_step fb y x b1 Hok Hy Hx Hb1) as (p & -> & ?).
      eexists. split; [reflexivity|done].
    + exists b'. split; [exact E|]. destruct Hb' as (? & ? & ? & Hs). split; [done|]. split; [done|]. split; [done|].
      intros y' x' p Hbef Hx'. apply Hs; [|done]. unfold before in *. lia.
Qed.

(** ** Trimming *)

Lemma few_outliers_total at_ first allow n pos k :
  (∀ i, pos ≤ i < pos + Z.of_nat n → ∃ p, at_ i = Some p) →
  ∃ u, few_outliers at_ first allow n pos k = Some u.
Proof.
  revert pos k. induction n as [|n IH]; intros pos k Hat; cbn [few_outliers]; [by eexists|].
  destruct (Hat pos) as [p ->]; [lia|]. cbn [mbind option_bind].
  destruct (_ <? _); [destruct (_ <? _); [by eexists|]|]; apply IH; intros i Hi; apply Hat; lia.
Qed.

Lemma wrap32_small z : 0 ≤ z ≤ u32_max → wrap32 z = z.
Proof. intros. unfold wrap32, u32_max in *. apply Z.mod_small. lia. Qed.

Section trim.
Context (pixels : list Z) (w h : Z).
Hypothesis plane : Z.of_nat (length pixels) = w * h.
Hypothesis small : w * h ≤ u32_max.

Lemma row_start y : 0 ≤ y < h → 0 ≤ w → wrap32 (y * w) = y * w.
Proof. intros Hy Hw. apply wrap32_small. nia. Qed.

Lemma is_uniform_row_total y x0 x1 :
  0 ≤ y < h → 0 ≤ x0 → x1 ≤ w → ∃ u, is_uniform_row pixels w y x0 x1 = Some u.
Proof.
  intros Hy H0 H1. unfold is_uniform_row. destruct (Z.leb_spec x1 x0); [by eexists|].
  rewrite row_start by lia.
  destruct (px_at_in pixels (y * w + x0)) as [p ->];
    [rewrite plane; apply plane_index; lia|]. cbn [mbind option_bind].
  apply few_outliers_total. intros i Hi. apply px_at_in. rewrite plane. apply plane_index; lia.
Qed.

Lemma is_uniform_col_total x y0 y1 :
  0 ≤ x < w → 0 ≤ y0 → y1 ≤ h → ∃ u, is_uniform_col pixels w x y0 y1 = Some u.
Proof.
  intros Hx H0 H1. unfold is_uniform_col. destruct (Z.leb_spec y1 y0); [by eexists|].
  rewrite row_start by lia.
  destruct (px_at_in pixels (y0 * w + x)) as [p ->];
    [rewrite plane; apply plane_index; lia|]. cbn [mbind option_bind].
  apply few_outliers_total. intros i Hi. rewrite row_start by lia.
  apply px_at_in. rewrite plane. apply plane_index; lia.
Qed.
End trim.

Section shrink.
Context (uniform : Z → option bool).

Lemma shrink_high_spec fuel lo hi run :
  lo < hi → hi - lo ≤ Z.of_nat fuel → (∀ i, lo ≤ i < hi → ∃ u, uniform i = Some u) →
  ∃ hi', shrink_high uniform fuel lo hi run = Some (hi', run + (hi - hi'))
    ∧ lo < hi' ≤ hi ∧ ∀ i, hi' ≤ i < hi → uniform i = Some true.
Proof.
  revert hi run. induction fuel as [|fuel IH]; intros hi run Hlt Hf Hu; [lia|].
  cbn [shrink_high]. destruct (Z.ltb_spec (lo + 1) hi).
  - destruct (Hu (hi - 1)) as [[] Eu]; [lia| |]; rewrite Eu; cbn [mbind option_bind negb].
    + destruct (IH (hi - 1) (run + 1)) as (hi' & -> & Hr & Hall); [lia..|intros; apply Hu; lia|].
      exists hi'. split_and!; [do 2 f_equal; lia|lia|lia|]. intros i Hi.
      destruct (decide (i = hi - 1)) as [->|]; [done|]. apply Hall. lia.
    + exists hi. split_and!; [do 2 f_equal; lia|lia|lia|]. lia.
  - exists hi. split_and!; [do 2 f_equal; lia|lia|lia|]. lia.
Qed.

Lemma shrink_low_spec fuel lo hi run :
  lo < hi → hi - lo ≤ Z.of_nat fuel → (∀ i, lo ≤ i < hi → ∃ u, uniform i = Some u) →
  ∃ lo', shrink_low uniform fuel lo hi run = Some (lo', run + (lo' - lo))
    ∧ lo ≤ lo' < hi ∧ ∀ i, lo ≤ i < lo' → uniform i = Some true.
Proof.
  revert lo run. induction fuel as [|fuel IH]; intros lo run Hlt Hf Hu; [lia|].
  cbn [shrink_low]. destruct (Z.ltb_spec (lo + 1) hi).
  - destruct (Hu lo) as [[] Eu]; [lia| |]; rewrite Eu; cbn [mbind option_bind negb].
    + destruct (IH (lo + 1) (run + 1)) as (lo' & -> & Hr & Hall); [lia..|intros; apply Hu; lia|].
      exists lo'. split_and!; [do 2 f_equal; lia|lia|lia|]. intros i Hi.
      destruct (decide (i = lo)) as [->|]; [done|]. apply Hall. lia.
    + exists lo. split_and!; [do 2 f_equal; lia|lia|lia|]. lia.
  - exists lo. split_and!; [do 2 f_equal; lia|lia|lia|]. lia.
Qed.

(** An edge moves over uniform lines only, and by sixteen at least if at all. *)
Lemma trim_high_spec lo hi :
  lo < hi → (∀ i, lo ≤ i < hi → ∃ u, uniform i = Some u) →
  ∃ hi', trim_high uniform lo hi = Some hi' ∧ lo < hi' ≤ hi
    ∧ (hi' = hi ∨ UNIFORM_PADDING_MIN_RUN ≤ hi - hi') ∧ ∀ i, hi' ≤ i < hi → uniform i = Some true.
Proof.
  intros Hlt Hu. unfold trim_high.
  destruct (shrink_high_spec (Z.to_nat (hi - lo)) lo hi 0) as (hi' & -> & Hr & Hall); [lia..|done|].
  cbn [mbind option_bind]. eexists. split; [reflexivity|].
  destruct (Z.ltb_spec (0 + (hi - hi')) UNIFORM_PADDING_MIN_RUN); split_and!; try lia; try done;
    intros i Hi; lia.
Qed.

Lemma trim_low_spec lo hi :
  lo < hi → (∀ i, lo ≤ i < hi → ∃ u, uniform i = Some u) →
  ∃ lo', trim_low uniform lo hi = Some lo' ∧ lo ≤ lo' < hi
    ∧ (lo' = lo ∨ UNIFORM_PADDING_MIN_RUN ≤ lo' - lo) ∧ ∀ i, lo ≤ i < lo' → uniform i = Some true.
Proof.
  intros Hlt Hu. unfold trim_low.
  destruct (shrink_low_spec (Z.to_nat (hi - lo)) lo hi 0) as (lo' & -> & Hr & Hall); [lia..|done|].
  cbn [mbind option_bind]. eexists. split; [reflexivity|].
  destruct (Z.ltb_spec (0 + (lo' - lo)) UNIFORM_PADDING_MIN_RUN); split_and!; try lia; try done;
    intros i Hi; lia.
Qed.
End shrink.

(** A margin is trimmed not at all or by a trustworthy run. *)
Definition margin_ok (m : Z) : Prop := m = 0 ∨ UNIFORM_PADDING_MIN_RUN ≤ m.

(** [r] is [rect] with padding trimmed off. *)
Definition trimmed (pixels : list Z) (w : Z) (rect r : FrameRect) : Prop :=
  let x0 := fr_x rect in let x1 := fr_x rect + fr_w rect in
  let y0 := fr_y rect in let y1 := fr_y rect + fr_h rect in
  let a0 := fr_x r in let a1 := fr_x r + fr_w r in
  let b0 := fr_y r in let b1 := fr_y r + fr_h r in
  x0 ≤ a0 ∧ a0 < a1 ∧ a1 ≤ x1 ∧ y0 ≤ b0 ∧ b0 < b1 ∧ b1 ≤ y1
  ∧ margin_ok (a0 - x0) ∧ margin_ok (x1 - a1) ∧ margin_ok (b0 - y0) ∧ margin_ok (y1 - b1)
  ∧ (∀ y, y0 ≤ y < b0 ∨ b1 ≤ y < y1 → is_uniform_row pixels w y x0 x1 = Some true)
  ∧ (∀ x, x0 ≤ x < a0 → is_uniform_col pixels w x b0 b1 = Some true)
  ∧ (∀ x, a1 ≤ x < x1 → is_uniform_col pixels w x b0 b1 = Some true).

Lemma trim_uniform_padding_trimmed pixels w h rect :
  Z.of_nat (length pixels) = w * h → w * h ≤ u32_max → rect_in rect w h →
  ∃ r, trim_uniform_padding pixels w rect = Some r ∧ trimmed pixels w rect r.
Proof.
  intros Hl Hs (Hx & Hy & Hw & Hh & Hxw & Hyh). unfold trim_uniform_padding.
  set (x0 := fr_x rect). set (x1 := x0 + fr_w rect). set (y0 := fr_y rect). set (y1 := y0 + fr_h rect).
  destruct (trim_high_spec (λ y, is_uniform_row pixels w y x0 x1) y0 y1) as (b1 & -> & Hb1 & Mb1 & Ub1);
    [lia|intros; apply (is_uniform_row_total _ _ h); lia|].
  destruct (trim_low_spec (λ y, is_uniform_row pixels w y x0 x1) y0 b1) as (b0 & Eb0 & Hb0 & Mb0 & Ub0);
    [lia|intros; apply (is_uniform_row_total _ _ h); lia|].
  cbn [mbind option_bind]. rewrite Eb0. cbn [mbind option_bind].
  destruct (trim_high_spec (λ x, is_uniform_col pixels w x b0 b1) x0 x1) as (a1 & Ea1 & Ha1 & Ma1 & Ua1);
    [lia|intros; apply (is_uniform_col_total _ _ h); lia|].
  rewrite Ea1. cbn [mbind option_bind].
  destruct (trim_low_spec (λ x, is_uniform_col pixels w x b0 b1) x0 a1) as (a0 & Ea0 & Ha0 & Ma0 & Ua0);
    [lia|intros; apply (is_uniform_col_total _ _ h); lia|].
  rewrite Ea0. cbn [mbind option_bind]. eexists. split; [reflexivity|].
  unfold trimmed, FrameRect_new. cbn [fr_x fr_y fr_w fr_h]. rewrite !Z.max_l by lia.
  rewrite !Zplus_minus. unfold margin_ok. split_and!; try lia; try done.
  intros y [Hy'|Hy']; [apply Ub0|apply Ub1]; done.
Qed.

(** Trimming uniform padding never panics on a rectangle of the plane, leaves a
    nonempty part of it, moves each edge by nothing or by at least sixteen lines, and
    drops only lines that are uniform over the extent that was left when they were
    looked at. *)
Theorem trim_uniform_padding_spec pixels w h rect :
  Z.of_nat (length pixels) = w * h → w * h ≤ u32_max → rect_in rect w h →
  ∃ r, trim_uniform_padding pixels w rect = Some r ∧ rect_in r w h ∧ trimmed pixels w rect r.
Proof.
  intros Hl Hs Hin. destruct (trim_uniform_padding_trimmed pixels w h rect Hl Hs Hin) as (r & E & Ht).
  exists r. split; [exact E|]. split; [|exact Ht].
  destruct Ht as (? & ? & ? & ? & ? & ? & _). unfold rect_in in *. lia.
Qed.

Lemma update_content_rect_ok fb :
  plane_ok fb → fb_width fb * fb_height fb ≤ u32_max →
  ∃ fb', update_content_rect fb = Some fb' ∧ fb_ok fb' ∧ fb_width fb' = fb_width fb
    ∧ fb_height fb' = fb_height fb ∧ fb_pixels fb' = fb_pixels fb.
Proof.
  intros Hok Hs. unfold update_content_rect.
  destruct (scan_pixels_spec fb Hok) as (b & -> & Hc & Hrange & _ & _). cbn [mbind option_bind].
  destruct (Z.eqb_spec (count b) 0) as [E0|Hne].
  { eexists. split; [reflexivity|]. split_and!; try done. apply fb_ok_intro; [done|]. apply rect_in_whole. }
  destruct Hrange as [?|Hr]; [done|]. unfold trim_content_rect, CONTENT_EDGE_TRIM_PX, FrameRect_new.
  cbn [fr_x fr_y fr_w fr_h].
  rewrite !(proj2 (Z.leb_gt _ _)) by lia. cbn [orb].
  destruct (trim_uniform_padding_trimmed (fb_pixels fb) (fb_width fb) (fb_height fb)
    (mkFrameRect (min_x b + 0) (min_y b + 0)
      (Z.max (Z.max (max_x b - min_x b + 1) 1 - 0 * 2) 1)
      (Z.max (Z.max (max_y b - min_y b + 1) 1 - 0 * 2) 1))) as (r & -> & Hin);
    [by apply plane_ok_length|done|unfold rect_in; cbn [fr_x fr_y fr_w fr_h]; lia|].
  cbn [mbind option_bind]. eexists. split; [reflexivity|]. split_and!; try done.
  apply fb_ok_intro; [done|]. cbn [fb_content fb_width fb_height fr_x fr_y fr_w fr_h] in *.
  unfold trimmed in Hin. cbn [fr_x fr_y fr_w fr_h] in Hin. unfold rect_in. lia.
Qed.

(** ** Tiles *)

Lemma check_tile_ok tile :
  check_tile tile = Ok tt ↔
  tile_encoding tile = RawRgba ∧ tile_w tile * 4 ≤ u32_max ∧ tile_w tile * 4 ≤ tile_stride tile
  ∧ tile_stride tile * tile_h tile ≤ u32_max
  ∧ tile_stride tile * tile_h tile ≤ Z.of_nat (length (tile_bytes tile)).
Proof.
  unfold check_tile, ensure, checked. case_bool_decide; [|split; [done|by intros [? _]]].
  cbn [mbind result_bind].
  destruct (Z.leb_spec (tile_w tile * 4) u32_max); cbn [ok_or mbind result_bind]; [|split; [done|lia]].
  destruct (Z.leb_spec (tile_w tile * 4) (tile_stride tile)); cbn [mbind result_bind]; [|split; [done|lia]].
  destruct (Z.leb_spec (tile_stride tile * tile_h tile) u32_max); cbn [ok_or mbind result_bind];
    [|split; [done|lia]].
  destruct (Z.leb_spec (tile_stride tile * tile_h tile) (Z.of_nat (length (tile_bytes tile)))).
  - split; [intros _; repeat split; (done || lia)|done].
  - split; [done|lia].
Qed.

Lemma byte_at_in bytes i :
  0 ≤ i < Z.of_nat (length bytes) → ∃ v, byte_at bytes i = Some v.
Proof.
  intros Hi. unfold byte_at. destruct (lookup_lt_is_Some_2 bytes (Z.to_nat i)) as [b ->]; [lia|].
  by eexists.
Qed.

(** The destination of a tile's cell. *)
Definition tile_index (tile : FrameTile) (width : Z) (row col : nat) : nat :=
  Z.to_nat ((tile_y tile + Z.of_nat row) * width + tile_x tile + Z.of_nat col).

Lemma apply_pixel_spec tile w h px row col :
  check_tile tile = Ok tt → tile_u32 tile →
  tile_x tile + tile_w tile ≤ w → tile_y tile + tile_h tile ≤ h → w * h ≤ u32_max →
  Z.of_nat (length px) = w * h → (row < Z.to_nat (tile_h tile))%nat → (col < Z.to_nat (tile_w tile))%nat →
  (tile_index tile w row col < length px)%nat ∧
  apply_pixel tile w row col px
  = Some (match tile_pixel tile (tile_x tile + Z.of_nat col) (tile_y tile + Z.of_nat row) with
          | Some v => <[tile_index tile w row col := v]> px
          | None => px
          end).
Proof.
  intros (_ & Hw4 & Hstride & Hneed & Hlen)%check_tile_ok (Hx & Hy & Htw & Hth & Hts) Hxw Hyh Hs Hpx Hr Hc.
  unfold is_u32 in *.
  pose proof (plane_index w h (tile_y tile + Z.of_nat row) (tile_x tile + Z.of_nat col)) as Hidx.
  split; [unfold tile_index; lia|]. unfold apply_pixel.
  assert ((Z.of_nat row + 1) * tile_stride tile ≤ tile_stride tile * tile_h tile) as Hrow by nia.
  rewrite (wrap32_small (Z.of_nat row * _)) by nia.
  rewrite (wrap32_small (Z.of_nat col * 4)) by lia.
  rewrite (wrap32_small ((_ + _) * w + _)) by nia.
  set (src := Z.of_nat row * tile_stride tile + Z.of_nat col * 4).
  assert (0 ≤ src ∧ src + 3 < Z.of_nat (length (tile_bytes tile))) as Hsrc by (unfold src; nia).
  destruct (byte_at_in (tile_bytes tile) src) as [r Er]; [lia|].
  destruct (byte_at_in (tile_bytes tile) (src + 1)) as [g Eg]; [lia|].
  destruct (byte_at_in (tile_bytes tile) (src + 2)) as [b Eb]; [lia|].
  destruct (byte_at_in (tile_bytes tile) (src + 3)) as [a Ea]; [lia|].
  rewrite Er, Eg, Eb, Ea. cbn [mbind option_bind]. unfold tile_pixel.
  rewrite (proj2 (Z.leb_le (tile_x tile) _)), (proj2 (Z.ltb_lt (tile_x tile + _) _)),
    (proj2 (Z.leb_le (tile_y tile) _)), (proj2 (Z.ltb_lt (tile_y tile + _) _)) by lia.
  cbn [andb]. rewrite !Z.add_simpl_l. fold src. rewrite Z.add_0_r, Er, Eg, Eb, Ea. cbn [from_option id].
  destruct (a <? VISIBLE_ALPHA_THRESHOLD); [done|].
  rewrite px_set_in by lia. unfold tile_index. done.
Qed.

(** The buffer before the paint: the wanted size, the old pixels kept. *)
Lemma grow_preserving_spec fb W H :
  plane_ok fb → 1 ≤ W → 1 ≤ H → fb_width fb ≤ W → fb_height fb ≤ H →
  ∃ fb1, grow_preserving_pixels fb W H = Some fb1 ∧ plane_ok fb1 ∧ fb_width fb1 = W ∧ fb_height fb1 = H
    ∧ ∀ x y, 0 ≤ x < W → 0 ≤ y < H → pixel_at fb1 x y = Some (default TRANSPARENT_PIXEL (pixel_at fb x y)).
Proof.
  intros Hp ????. unfold grow_preserving_pixels. destruct (same_size fb W H) eqn:Hsame.
  - apply same_size_true in Hsame as [HW HH]. exists fb. split_and!; [done|done|lia|lia|].
    intros x y Hxr Hyr. apply pixel_at_default; [done|lia..].
  - destruct (replace_preserving_spec fb W H Hp) as (fb1 & E & ? & ? & ? & _ & _ & ?); [lia..|].
    exists fb1. split_and!; done.
Qed.

(** What painting a tile leaves in a plane of width [W]. *)
Lemma paint_tile tile W H px0 :
  tile_u32 tile → check_tile tile = Ok tt → Z.of_nat (length px0) = W * H →
  tile_x tile + tile_w tile ≤ W → tile_y tile + tile_h tile ≤ H → W * H ≤ u32_max →
  ∃ px, for_range (Z.to_nat (tile_h tile)) (λ row,
          for_range (Z.to_nat (tile_w tile)) (λ col, apply_pixel tile W row col)) px0 = Some px
    ∧ length px = length px0
    ∧ ∀ x y, 0 ≤ x < W → 0 ≤ y < H →
        px_at px (y * W + x) = (if tile_pixel tile x y is Some p then Some p else px_at px0 (y * W + x)).
Proof.
  intros Hu Hchk Hl1 Hxw Hyh Hs. pose proof Hu as (Hx & Hy & Htw & Hth & _). unfold is_u32 in *.
  destruct (grid_spec (Z.to_nat (tile_h tile)) (Z.to_nat (tile_w tile)) (tile_index tile W)
    (λ r c, tile_pixel tile (tile_x tile + Z.of_nat c) (tile_y tile + Z.of_nat r))
    (λ r c, apply_pixel tile W r c) px0) as (px & E & Hlen & Hwr & Hrest).
  { intros r c r' c' Hr Hc Hr' Hc' Eq. unfold tile_index in Eq.
    apply Z2Nat.inj in Eq; [|nia..]. rewrite <- !Z.add_assoc in Eq.
    apply plane_index_inj in Eq; lia. }
  { intros r c px Hr Hc Hpl. rewrite <- Hpl. apply (apply_pixel_spec tile W H); try done; lia. }
  exists px. split; [exact E|]. split; [done|]. intros x y Hxr Hyr. unfold px_at.
  destruct (decide (tile_x tile ≤ x < tile_x tile + tile_w tile
                    ∧ tile_y tile ≤ y < tile_y tile + tile_h tile)) as [[Hin1 Hin2]|Hout].
  - specialize (Hwr (Z.to_nat (y - tile_y tile)) (Z.to_nat (x - tile_x tile)) ltac:(lia) ltac:(lia)
      ltac:(unfold before; lia)). unfold tile_index in Hwr.
    rewrite !Z2Nat.id, !Zplus_minus in Hwr by lia.
    replace ((y * W + tile_x tile + (x - tile_x tile))) with (y * W + x) in Hwr by lia.
    rewrite Hwr. by destruct (tile_pixel tile x y).
  - rewrite Hrest.
    + unfold tile_pixel. destruct (_ && _) eqn:Eb; [|done]. rewrite !andb_true_iff in Eb. lia.
    + intros r c Hr Hc _ Eq. apply Hout. unfold tile_index in Eq. apply Z2Nat.inj in Eq; [|nia..].
      rewrite <- Z.add_assoc in Eq. apply plane_index_inj in Eq as [? ?]; lia.
Qed.

(** What [apply_tile] leaves of a buffer. *)
Record tile_drawn (fb : FrameBuffer) (tile : FrameTile) (fb' : FrameBuffer) (changed : bool) : Prop := {
  drawn_ok : fb_ok fb';
  drawn_width : fb_width fb' = Z.max (Z.max (fb_width fb) (tile_x tile + tile_w tile)) 1;
  drawn_height : fb_height fb' = Z.max (Z.max (fb_height fb) (tile_y tile + tile_h tile)) 1;
  drawn_pixels : ∀ x y, 0 ≤ x < fb_width fb' → 0 ≤ y < fb_height fb' →
    pixel_at fb' x y = Some (default (default TRANSPARENT_PIXEL (pixel_at fb x y)) (tile_pixel tile x y));
  drawn_changed : changed = true ↔ display_size fb' ≠ display_size fb
}.

Lemma apply_tile_correct fb tile :
  fb_ok fb → tile_u32 tile → check_tile tile = Ok tt →
  tile_x tile + tile_w tile ≤ u32_max → tile_y tile + tile_h tile ≤ u32_max →
  grown_width fb tile * grown_height fb tile ≤ u32_max →
  ∃ fb' changed, apply_tile fb tile = Ok (fb', changed) ∧ tile_drawn fb tile fb' changed.
Proof.
  intros Hok Hu Hchk Hxm Hym Hs. unfold apply_tile. rewrite Hchk. cbn [mbind result_bind].
  pose proof Hu as (Hx & Hy & Htw & Hth & _). unfold is_u32 in *.
  assert (grown_width fb tile = Z.max (Z.max (fb_width fb) (tile_x tile + tile_w tile)) 1) as Egw
    by (unfold grown_width, sat_add; lia).
  assert (grown_height fb tile = Z.max (Z.max (fb_height fb) (tile_y tile + tile_h tile)) 1) as Egh
    by (unfold grown_height, sat_add; lia).
  set (W := grown_width fb tile) in *. set (H := grown_height fb tile) in *.
  destruct (grow_preserving_spec fb W H (fb_ok_plane fb Hok))
    as (fb1 & -> & Hp1 & Hw1 & Hh1 & Hpx1); [lia..|].
  cbn [mbind option_bind]. rewrite Hw1.
  pose proof (plane_ok_length fb1 Hp1) as Hl1. rewrite Hw1, Hh1 in Hl1.
  destruct (paint_tile tile W H (fb_pixels fb1)) as (px & -> & Hlen & Hpx); [done..|lia|lia|done|].
  cbn [mbind option_bind].
  destruct (update_content_rect_ok (mkFrameBuffer W (fb_height fb1) px (fb_content fb1) (fb_matte fb1)))
    as (fb2 & -> & Hok2 & Hw2 & Hh2 & Hpx2).
  { destruct Hp1 as (? & ? & Hl). split_and!; cbn; [lia|done|]. by rewrite Hlen, Hl, Hw1. }
  { cbn. by rewrite Hh1. }
  cbn [fb_width fb_height fb_pixels mbind option_bind ok_or] in *.
  eexists fb2, _. split; [reflexivity|]. split; [done|lia|lia| |].
  2:{ rewrite bool_decide_eq_true. split; intros Hne Heq; by apply Hne. }
  intros x y Hxr Hyr. rewrite Hw2, Hh2, Hh1 in *.
  specialize (Hpx x y Hxr Hyr). specialize (Hpx1 x y Hxr Hyr).
  rewrite pixel_at_px in Hpx1 |- * by lia. rewrite Hpx2, Hw2, Hpx.
  rewrite Hw1 in Hpx1. rewrite Hpx1. by destruct (tile_pixel tile x y).
Qed.

(** C3: a well-formed tile that stays within a 32-bit plane is drawn without a panic: the
    buffer grows to take it in, every position shows the tile's pixel where the tile
    covers it visibly and what was there before (transparent if nothing) elsewhere, the
    content rectangle is again a nonempty part of the buffer, and the result says whether
    the displayed size changed. *)
Theorem apply_tile_spec fb tile :
  fb_ok fb → tile_u32 tile → check_tile tile = Ok tt →
  tile_x tile + tile_w tile ≤ u32_max → tile_y tile + tile_h tile ≤ u32_max →
  grown_width fb tile * grown_height fb tile ≤ u32_max →
  ∃ fb' changed, apply_tile fb tile = Ok (fb', changed) ∧ fb_ok fb'
    ∧ fb_width fb' = Z.max (Z.max (fb_width fb) (tile_x tile + tile_w tile)) 1
    ∧ fb_height fb' = Z.max (Z.max (fb_height fb) (tile_y tile + tile_h tile)) 1
    ∧ (∀ x y, 0 ≤ x < fb_width fb' → 0 ≤ y < fb_height fb' →
         pixel_at fb' x y = Some (default (default TRANSPARENT_PIXEL (pixel_at fb x y))
                                    (tile_pixel tile x y)))
    ∧ (changed = true ↔ display_size fb' ≠ display_size fb).
Proof.
  intros. destruct (apply_tile_correct fb tile) as (fb' & changed & E & []); [done..|].
  by exists fb', changed.
Qed.

(** ** Rendering *)

(** One side of the fit: rounding to nearest, at least one pixel, never beyond the limit. *)
Lemma fit_side sw sh dw dh :
  1 ≤ sw → 1 ≤ sh → 1 ≤ dw → 1 ≤ dh → dw * sh ≤ sw * dh →
  let h := Z.min (Z.max ((dw * sh + sw / 2) / sw) 1) dh in
  1 ≤ h ≤ dh ∧ (h = 1 ∨ 2 * Z.abs (h * sw - dw * sh) ≤ sw).
Proof.
  intros Hsw Hsh Hdw Hdh Hle. set (q := (dw * sh + sw / 2) / sw). cbv zeta.
  assert (q * sw ≤ dw * sh + sw / 2 < (q + 1) * sw) as Hq.
  { unfold q. pose proof (Z.div_mod (dw * sh + sw / 2) sw).
    pose proof (Z.mod_pos_bound (dw * sh + sw / 2) sw). lia. }
  assert (2 * (sw / 2) ≤ sw < 2 * (sw / 2) + 2) as Hhalf by div_lia.
  assert (q ≤ dh) as Hqd by nia.
  split; [lia|]. destruct (Z.le_gt_cases q 1); [left; lia|right].
  rewrite Z.max_l, Z.min_l by lia. lia.
Qed.

(** [r] shows a [sw × sh] source letterboxed in a [dw × dh] window. *)
Definition letterboxed (sw sh dw dh : Z) (r : RenderRect) : Prop :=
  0 ≤ rr_x r ∧ 0 ≤ rr_y r ∧ 1 ≤ rr_w r ∧ 1 ≤ rr_h r
  ∧ 0 ≤ dw - rr_w r - 2 * rr_x r ≤ 1 ∧ 0 ≤ dh - rr_h r - 2 * rr_y r ≤ 1
  ∧ ((rr_w r = dw ∧ (rr_h r = 1 ∨ 2 * Z.abs (rr_h r * sw - dw * sh) ≤ sw)) ∨
     (rr_h r = dh ∧ (rr_w r = 1 ∨ 2 * Z.abs (rr_w r * sh - dh * sw) ≤ sh))).

Lemma aspect_fit_letterboxed src_width src_height dst_width dst_height :
  letterboxed (Z.max src_width 1) (Z.max src_height 1) (Z.max dst_width 1) (Z.max dst_height 1)
    (aspect_fit_rect src_width src_height dst_width dst_height).
Proof.
  unfold aspect_fit_rect, letterboxed.
  set (sw := Z.max src_width 1). set (sh := Z.max src_height 1).
  set (dw := Z.max dst_width 1). set (dh := Z.max dst_height 1).
  destruct (Z.ltb_spec (dw * sh) (sw * dh)) as [Hlt|Hge]; cbn [rr_x rr_y rr_w rr_h].
  - destruct (fit_side sw sh dw dh) as [Hr Ha]; [lia..|].
    set (h := Z.min _ dh) in *. clearbody h. split_and!; [div_lia..|]. left. auto.
  - destruct (fit_side sh sw dh dw) as [Hr Ha]; [lia..|].
    set (w := Z.min _ dw) in *. clearbody w. split_and!; [div_lia..|]. right. auto.
Qed.

(** The letterbox: the render rectangle lies within the window, is centred to within
    a pixel, fills one of its dimensions, and its other side is the source's aspect ratio
    to the nearest pixel (or the minimum of one pixel). *)
Theorem aspect_fit_rect_spec sw sh dw dh :
  1 ≤ sw → 1 ≤ sh → 1 ≤ dw → 1 ≤ dh → letterboxed sw sh dw dh (aspect_fit_rect sw sh dw dh).
Proof.
  intros. pose proof (aspect_fit_letterboxed sw sh dw dh) as Hl. by rewrite !Z.max_l in Hl by lia.
Qed.

Lemma scaled_in n k r : 0 ≤ k < n → 1 ≤ r → 0 ≤ k * r / n < r.
Proof.
  intros Hk Hr. split; [apply Z.div_pos; nia|apply Z.div_lt_upper_bound; nia].
Qed.

(** What copying a scaled region leaves in a plane of [dw] × [dh]. *)
Lemma copy_scaled_spec src sw sh region matte d0 dw dh render :
  Z.of_nat (length src) = sw * sh → rect_in region sw sh → Z.of_nat (length d0) = dw * dh →
  0 ≤ rr_x render → 0 ≤ rr_y render → 1 ≤ rr_w render → 1 ≤ rr_h render →
  rr_x render + rr_w render ≤ dw → rr_y render + rr_h render ≤ dh →
  ∃ px, copy_scaled_frame_region_into_rect src sw region matte d0 dw render = Some px
    ∧ length px = length d0
    ∧ ∀ x y, 0 ≤ x < dw → 0 ≤ y < dh →
        if bool_decide (rr_x render ≤ x < rr_x render + rr_w render ∧ rr_y render ≤ y < rr_y render + rr_h render)
        then ∃ s, px_at src ((fr_y region + (y - rr_y render) * fr_h region / rr_h render) * sw
                       + (fr_x region + (x - rr_x render) * fr_w region / rr_w render)) = Some s
                  ∧ px_at px (y * dw + x) = Some (pixel_for_softbuffer s matte)
        else px_at px (y * dw + x) = px_at d0 (y * dw + x).
Proof.
  intros Hsrc (Hrx & Hry & Hrw & Hrh & Hrxw & Hryh) Hd0 Hx Hy Hw Hh Hcx Hcy.
  unfold copy_scaled_frame_region_into_rect.
  assert (∀ r c, (r < Z.to_nat (rr_h render))%nat → (c < Z.to_nat (rr_w render))%nat →
    ∃ s, px_at src (scaled_src region sw render r c) = Some s) as Hread.
  { intros r c Hr Hc. apply px_at_in. rewrite Hsrc. unfold scaled_src.
    pose proof (scaled_in (rr_h render) (Z.of_nat r) (fr_h region)).
    pose proof (scaled_in (rr_w render) (Z.of_nat c) (fr_w region)). apply plane_index; lia. }
  destruct (grid_spec (Z.to_nat (rr_h render)) (Z.to_nat (rr_w render))
    (λ r c, Z.to_nat (scaled_dst dw render r c))
    (λ r c, p ← px_at src (scaled_src region sw render r c); Some (pixel_for_softbuffer p matte))
    (λ r c px, p ← px_at src (scaled_src region sw render r c);
               px_set px (scaled_dst dw render r c) (pixel_for_softbuffer p matte)) d0)
    as (px & E & Hlen & Hwr & Hrest).
  { intros r c r' c' Hr Hc Hr' Hc' Eq. unfold scaled_dst in Eq.
    apply Z2Nat.inj in Eq; [|nia..]. rewrite <- !Z.add_assoc in Eq. apply plane_index_inj in Eq; lia. }
  { intros r c px Hr Hc Hpl. destruct (Hread r c Hr Hc) as [s ->]. cbn [mbind option_bind].
    pose proof (plane_index dw dh (rr_y render + Z.of_nat r) (rr_x render + Z.of_nat c)) as Hi.
    unfold scaled_dst. rewrite <- Z.add_assoc. split; [lia|]. apply px_set_in. lia. }
  exists px. split; [exact E|]. split; [done|]. intros x y Hxr Hyr. case_bool_decide as Hin.
  - specialize (Hwr (Z.to_nat (y - rr_y render)) (Z.to_nat (x - rr_x render)) ltac:(lia) ltac:(lia)
      ltac:(unfold before; lia)).
    destruct (Hread (Z.to_nat (y - rr_y render)) (Z.to_nat (x - rr_x render)) ltac:(lia) ltac:(lia)) as [s Hs].
    rewrite Hs in Hwr. cbn [mbind option_bind] in Hwr. unfold scaled_dst in Hwr. unfold scaled_src in Hs.
    rewrite !Z2Nat.id, ?Zplus_minus in Hwr, Hs by lia. rewrite Zplus_minus in Hwr.
    replace (y * dw + rr_x render + (x - rr_x render)) with (y * dw + x) in Hwr by lia.
    by exists s.
  - unfold px_at. apply Hrest. intros r c Hr Hc _ Eq. apply Hin.
    unfold scaled_dst in Eq. apply Z2Nat.inj in Eq; [|nia..].
    rewrite <- Z.add_assoc in Eq. apply plane_index_inj in Eq; lia.
Qed.

Lemma copy_frame_region_total src sw sh region matte dst dw dh :
  Z.of_nat (length src) = sw * sh → rect_in region sw sh →
  Z.of_nat (length dst) = dw * dh → 1 ≤ dw → 1 ≤ dh →
  is_Some (copy_frame_region_preserve_aspect src sw region matte dst dw dh).
Proof.
  intros Hsrc Hrg Hdst Hdw Hdh. unfold copy_frame_region_preserve_aspect.
  destruct (aspect_fit_letterboxed (fr_w region) (fr_h region) dw dh) as (Hx & Hy & Hw & Hh & Hcx & Hcy & _).
  rewrite (Z.max_l dw 1), (Z.max_l dh 1) in * by lia.
  destruct (copy_scaled_spec src sw sh region matte (replicate (length dst) (opaque_softbuffer_pixel matte))
    dw dh (aspect_fit_rect (fr_w region) (fr_h region) dw dh)) as (px & -> & _); [done|done| |lia..|by eexists].
  by rewrite length_replicate.
Qed.

(** Painting a window never panics and fills it: inside the letterbox every pixel is
    the corresponding source pixel drawn over the matte, outside it the matte, and all
    are opaque. *)
Theorem copy_frame_region_spec src sw sh region matte dst dw dh :
  Z.of_nat (length src) = sw * sh → rect_in region sw sh →
  Z.of_nat (length dst) = dw * dh → 1 ≤ dw → 1 ≤ dh →
  let render := aspect_fit_rect (fr_w region) (fr_h region) dw dh in
  ∃ dst', copy_frame_region_preserve_aspect src sw region matte dst dw dh = Some dst'
    ∧ length dst' = length dst
    ∧ ∀ x y, 0 ≤ x < dw → 0 ≤ y < dh → ∃ p, px_at dst' (y * dw + x) = Some p ∧ pixel_alpha p = 255 ∧
        if bool_decide (rr_x render ≤ x < rr_x render + rr_w render ∧ rr_y render ≤ y < rr_y render + rr_h render)
        then ∃ s, px_at src ((fr_y region + (y - rr_y render) * fr_h region / rr_h render) * sw
                       + (fr_x region + (x - rr_x render) * fr_w region / rr_w render)) = Some s
                  ∧ p = pixel_for_softbuffer s matte
        else p = opaque_softbuffer_pixel matte.
Proof.
  intros Hsrc Hrg Hdst Hdw Hdh render.
  destruct (aspect_fit_letterboxed (fr_w region) (fr_h region) dw dh)
    as (Hx & Hy & Hw & Hh & Hcx & Hcy & _). fold render in Hx, Hy, Hw, Hh, Hcx, Hcy.
  rewrite (Z.max_l dw 1), (Z.max_l dh 1) in * by lia.
  unfold copy_frame_region_preserve_aspect. fold render.
  set (d0 := replicate (length dst) (opaque_softbuffer_pixel matte)).
  assert (Z.of_nat (length d0) = dw * dh) as Hd0 by (unfold d0; by rewrite length_replicate).
  destruct (copy_scaled_spec src sw sh region matte d0 dw dh render)
    as (px & -> & Hlen & Hpx); [done|done|done|lia..|].
  exists px. split; [done|]. split; [rewrite Hlen; apply length_replicate|].
  intros x y Hxr Hyr. specialize (Hpx x y Hxr Hyr). case_bool_decide as Hin.
  - destruct Hpx as (s & Hs & ->). eexists. split; [done|]. split; [apply softbuffer_alpha|]. by exists s.
  - rewrite Hpx. eexists. split; [|split; [apply opaque_alpha|done]].
    unfold px_at, d0. apply lookup_replicate_2. pose proof (plane_index dw dh y x Hxr Hyr). lia.
Qed.

(** ** Witnesses *)

Definition sample_fb : FrameBuffer :=
  mkFrameBuffer 2 1 [0xff112233; 0] (mkFrameRect 0 0 1 1) DEFAULT_MATTE_PIXEL.

(** Two columns by one row at (1, 0): an opaque pixel and an invisible one. *)
Definition sample_raw_tile : FrameTile :=
  mkFrameTile 7 1 0 2 1 8 RawRgba
    [Byte.x01; Byte.x02; Byte.x03; Byte.xff; Byte.x09; Byte.x09; Byte.x09; Byte.x00].

Lemma sample_fb_ok : fb_ok sample_fb.
Proof. split; [done..|]. unfold rect_in. cbn. lia. Qed.

Lemma resize_spec_witness :
  ∃ fb', resize sample_fb 3 2 = Some fb' ∧ fb_ok fb' ∧ pixel_at fb' 0 0 = Some 0xff112233.
Proof.
  destruct (proj1 (resize_spec sample_fb 3 2 sample_fb_ok ltac:(lia) ltac:(lia)))
    as (fb' & E & Hok & _ & _ & _ & Hpx).
  exists fb'. split; [exact E|]. split; [exact Hok|]. apply (Hpx 0 0); lia.
Defined.

Lemma trim_uniform_padding_spec_witness :
  ∃ r, trim_uniform_padding (fb_pixels sample_fb) 2 (mkFrameRect 0 0 2 1) = Some r ∧ rect_in r 2 1.
Proof.
  destruct (trim_uniform_padding_spec (fb_pixels sample_fb) 2 1 (mkFrameRect 0 0 2 1))
    as (r & E & H1 & _); [done|unfold u32_max; lia|unfold rect_in; cbn; lia|].
  exists r. split; [exact E|exact H1].
Defined.

Lemma apply_tile_spec_witness :
  ∃ fb' changed, apply_tile sample_fb sample_raw_tile = Ok (fb', changed) ∧ fb_ok fb'
    ∧ pixel_at fb' 0 0 = Some 0xff112233 ∧ pixel_at fb' 1 0 = Some 0xff010203
    ∧ pixel_at fb' 2 0 = Some TRANSPARENT_PIXEL.
Proof.
  destruct (apply_tile_spec sample_fb sample_raw_tile sample_fb_ok)
    as (fb' & changed & E & Hok & Hw & Hh & Hpx & _).
  - unfold tile_u32, is_u32, u32_max. cbn. lia.
  - reflexivity.
  - unfold u32_max. cbn. lia.
  - unfold u32_max. cbn. lia.
  - vm_compute. congruence.
  - exists fb', changed. split; [exact E|]. split; [exact Hok|].
    cbn in Hw, Hh. rewrite !Hpx by lia. split_and!; reflexivity.
Defined.

Lemma copy_frame_region_spec_witness :
  ∃ dst', copy_frame_region_preserve_aspect (fb_pixels sample_fb) 2 (mkFrameRect 0 0 1 1)
            DEFAULT_MATTE_PIXEL [0; 0; 0] 3 1 = Some dst' ∧ length dst' = 3%nat.
Proof.
  destruct (copy_frame_region_spec (fb_pixels sample_fb) 2 1 (mkFrameRect 0 0 1 1)
    DEFAULT_MATTE_PIXEL [0; 0; 0] 3 1) as (dst' & E & Hl & _);
    [done|unfold rect_in; cbn; lia|done|lia..|].
  exists dst'. split; [exact E|exact Hl].
Defined.

Lemma aspect_fit_rect_spec_witness :
  letterboxed 16 9 1000 1000 (aspect_fit_rect 16 9 1000 1000).
Proof. apply aspect_fit_rect_spec; lia. Defined.
