(* ===== verification/Geometry.v ===== *)
(** * Geometry of the viewer (client viewer: geometry.rs, move_resize.rs, adopt.rs)

    The pure functions that turn host sizes and cursor positions into guest ones and back.
    Pixel counts are integers at their width; cursor positions and scales are the floats of
    [Float.v]. Unchecked [i32] arithmetic wraps, as in a release build. *)

From Stdlib Require Import SpecFloat.
From S2P Require Import Prelude Float Wire Frame.

Abbreviation f64 := spec_float (only parsing).

(** [PhysicalPosition<f64>], [PhysicalPosition<i32>] and [PhysicalSize<u32>] of winit. *)
Abbreviation fpos := (spec_float * spec_float)%type (only parsing).
Abbreviation ipos := (Z * Z)%type (only parsing).
Abbreviation psize := (Z * Z)%type (only parsing).

Inductive ResizeDirection :=
  | East | North | NorthEast | NorthWest | South | SouthEast | SouthWest | West.

#[export] Instance ResizeDirection_eq_dec : EqDecision ResizeDirection.
Proof. solve_decision. Defined.

(** ** frame.rs: scaled lengths *)

Definition scaled_len (len : Z) (scale : f32) : option Z :=
  as_u32_sat <$> fclamp (F32.round (F32.mul (F32.of_int (Z.max len 1)) scale))
                   (F32.of_int 1) (F32.of_int u32_max).

(** ** geometry.rs *)

(** One side of [compute_remote_size]. *)
Definition remote_len (inner : Z) (scale : f64) (hidden : Z) : Z :=
  sat_add u32_max (as_u32_sat (fmax (F64.round (F64.div (F64.of_int (Z.max inner 1)) scale)) (F64.of_int 1)))
    hidden.

Definition compute_remote_size (inner : psize) (view_scale : f32) (content_w content_h frame_w frame_h : Z) : Z * Z :=
  let scale := fmax view_scale (f32_lit 1 100) in
  let hidden_width := sat_sub frame_w content_w in
  let hidden_height := sat_sub frame_h content_h in
  (remote_len inner.1 scale hidden_width, remote_len inner.2 scale hidden_height).

Definition physical_to_logical_size (physical_w physical_h : Z) (scale : f64) : f64 * f64 :=
  let safe_scale := fmax scale (F64.of_int 1) in
  let logical v := fmax (F64.round (F64.div (F64.of_int v) safe_scale)) (F64.of_int 1) in
  (logical physical_w, logical physical_h).

(** move_resize.rs *)
Definition u32_abs_diff (a b : Z) : Z := Z.max a b - Z.min a b.

Definition physical_size_close (expected actual : psize) : bool :=
  (u32_abs_diff expected.1 actual.1 <=? 32) && (u32_abs_diff expected.2 actual.2 <=? 32).

Definition programmatic_resize_matches (expected actual : psize) : bool :=
  if physical_size_close expected actual then true else
  let width_applied := physical_size_close (expected.1, 1) (actual.1, 1) in
  let height_applied := physical_size_close (1, expected.2) (1, actual.2) in
  (width_applied && (actual.2 <=? expected.2)) || (height_applied && (actual.1 <=? expected.1)).

(** The pending size is taken whether it matches or not. *)
Definition consume_programmatic_resize_gate (pending : option psize) (actual : psize) : bool * option psize :=
  match pending with
  | None => (false, None)
  | Some expected => (programmatic_resize_matches expected actual, None)
  end.

Definition clamp_f64_to_i32 (value : f64) (min max : Z) : option Z :=
  as_i32_sat <$> fclamp value (F64.of_int min) (F64.of_int max).

(** One axis of [cursor_to_frame_coords]: [None] is the panic of [f64::clamp]. *)
Definition cursor_axis (host : f64) (map_pos map_len content_pos content_len max : Z) : option Z :=
  local ← fclamp (F64.sub host (F64.of_int map_pos)) (F64.of_int 0) (F64.of_int (sat_sub map_len 1));
  clamp_f64_to_i32
    (F64.add (F64.of_int content_pos)
       (F64.div (F64.mul local (F64.of_int (Z.max content_len 1))) (F64.of_int (Z.max map_len 1)))) 0 max.

Definition cursor_to_frame_coords (host_x host_y : f64) (inner : psize) (content : FrameRect)
    (frame_size : psize) : option (Z * Z) :=
  let mapping := aspect_fit_rect (fr_w content) (fr_h content) inner.1 inner.2 in
  let max_x := as_i32 (sat_sub frame_size.1 1) in
  let max_y := as_i32 (sat_sub frame_size.2 1) in
  x ← cursor_axis host_x (rr_x mapping) (rr_w mapping) (fr_x content) (fr_w content) max_x;
  y ← cursor_axis host_y (rr_y mapping) (rr_h mapping) (fr_y content) (fr_h content) max_y;
  Some (x, y).

Record ResizeDrag := mkResizeDrag { direction : ResizeDirection; start_outer : ipos; start_size : psize }.

Definition apply_resize_direction (drag : ResizeDrag) (cursor_x cursor_y : f64) : f64 * f64 * f64 * f64 :=
  let left := F64.of_int (start_outer drag).1 in
  let top := F64.of_int (start_outer drag).2 in
  let right := F64.add left (F64.of_int (start_size drag).1) in
  let bottom := F64.add top (F64.of_int (start_size drag).2) in
  match direction drag with
  | East => (left, top, cursor_x, bottom)
  | North => (left, cursor_y, right, bottom)
  | NorthEast => (left, cursor_y, cursor_x, bottom)
  | NorthWest => (cursor_x, cursor_y, right, bottom)
  | South => (left, top, right, cursor_y)
  | SouthEast => (left, top, cursor_x, cursor_y)
  | SouthWest => (cursor_x, top, right, cursor_y)
  | West => (cursor_x, top, right, bottom)
  end.

Definition compute_effective_content_rect (uses_own_chrome : bool) (frame_w frame_h : Z)
    (content : FrameRect) : FrameRect :=
  if uses_own_chrome then FrameRect_new 0 0 (Z.max frame_w 1) (Z.max frame_h 1) else content.

Definition clamp_display_size (w h : Z) : Z * Z := (Z.max w 1, Z.max h 1).

Definition host_resize_resync_needed (current desired : psize) : bool :=
  if physical_size_close current desired then false
  else (current.1 <? desired.1) || (current.2 <? desired.2).

(** ** move_resize.rs *)

Definition RESIZE_BORDER_PX : f64 := F64.of_int 8.
Definition MIN_VIEWER_WIDTH : Z := 240.
Definition MIN_VIEWER_HEIGHT : Z := 160.
Definition CURSOR_EDGE_SNAP_DISTANCE_PX : f64 := F64.of_int 96.
Definition LEFT_RIGHT_EDGE_SNAP_DISTANCE_PX : f64 := F64.of_int 8.
Definition TITLEBAR_BUTTON_HEIGHT_PX : Z := 64.
Definition TITLEBAR_DOUBLE_CLICK_HEIGHT_PX : Z := 96.
Definition TITLEBAR_RIGHT_CONTROL_WIDTH_PX : Z := 120.
Definition TITLEBAR_MAXIMIZE_LEFT_OFFSET_PX : Z := 100.
Definition TITLEBAR_MAXIMIZE_RIGHT_OFFSET_PX : Z := 60.

Record MoveDrag := mkMoveDrag { start_cursor_window : fpos; press_outer : ipos }.

Record EdgeSnapRect := mkEdgeSnapRect { snap_position : ipos; snap_size : psize }.

(** [at] is the instant of the release. *)
Inductive MoveState :=
  | Move_Idle
  | Move_Pressed (drag : MoveDrag)
  | Move_Released (drag : MoveDrag) (at_ : Z)
  | Move_Dragging (drag : MoveDrag).

Definition is_dragging (m : MoveState) : bool :=
  match m with Move_Dragging _ => true | _ => false end.

(** [i32] subtraction and [abs], which wrap. *)
Definition i32_sub (a b : Z) : Z := as_i32 (a - b).
Definition i32_abs (a : Z) : Z := as_i32 (Z.abs a).

Definition compute_manual_move_outer (press : ipos) (start_cursor cursor : fpos) : ipos :=
  let dx := F64.sub cursor.1 start_cursor.1 in
  let dy := F64.sub cursor.2 start_cursor.2 in
  (as_i32 (press.1 + as_i32_sat (F64.round dx)), as_i32 (press.2 + as_i32_sat (F64.round dy))).

Definition resize_direction_at (position : fpos) (sz : psize) : option ResizeDirection :=
  let width := F64.of_int (Z.max sz.1 1) in
  let height := F64.of_int (Z.max sz.2 1) in
  let border := fmin (fmin RESIZE_BORDER_PX (F64.div width (F64.of_int 2)))
                  (F64.div height (F64.of_int 2)) in
  let west := fleb position.1 border in
  let east := fleb (F64.sub width border) position.1 in
  let north := fleb position.2 border in
  let south := fleb (F64.sub height border) position.2 in
  match west, east, north, south with
  | true, _, true, _ => Some NorthWest
  | _, true, true, _ => Some NorthEast
  | true, _, _, true => Some SouthWest
  | _, true, _, true => Some SouthEast
  | true, _, _, _ => Some West
  | _, true, _, _ => Some East
  | _, _, true, _ => Some North
  | _, _, _, true => Some South
  | _, _, _, _ => None
  end.

Definition uses_west_edge (d : ResizeDirection) : bool :=
  match d with West | NorthWest | SouthWest => true | _ => false end.
Definition uses_north_edge (d : ResizeDirection) : bool :=
  match d with North | NorthEast | NorthWest => true | _ => false end.

Definition clamp_manual_resize (d : ResizeDirection) (l t r b : f64) : f64 * f64 * f64 * f64 :=
  let min_width := F64.of_int MIN_VIEWER_WIDTH in
  let min_height := F64.of_int MIN_VIEWER_HEIGHT in
  let '(l, r) :=
    if fltb (F64.sub r l) min_width then
      if uses_west_edge d then (F64.sub r min_width, r) else (l, F64.add l min_width)
    else (l, r) in
  let '(t, b) :=
    if fltb (F64.sub b t) min_height then
      if uses_north_edge d then (F64.sub b min_height, b) else (t, F64.add t min_height)
    else (t, b) in
  (l, t, r, b).

Record SnappedEdges := mkEdges { at_west : bool; at_east : bool; at_north : bool; at_south : bool }.

Definition cursor_snap_edges (cursor : fpos) (monitor_position : ipos) (monitor_size : psize) : option SnappedEdges :=
  let monitor_left := F64.of_int monitor_position.1 in
  let monitor_top := F64.of_int monitor_position.2 in
  let monitor_right := F64.add monitor_left (F64.of_int (Z.max monitor_size.1 1)) in
  let monitor_bottom := F64.add monitor_top (F64.of_int (Z.max monitor_size.2 1)) in
  let snap_distance := CURSOR_EDGE_SNAP_DISTANCE_PX in
  let west := fleb cursor.1 (F64.add monitor_left snap_distance) in
  let east := fleb (F64.sub monitor_right snap_distance) cursor.1 in
  let north := fleb cursor.2 (F64.add monitor_top snap_distance) in
  let south := fleb (F64.sub monitor_bottom snap_distance) cursor.2 in
  if west || east || north || south then Some (mkEdges west east north south) else None.

Definition tile_rect_for_edges (monitor_position : ipos) (monitor_size : psize) (edges : SnappedEdges) : EdgeSnapRect :=
  let monitor_left := monitor_position.1 in
  let monitor_top := monitor_position.2 in
  let monitor_width := Z.max monitor_size.1 1 in
  let monitor_height := Z.max monitor_size.2 1 in
  let half_width := Z.max (monitor_width / 2) (Z.min MIN_VIEWER_WIDTH monitor_width) in
  let right_width := Z.max (sat_sub monitor_width half_width) 1 in
  let half_height := Z.max (monitor_height / 2) (Z.min MIN_VIEWER_HEIGHT monitor_height) in
  let bottom_height := Z.max (sat_sub monitor_height half_height) 1 in
  let '(x, width) :=
    match at_west edges, at_east edges with
    | true, false => (monitor_left, half_width)
    | false, true => (sat_i32 (monitor_left + as_i32 half_width), right_width)
    | _, _ => (monitor_left, monitor_width)
    end in
  let '(y, height) :=
    match at_north edges, at_south edges with
    | true, false =>
        if at_west edges || at_east edges then (monitor_top, half_height) else (monitor_top, monitor_height)
    | false, true => (sat_i32 (monitor_top + as_i32 half_height), bottom_height)
    | _, _ => (monitor_top, monitor_height)
    end in
  mkEdgeSnapRect (x, y) (width, height).

Definition reject_unchanged_tile (rect : EdgeSnapRect) (outer_position : ipos) (outer_size : psize) : option EdgeSnapRect :=
  if physical_size_close (snap_size rect) outer_size
     && (i32_abs (i32_sub (snap_position rect).1 outer_position.1) <=? 1)
     && (i32_abs (i32_sub (snap_position rect).2 outer_position.2) <=? 1)
  then None else Some rect.

Definition cursor_edge_tile_rect (cursor : fpos) (outer_position : ipos) (outer_size : psize)
    (monitor_position : ipos) (monitor_size : psize) : option EdgeSnapRect :=
  edges ← cursor_snap_edges cursor monitor_position monitor_size;
  reject_unchanged_tile (tile_rect_for_edges monitor_position monitor_size edges) outer_position outer_size.

Definition cursor_left_right_tile_rect (cursor : fpos) (outer_position : ipos) (outer_size : psize)
    (monitor_position : ipos) (monitor_size : psize) (top_inset_px : Z) : option EdgeSnapRect :=
  let monitor_left := F64.of_int monitor_position.1 in
  let monitor_right := F64.add monitor_left (F64.of_int (Z.max monitor_size.1 1)) in
  let on_left := fleb cursor.1 (F64.add monitor_left LEFT_RIGHT_EDGE_SNAP_DISTANCE_PX) in
  let on_right := fleb (F64.sub monitor_right LEFT_RIGHT_EDGE_SNAP_DISTANCE_PX) cursor.1 in
  if Bool.eqb on_left on_right then None else
  let monitor_width := Z.max monitor_size.1 1 in
  let visible_height := Z.max (sat_sub monitor_size.2 top_inset_px) 1 in
  let visible_top := sat_i32 (monitor_position.2 + as_i32 top_inset_px) in
  let half_width := Z.max (monitor_width / 2) (Z.min MIN_VIEWER_WIDTH monitor_width) in
  let rect :=
    if on_left then mkEdgeSnapRect (monitor_position.1, visible_top) (half_width, visible_height)
    else mkEdgeSnapRect (sat_i32 (monitor_position.1 + as_i32 half_width), visible_top)
           (Z.max (sat_sub monitor_width half_width) 1, visible_height) in
  reject_unchanged_tile rect outer_position outer_size.

Definition is_titlebar_maximize_button (x y frame_width : Z) : bool :=
  let frame_width := as_i32 (Z.max frame_width 1) in
  (0 <=? y) && (y <=? TITLEBAR_BUTTON_HEIGHT_PX)
  && (sat_i32 (frame_width - TITLEBAR_MAXIMIZE_LEFT_OFFSET_PX) <=? x)
  && (x <=? sat_i32 (frame_width - TITLEBAR_MAXIMIZE_RIGHT_OFFSET_PX)).

Definition is_titlebar_double_click_area (x y frame_width : Z) : bool :=
  let frame_width := as_i32 (Z.max frame_width 1) in
  (0 <=? y) && (y <=? TITLEBAR_DOUBLE_CLICK_HEIGHT_PX) && (0 <=? x)
  && (x <? sat_i32 (frame_width - TITLEBAR_RIGHT_CONTROL_WIDTH_PX)).

(** ** adopt.rs *)

Definition should_adopt_host_window (already_adopted size_changed : bool) : bool :=
  size_changed && negb already_adopted.

Definition ADOPTION_MIN_CONTENT_W : Z := 240.
Definition ADOPTION_MIN_CONTENT_H : Z := 160.
Definition ADOPTION_MAX_ASPECT : f64 := F64.of_int 5.

Definition is_content_rect_adoptable (content_w content_h : Z) : bool :=
  if (content_w <? ADOPTION_MIN_CONTENT_W) || (content_h <? ADOPTION_MIN_CONTENT_H) then false else
  let w := F64.of_int content_w in
  let h := F64.of_int content_h in
  let aspect := if fleb h w then F64.div w h else F64.div h w in
  fleb aspect ADOPTION_MAX_ASPECT.

Definition initial_adopt_cap (frame_w frame_h monitor_w monitor_h min_w min_h : f64) : option (f64 * f64) :=
  let oversized := fltb (F64.mul monitor_w (f64_lit 85 100)) frame_w
                   || fltb (F64.mul monitor_h (f64_lit 85 100)) frame_h in
  if negb oversized then None
  else Some (fmax (F64.mul monitor_w (f64_lit 7 10)) min_w, fmax (F64.mul monitor_h (f64_lit 7 10)) min_h).

(** ** Cursor mapping *)

Lemma one_int : is_int (F64.of_int 1) 1.
Proof. by apply f64_int. Qed.

Lemma cursor_axis_range host map_pos map_len content_pos content_len max :
  is_u32 map_len → 0 ≤ max ≤ i32_max →
  ∃ z, cursor_axis host map_pos map_len content_pos content_len max = Some z ∧ 0 ≤ z ≤ max.
Proof.
  unfold is_u32, u32_max, i32_max. intros Hm Hmax. unfold cursor_axis, clamp_f64_to_i32.
  destruct (fclamp_total (F64.sub host (F64.of_int map_pos)) (F64.of_int 0) (F64.of_int (sat_sub map_len 1))
    0 (sat_sub map_len 1)) as [u ->]; [by apply f64_int|apply f64_int; unfold sat_sub; lia|unfold sat_sub; lia|].
  cbn [mbind option_bind]. set (v := F64.add _ _).
  destruct (fclamp_total v (F64.of_int 0) (F64.of_int max) 0 max) as [y Hy];
    [by apply f64_int|apply f64_int; lia|lia|].
  rewrite Hy. cbn. eexists. split; [done|].
  apply (fclamp_cast v (F64.of_int 0) (F64.of_int max) 0 max); try lia;
    [by apply f64_int|apply f64_int; lia|exact Hy].
Qed.

Lemma cursor_to_frame_range host_x host_y inner content fw fh :
  1 ≤ inner.1 ≤ u32_max → 1 ≤ inner.2 ≤ u32_max → 1 ≤ fw ≤ i32_max → 1 ≤ fh ≤ i32_max →
  ∃ x y, cursor_to_frame_coords host_x host_y inner content (fw, fh) = Some (x, y)
    ∧ 0 ≤ x < fw ∧ 0 ≤ y < fh.
Proof.
  intros Hw Hh Hfw Hfh. unfold cursor_to_frame_coords. cbn [fst snd].
  destruct (aspect_fit_letterboxed (fr_w content) (fr_h content) inner.1 inner.2)
    as (Hx & Hy & Hmw & Hmh & Hcx & Hcy & _). rewrite !(Z.max_l _ 1) in * by lia.
  assert (∀ n, 1 ≤ n ≤ i32_max → as_i32 (sat_sub n 1) = n - 1) as Hcast.
  { intros n Hn. unfold as_i32, sat_sub. unfold i32_max in *. rewrite Z.max_r, Z.mod_small by lia.
    by rewrite (proj2 (Z.leb_le _ _)) by lia. }
  rewrite !Hcast by done.
  set (mp := aspect_fit_rect _ _ _ _) in *.
  destruct (cursor_axis_range host_x (rr_x mp) (rr_w mp) (fr_x content) (fr_w content) (fw - 1))
    as (x & -> & ?); [unfold is_u32; lia|lia|].
  destruct (cursor_axis_range host_y (rr_y mp) (rr_h mp) (fr_y content) (fr_h content) (fh - 1))
    as (y & -> & ?); [unfold is_u32; lia|lia|].
  exists x, y. split; [done|lia].
Qed.

(** Unscaled, a whole position is kept. *)
Lemma cursor_axis_exact c n pos max : 0 ≤ c < n → n < 2 ^ 26 → 0 ≤ pos → pos + n ≤ max + 1 → max ≤ i32_max →
  cursor_axis (F64.of_int c) 0 n pos n max = Some (pos + c).
Proof.
  unfold i32_max. intros Hc Hn Hpos Hmax Hmax2. unfold cursor_axis.
  assert (∀ z, Z.abs z < 2 ^ 52 → is_int (F64.of_int z) z) as Hz by (intros z Hz; apply f64_int; lia).
  assert (is_int (F64.sub (F64.of_int c) (F64.of_int 0)) (c - 0)) as Hsub
    by (apply f64_sub; first [apply Hz; lia|lia]).
  destruct (fclamp_int _ (F64.of_int 0) (F64.of_int (sat_sub n 1)) (c - 0) 0 (sat_sub n 1) Hsub)
    as (y & -> & Hy); [apply Hz; lia|apply Hz; unfold sat_sub; lia|unfold sat_sub; lia|].
  cbn [mbind option_bind]. rewrite !(Z.max_l n) by lia.
  replace (Z.max 0 (Z.min (sat_sub n 1) (c - 0))) with c in Hy by (unfold sat_sub; lia).
  assert (is_int (F64.mul y (F64.of_int n)) (c * n)) as Hmul
    by (apply f64_mul; first [exact Hy|apply Hz; lia|nia]).
  assert (is_int (F64.div (F64.mul y (F64.of_int n)) (F64.of_int n)) c) as Hdiv
    by (apply (f64_div _ _ c n); first [exact Hmul|apply Hz; lia|lia]).
  assert (is_int (F64.add (F64.of_int pos) (F64.div (F64.mul y (F64.of_int n)) (F64.of_int n))) (pos + c)) as Hadd
    by (apply f64_add; first [exact Hdiv|apply Hz; lia|lia]).
  unfold clamp_f64_to_i32.
  destruct (fclamp_int _ (F64.of_int 0) (F64.of_int max) (pos + c) 0 max Hadd) as (u & -> & Hu);
    [apply Hz; lia|apply Hz; lia|lia|].
  cbn. unfold as_i32_sat. rewrite (fcast_int _ _ _ _ Hu). f_equal. lia.
Qed.

(** C38: where the pointer is: whatever the position the host reports (outside the window, NaN)
    and whatever the content rectangle, the mapping does not panic and names a pixel of the
    frame; in a window of just the content's size, a whole position is that position of the
    content. *)
Theorem cursor_to_frame_spec host_x host_y inner content fw fh :
  1 ≤ inner.1 ≤ u32_max → 1 ≤ inner.2 ≤ u32_max → 1 ≤ fw ≤ i32_max → 1 ≤ fh ≤ i32_max →
  (∃ x y, cursor_to_frame_coords host_x host_y inner content (fw, fh) = Some (x, y)
     ∧ 0 ≤ x < fw ∧ 0 ≤ y < fh) ∧
  (∀ cx cy, inner = (fr_w content, fr_h content) → rect_in content fw fh →
     fr_w content < 2 ^ 26 → fr_h content < 2 ^ 26 →
     0 ≤ cx < fr_w content → 0 ≤ cy < fr_h content →
     cursor_to_frame_coords (F64.of_int cx) (F64.of_int cy) inner content (fw, fh)
     = Some (fr_x content + cx, fr_y content + cy)).
Proof.
  intros Hw Hh Hfw Hfh. split; [by apply cursor_to_frame_range|].
  intros cx cy -> (Hrx & Hry & Hrw & Hrh & Hrxw & Hryh) Hsw Hsh Hcx Hcy.
  unfold cursor_to_frame_coords. cbn [fst snd].
  assert (aspect_fit_rect (fr_w content) (fr_h content) (fr_w content) (fr_h content)
          = mkRenderRect 0 0 (fr_w content) (fr_h content)) as ->.
  { unfold aspect_fit_rect. rewrite !(Z.max_l _ 1) by lia. rewrite (Z.ltb_irrefl).
    replace ((fr_h content * fr_w content + fr_h content / 2) / fr_h content) with (fr_w content)
      by (rewrite (Z.mul_comm (fr_h content)), Z.div_add_l, (Z.div_small (fr_h content / 2)) by div_lia; lia).
    rewrite Z.max_l, Z.min_id by lia. unfold sat_sub. by rewrite !Z.sub_diag. }
  cbn [rr_x rr_y rr_w rr_h].
  unfold as_i32, sat_sub. unfold i32_max in *. rewrite !(Z.max_r 0) by lia. rewrite !Z.mod_small by lia.
  rewrite !(proj2 (Z.leb_le _ _)) by lia.
  rewrite !cursor_axis_exact by (unfold i32_max; lia). done.
Qed.

(** ** Sizes there and back *)

Lemma remote_len_unscaled inner hidden : 1 ≤ inner ≤ u32_max → 0 ≤ hidden →
  remote_len inner (fmax (F32.of_int 1) (f32_lit 1 100)) hidden = Z.min (inner + hidden) u32_max.
Proof.
  unfold u32_max. intros Hi Hh. unfold remote_len. rewrite Z.max_l by lia.
  assert (is_int (fmax (F32.of_int 1) (f32_lit 1 100)) 1) as H1 by by vm_compute.
  assert (is_int (F64.div (F64.of_int inner) (fmax (F32.of_int 1) (f32_lit 1 100))) inner) as Hd.
  { apply (f64_div _ _ inner 1); [|done|lia|lia]. rewrite Z.mul_1_r. apply f64_int. lia. }
  assert (is_int (fmax (F64.round (F64.div (F64.of_int inner) (fmax (F32.of_int 1) (f32_lit 1 100))))
                    (F64.of_int 1)) (Z.max inner 1)) as Hm.
  { apply fmax_int; [apply f64_round; [exact Hd|lia]|exact one_int]. }
  unfold as_u32_sat. rewrite (fcast_int _ _ _ _ Hm). unfold sat_add, u32_max. lia.
Qed.

Lemma scaled_len_unscaled len : 1 ≤ len < 2 ^ 24 → scaled_len len (F32.of_int 1) = Some len.
Proof.
  intros Hl. unfold scaled_len. rewrite Z.max_l by lia.
  assert (is_int (F32.of_int len) len) as Hi by (apply of_Z_int; lia).
  assert (is_int (F32.mul (F32.of_int len) (F32.of_int 1)) (len * 1)) as Hm
    by (apply fmul_int; first [exact Hi|apply of_Z_int; lia|lia]).
  assert (is_int (F32.round (F32.mul (F32.of_int len) (F32.of_int 1))) (len * 1)) as Hr
    by (apply fround_int; first [exact Hm|lia]).
  assert (is_int (F32.of_int u32_max) 4294967296) as Hu by (vm_compute; done).
  destruct (fclamp_int _ (F32.of_int 1) (F32.of_int u32_max) (len * 1) 1 4294967296 Hr) as (y & -> & Hy);
    [apply of_Z_int; lia|exact Hu|lia|].
  cbn. unfold as_u32_sat. rewrite (fcast_int _ _ _ _ Hy). f_equal. lia.
Qed.

Lemma scaled_len_total len scale : is_Some (scaled_len len scale).
Proof.
  unfold scaled_len, fclamp. replace (fleb (F32.of_int 1) (F32.of_int u32_max)) with true by by vm_compute.
  by eexists.
Qed.

(** A guest asked for the size its own content is shown at is asked for its own size. *)
Lemma compute_remote_size_back fb_w fb_h cw ch :
  1 ≤ cw ≤ fb_w → 1 ≤ ch ≤ fb_h → fb_w ≤ u32_max → fb_h ≤ u32_max →
  compute_remote_size (cw, ch) (F32.of_int 1) cw ch fb_w fb_h = (fb_w, fb_h).
Proof.
  intros Hw Hh Hfw Hfh. unfold compute_remote_size, sat_sub. cbn [fst snd].
  rewrite !remote_len_unscaled by lia. f_equal; lia.
Qed.

(** ** Host windows at the edges of a monitor *)

Lemma half_width_range m : 1 ≤ m →
  let half := Z.max (m / 2) (Z.min MIN_VIEWER_WIDTH m) in 1 ≤ half ≤ m.
Proof. unfold MIN_VIEWER_WIDTH. intros. cbv zeta. assert (m / 2 ≤ m) by div_lia. lia. Qed.

Lemma half_height_range m : 1 ≤ m →
  let half := Z.max (m / 2) (Z.min MIN_VIEWER_HEIGHT m) in 1 ≤ half ≤ m.
Proof. unfold MIN_VIEWER_HEIGHT. intros. cbv zeta. assert (m / 2 ≤ m) by div_lia. lia. Qed.

Lemma as_i32_small z : 0 ≤ z ≤ i32_max → as_i32 z = z.
Proof.
  unfold as_i32, i32_max. intros Hz. rewrite Z.mod_small by lia.
  by rewrite (proj2 (Z.leb_le _ _)) by lia.
Qed.

(** [p] lies in the rectangle. *)
Definition in_snap (r : EdgeSnapRect) (p : Z * Z) : Prop :=
  (snap_position r).1 ≤ p.1 < (snap_position r).1 + (snap_size r).1 ∧
  (snap_position r).2 ≤ p.2 < (snap_position r).2 + (snap_size r).2.

Definition in_monitor (position size : Z * Z) (p : Z * Z) : Prop :=
  position.1 ≤ p.1 < position.1 + size.1 ∧ position.2 ≤ p.2 < position.2 + size.2.

(** The tiles of a monitor wider than the least window (and higher): the left and the right
    half do not overlap and together are the monitor; the quarter of a corner is the half of
    its side cut by the half of the top or bottom; and a window snapped to the left and the
    right edge at once, or to none, fills the monitor's width. *)
Theorem tiles_partition pos sz :
  is_i32 pos.1 → is_i32 pos.2 → MIN_VIEWER_WIDTH < sz.1 → MIN_VIEWER_HEIGHT < sz.2 →
  pos.1 + sz.1 ≤ i32_max → pos.2 + sz.2 ≤ i32_max → sz.1 ≤ i32_max → sz.2 ≤ i32_max →
  let tile west east north south := in_snap (tile_rect_for_edges pos sz (mkEdges west east north south)) in
  ∀ p,
    (in_monitor pos sz p ↔ tile true false false false p ∨ tile false true false false p) ∧
    ¬ (tile true false false false p ∧ tile false true false false p) ∧
    (∀ east south, tile (negb east) east (negb south) south p ↔
       tile (negb east) east false false p ∧
       (tile true false (negb south) south p ∨ tile false true (negb south) south p)) ∧
    (tile true true false false p ↔ in_monitor pos sz p) ∧
    (tile false false false true p → in_monitor pos sz p).
Proof.
  intros Hx Hy Hw Hh Hxw Hyh Hsw Hsh tile p. unfold is_i32, i32_min, i32_max in *.
  assert (1 ≤ sz.1 ∧ 1 ≤ sz.2) as [H1 H2] by (unfold MIN_VIEWER_WIDTH, MIN_VIEWER_HEIGHT in *; lia).
  pose proof (half_width_range sz.1 H1) as Hhw. pose proof (half_height_range sz.2 H2) as Hhh. cbv zeta in Hhw, Hhh.
  assert (Z.max (sz.1 / 2) (Z.min MIN_VIEWER_WIDTH sz.1) < sz.1) as Hlt1 by (unfold MIN_VIEWER_WIDTH in *; div_lia).
  assert (Z.max (sz.2 / 2) (Z.min MIN_VIEWER_HEIGHT sz.2) < sz.2) as Hlt2 by (unfold MIN_VIEWER_HEIGHT in *; div_lia).
  unfold tile, in_snap, in_monitor, tile_rect_for_edges. cbn [at_west at_east at_north at_south].
  rewrite !(Z.max_l _ 1) by lia.
  set (hw := Z.max (sz.1 / 2) _) in *. set (hh := Z.max (sz.2 / 2) _) in *. clearbody hw hh.
  rewrite (as_i32_small hw), (as_i32_small hh) by (unfold i32_max; lia).
  unfold sat_sub, sat_i32, i32_min, i32_max. rewrite !(Z.max_r 0), !(Z.max_l (sz.1 - hw) 1), !(Z.max_l (sz.2 - hh) 1) by lia.
  rewrite !Z.min_l, !Z.max_r by lia.
  split_and!; try (intros [] []); cbn; lia.
Qed.

(** ** Manual resizing *)

(** Dragging an edge or a corner moves that edge or corner only: the sides of the rectangle
    that the direction does not name are exactly where they were at the press, through the
    cursor update and through the clamp to the least size. *)
Theorem resize_keeps_sides drag cursor_x cursor_y :
  let left := F64.of_int (start_outer drag).1 in
  let top := F64.of_int (start_outer drag).2 in
  let right := F64.add left (F64.of_int (start_size drag).1) in
  let bottom := F64.add top (F64.of_int (start_size drag).2) in
  MIN_VIEWER_WIDTH ≤ (start_size drag).1 ≤ u32_max → MIN_VIEWER_HEIGHT ≤ (start_size drag).2 ≤ u32_max →
  is_i32 (start_outer drag).1 → is_i32 (start_outer drag).2 →
  let '(l, t, r, b) := apply_resize_direction drag cursor_x cursor_y in
  let '(l, t, r, b) := clamp_manual_resize (direction drag) l t r b in
  (uses_west_edge (direction drag) = false → l = left) ∧
  (uses_west_edge (direction drag) = true → r = right) ∧
  (uses_north_edge (direction drag) = false → t = top) ∧
  (uses_north_edge (direction drag) = true → b = bottom) ∧
  (direction drag = North ∨ direction drag = South → l = left ∧ r = right) ∧
  (direction drag = East ∨ direction drag = West → t = top ∧ b = bottom).
Proof.
  cbv zeta. intros Hw Hh Hx Hy. unfold is_i32, i32_min, i32_max, u32_max in *.
  unfold MIN_VIEWER_WIDTH, MIN_VIEWER_HEIGHT in Hw, Hh.
  assert (∀ p n m, Z.abs p < 2 ^ 32 → 0 ≤ m ≤ n → n < 2 ^ 32 →
    fltb (F64.sub (F64.add (F64.of_int p) (F64.of_int n)) (F64.of_int p)) (F64.of_int m) = false) as Hwide.
  { intros p n m Hp Hm Hn.
    assert (is_int (F64.sub (F64.add (F64.of_int p) (F64.of_int n)) (F64.of_int p)) (p + n - p)) as Hi.
    { apply f64_sub; [apply f64_add; try apply f64_int; lia|apply f64_int; lia|lia]. }
    rewrite (fltb_int _ _ (p + n - p) m) by first [exact Hi|apply f64_int; lia]. lia. }
  pose proof (Hwide (start_outer drag).1 (start_size drag).1 MIN_VIEWER_WIDTH) as Hww.
  pose proof (Hwide (start_outer drag).2 (start_size drag).2 MIN_VIEWER_HEIGHT) as Hhh.
  unfold MIN_VIEWER_WIDTH, MIN_VIEWER_HEIGHT in Hww, Hhh.
  unfold apply_resize_direction, clamp_manual_resize, MIN_VIEWER_WIDTH, MIN_VIEWER_HEIGHT.
  destruct (direction drag); cbn [uses_west_edge uses_north_edge];
    rewrite ?Hww, ?Hhh by lia; repeat case_match; simplify_eq; naive_solver.
Qed.

(** ** The theorems at work *)

Lemma cursor_to_frame_spec_witness :
  cursor_to_frame_coords (F64.of_int 100) (F64.of_int 20) (640, 480) (mkFrameRect 8 16 640 480) (700, 500)
  = Some (108, 36).
Proof.
  refine (proj2 (cursor_to_frame_spec (F64.of_int 100) (F64.of_int 20) (640, 480) (mkFrameRect 8 16 640 480) 700 500
    _ _ _ _) 100 20 eq_refl _ _ _ _ _); unfold rect_in; cbn; unfold u32_max, i32_max; lia.
Defined.

Lemma tiles_partition_witness :
  in_monitor (-100, 0) (1920, 1081) (900, 500) ∧
  in_snap (tile_rect_for_edges (-100, 0) (1920, 1081) (mkEdges false true false false)) (900, 500).
Proof.
  pose proof (tiles_partition (-100, 0) (1920, 1081)) as H.
  unfold is_i32, i32_min, i32_max, MIN_VIEWER_WIDTH, MIN_VIEWER_HEIGHT in H. cbn [fst snd] in H.
  do 8 (specialize (H ltac:(lia))). destruct (H (900, 500)) as ([Hm _] & Hd & _).
  assert (in_monitor (-100, 0) (1920, 1081) (900, 500)) as Hin by (unfold in_monitor; cbn; lia).
  split; [exact Hin|]. destruct (Hm Hin) as [Hl|Hr]; [|exact Hr].
  exfalso. revert Hl. vm_compute. intros [[_ Hx] _]. discriminate Hx.
Defined.

Lemma resize_keeps_sides_witness :
  let drag := mkResizeDrag NorthWest (10, 20) (640, 480) in
  let '(l, t, r, b) := apply_resize_direction drag (F64.of_int 600) (F64.of_int 30) in
  let '(l, t, r, b) := clamp_manual_resize NorthWest l t r b in
  r = F64.add (F64.of_int 10) (F64.of_int 640) ∧ b = F64.add (F64.of_int 20) (F64.of_int 480).
Proof.
  pose proof (resize_keeps_sides (mkResizeDrag NorthWest (10, 20) (640, 480)) (F64.of_int 600) (F64.of_int 30)) as H.
  cbv zeta in *. cbn [start_outer start_size direction fst snd] in *.
  unfold MIN_VIEWER_WIDTH, MIN_VIEWER_HEIGHT, is_i32, i32_min, i32_max, u32_max in H.
  do 4 (specialize (H ltac:(lia))).
  destruct (apply_resize_direction _ _ _) as [[[l t] r] b].
  destruct (clamp_manual_resize _ _ _ _ _) as [[[l' t'] r'] b'].
  destruct H as (_ & Hr & _ & Hb & _). split; [by apply Hr|by apply Hb].
Defined.
