(* ===== verification/Keys.v ===== *)
(** * Keys and shortcuts of the viewer (client viewer: input.rs, keyboard_shortcuts.rs,
      fullscreen.rs, env.rs)

    The types of winit that the code matches on, the tables from host keys to Linux key
    codes, the predicates on modifiers, and the recognition of guests with a chrome of
    their own. *)

From S2P Require Import Prelude Text Wire.

(** ** winit's vocabulary *)

Record ModifiersState := mkModifiers {
  control_key : bool; super_key : bool; alt_key : bool; shift_key : bool
}.
Definition no_modifiers : ModifiersState := mkModifiers false false false false.

Inductive ElementState := Pressed | Released.

Inductive MouseButton := Left | Right | Middle | Back | Forward | Other (n : Z).

Inductive KeyCode :=
  | K_Digit1 | K_Digit2 | K_Digit3 | K_Digit4 | K_Digit5 | K_Digit6 | K_Digit7 | K_Digit8 | K_Digit9 | K_Digit0
    | K_Minus | K_Equal | K_Tab | K_KeyQ | K_KeyW | K_KeyE | K_KeyR | K_KeyT | K_KeyY | K_KeyU | K_KeyI | K_KeyO | K_KeyP
    | K_BracketLeft | K_BracketRight | K_Enter | K_NumpadEnter | K_KeyA | K_KeyS | K_KeyD | K_KeyF | K_KeyG
    | K_KeyH | K_KeyJ | K_KeyK | K_KeyL | K_Semicolon | K_Quote | K_Backquote | K_Backslash | K_IntlBackslash
    | K_IntlYen | K_KeyZ | K_KeyX | K_KeyC | K_KeyV | K_KeyB | K_KeyN | K_KeyM | K_Comma | K_Period | K_NumpadDecimal
    | K_Slash | K_NumpadDivide | K_Space | K_Backspace | K_Escape | K_ArrowLeft | K_ArrowRight | K_ArrowUp
    | K_ArrowDown | K_Delete | K_Home | K_End | K_ControlLeft | K_ControlRight | K_ShiftLeft | K_ShiftRight
    | K_AltLeft | K_AltRight | K_SuperLeft | K_SuperRight | KeyCode_other (n : Z).

Inductive PhysicalKey := Code (code : KeyCode) | Unidentified.

Inductive NamedKey :=
  | N_Control | N_Shift | N_Alt | N_Super | N_Enter | N_Tab | N_Backspace | N_Escape | N_ArrowLeft
  | N_ArrowRight | N_ArrowUp | N_ArrowDown | N_Delete | N_Home | N_End | N_F11 | NamedKey_other (n : Z).

Inductive Key := Named (k : NamedKey) | Character (text : rstring) | Key_other.

Record KeyEvent := mkKeyEvent {
  physical_key : PhysicalKey; logical_key : Key; key_text : option rstring; key_state : ElementState;
  repeat : bool
}.

#[export] Instance KeyCode_eq_dec : EqDecision KeyCode.
Proof. solve_decision. Defined.
#[export] Instance ElementState_eq_dec : EqDecision ElementState.
Proof. solve_decision. Defined.
#[export] Instance PhysicalKey_eq_dec : EqDecision PhysicalKey.
Proof. solve_decision. Defined.

(** ** input.rs *)

Definition KEY_BACKSPACE : Z := 14.
Definition KEY_LEFTCTRL : Z := 29.
Definition KEY_LEFTSHIFT : Z := 42.
Definition KEY_RIGHTSHIFT : Z := 54.
Definition KEY_LEFTALT : Z := 56.
Definition KEY_RIGHTCTRL : Z := 97.
Definition KEY_RIGHTALT : Z := 100.

(** [n] is a [u16]. *)
Definition mouse_button_code (button : MouseButton) : option Z :=
  Some (match button with
        | Left => 0x110
        | Right => 0x111
        | Middle => 0x112
        | Back => 0x116
        | Forward => 0x115
        | Other n => 0x110 + n
        end).

Definition guest_modifier_keycode (physical : PhysicalKey) (logical : Key) : option Z :=
  match physical with
  | Code K_ControlLeft => Some KEY_LEFTCTRL
  | Code K_ControlRight => Some KEY_RIGHTCTRL
  | Code K_ShiftLeft => Some KEY_LEFTSHIFT
  | Code K_ShiftRight => Some KEY_RIGHTSHIFT
  | Code K_AltLeft => Some KEY_LEFTALT
  | Code K_AltRight => Some KEY_RIGHTALT
  | Code (K_SuperLeft | K_SuperRight) => Some KEY_LEFTCTRL
  | _ => match logical with
         | Named N_Control => Some KEY_LEFTCTRL
         | Named N_Shift => Some KEY_LEFTSHIFT
         | Named N_Alt => Some KEY_LEFTALT
         | Named N_Super => Some KEY_LEFTCTRL
         | _ => None
         end
  end.

Definition shortcut_keycode (physical : PhysicalKey) : option Z :=
  match physical with
  | Unidentified => None
  | Code code =>
  match code with
    | K_Digit1 => Some 2
    | K_Digit2 => Some 3
    | K_Digit3 => Some 4
    | K_Digit4 => Some 5
    | K_Digit5 => Some 6
    | K_Digit6 => Some 7
    | K_Digit7 => Some 8
    | K_Digit8 => Some 9
    | K_Digit9 => Some 10
    | K_Digit0 => Some 11
    | K_Minus => Some 12
    | K_Equal => Some 13
    | K_Tab => Some 15
    | K_KeyQ => Some 16
    | K_KeyW => Some 17
    | K_KeyE => Some 18
    | K_KeyR => Some 19
    | K_KeyT => Some 20
    | K_KeyY => Some 21
    | K_KeyU => Some 22
    | K_KeyI => Some 23
    | K_KeyO => Some 24
    | K_KeyP => Some 25
    | K_BracketLeft => Some 26
    | K_BracketRight => Some 27
    | K_Enter | K_NumpadEnter => Some 28
    | K_KeyA => Some 30
    | K_KeyS => Some 31
    | K_KeyD => Some 32
    | K_KeyF => Some 33
    | K_KeyG => Some 34
    | K_KeyH => Some 35
    | K_KeyJ => Some 36
    | K_KeyK => Some 37
    | K_KeyL => Some 38
    | K_Semicolon => Some 39
    | K_Quote => Some 40
    | K_Backquote => Some 41
    | K_Backslash | K_IntlBackslash | K_IntlYen => Some 43
    | K_KeyZ => Some 44
    | K_KeyX => Some 45
    | K_KeyC => Some 46
    | K_KeyV => Some 47
    | K_KeyB => Some 48
    | K_KeyN => Some 49
    | K_KeyM => Some 50
    | K_Comma => Some 51
    | K_Period | K_NumpadDecimal => Some 52
    | K_Slash | K_NumpadDivide => Some 53
    | K_Space => Some 57
    | K_Backspace => Some KEY_BACKSPACE
    | K_Escape => Some 1
    | K_ArrowLeft => Some 105
    | K_ArrowRight => Some 106
    | K_ArrowUp => Some 103
    | K_ArrowDown => Some 108
    | K_Delete => Some 111
    | K_Home => Some 102
    | K_End => Some 107
    | _ => None
    end
  end.

Definition named_keycode (key : Key) : option Z :=
  match key with
  | Named N_Enter => Some 28
  | Named N_Tab => Some 15
  | Named N_Backspace => Some KEY_BACKSPACE
  | Named N_Escape => Some 1
  | Named N_ArrowLeft => Some 105
  | Named N_ArrowRight => Some 106
  | Named N_ArrowUp => Some 103
  | Named N_ArrowDown => Some 108
  | Named N_Delete => Some 111
  | Named N_Home => Some 102
  | Named N_End => Some 107
  | _ => None
  end.

(** [char::is_control]: the general category Cc. *)
Definition is_control (c : char) : bool :=
  ((0 <=? c) && (c <=? 0x1F)) || ((0x7F <=? c) && (c <=? 0x9F)).

Definition printable_keyboard_text (text : option rstring) : option rstring :=
  text ← text;
  if bool_decide (text = []) || existsb is_control text then None else Some text.

Definition shortcut_modifiers_active (m : ModifiersState) : bool := control_key m || super_key m.

Definition keyboard_command_modifiers_active (m : ModifiersState) : bool :=
  shortcut_modifiers_active m || alt_key m.

Definition is_macos_emoji_picker_shortcut (physical : PhysicalKey) (m : ModifiersState) : bool :=
  bool_decide (physical = Code K_Space) && super_key m && control_key m && negb (alt_key m)
  && negb (shift_key m).

Definition host_move_modifier_active (m : ModifiersState) : bool :=
  alt_key m && negb (shortcut_modifiers_active m).

(** [i32::try_from(n).unwrap_or(i32::MAX)] *)
Definition usize_to_i32 (n : Z) : Z := Z.min n i32_max.

Definition ime_cursor_range (cursor : option (Z * Z)) : Z * Z :=
  match cursor with
  | None => (-1, -1)
  | Some (begin_, end_) => (usize_to_i32 begin_, usize_to_i32 end_)
  end.

(** ** keyboard_shortcuts.rs, fullscreen.rs *)

Definition eq_ignore_ascii_case (a b : rstring) : bool :=
  bool_decide (ascii_lower <$> a = ascii_lower <$> b).

Definition is_window_dump_shortcut (m : ModifiersState) (logical : Key) : bool :=
  if negb (super_key m) || negb (alt_key m) then false
  else if control_key m || shift_key m then false
  else match logical with Character text => eq_ignore_ascii_case text (lit "w") | _ => false end.

Definition is_fullscreen_shortcut (m : ModifiersState) (logical : Key) : bool :=
  let f11 := match logical with Named N_F11 => true | _ => false end in
  if f11 && negb (control_key m) && negb (super_key m) && negb (alt_key m) then true
  else if negb (super_key m) || negb (shift_key m) then false
  else if control_key m || alt_key m then false
  else match logical with Character text => eq_ignore_ascii_case text (lit "f") | _ => false end.

(** ** app.rs: the predicates of the keyboard path *)

Definition is_emoji_picker_release_to_swallow (state : ElementState) (physical : PhysicalKey)
    (m : ModifiersState) : bool :=
  bool_decide (state = Released) && bool_decide (physical = Code K_Space) && super_key m && control_key m.

Definition is_terminal_new_tab_shortcut (state : ElementState) (repeat : bool) (physical : PhysicalKey)
    (m : ModifiersState) (target_is_terminal : bool) : bool :=
  bool_decide (state = Pressed) && negb repeat && super_key m && negb (control_key m)
  && negb (alt_key m) && negb (shift_key m) && bool_decide (physical = Code K_KeyT) && target_is_terminal.

(** The Korean word for terminal. *)
Definition terminal_ko : rstring := [0xD130; 0xBBF8; 0xB110].

Definition is_terminal_window_title (title : rstring) : bool :=
  let lower := ascii_lower <$> title in
  contains lower (lit "terminal") || contains lower (lit "ptyxis") || contains title terminal_ko
  || contains title (lit "@").

Definition window_title (title : rstring) : rstring :=
  if bool_decide (title = []) then lit "vbox" else title.

(** ** env.rs *)

Definition KNOWN : list (rstring * rstring) :=
  [(lit "firefox", lit "Firefox"); (lit "chrome", lit "Chrome"); (lit "chromium", lit "Chromium");
   (lit "brave", lit "Brave"); (lit "electron", lit "Electron"); (lit "code", lit "VS Code");
   (lit "vscodium", lit "VSCodium"); (lit "ptyxis", lit "Ptyxis");
   (lit "gnome.terminal", lit "GNOME Terminal"); (lit "gnome-terminal", lit "GNOME Terminal");
   (lit "gnome.console", lit "GNOME Console"); (lit "gnome-console", lit "GNOME Console");
   (lit "kgx", lit "GNOME Console"); (lit "terminal", lit "Terminal"); (terminal_ko, lit "Terminal");
   (lit "@", lit "Terminal")].

Definition guest_app_uses_own_chrome (app_id title : rstring) : option rstring :=
  let needle_app := (λ c, if (c =? 46) || (c =? 95) then 45 else c) <$> (ascii_lower <$> app_id) in
  let needle_title := ascii_lower <$> title in
  snd <$> find (λ known, contains needle_app known.1 || contains needle_title known.1) KNOWN.

Definition guest_chrome_dedup_key (app_id title : rstring) : rstring :=
  if bool_decide (app_id = []) then title else app_id.

Definition one_of (value : option rstring) (words : list rstring) : bool :=
  match value with Some v => existsb (λ w, bool_decide (v = w)) words | None => false end.

Definition edge_snap_enabled_from (value : option rstring) : bool :=
  one_of value [lit "1"; lit "true"; lit "TRUE"; lit "yes"; lit "on"].

Definition host_chrome_enabled (value : option rstring) : bool :=
  negb (one_of value [lit "0"; lit "false"; lit "FALSE"; lit "no"; lit "off"]).
