(* ===== verification/Daemon.v ===== *)
(** * The control daemon's instance state (crates/controld/src/state.rs, snapshot.rs)

    [DaemonState] with its in-memory map, the snapshot file and the signals it sends.
    What the operating system answers during one operation is an [env]; an operation maps
    an environment and a state to a new state and a result.  [Instant] waits take no time
    here. *)

From S2P Require Import Prelude Text Wire Framing.

(** ** Data *)

(** [server_child] matters only in being there or not ([owned]). *)
Record Instance := mkInstance {
  inst_port : Z;
  server_pid : Z;
  owned : bool;
  app_pids : list Z
}.

Record InstanceSnapshot := mkInstanceSnapshot {
  snap_instance : rstring;
  snap_port : Z;
  snap_server_pid : Z;
  snap_app_pids : list Z
}.

(** [Snapshot] is its [instances] field. *)
Abbreviation Snapshot := (list InstanceSnapshot) (only parsing).

Record QuicInstanceConfig := mkQuicInstanceConfig {
  qic_bind : IpAddr;
  qic_port : option Z;
  qic_token : rstring
}.

Inductive signal := SIGTERM | SIGKILL.

(** [instances], the bytes of [state.bin] ([None]: no such file), and the log of what was
    done to processes. *)
Inductive effect :=
  | Eff_kill (pid : Z) (s : signal)
  | Eff_spawn_server (instance : rstring) (port pid : Z)
  | Eff_spawn_app (pid : Z).

Record DaemonState := mkDaemonState {
  instances : gmap rstring Instance;
  state_bin : option (list byte);
  effects : list effect
}.

(** An [anyhow::Error]: its chain of causes, outermost first. *)
Abbreviation anyhow := (list rstring) (only parsing).

Definition context (label : rstring) (e : anyhow) : anyhow := label :: e.

(** The answers of the operating system and the file system. *)
Record env := mkEnv {
  child_running : Z → bool;              (* try_wait of an owned server is [Ok(None)] *)
  pid_alive : Z → bool;
  outlives_term : Z → bool;              (* alive when the grace period is over *)
  log_files : result anyhow unit;
  quic_cert : result anyhow unit;
  spawned : result anyhow Z;
  exits_early : option anyhow;           (* the child is gone when first looked at *)
  runtime_dir : result anyhow unit;
  socket_exists : bool;
  exits_waiting : option anyhow;         (* the child exits during [wait_ready] *)
  writes_ok : bool                       (* write and rename of the snapshot succeed *)
}.

#[export] Instance InstanceSnapshot_eq_dec : EqDecision InstanceSnapshot.
Proof. solve_decision. Defined.

#[export] Instance InstanceSnapshot_countable : Countable InstanceSnapshot.
Proof.
  refine (inj_countable' (λ s, (snap_instance s, snap_port s, snap_server_pid s, snap_app_pids s))
    (λ '(i, p, s, a), mkInstanceSnapshot i p s a) _). by intros [].
Defined.

Section daemon.
Context `{C : Codec (list InstanceSnapshot)}.

(** ** The snapshot *)

Definition snapshot_of (map : gmap rstring Instance) : Snapshot :=
  (λ '(name, inst), mkInstanceSnapshot name (inst_port inst) (server_pid inst) (app_pids inst))
    <$> map_to_list map.

(** [flush]: write to a temporary file, then rename, so that a failure leaves [state.bin]
    as it was.  The callers ignore the result. *)
Definition flush (e : env) (st : DaemonState) : DaemonState :=
  match to_allocvec (snapshot_of (instances st)) with
  | Some bytes =>
      if writes_ok e then mkDaemonState (instances st) (Some bytes) (effects st) else st
  | None => st
  end.

Definition load_snapshot (file : option (list byte)) : result anyhow (option Snapshot) :=
  match file with
  | None => Ok None
  | Some [] => Ok None
  | Some bytes => match from_bytes bytes with
                  | Some snap => Ok (Some snap)
                  | None => Err [lit "decode snapshot"]
                  end
  end.

(** ** Process bookkeeping *)

Definition pids_to_terminate (inst : Instance) : list Z := app_pids inst ++ [server_pid inst].

(** SIGTERM to every pid, then SIGKILL to those that outlive the grace period. *)
Definition terminate (e : env) (inst : Instance) : list effect :=
  let pids := pids_to_terminate inst in
  ((λ pid, Eff_kill pid SIGTERM) <$> pids)
  ++ ((λ pid, Eff_kill pid SIGKILL) <$> filter (λ pid, outlives_term e pid) pids).

Definition retain_live_app_pids (app_pids : list Z) (alive : Z → bool) : list Z * bool :=
  let kept := filter (λ pid, alive pid) app_pids in
  (kept, negb (length kept =? length app_pids)%nat).

Definition instance_alive (e : env) (inst : Instance) : bool :=
  if owned inst then child_running e (server_pid inst) else pid_alive e (server_pid inst).

Definition reap_dead_instances (e : env) (map : gmap rstring Instance) :
    gmap rstring Instance * bool :=
  let dead := filter (λ '(_, inst), negb (instance_alive e inst)) (map_to_list map) in
  (foldr delete map dead.*1, negb (bool_decide (dead = []))).

(** The first other instance on the port, in the map's order. *)
Definition port_conflict_owner (map : gmap rstring Instance) (instance : rstring) (port : Z) :
    option (rstring * Z) :=
  '(name, inst) ← find (λ '(name, inst), negb (bool_decide (name = instance)) && (inst_port inst =? port))
                    (map_to_list map);
  Some (name, server_pid inst).

Inductive ReconcileOutcome :=
  | Reconcile_Drop
  | Reconcile_Recover (app_pids : list Z).

Definition decide_reconcile (snap : InstanceSnapshot) (alive : Z → bool) : ReconcileOutcome :=
  if negb (alive (snap_server_pid snap)) then Reconcile_Drop
  else Reconcile_Recover (filter (λ pid, alive pid) (snap_app_pids snap)).

(** ** Operations *)

Definition reconcile_one (e : env) (map : gmap rstring Instance) (inst : InstanceSnapshot) :
    gmap rstring Instance :=
  match decide_reconcile inst (pid_alive e) with
  | Reconcile_Drop => map
  | Reconcile_Recover apps =>
      <[snap_instance inst := mkInstance (snap_port inst) (snap_server_pid inst) false apps]> map
  end.

(** [DaemonState::new] on the file a previous daemon left. *)
Definition reconcile_on_startup (e : env) (file : option (list byte)) : result anyhow DaemonState :=
  snap ← load_snapshot file;
  mret match snap with
       | None => mkDaemonState ∅ file []
       | Some snap => flush e (mkDaemonState (foldl (reconcile_one e) ∅ snap) file [])
       end.

Definition summaries (e : env) (st : DaemonState) : DaemonState * list InstanceSummary :=
  let '(map, reaped) := reap_dead_instances e (instances st) in
  let need_flush := reaped || existsb (λ '(_, inst), (retain_live_app_pids (app_pids inst) (pid_alive e)).2)
                                (map_to_list map) in
  let map := (λ inst, mkInstance (inst_port inst) (server_pid inst) (owned inst)
                (retain_live_app_pids (app_pids inst) (pid_alive e)).1) <$> map in
  let out := (λ '(name, inst), mkInstanceSummary name (inst_port inst) (server_pid inst) (app_pids inst))
               <$> map_to_list map in
  let st := mkDaemonState map (state_bin st) (effects st) in
  (if need_flush then flush e st else st, out).

Definition port_conflict_error (port : Z) (owner : rstring) (pid : Z) : anyhow :=
  [lit "port " ++ dec port ++ lit " already used by instance " ++ owner
     ++ lit " (server_pid=" ++ dec pid ++ lit ")"].

Definition quic_token_error : anyhow :=
  [lit "quic token must be non-empty when --quic-bind is set"].

(** The fallible steps of a start, in order: log files, token check, certificate, spawn,
    first look at the child. *)
Definition spawn_server (e : env) (quic : option QuicInstanceConfig) : result anyhow Z :=
  _ ← log_files e;
  _ ← match quic with
      | Some q => if bool_decide (qic_token q = []) then Err quic_token_error else quic_cert e
      | None => Ok tt
      end;
  pid ← spawned e;
  match exits_early e with Some status => Err status | None => Ok pid end.

Definition start_instance (e : env) (st : DaemonState) (instance : rstring) (port : Z) (debug : bool)
    (quic : option QuicInstanceConfig) : DaemonState * result anyhow Z :=
  let '(map, reaped_dead) := reap_dead_instances e (instances st) in
  let st := mkDaemonState map (state_bin st) (effects st) in
  match port_conflict_owner map instance port with
  | Some (owner, pid) =>
      (if reaped_dead then flush e st else st, Err (port_conflict_error port owner pid))
  | None =>
      let st := match map !! instance with
                | Some existing => mkDaemonState (delete instance map) (state_bin st)
                                     (effects st ++ terminate e existing)
                | None => st
                end in
      match spawn_server e quic with
      | Err err => (st, Err err)
      | Ok pid =>
          (flush e (mkDaemonState (<[instance := mkInstance port pid true []]> (instances st))
                      (state_bin st) (effects st ++ [Eff_spawn_server instance port pid])),
           Ok pid)
      end
  end.

Definition no_such_instance (instance : rstring) : anyhow := [lit "no such instance: " ++ instance].

Definition stop_instance (e : env) (st : DaemonState) (instance : rstring) :
    DaemonState * result anyhow unit :=
  match instances st !! instance with
  | None => (st, Err (no_such_instance instance))
  | Some inst =>
      (flush e (mkDaemonState (delete instance (instances st)) (state_bin st)
                  (effects st ++ terminate e inst)), Ok tt)
  end.

Definition launch_app (e : env) (st : DaemonState) (instance socket : rstring) (argv : list rstring)
    (wait_ready_ms : Z) : DaemonState * result anyhow Z :=
  match
    _ ← ensure (negb (bool_decide (argv = []))) [lit "launch_app: empty argv"];
    _ ← runtime_dir e;
    _ ← ensure (socket_exists e) [lit "Wayland socket not found: " ++ socket];
    _ ← log_files e;
    pid ← spawned e;
    _ ← match exits_early e with Some status => Err status | None => Ok tt end;
    _ ← (if 0 <? wait_ready_ms
         then match exits_waiting e with Some status => Err status | None => Ok tt end else Ok tt);
    mret pid
  with
  | Err err => (st, Err err)
  | Ok pid =>
      let map := match instances st !! instance with
                 | Some inst => <[instance := mkInstance (inst_port inst) (server_pid inst) (owned inst)
                                                (app_pids inst ++ [pid])]> (instances st)
                 | None => instances st
                 end in
      (flush e (mkDaemonState map (state_bin st) (effects st ++ [Eff_spawn_app pid])), Ok pid)
  end.

End daemon.

(** [safe_instance_component]: the file name an instance's certificates live under. *)
Definition safe_instance_component (instance : rstring) : rstring :=
  (λ ch, if is_ascii_alphanumeric ch || (ch =? 45) || (ch =? 95) || (ch =? 46) then ch else 95)
    <$> instance.

(** ** Histories *)

(** What can happen to the daemon's state: an RPC, or a restart of the daemon. *)
Inductive daemon_op :=
  | Op_summaries
  | Op_start (instance : rstring) (port : Z) (debug : bool) (quic : option QuicInstanceConfig)
  | Op_stop (instance : rstring)
  | Op_launch (instance socket : rstring) (argv : list rstring) (wait_ready_ms : Z)
  | Op_restart.

Section histories.
Context `{C : Codec (list InstanceSnapshot)}.

(** A restart that cannot read the snapshot leaves no daemon: the state is kept as it is,
    for a later attempt. *)
Definition daemon_step (st : DaemonState) (s : env * daemon_op) : DaemonState :=
  let '(e, op) := s in
  match op with
  | Op_summaries => (summaries e st).1
  | Op_start instance port debug quic => (start_instance e st instance port debug quic).1
  | Op_stop instance => (stop_instance e st instance).1
  | Op_launch instance socket argv ms => (launch_app e st instance socket argv ms).1
  | Op_restart => match reconcile_on_startup e (state_bin st) with Ok st' => st' | Err _ => st end
  end.

Definition daemon_run (st : DaemonState) (h : list (env * daemon_op)) : DaemonState :=
  foldl daemon_step st h.

Definition daemon_init : DaemonState := mkDaemonState ∅ None [].

(** No two instances share a port. *)
Definition ports_unique (map : gmap rstring Instance) : Prop :=
  ∀ i j x y, map !! i = Some x → map !! j = Some y → inst_port x = inst_port y → i = j.

(** The file says what the map says. *)
Definition persisted (st : DaemonState) : Prop :=
  ∃ bytes, state_bin st = Some bytes ∧ to_allocvec (snapshot_of (instances st)) = Some bytes.

(** The file holds nothing but a map with distinct ports, and is empty only if the
    serializer produced that. *)
Definition file_ok (file : option (list byte)) : Prop :=
  file = None ∨ ∃ map bytes, file = Some bytes ∧ to_allocvec (snapshot_of map) = Some bytes
                             ∧ ports_unique map.

End histories.

(** ** Lemmas: the map *)

Lemma foldr_delete_subseteq {V} (ks : list rstring) (m : gmap rstring V) : foldr delete m ks ⊆ m.
Proof.
  induction ks as [|k ks IH]; simpl; [done|]. etrans; [apply delete_subseteq|exact IH].
Qed.

Lemma foldr_delete_lookup {V} (ks : list rstring) (m : gmap rstring V) i :
  foldr delete m ks !! i = if decide (i ∈ ks) then None else m !! i.
Proof.
  induction ks as [|k ks IH]; cbn [foldr].
  { rewrite decide_False; [done|apply not_elem_of_nil]. }
  destruct (decide (i = k)) as [->|Hne].
  - rewrite lookup_delete_eq, decide_True; [done|left].
  - rewrite lookup_delete_ne, IH by done.
    destruct (decide (i ∈ ks)); [by rewrite decide_True by (by right)|].
    rewrite decide_False; [done|]. rewrite elem_of_cons. tauto.
Qed.

(** Reaping keeps exactly the instances whose server is alive. *)
Lemma reap_lookup e m i :
  (reap_dead_instances e m).1 !! i
  = (inst ← m !! i; if instance_alive e inst then Some inst else None).
Proof.
  unfold reap_dead_instances. cbn [fst]. rewrite foldr_delete_lookup.
  set (dead := filter _ _).
  assert (∀ inst, m !! i = Some inst → (i ∈ dead.*1 ↔ instance_alive e inst = false)) as Hd.
  { intros inst Hi. rewrite list_elem_of_fmap. split.
    - intros ([k x] & -> & Hin). apply list_elem_of_filter in Hin as [Hal Hin].
      apply elem_of_map_to_list in Hin. simpl in *. rewrite Hin in Hi. injection Hi as ->.
      by destruct (instance_alive e inst).
    - intros Hal. exists (i, inst). split; [done|]. apply list_elem_of_filter.
      split; [simpl; by rewrite Hal|by apply elem_of_map_to_list]. }
  destruct (m !! i) as [inst|] eqn:Hi; simpl.
  - destruct (instance_alive e inst) eqn:Hal.
    + rewrite decide_False; [done|]. by rewrite (Hd inst eq_refl), Hal.
    + rewrite decide_True; [done|]. by apply (Hd inst eq_refl).
  - by destruct (decide _).
Qed.

Lemma reap_subseteq e m : (reap_dead_instances e m).1 ⊆ m.
Proof. apply foldr_delete_subseteq. Qed.

Lemma reap_nothing e m : (reap_dead_instances e m).2 = false → (reap_dead_instances e m).1 = m.
Proof.
  unfold reap_dead_instances. cbn [fst snd]. rewrite negb_false_iff, bool_decide_eq_true.
  by intros ->.
Qed.

Lemma ports_unique_subseteq m m' : m ⊆ m' → ports_unique m' → ports_unique m.
Proof.
  intros Hsub Hu i j x y Hi Hj. apply (Hu i j x y); by eapply lookup_weaken.
Qed.

(** Updating instances without changing ports keeps ports distinct. *)
Lemma ports_unique_omap m (f : Instance → option Instance) :
  (∀ x y, f x = Some y → inst_port y = inst_port x) → ports_unique m → ports_unique (omap f m).
Proof.
  intros Hf Hu i j x y Hi Hj Hp. rewrite lookup_omap in Hi, Hj.
  apply bind_Some in Hi as (x' & Hi & Hx), Hj as (y' & Hj & Hy).
  apply (Hu i j x' y' Hi Hj). by rewrite <- (Hf _ _ Hx), <- (Hf _ _ Hy).
Qed.

Lemma ports_unique_fmap m (f : Instance → Instance) :
  (∀ x, inst_port (f x) = inst_port x) → ports_unique m → ports_unique (f <$> m).
Proof.
  intros Hf Hu i j x y Hi Hj Hp. rewrite lookup_fmap in Hi, Hj.
  apply fmap_Some in Hi as (x' & Hi & ->), Hj as (y' & Hj & ->).
  rewrite !Hf in Hp. by apply (Hu i j x' y').
Qed.

Lemma port_conflict_none m instance port :
  port_conflict_owner m instance port = None →
  ∀ j x, m !! j = Some x → j ≠ instance → inst_port x ≠ port.
Proof.
  unfold port_conflict_owner. destruct (find _ _) as [[k y]|] eqn:Hf; [done|].
  intros _ j x Hj Hne Hp.
  assert (In (j, x) (map_to_list m)) as Hin by by apply list_elem_of_In, elem_of_map_to_list.
  pose proof (find_none _ _ Hf _ Hin) as Hb. cbv beta iota in Hb.
  by rewrite bool_decide_false, Hp, Z.eqb_refl in Hb by done.
Qed.

Lemma port_conflict_some m instance port owner pid :
  port_conflict_owner m instance port = Some (owner, pid) →
  owner ≠ instance ∧ ∃ x, m !! owner = Some x ∧ inst_port x = port ∧ server_pid x = pid.
Proof.
  unfold port_conflict_owner. destruct (find _ _) as [[k y]|] eqn:Hf; [|done].
  intros [= -> <-]. apply find_some in Hf as [Hin Hb].
  apply list_elem_of_In, elem_of_map_to_list in Hin.
  rewrite andb_true_iff, negb_true_iff, bool_decide_eq_false, Z.eqb_eq in Hb. naive_solver.
Qed.

Lemma ports_unique_insert m i inst :
  ports_unique m → (∀ j x, m !! j = Some x → j ≠ i → inst_port x ≠ inst_port inst) →
  ports_unique (<[i := inst]> m).
Proof.
  intros Hu Hi a b x y Ha Hb Hp. rewrite lookup_insert_Some in Ha, Hb.
  destruct Ha as [[<- <-]|[Hne Ha]], Hb as [[<- <-]|[Hne' Hb]]; [done| | |by apply (Hu a b x y)].
  - exfalso. by apply (Hi b y).
  - exfalso. by apply (Hi a x).
Qed.

(** ** Restarts *)

(** An instance as a restart recovers it. *)
Definition recovered (e : env) (inst : Instance) : option Instance :=
  if pid_alive e (server_pid inst)
  then Some (mkInstance (inst_port inst) (server_pid inst) false
               (filter (λ pid, pid_alive e pid) (app_pids inst)))
  else None.

Lemma reconcile_one_spec e acc name inst :
  reconcile_one e acc (mkInstanceSnapshot name (inst_port inst) (server_pid inst) (app_pids inst))
  = match recovered e inst with Some r => <[name := r]> acc | None => acc end.
Proof.
  unfold reconcile_one, decide_reconcile, recovered. cbn.
  by destruct (pid_alive e (server_pid inst)).
Qed.

Definition snap_of (x : rstring * Instance) : InstanceSnapshot :=
  mkInstanceSnapshot x.1 (inst_port x.2) (server_pid x.2) (app_pids x.2).

Lemma snapshot_of_eq m : snapshot_of m = snap_of <$> map_to_list m.
Proof. apply list_fmap_ext. by intros ? [? ?]. Qed.

Lemma reconcile_fold e l acc n :
  NoDup l.*1 →
  foldl (reconcile_one e) acc (snap_of <$> l) !! n
  = match (list_to_map l : gmap rstring Instance) !! n with
    | Some inst => match recovered e inst with Some r => Some r | None => acc !! n end
    | None => acc !! n
    end.
Proof.
  revert acc. induction l as [|[k inst] l IH]; intros acc Hnd; [done|].
  cbn [fmap list_fmap fst] in Hnd. apply NoDup_cons in Hnd as [Hk Hnd].
  cbn [fmap list_fmap foldl]. rewrite IH by done.
  change (snap_of (k, inst))
    with (mkInstanceSnapshot k (inst_port inst) (server_pid inst) (app_pids inst)).
  rewrite reconcile_one_spec, list_to_map_cons.
  destruct (decide (n = k)) as [->|Hne].
  - rewrite lookup_insert_eq. rewrite (not_elem_of_list_to_map_1 l k Hk).
    destruct (recovered e inst); [by rewrite lookup_insert_eq|done].
  - rewrite lookup_insert_ne by done.
    destruct (recovered e inst); [by rewrite lookup_insert_ne|done].
Qed.

Lemma reconcile_snapshot e m :
  foldl (reconcile_one e) ∅ (snapshot_of m) = omap (recovered e) m.
Proof.
  apply map_eq. intros n. rewrite snapshot_of_eq, reconcile_fold by apply NoDup_fst_map_to_list.
  rewrite list_to_map_to_list, lookup_omap, lookup_empty.
  destruct (m !! n) as [inst|]; [|done]. simpl. by destruct (recovered e inst).
Qed.

Section theorems.
Context `{C : Codec (list InstanceSnapshot), L : !CodecLaws (list InstanceSnapshot)}.
(** postcard serializes any snapshot, and a sequence starts with its length. *)
Hypothesis encodes : ∀ s : list InstanceSnapshot, is_Some (to_allocvec s).
Hypothesis nonempty : ∀ s : list InstanceSnapshot, to_allocvec s ≠ Some [].
Implicit Types (e : env) (st : DaemonState).

Lemma flush_instances e st : instances (flush e st) = instances st.
Proof. unfold flush. repeat case_match; done. Qed.

Lemma flush_effects e st : effects (flush e st) = effects st.
Proof. unfold flush. repeat case_match; done. Qed.

Lemma flush_persisted e st : writes_ok e = true → persisted (flush e st).
Proof.
  intros Hw. unfold flush. destruct (encodes (snapshot_of (instances st))) as [bs Hbs].
  rewrite Hbs, Hw. by exists bs.
Qed.

Lemma flush_file_ok e st :
  ports_unique (instances st) → file_ok (state_bin st) → file_ok (state_bin (flush e st)).
Proof.
  intros Hu Hf. unfold flush. destruct (to_allocvec _) as [bs|] eqn:E; [|done].
  destruct (writes_ok e); [|done]. right. by exists (instances st), bs.
Qed.

Lemma load_encoded m bytes :
  to_allocvec (snapshot_of m) = Some bytes → load_snapshot (Some bytes) = Ok (Some (snapshot_of m)).
Proof.
  intros Hb. unfold load_snapshot. destruct bytes as [|b bs]; [by apply nonempty in Hb|].
  by rewrite (from_to_bytes _ _ Hb).
Qed.

(** C12: a restart recovers exactly what was persisted: the instances whose server is
    still running, each with its port, its server and those of its apps that still
    run, and nothing else. *)
Theorem restart_recovers e st :
  persisted st →
  ∃ st', reconcile_on_startup e (state_bin st) = Ok st'
    ∧ instances st' = omap (recovered e) (instances st)
    ∧ (writes_ok e = true → persisted st').
Proof.
  intros (bytes & -> & Hb). unfold reconcile_on_startup.
  rewrite (load_encoded _ _ Hb). cbn [mbind result_bind].
  eexists. split; [reflexivity|]. rewrite flush_instances. cbn [instances].
  split; [apply reconcile_snapshot|]. apply flush_persisted.
Qed.

(** ** Ports *)

Definition daemon_ok (st : DaemonState) : Prop :=
  ports_unique (instances st) ∧ file_ok (state_bin st).

Lemma daemon_ok_flush e st : daemon_ok st → daemon_ok (flush e st).
Proof. intros [Hu Hf]. split; [by rewrite flush_instances|by apply flush_file_ok]. Qed.

Lemma summaries_ok e st : daemon_ok st → daemon_ok (summaries e st).1.
Proof.
  intros [Hu Hf]. unfold summaries. pose proof (reap_subseteq e (instances st)) as Hsub.
  destruct (reap_dead_instances e (instances st)) as [m r]. cbn [fst] in *.
  set (st' := mkDaemonState _ _ _).
  assert (daemon_ok st') as Hok.
  { split; [|done]. apply ports_unique_fmap; [done|]. by eapply ports_unique_subseteq. }
  destruct (_ || _); [by apply daemon_ok_flush|done].
Qed.

Lemma start_instance_ok e st instance port debug quic :
  daemon_ok st → daemon_ok (start_instance e st instance port debug quic).1.
Proof.
  intros [Hu Hf]. unfold start_instance. pose proof (reap_subseteq e (instances st)) as Hsub.
  destruct (reap_dead_instances e (instances st)) as [m r]. cbn [fst] in Hsub.
  assert (ports_unique m) as Hm by by eapply ports_unique_subseteq.
  destruct (port_conflict_owner m instance port) as [[owner pid]|] eqn:Hc.
  { cbn [fst]. destruct r; [apply daemon_ok_flush|]; done. }
  set (st1 := match m !! instance with Some _ => _ | None => _ end).
  assert (daemon_ok st1 ∧ instances st1 ⊆ m) as [Hok1 Hsub1].
  { unfold st1. destruct (m !! instance); [|done]. split; [split; [|done]|apply delete_subseteq].
    eapply ports_unique_subseteq; [apply delete_subseteq|done]. }
  destruct (spawn_server e quic) as [pid|err]; cbn [fst]; [|done].
  apply daemon_ok_flush. split; [|apply Hok1]. apply ports_unique_insert; [apply Hok1|].
  intros j x Hj Hne. eapply port_conflict_none; [done| |done]. by eapply lookup_weaken.
Qed.

Lemma stop_instance_ok e st instance : daemon_ok st → daemon_ok (stop_instance e st instance).1.
Proof.
  intros [Hu Hf]. unfold stop_instance. destruct (instances st !! instance); [|done].
  apply daemon_ok_flush. split; [|done]. eapply ports_unique_subseteq; [apply delete_subseteq|done].
Qed.

Lemma launch_app_ok e st instance socket argv ms :
  daemon_ok st → daemon_ok (launch_app e st instance socket argv ms).1.
Proof.
  intros [Hu Hf]. unfold launch_app. case_match; [|done]. apply daemon_ok_flush. split; [|done].
  cbn [instances]. destruct (instances st !! instance) as [inst|] eqn:Hi; [|done].
  apply ports_unique_insert; [done|]. intros j x Hj Hne Hp. apply Hne.
  by apply (Hu j instance x inst).
Qed.

Lemma restart_ok e st :
  daemon_ok st → ∃ st', reconcile_on_startup e (state_bin st) = Ok st' ∧ daemon_ok st'.
Proof.
  intros [_ [Hn|(m & bytes & Hb & He & Hu)]]; unfold reconcile_on_startup.
  - rewrite Hn. eexists. split; [reflexivity|]. split; [by intros ????|by left].
  - rewrite Hb, (load_encoded _ _ He). eexists. split; [reflexivity|].
    apply daemon_ok_flush. cbn [mbind]. split; cbn [instances state_bin].
    + rewrite reconcile_snapshot. apply ports_unique_omap; [|done].
      intros x y. unfold recovered. destruct (pid_alive e _); [|done]. by intros [= <-].
    + right. by exists m, bytes.
Qed.

Lemma daemon_step_ok st s : daemon_ok st → daemon_ok (daemon_step st s).
Proof.
  destruct s as [e []]; intros Hok; cbn [daemon_step].
  - by apply summaries_ok.
  - by apply start_instance_ok.
  - by apply stop_instance_ok.
  - by apply launch_app_ok.
  - by destruct (restart_ok e st Hok) as (st' & -> & ?).
Qed.

(** C11: whatever RPCs arrive, whatever the operating system answers and however often
    the daemon is restarted, no two instances ever share a port, and the snapshot file
    is always one the daemon can start from. *)
Theorem daemon_safe (h : list (env * daemon_op)) e :
  let st := daemon_run daemon_init h in
  ports_unique (instances st) ∧ is_ok (reconcile_on_startup e (state_bin st)) = true.
Proof.
  enough (daemon_ok (daemon_run daemon_init h)) as Hok.
  { split; [apply Hok|]. by destruct (restart_ok e _ Hok) as (st' & -> & _). }
  assert (daemon_ok daemon_init) as H0.
  { split; [by intros ????|by left]. }
  revert H0. generalize daemon_init as st. unfold daemon_run.
  induction h as [|s h IH]; intros st Hok; [done|]. by apply IH, daemon_step_ok.
Qed.

(** ** What is on disk *)

Lemma retain_all pids alive : (retain_live_app_pids pids alive).2 = false →
  (retain_live_app_pids pids alive).1 = pids.
Proof.
  unfold retain_live_app_pids. cbn [fst snd]. rewrite negb_false_iff, Nat.eqb_eq.
  induction pids as [|p pids IH]; [done|]. rewrite filter_cons.
  destruct (decide (alive p)) as [|Hna]; cbn [length].
  - intros Hl. f_equal. apply IH. lia.
  - intros Hl. pose proof (length_filter (λ pid, alive pid) pids). lia.
Qed.

Lemma persisted_same st m effs :
  persisted st → m = instances st → persisted (mkDaemonState m (state_bin st) effs).
Proof. by intros (bs & ? & ?) ->; exists bs. Qed.

(** Did the start get as far as replacing or reaping something, and then fail? *)
Definition failed_after_change e st (instance : rstring) (port : Z) quic : bool :=
  let '(m, reaped) := reap_dead_instances e (instances st) in
  bool_decide (port_conflict_owner m instance port = None)
  && negb (is_ok (spawn_server e quic))
  && (reaped || bool_decide (is_Some (m !! instance))).

(** As long as writing the file works, every operation keeps it equal to the state
    in memory, except a start that fails after it removed instances. *)
Theorem operations_persist e st op :
  writes_ok e = true → persisted st →
  (∀ i p d q, op = Op_start i p d q → failed_after_change e st i p q = false) →
  persisted (daemon_step st (e, op)).
Proof.
  intros Hw Hp Hfail. pose proof (flush_persisted e) as Hflush.
  destruct op as [|i p d q|i|i sock argv ms|]; cbn [daemon_step].
  - unfold summaries. destruct (reap_dead_instances e (instances st)) as [m r] eqn:Hr.
    destruct (r || _) eqn:Hneed; cbn [fst]; [by apply Hflush|].
    apply orb_false_iff in Hneed as [-> Hall]. apply persisted_same; [done|].
    pose proof (reap_nothing e (instances st)) as Hm. rewrite Hr in Hm. rewrite <- (Hm eq_refl).
    apply map_eq. intros n. rewrite lookup_fmap. destruct (m !! n) as [inst|] eqn:Hn; [|done].
    cbn [fmap option_fmap option_map]. f_equal. rewrite retain_all; [by destruct inst|].
    destruct ((retain_live_app_pids (app_pids inst) (pid_alive e)).2) eqn:Hch; [|done]. exfalso.
    apply not_true_iff_false in Hall. apply Hall, existsb_exists.
    exists (n, inst). split; [by apply list_elem_of_In, elem_of_map_to_list|done].
  - specialize (Hfail i p d q eq_refl). unfold failed_after_change in Hfail. unfold start_instance.
    pose proof (reap_nothing e (instances st)) as Hm.
    destruct (reap_dead_instances e (instances st)) as [m r]. cbn [fst snd] in Hm.
    destruct (port_conflict_owner m i p) as [[o pid]|] eqn:Hc; cbn [fst].
    { destruct r; [by apply Hflush|]. apply persisted_same; auto. }
    destruct (spawn_server e q) as [pid|err]; cbn [fst]; [by apply Hflush|].
    rewrite bool_decide_true in Hfail by done. cbn [is_ok negb andb] in Hfail.
    apply orb_false_iff in Hfail as [-> Hno]. apply bool_decide_eq_false in Hno.
    destruct (m !! i); [by exfalso; apply Hno|]. apply persisted_same; auto.
  - unfold stop_instance. destruct (instances st !! i); [by apply Hflush|done].
  - unfold launch_app. case_match; [by apply Hflush|done].
  - destruct Hp as (bs & Hb & He). unfold reconcile_on_startup.
    rewrite Hb, (load_encoded _ _ He). by apply Hflush.
Qed.

Lemma snapshot_of_length m : length (snapshot_of m) = size m.
Proof. rewrite snapshot_of_eq, length_fmap, length_map_to_list. done. Qed.

(** And that exception is real: when a start of a running instance terminates it
    and then fails, for example because the binary does not spawn or the QUIC token is
    empty, the instance is gone from memory and its processes have been signalled, but
    the file still lists it. *)
Theorem failed_start_leaves_stale_file e st i p d q inst :
  persisted st → instances st !! i = Some inst → instance_alive e inst = true →
  port_conflict_owner (reap_dead_instances e (instances st)).1 i p = None →
  is_ok (spawn_server e q) = false →
  let '(st', r) := start_instance e st i p d q in
  is_ok r = false ∧ instances st' !! i = None
  ∧ effects st' = effects st ++ terminate e inst
  ∧ state_bin st' = state_bin st ∧ ¬ persisted st'.
Proof.
  intros (bs & Hb & He) Hi Hal Hc Hsp. unfold start_instance.
  pose proof (reap_lookup e (instances st) i) as Hl. rewrite Hi in Hl. cbn [mbind option_bind] in Hl.
  rewrite Hal in Hl. pose proof (reap_subseteq e (instances st)) as Hsub.
  destruct (reap_dead_instances e (instances st)) as [m r]. cbn [fst] in *.
  rewrite Hc, Hl. destruct (spawn_server e q) as [|err]; [done|]. cbn [instances effects state_bin is_ok].
  split_and!; try done; [by rewrite lookup_delete_eq|].
  intros (bs' & Hb' & He'). cbn [state_bin instances] in *.
  rewrite Hb in Hb'. injection Hb' as <-.
  assert (snapshot_of (delete i m) = snapshot_of (instances st)) as Hsn.
  { apply from_to_bytes in He, He'. congruence. }
  apply (f_equal length) in Hsn. rewrite !snapshot_of_length, map_size_delete, Hl in Hsn.
  pose proof (map_subseteq_size _ _ Hsub) as Hsz.
  assert (size m ≠ 0)%nat; [|lia]. intros H0. apply map_size_empty_inv in H0. subst m.
  by rewrite lookup_empty in Hl.
Qed.

(** Stopping an instance sends SIGTERM to each of its apps and then to its server
    and to nothing else, SIGKILL only to those that outlive the grace period, forgets
    the instance and leaves the others alone; stopping an unknown one does nothing. *)
Theorem stop_instance_spec e st i :
  let '(st', r) := stop_instance e st i in
  match instances st !! i with
  | None => st' = st ∧ is_ok r = false
  | Some inst =>
      r = Ok tt ∧ instances st' = delete i (instances st)
      ∧ effects st' = effects st
          ++ ((λ pid, Eff_kill pid SIGTERM) <$> app_pids inst) ++ [Eff_kill (server_pid inst) SIGTERM]
          ++ ((λ pid, Eff_kill pid SIGKILL) <$> filter (λ pid, outlives_term e pid)
                (app_pids inst ++ [server_pid inst]))
  end.
Proof.
  unfold stop_instance. destruct (instances st !! i) as [inst|]; [|done].
  rewrite flush_instances, flush_effects. cbn [instances effects].
  split_and!; [done..|]. unfold terminate, pids_to_terminate. by rewrite fmap_app, <- app_assoc.
Qed.

(** A launch that succeeds hands out the pid of the app it spawned, and the app is
    tracked (reported, and signalled when the instance stops) exactly when the instance
    is known; for an instance the daemon does not know the launch succeeds all the same
    and nothing in the state remembers the app. *)
Theorem launch_app_tracks e st i sock argv ms pid :
  (launch_app e st i sock argv ms).2 = Ok pid →
  let st' := (launch_app e st i sock argv ms).1 in
  spawned e = Ok pid ∧
  match instances st !! i with
  | Some inst => instances st' = <[i := mkInstance (inst_port inst) (server_pid inst) (owned inst)
                                          (app_pids inst ++ [pid])]> (instances st)
  | None => instances st' = instances st
  end.
Proof.
  unfold launch_app. destruct (_ ≫= _) as [pid'|err] eqn:E; [|done]. cbn [fst snd].
  intros [= ->]. rewrite flush_instances. cbn [instances]. split.
  - apply bind_ok in E as (u & _ & E). apply bind_ok in E as (u1 & _ & E).
    apply bind_ok in E as (u2 & _ & E). apply bind_ok in E as (u3 & _ & E).
    apply bind_ok in E as (p & Hp & E). apply bind_ok in E as (u4 & _ & E).
    apply bind_ok in E as (u5 & _ & E). by injection E as ->.
  - by destruct (instances st !! i).
Qed.
End theorems.

(** ** Concurrent sessions

    Each session runs in its own thread.  An operation changes the map under the lock,
    releases it, and [flush] takes it again only to copy the map: the file is written
    outside the lock. *)

Inductive flush_event :=
  | Ev_change (f : gmap rstring Instance → gmap rstring Instance)
  | Ev_snapshot (thread : nat)
  | Ev_write (thread : nat).

Record shared := mkShared {
  sh_map : gmap rstring Instance;
  sh_taken : nat → list InstanceSnapshot;
  sh_file : list InstanceSnapshot
}.

Definition flush_step (s : shared) (ev : flush_event) : shared :=
  match ev with
  | Ev_change f => mkShared (f (sh_map s)) (sh_taken s) (sh_file s)
  | Ev_snapshot t => mkShared (sh_map s)
      (λ t', if decide (t' = t) then snapshot_of (sh_map s) else sh_taken s t') (sh_file s)
  | Ev_write t => mkShared (sh_map s) (sh_taken s) (sh_taken s t)
  end.

(** What thread [t] does for [stop_instance]. *)
Definition stop_events (t : nat) (instance : rstring) : list flush_event :=
  [Ev_change (delete instance); Ev_snapshot t; Ev_write t].

Inductive interleave {A} : list A → list A → list A → Prop :=
  | interleave_nil : interleave [] [] []
  | interleave_left x l k m : interleave l k m → interleave (x :: l) k (x :: m)
  | interleave_right x l k m : interleave l k m → interleave l (x :: k) (x :: m).

Definition run_events (s : shared) (evs : list flush_event) : shared := foldl flush_step s evs.

(** Two sessions that stop two instances one after the other leave a file that says
    so; run at the same time, they may leave a file that still lists an instance whose
    stop has been confirmed, because the older copy can be written last. *)
Theorem concurrent_stops s i j x :
  i ≠ j → sh_map s !! j = Some x →
  let sequential := run_events s (stop_events 0 i ++ stop_events 1 j) in
  sh_file sequential = snapshot_of (delete j (delete i (sh_map s)))
  ∧ ∃ schedule, interleave (stop_events 0 i) (stop_events 1 j) schedule ∧
      let final := run_events s schedule in
      sh_map final = delete j (delete i (sh_map s))
      ∧ snap_of (j, x) ∈ sh_file final ∧ sh_file final ≠ snapshot_of (sh_map final).
Proof.
  intros Hij Hj. split; [done|].
  exists [Ev_change (delete i); Ev_snapshot 0; Ev_change (delete j); Ev_snapshot 1; Ev_write 1; Ev_write 0].
  split.
  { do 2 apply interleave_left. do 3 apply interleave_right. apply interleave_left. constructor. }
  split; [done|]. cbn -[snapshot_of]. set (m := delete i (sh_map s)).
  assert (m !! j = Some x) as Hm by (unfold m; by rewrite lookup_delete_ne).
  split.
  - change (snap_of (j, x) ∈ snapshot_of m). rewrite snapshot_of_eq.
    apply (list_elem_of_fmap_2 snap_of). by apply elem_of_map_to_list.
  - intros E. change (snapshot_of m = snapshot_of (delete j m)) in E.
    apply (f_equal length) in E. rewrite !snapshot_of_length, map_size_delete, Hm in E.
    assert (size m ≠ 0)%nat as H0; [|simpl in E; lia]. intros H0. apply map_size_empty_inv in H0.
    by rewrite H0, lookup_empty in Hm.
Qed.

(** ** Witnesses *)

#[local] Existing Instances Bits.codec Bits.laws.

Lemma bits_encodes (s : list InstanceSnapshot) : is_Some (to_allocvec s).
Proof. by eexists. Qed.

Lemma bits_nonempty (s : list InstanceSnapshot) : to_allocvec s ≠ Some [].
Proof. done. Qed.

(** A healthy system, on which the next spawn yields [pid]. *)
Definition healthy (pid : Z) : env :=
  mkEnv (λ _, true) (λ _, true) (λ _, false) (Ok tt) (Ok tt) (Ok pid) None (Ok tt) true None true.

(** The same, with the server binary gone. *)
Definition no_binary : env :=
  mkEnv (λ _, true) (λ _, true) (λ _, false) (Ok tt) (Ok tt) (Err [lit "spawn vbox-server"]) None
    (Ok tt) true None true.

Definition one_running : DaemonState :=
  daemon_run daemon_init [(healthy 100, Op_start (lit "a") 5710 false None);
                          (healthy 101, Op_launch (lit "a") (lit "wl") [lit "gedit"] 0)].

Lemma one_running_persisted : persisted one_running.
Proof. eexists. split; vm_compute; reflexivity. Qed.

Lemma restart_recovers_witness :
  ∃ st', reconcile_on_startup (healthy 0) (state_bin one_running) = Ok st'
    ∧ instances st' = omap (recovered (healthy 0)) (instances one_running).
Proof.
  destruct (restart_recovers bits_encodes bits_nonempty (healthy 0) one_running one_running_persisted)
    as (st' & E & Hi & _).
  exists st'. split; [exact E|exact Hi].
Defined.

Lemma daemon_safe_witness :
  ports_unique (instances one_running)
  ∧ is_ok (reconcile_on_startup (healthy 0) (state_bin one_running)) = true.
Proof. apply (daemon_safe bits_nonempty). Defined.

Lemma operations_persist_witness :
  persisted (daemon_step one_running (healthy 7, Op_stop (lit "a"))).
Proof.
  apply (operations_persist bits_encodes bits_nonempty); [reflexivity|apply one_running_persisted|].
  intros i p d q Heq. discriminate Heq.
Defined.

Lemma failed_start_leaves_stale_file_witness :
  let st' := (start_instance no_binary one_running (lit "a") 5711 false None).1 in
  instances st' !! lit "a" = None ∧ state_bin st' = state_bin one_running ∧ ¬ persisted st'.
Proof.
  intros st'.
  pose proof (failed_start_leaves_stale_file no_binary one_running (lit "a") 5711 false None
    (mkInstance 5710 100 true [101]) one_running_persisted) as H.
  unfold st'. destruct (start_instance no_binary one_running (lit "a") 5711 false None) as [s r].
  destruct H as (_ & H1 & _ & H2 & H3); [vm_compute; reflexivity..|].
  split; [exact H1|]. split; [exact H2|exact H3].
Defined.

Lemma launch_app_tracks_witness :
  let st' := (launch_app (healthy 500) one_running (lit "nope") (lit "wl") [lit "gedit"] 0).1 in
  instances st' = instances one_running.
Proof.
  apply (launch_app_tracks (healthy 500) one_running (lit "nope") (lit "wl") [lit "gedit"] 0 500).
  vm_compute. reflexivity.
Defined.

Lemma concurrent_stops_witness :
  ∃ schedule, interleave (stop_events 0 (lit "a")) (stop_events 1 (lit "b")) schedule ∧
    let s := mkShared (<[lit "a" := mkInstance 1 10 true []]> {[lit "b" := mkInstance 2 20 true []]})
               (λ _, []) [] in
    snap_of (lit "b", mkInstance 2 20 true []) ∈ sh_file (run_events s schedule).
Proof.
  destruct (concurrent_stops (mkShared (<[lit "a" := mkInstance 1 10 true []]>
      {[lit "b" := mkInstance 2 20 true []]}) (λ _, []) []) (lit "a") (lit "b")
      (mkInstance 2 20 true [])) as (_ & sch & Hi & _ & Hin & _); [discriminate|vm_compute; reflexivity|].
  exists sch. split; [exact Hi|exact Hin].
Defined.
