(* ===== verification/Control.v ===== *)
(** * The control session (crates/controld/src/main.rs)

    One connection to the daemon: the Hello exchange, the authentication gate and the
    dispatch of RPCs on the [DaemonState] of [Daemon].  A session is a function of the
    messages that arrive, each with what the environment answers while it is handled. *)

From S2P Require Import Prelude Text Wire Framing Daemon.

(** ** Authentication *)

(** [u8] bytes; the difference is accumulated over all of them. *)
Definition diff_bytes (a b : list byte) : Z :=
  foldl (λ diff '(x, y), Z.lor diff (Z.lxor (byte_to_Z x) (byte_to_Z y))) 0 (zip a b).

Definition constant_time_eq (a b : list byte) : bool :=
  if negb (length a =? length b)%nat then false else diff_bytes a b =? 0.

Definition authenticate (supplied expected : list byte) : RpcResult :=
  if constant_time_eq supplied expected then RpcResult_Ok RpcOk_Authenticated
  else RpcResult_Err (lit "authentication failed").

Definition rpc_is_ok (r : RpcResult) : bool :=
  match r with RpcResult_Ok _ => true | RpcResult_Err _ => false end.

(** ** Decisions *)

Inductive HelloDecision := Hello_Accept | Hello_Reject (err : ProtoError).

Definition check_protocol_version (client_name : rstring) (client_proto : Z) : HelloDecision :=
  if client_proto =? PROTOCOL_VERSION then Hello_Accept
  else Hello_Reject (mkProtoError 426
         (lit "protocol version mismatch: client=" ++ dec client_proto
          ++ lit ", daemon=" ++ dec PROTOCOL_VERSION)).

Inductive SessionAction :=
  | Action_Pong (seq stamp_ns : Z)
  | Action_Close (reason : rstring)
  | Action_Rpc
  | Action_Unexpected (kind : Kind).

Definition decide_session_action (msg : Message) : SessionAction :=
  match msg with
  | Message_Ping p => Action_Pong (ping_seq p) (ping_stamp_ns p)
  | Message_Goodbye g => Action_Close (goodbye_reason g)
  | Message_RpcRequest _ => Action_Rpc
  | other => Action_Unexpected (message_kind other)
  end.

(** The [Debug] name of a kind. *)
Definition kind_name (k : Kind) : rstring :=
  match k with
  | Kind_Hello => lit "Hello" | Kind_Welcome => lit "Welcome" | Kind_Goodbye => lit "Goodbye"
  | Kind_ViewRequest => lit "ViewRequest" | Kind_Ping => lit "Ping" | Kind_Pong => lit "Pong"
  | Kind_Error => lit "Error" | Kind_DataPlaneAuth => lit "DataPlaneAuth"
  | Kind_DataPlaneChannel => lit "DataPlaneChannel" | Kind_WindowEvent => lit "WindowEvent"
  | Kind_FrameTile => lit "FrameTile" | Kind_InputEvent => lit "InputEvent"
  | Kind_ImeEvent => lit "ImeEvent" | Kind_RpcRequest => lit "RpcRequest"
  | Kind_RpcResponse => lit "RpcResponse" | Kind_Clipboard => lit "Clipboard"
  | Kind_VolumeChange => lit "VolumeChange"
  end.

Definition unexpected_message_error (kind : Kind) : ProtoError :=
  mkProtoError 400 (lit "unexpected message kind: " ++ kind_name kind).

(** [format_err_chain]: the causes on lines of their own. *)
Fixpoint format_causes (causes : list rstring) : rstring :=
  match causes with
  | [] => []
  | c :: causes' => [10] ++ lit "  caused by: " ++ c ++ format_causes causes'
  end.

Definition format_err_chain (e : list rstring) : rstring :=
  match e with
  | [] => []
  | c :: causes => c ++ format_causes causes
  end.

(** ** The environment of one request *)

Record rpc_env := mkRpcEnv {
  os : env;
  self_pid : Z;
  inotify_wait : option (result anyhow unit);
  poll_wait : result anyhow unit;
  cert_sha256 : result anyhow (option rstring);
  reply_ok : bool                 (* the reply could be written *)
}.

(** [DaemonState::wait_socket]. *)
Definition wait_socket (e : rpc_env) (socket : rstring) (timeout_ms : Z) : result anyhow unit :=
  _ ← runtime_dir (os e);
  if socket_exists (os e) then Ok tt
  else match inotify_wait e with Some res => res | None => poll_wait e end.

Section control.
Context `{C : Codec (list InstanceSnapshot)}.
  (** [str::as_bytes], [Debug] of a string, and the crate's version. *)
Context (as_bytes : rstring → list byte) (debug_str : rstring → rstring) (version : rstring).

Definition build_welcome (session_id : Z) : Welcome :=
  mkWelcome PROTOCOL_VERSION (lit "vbox-controld/" ++ version) session_id.

Definition label_start (instance : rstring) (port : Z) : rstring :=
  lit "start_instance(instance=" ++ instance ++ lit ", port=" ++ dec port ++ lit ")".

Definition label_launch (instance socket : rstring) (argv : list rstring) (wait_ready_ms : Z) : rstring :=
  lit "launch_app(instance=" ++ instance ++ lit ", socket=" ++ socket ++ lit ", argv0="
  ++ debug_str (default [] (head argv)) ++ lit ", wait_ready_ms=" ++ dec wait_ready_ms ++ lit ")".

Definition label_wait (socket : rstring) (timeout_ms : Z) : rstring :=
  lit "wait_socket(socket=" ++ socket ++ lit ", timeout_ms=" ++ dec timeout_ms ++ lit ")".

Definition rpc_result {A} (label : rstring) (ok : A → RpcOk) (r : result anyhow A) : RpcResult :=
  match r with
  | Ok a => RpcResult_Ok (ok a)
  | Err e => RpcResult_Err (format_err_chain (context label e))
  end.

(** The methods behind the gate. *)
Definition dispatch_method (e : rpc_env) (st : DaemonState) (m : RpcMethod) : DaemonState * RpcResult :=
  match m with
  | Rpc_Authenticate _ => (st, RpcResult_Err (lit "not authenticated"))
  | Rpc_Status =>
      let '(st', insts) := summaries (os e) st in
      (st', RpcResult_Ok (RpcOk_Status (mkStatusReply (self_pid e) insts)))
  | Rpc_StartInstance instance port debug quic_bind quic_port quic_token =>
      let '(st', r) := start_instance (os e) st instance port debug
        ((λ bind, mkQuicInstanceConfig bind quic_port (default [] quic_token)) <$> quic_bind) in
      (st', rpc_result (label_start instance port) RpcOk_InstanceStarted r)
  | Rpc_StopInstance instance =>
      let '(st', r) := stop_instance (os e) st instance in
      (st', rpc_result (lit "stop_instance(instance=" ++ instance ++ lit ")")
              (λ _, RpcOk_InstanceStopped) r)
  | Rpc_LaunchApp instance socket argv wait_ready_ms =>
      let '(st', r) := launch_app (os e) st instance socket argv wait_ready_ms in
      (st', rpc_result (label_launch instance socket argv wait_ready_ms) RpcOk_AppLaunched r)
  | Rpc_WaitSocket socket timeout_ms =>
      (st, rpc_result (label_wait socket timeout_ms) (λ _, RpcOk_SocketReady)
             (wait_socket e socket timeout_ms))
  | Rpc_PrepareDataPlane instance tcp_addr quic_addr session_token =>
      (st, RpcResult_Ok (RpcOk_DataPlanePrepared
         (mkBootstrapBundle tcp_addr quic_addr session_token
            (instance ≫= λ _, match cert_sha256 e with Ok o => o | Err _ => None end)
            (match quic_addr with
             | Some _ => TransportCapabilities_quic_phase1
             | None => TransportCapabilities_tcp
             end))))
  end.

(** The [match] of [dispatch]: the state, the flag and the result. *)
Definition dispatch_result (e : rpc_env) (st : DaemonState) (method : RpcMethod) (authenticated : bool)
    (expected_token : rstring) : DaemonState * bool * RpcResult :=
  match method with
  | Rpc_Authenticate token =>
      let outcome := authenticate (as_bytes token) (as_bytes expected_token) in
      (st, if rpc_is_ok outcome then true else authenticated, outcome)
  | m =>
      if negb authenticated then (st, authenticated, RpcResult_Err (lit "not authenticated"))
      else let '(st', r) := dispatch_method e st m in (st', authenticated, r)
  end.

Definition dispatch (e : rpc_env) (st : DaemonState) (req : RpcRequest) (authenticated : bool)
    (expected_token : rstring) : DaemonState * bool * RpcResponse :=
  let '(st', auth', result) := dispatch_result e st (req_method req) authenticated expected_token in
  (st', auth', mkRpcResponse (req_id req) result).

(** How a session ends: cleanly, or with an error that is only logged. *)
Inductive session_end := End_ok | End_error.

(** The loop: a read error ends it, as the end of the input does. *)
Fixpoint session_loop (expected_token : rstring) (st : DaemonState) (authenticated : bool)
    (inbound : list (rpc_env * Message)) : DaemonState * list Message * session_end :=
  match inbound with
  | [] => (st, [], End_ok)
  | (e, msg) :: rest =>
      match decide_session_action msg, msg with
      | Action_Close _, _ => (st, [], End_ok)
      | Action_Rpc, Message_RpcRequest req =>
          let '(st', auth', resp) := dispatch e st req authenticated expected_token in
          if negb (reply_ok e) then (st', [], End_error) else
          let '(st'', out, fin) := session_loop expected_token st' auth' rest in
          (st'', Message_RpcResponse resp :: out, fin)
      | Action_Pong seq stamp, _ =>
          if negb (reply_ok e) then (st, [], End_error) else
          let '(st'', out, fin) := session_loop expected_token st authenticated rest in
          (st'', Message_Pong (mkPong seq stamp) :: out, fin)
      | Action_Unexpected kind, _ =>
          if negb (reply_ok e) then (st, [], End_error) else
          let '(st'', out, fin) := session_loop expected_token st authenticated rest in
          (st'', Message_Error (unexpected_message_error kind) :: out, fin)
      | Action_Rpc, _ => (st, [], End_error)
      end
  end.

(** [handle_session] after the preludes. *)
Definition handle_session (session_id : Z) (tls_mode : bool) (expected_token : rstring)
    (st : DaemonState) (inbound : list (rpc_env * Message)) :
    DaemonState * list Message * session_end :=
  match inbound with
  | (e, Message_Hello hello) :: rest =>
      match check_protocol_version (hello_client_name hello) (hello_protocol_version hello) with
      | Hello_Reject err => (st, if reply_ok e then [Message_Error err] else [], End_error)
      | Hello_Accept =>
          if negb (reply_ok e) then (st, [], End_error) else
          let '(st', out, fin) := session_loop expected_token st tls_mode rest in
          (st', Message_Welcome (build_welcome session_id) :: out, fin)
      end
  | _ => (st, [], End_error)
  end.

End control.

(** ** Specification notions *)

(** A message that presents the right token. *)
Definition presents_token (as_bytes : rstring → list byte) (expected : rstring) (m : Message) : Prop :=
  ∃ id token, m = Message_RpcRequest (mkRpcRequest id (Rpc_Authenticate token))
              ∧ as_bytes token = as_bytes expected.

Definition request_id (m : Message) : option Z :=
  match m with Message_RpcRequest r => Some (req_id r) | _ => None end.
Definition response_id (m : Message) : option Z :=
  match m with Message_RpcResponse r => Some (resp_id r) | _ => None end.
Definition is_goodbye (m : Message) : bool :=
  match m with Message_Goodbye _ => true | _ => false end.

(** A reply that tells nothing: an error, or not an RPC response at all. *)
Definition discloses_nothing (m : Message) : Prop :=
  match m with
  | Message_RpcResponse r => rpc_is_ok (resp_result r) = false
  | Message_Pong _ | Message_Error _ | Message_Welcome _ => True
  | _ => False
  end.

(** ** Lemmas *)

Lemma lor_eq_0_fold l acc :
  0 ≤ acc →
  foldl (λ diff '(x, y), Z.lor diff (Z.lxor (byte_to_Z x) (byte_to_Z y))) acc l = 0 ↔
  acc = 0 ∧ Forall (λ '(x, y), x = y) l.
Proof.
  revert acc. induction l as [|[x y] l IH]; intros acc Ha; cbn [foldl].
  - split; [done|by intros [? _]].
  - pose proof (byte_to_Z_range x) as Hx. pose proof (byte_to_Z_range y) as Hy. unfold is_u8 in *.
    assert (0 ≤ Z.lxor (byte_to_Z x) (byte_to_Z y)) as Hxy by (apply Z.lxor_nonneg; lia).
    rewrite IH by (by apply Z.lor_nonneg).
    rewrite Z.lor_eq_0_iff, Z.lxor_eq_0_iff, Forall_cons. split.
    + intros [[-> Heq] Hall]. split_and!; try done.
      by rewrite <- (byte_of_to_Z x), Heq, byte_of_to_Z.
    + by intros (-> & -> & Hall).
Qed.

Lemma zip_all_eq {A} (a b : list A) :
  length a = length b → Forall (λ '(x, y), x = y) (zip a b) → a = b.
Proof.
  revert b. induction a as [|x a IH]; intros [|y b] Hl Hall; simplify_eq/=; [done|].
  apply Forall_cons in Hall as [-> Hall]. f_equal. by apply IH.
Qed.

Lemma zip_refl {A} (a : list A) : Forall (λ '(x, y), x = y) (zip a a).
Proof. induction a; simpl; by constructor. Qed.

Lemma constant_time_eq_true a b : constant_time_eq a b = true ↔ a = b.
Proof.
  unfold constant_time_eq, diff_bytes. destruct (Nat.eqb_spec (length a) (length b)) as [Hl|Hl]; simpl.
  - rewrite Z.eqb_eq, lor_eq_0_fold by done. split.
    + intros [_ Hall]. by apply zip_all_eq.
    + intros ->. split; [done|apply zip_refl].
  - split; [done|]. by intros ->.
Qed.

(** The token comparison that looks at every byte decides equality of the two byte
    strings. *)
Theorem constant_time_eq_spec a b : constant_time_eq a b = bool_decide (a = b).
Proof.
  apply eq_bool_prop_intro. rewrite bool_decide_spec, Is_true_true. apply constant_time_eq_true.
Qed.

Section control_lemmas.
Context `{C : Codec (list InstanceSnapshot)}.
Context (as_bytes : rstring → list byte) (debug_str : rstring → rstring) (version : rstring).
Let dispatch := dispatch as_bytes debug_str.
Let session_loop := session_loop as_bytes debug_str.
Let handle_session := handle_session as_bytes debug_str version.

Lemma dispatch_id e st req auth tok : resp_id (dispatch e st req auth tok).2 = req_id req.
Proof.
  unfold dispatch, Control.dispatch. by destruct (dispatch_result _ _ _ _ _ _ _) as [[? ?] ?].
Qed.

Lemma dispatch_unauthenticated e st req tok :
  ¬ presents_token as_bytes tok (Message_RpcRequest req) →
  ∃ err, dispatch e st req false tok = (st, false, mkRpcResponse (req_id req) (RpcResult_Err err)).
Proof.
  intros Hno. destruct req as [id m]. unfold dispatch, Control.dispatch, dispatch_result.
  cbn [req_method req_id].
  destruct m; try by eexists.
  unfold authenticate. destruct (constant_time_eq _ _) eqn:E; [|by eexists].
  exfalso. apply Hno. exists id, token. split; [done|by apply constant_time_eq_true].
Qed.

Lemma session_loop_unauthenticated tok st inbound :
  Forall (λ x, ¬ presents_token as_bytes tok x.2) inbound →
  (session_loop tok st false inbound).1.1 = st ∧
  Forall discloses_nothing (session_loop tok st false inbound).1.2.
Proof.
  unfold session_loop. revert st. induction inbound as [|[e msg] rest IH]; intros st Hall; [done|].
  apply Forall_cons in Hall as [Hm Hall]. specialize (IH st Hall). cbn [Control.session_loop].
  destruct msg; cbn [decide_session_action]; try (
    destruct (reply_ok e); cbn [negb]; [|done];
    destruct (Control.session_loop _ _ _ _ _ _) as [[st' out] fin];
    cbn [fst snd] in *; split; [apply IH|apply Forall_cons; split; [done|apply IH]]).
  - done.
  - destruct (dispatch_unauthenticated e st m tok Hm) as [err E]. unfold dispatch in E.
    rewrite E. destruct (reply_ok e); cbn [negb]; [|done].
    destruct (Control.session_loop _ _ _ _ _ _) as [[st' out] fin].
    cbn [fst snd] in *. split; [apply IH|apply Forall_cons; split; [done|apply IH]].
Qed.

(** C10: on a plain connection nothing happens before the token is presented: a session
    in which no message carries it leaves the daemon's state (instances, snapshot file,
    processes) untouched, and every RPC in it is answered with an error. *)
Theorem session_gate session_id tok st inbound :
  Forall (λ x, ¬ presents_token as_bytes tok x.2) inbound →
  let '(st', out, _) := handle_session session_id false tok st inbound in
  st' = st ∧ Forall discloses_nothing out.
Proof.
  intros Hall. unfold handle_session, Control.handle_session.
  destruct inbound as [|[e msg] rest]; [done|]. destruct msg; try done.
  apply Forall_cons in Hall as [_ Hall].
  destruct (check_protocol_version _ _); [|by destruct (reply_ok e); repeat constructor].
  destruct (reply_ok e); cbn [negb]; [|done].
  pose proof (session_loop_unauthenticated tok st rest Hall) as [H1 H2]. unfold session_loop in *.
  destruct (Control.session_loop _ _ _ _ _ _) as [[st' out] fin]. cbn [fst snd] in *.
  split; [done|]. by constructor.
Qed.

(** In a session whose replies can be written, every request before the goodbye is
    answered exactly once, with its own id and in the order of arrival. *)
Theorem session_answers tok st auth inbound rest :
  Forall (λ x, reply_ok x.1 = true ∧ is_goodbye x.2 = false) inbound →
  (rest = [] ∨ ∃ e g more, rest = (e, Message_Goodbye g) :: more) →
  omap response_id (session_loop tok st auth (inbound ++ rest)).1.2
  = omap (λ x, request_id x.2) inbound.
Proof.
  intros Hall Hrest. unfold session_loop. revert st auth.
  induction inbound as [|[e msg] inbound IH]; intros st auth; cbn [app].
  - by destruct Hrest as [-> |(e & g & more & ->)].
  - apply Forall_cons in Hall as [[Hok Hg] Hall]. specialize (IH Hall). cbn [fst snd] in *.
    cbn [Control.session_loop]. rewrite Hok. cbn [negb].
    destruct msg; cbn [decide_session_action]; try done; try (
      specialize (IH st auth); destruct (Control.session_loop _ _ _ _ _ _) as [[st' out] fin];
      cbn [fst snd] in *; csimpl; exact IH).
    destruct (Control.dispatch _ _ e st m auth tok) as [[st' auth'] resp] eqn:E.
    specialize (IH st' auth'). destruct (Control.session_loop _ _ _ _ _ _) as [[st'' out] fin].
    cbn [fst snd] in *. csimpl. rewrite IH.
    assert (resp_id resp = req_id m) as ->; [|done].
    pose proof (dispatch_id e st m auth tok) as Hid. unfold dispatch in Hid. by rewrite E in Hid.
Qed.
End control_lemmas.

(** ** Witnesses *)

#[local] Existing Instances Bits.codec Bits.laws.

(** Strings as their code points; a machine on which everything works. *)
Definition bytes_of_string (s : rstring) : list byte := byte_of_Z <$> s.
Definition sunny : rpc_env :=
  mkRpcEnv (healthy 100) 1 None (Ok tt) (Ok None) true.

Definition hello : Message := Message_Hello (mkHello PROTOCOL_VERSION (lit "host")).
Definition rpc (id : Z) (m : RpcMethod) : Message := Message_RpcRequest (mkRpcRequest id m).

Lemma session_gate_witness :
  let inbound := [(sunny, hello); (sunny, rpc 1 (Rpc_Authenticate (lit "guess")));
                  (sunny, rpc 2 (Rpc_StopInstance (lit "a")))] in
  let '(st', out, _) := handle_session bytes_of_string id (lit "1.0") 7 false (lit "secret")
                          one_running inbound in
  st' = one_running ∧ Forall discloses_nothing out.
Proof.
  apply (session_gate bytes_of_string id (lit "1.0") 7 (lit "secret") one_running).
  repeat constructor; intros (i & t & Heq & Hb); try discriminate Heq.
  injection Heq as <- <-. vm_compute in Hb. discriminate Hb.
Defined.

Lemma session_answers_witness :
  omap response_id (session_loop bytes_of_string id (lit "secret") one_running false
    ([(sunny, rpc 4 (Rpc_Authenticate (lit "secret"))); (sunny, rpc 9 Rpc_Status)]
     ++ [(sunny, Message_Goodbye (mkGoodbye []))])).1.2 = [4; 9].
Proof.
  apply session_answers; [repeat constructor|]. right. by exists sunny, (mkGoodbye []), [].
Defined.
