(* ===== verification/Server.v ===== *)
(** * The guest server's connections (crates/server/src/main.rs, data_plane/quic_listener.rs)

    The accept loop with its capacity, the TCP session up to the hand-over to the
    compositor, the QUIC session behind its token, and the QUIC writer with one stream per
    window. *)

From S2P Require Import Prelude Text Wire Framing.

(** ** Capacity *)

Inductive AcceptDecision :=
  | Accept (active_after : Z)
  | Reject (active_unchanged : Z).

Definition decide_accept (current_active max_clients : Z) : AcceptDecision :=
  let attempted := current_active + 1 in
  if max_clients <? attempted then Reject current_active else Accept attempted.

(** The accept loop and its connection threads: [active] is the shared counter, [running]
    the threads inside [handle], and a thread that panics never gets to its
    [fetch_sub]. *)
Record acceptor := mkAcceptor { active : Z; running : Z; panicked : Z; refused : Z }.

Inductive accept_step (max_clients : Z) : acceptor → acceptor → Prop :=
  | Step_accept s n :
      decide_accept (active s) max_clients = Accept n →
      accept_step max_clients s (mkAcceptor (active s + 1) (running s + 1) (panicked s) (refused s))
  | Step_refuse s n :
      decide_accept (active s) max_clients = Reject n →
      accept_step max_clients s (mkAcceptor (active s) (running s) (panicked s) (refused s + 1))
  | Step_end s :
      0 < running s →
      accept_step max_clients s (mkAcceptor (active s - 1) (running s - 1) (panicked s) (refused s))
  | Step_panic s :
      0 < running s →
      accept_step max_clients s (mkAcceptor (active s) (running s - 1) (panicked s + 1) (refused s)).

Definition acceptor_init : acceptor := mkAcceptor 0 0 0 0.

(** ** The TCP session *)

Inductive HandleDecision :=
  | Decide_Pong (seq : Z)
  | Decide_Close (reason : rstring)
  | Decide_StartView
  | Decide_ForwardInput
  | Decide_ForwardClipboard
  | Decide_ForwardVolume
  | Decide_Ignore (kind : Kind).

Definition decide_handle_action (msg : Message) : HandleDecision :=
  match msg with
  | Message_Ping p => Decide_Pong (ping_seq p)
  | Message_Goodbye gb => Decide_Close (goodbye_reason gb)
  | Message_ViewRequest _ => Decide_StartView
  | Message_InputEvent _ => Decide_ForwardInput
  | Message_Clipboard _ => Decide_ForwardClipboard
  | Message_VolumeChange _ => Decide_ForwardVolume
  | other => Decide_Ignore (message_kind other)
  end.

(** What a session does to the rest of the server. *)
Inductive server_effect :=
  | Reply (m : Message)
  | Forward_input (e : InputEvent)
  | Forward_clipboard (c : Clipboard)
  | Forward_volume (v : VolumeChange)
  | Start_view (req : ViewRequest).

Inductive session_outcome := Session_ok | Session_error | Session_view (req : ViewRequest).

(** A message as it arrives: the clock, and whether a reply to it can be written. *)
Record arrival := mkArrival { arr_now_ns : Z; arr_reply_ok : bool; arr_msg : Message }.

Fixpoint handle_loop (inbound : list arrival) : list server_effect * session_outcome :=
  match inbound with
  | [] => ([], Session_ok)
  | a :: rest =>
      match decide_handle_action (arr_msg a), arr_msg a with
      | Decide_Pong seq, _ =>
          if negb (arr_reply_ok a) then ([], Session_error) else
          let '(out, fin) := handle_loop rest in
          (Reply (Message_Pong (mkPong seq (arr_now_ns a))) :: out, fin)
      | Decide_Close _, _ => ([], Session_ok)
      | Decide_StartView, Message_ViewRequest req => ([Start_view req], Session_view req)
      | Decide_ForwardInput, Message_InputEvent event =>
          let '(out, fin) := handle_loop rest in (Forward_input event :: out, fin)
      | Decide_ForwardClipboard, Message_Clipboard payload =>
          let '(out, fin) := handle_loop rest in (Forward_clipboard payload :: out, fin)
      | Decide_ForwardVolume, Message_VolumeChange change =>
          let '(out, fin) := handle_loop rest in (Forward_volume change :: out, fin)
      | Decide_Ignore _, _ => handle_loop rest
      | _, _ => handle_loop rest
      end
  end.

Section server.
  (** The name [server_name] builds from the crate's version and /etc/os-release. *)
Context (server_name : rstring).

Definition build_welcome_for_session (session_id : Z) : Welcome :=
  mkWelcome PROTOCOL_VERSION server_name session_id.

(** [handle] after the preludes. *)
Definition handle (session_id : Z) (inbound : list arrival) : list server_effect * session_outcome :=
  match inbound with
  | [] => ([], Session_error)
  | a :: rest =>
      match arr_msg a with
      | Message_Hello _ =>
          if negb (arr_reply_ok a) then ([], Session_error) else
          let '(out, fin) := handle_loop rest in
          (Reply (Message_Welcome (build_welcome_for_session session_id)) :: out, fin)
      | _ => ([], Session_error)
      end
  end.

(** ** The QUIC session *)

(** [handle_one_shot_message]: the effects and whether the session goes on. *)
Definition handle_one_shot_message (a : arrival) : list server_effect * bool :=
  match arr_msg a with
  | Message_Ping ping =>
      if arr_reply_ok a then ([Reply (Message_Pong (mkPong (ping_seq ping) (arr_now_ns a)))], true)
      else ([], false)
  | Message_Goodbye _ => ([], true)
  | Message_InputEvent event => ([Forward_input event], true)
  | Message_Clipboard payload => ([Forward_clipboard payload], true)
  | Message_VolumeChange change => ([Forward_volume change], true)
  | _ => ([], false)
  end.

(** [handle_one_shot_stream], the first message included. *)
Fixpoint handle_one_shot_stream (inbound : list arrival) : list server_effect * session_outcome :=
  match inbound with
  | [] => ([], Session_ok)
  | a :: rest =>
      let '(out, go_on) := handle_one_shot_message a in
      if go_on then let '(out', fin) := handle_one_shot_stream rest in (out ++ out', fin)
      else (out, Session_error)
  end.

(** [handle_connection] after the preludes. *)
Definition handle_connection (token : rstring) (session_id : Z) (inbound : list arrival) :
    list server_effect * session_outcome :=
  match inbound with
  | [] => ([], Session_error)
  | a :: rest =>
      match arr_msg a with
      | Message_Hello _ =>
          if negb (arr_reply_ok a) then ([], Session_error) else
          let welcome := Reply (Message_Welcome (build_welcome_for_session session_id)) in
          match rest with
          | [] => ([welcome], Session_error)
          | b :: rest =>
              match arr_msg b with
              | Message_DataPlaneAuth auth =>
                  if bool_decide (auth_token auth = token) then
                    match rest with
                    | [] => ([welcome], Session_error)
                    | c :: rest' =>
                        match arr_msg c with
                        | Message_ViewRequest req => ([welcome; Start_view req], Session_view req)
                        | _ => let '(out, fin) := handle_one_shot_stream rest in (welcome :: out, fin)
                        end
                    end
                  else
                    (if arr_reply_ok b
                     then [welcome; Reply (Message_Error (mkProtoError 403
                                             (lit "invalid QUIC data-plane token")))]
                     else [welcome], Session_error)
              | _ => ([welcome], Session_error)
              end
          end
      | _ => ([], Session_error)
      end
  end.

End server.

(** ** The QUIC writer *)

Definition window_event_channel_id (event : WindowEvent) : Z :=
  match event with
  | WE_Created id _ _ _ | WE_Configured id _ | WE_Destroyed id | WE_TitleChanged id _
  | WE_Minimized id | WE_MoveRequested id | WE_FullscreenChanged id _ => id
  end.

(** What reaches the network: the opening of a window's stream, a frame on it or on the
    session's first stream, the end of a stream, a tile as datagrams. *)
Inductive wire :=
  | Wire_open (channel : Z)
  | Wire_channel (channel : Z) (m : Message)
  | Wire_main (m : Message)
  | Wire_finish (channel : Z)
  | Wire_datagrams (frame_seq : Z) (tile : FrameTile).

(** How the network treats one outbound message. *)
Record quic_net := mkQuicNet {
  datagrams_ok : bool;      (* the tile could be cut and sent as datagrams *)
  open_ok : bool;           (* a new stream opens and takes its prelude and channel frame *)
  channel_ok : bool;        (* the window's stream takes the frame *)
  main_ok : bool            (* the first stream takes the frame *)
}.

Record writer := mkWriter { frame_seq : Z; channel_streams : gset Z }.

(** [write_channel_frame]: the streams, what was sent, and success. *)
Definition write_channel_frame (n : quic_net) (streams : gset Z) (channel : Z) (m : Message) :
    gset Z * list wire * bool :=
  let '(streams, opened, ok) :=
    if decide (channel ∈ streams) then (streams, [], true)
    else if open_ok n then ({[channel]} ∪ streams, [Wire_open channel], true)
    else (streams, [], false) in
  if negb ok then (streams, opened, false)
  else if channel_ok n then (streams, opened ++ [Wire_channel channel m], true)
  else (streams ∖ {[channel]}, opened, false).

(** Through the window's stream or, that failing, the first one. *)
Definition write_with_fallback (n : quic_net) (streams : gset Z) (channel : Z) (m : Message) :
    gset Z * list wire * bool :=
  let '(streams, out, ok) := write_channel_frame n streams channel m in
  if ok then (streams, out, true)
  else if main_ok n then (streams, out ++ [Wire_main m], true)
  else (streams, out, false).

Definition close_channel_stream (streams : gset Z) (channel : Z) : gset Z * list wire :=
  if decide (channel ∈ streams) then (streams ∖ {[channel]}, [Wire_finish channel]) else (streams, []).

(** One iteration of the writer; [false]: the session is disconnected. *)
Definition writer_step (w : writer) (n : quic_net) (m : Message) : writer * list wire * bool :=
  match m with
  | Message_FrameTile tile =>
      let seq := wrapping_succ_u64 (frame_seq w) in
      if datagrams_ok n then (mkWriter seq (channel_streams w), [Wire_datagrams seq tile], true)
      else
        let '(streams, out, ok) := write_with_fallback n (channel_streams w) (tile_id tile) m in
        (mkWriter seq streams, out, ok)
  | Message_WindowEvent event =>
      let channel := window_event_channel_id event in
      let '(streams, out, ok) := write_with_fallback n (channel_streams w) channel m in
      if negb ok then (mkWriter (frame_seq w) streams, out, false)
      else match event with
           | WE_Destroyed _ =>
               let '(streams, out') := close_channel_stream streams channel in
               (mkWriter (frame_seq w) streams, out ++ out', true)
           | _ => (mkWriter (frame_seq w) streams, out, true)
           end
  | other => (w, if main_ok n then [Wire_main other] else [], main_ok n)
  end.

Fixpoint writer_run (w : writer) (msgs : list (quic_net * Message)) : writer * list wire * bool :=
  match msgs with
  | [] => (w, [], true)
  | (n, m) :: rest =>
      let '(w', out, ok) := writer_step w n m in
      if ok then let '(w'', out', ok') := writer_run w' rest in (w'', out ++ out', ok')
      else (w', out, false)
  end.

(** ** Small parsers *)

Definition debug_flag_from (value : option rstring) : bool :=
  existsb (λ v, bool_decide (value = Some (lit v))) ["1"; "true"; "TRUE"; "yes"; "on"]%string.

Definition format_server_name (version os : rstring) : rstring :=
  lit "vbox-server/" ++ version ++ lit " (" ++ os ++ lit ", Wayland-first)".

(** [encode_refuse]. *)
Definition encode_refuse `{Codec Message} (reason : rstring) : result frame_error (list byte) :=
  goodbye ← encode_frame (Message_Goodbye (mkGoodbye reason));
  mret (write_prelude ++ goodbye).

(** ** Lemmas and theorems *)

(** Under any interleaving of arrivals, endings and panics, at most [max_clients]
    connections run, the counter is never negative, and what keeps it above the number of
    running connections is exactly the threads that panicked: each one costs a slot for
    good. *)
Theorem capacity_respected max_clients s :
  0 ≤ max_clients → rtc (accept_step max_clients) acceptor_init s →
  0 ≤ running s ∧ active s = running s + panicked s ∧ 0 ≤ panicked s ∧ active s ≤ max_clients.
Proof.
  intros Hmax. intros Hr. remember acceptor_init as s0 eqn:E0.
  assert (0 ≤ running s0 ∧ active s0 = running s0 + panicked s0 ∧ 0 ≤ panicked s0
          ∧ active s0 ≤ max_clients) as H0 by (subst; simpl; lia).
  clear E0. induction Hr as [s|s t u Hst _ IH]; [done|]. apply IH.
  destruct Hst as [s n Hd|s n Hd|s Hrun|s Hrun]; cbn [active running panicked]; try lia.
  unfold decide_accept in Hd. destruct (Z.ltb_spec max_clients (active s + 1)); [done|lia].
Qed.

Lemma capacity_respected_witness :
  let s := mkAcceptor 1 0 1 0 in
  0 ≤ running s ∧ active s = running s + panicked s ∧ 0 ≤ panicked s ∧ active s ≤ 4.
Proof.
  apply (capacity_respected 4); [lia|].
  eapply rtc_l; [apply (Step_accept 4 acceptor_init 1); reflexivity|].
  eapply rtc_l; [apply Step_panic; simpl; lia|]. apply rtc_refl.
Defined.

(** An effect that touches nothing but the connection itself. *)
Definition harmless (e : server_effect) : Prop := match e with Reply _ => True | _ => False end.

(** A QUIC peer that does not present the token right after its Hello gets nothing
    done: no input, clipboard or volume change is forwarded, no view is started, and the
    session ends with an error. *)
Theorem quic_gate server_name token session_id inbound :
  (∀ b auth, inbound !! 1%nat = Some b → arr_msg b = Message_DataPlaneAuth auth →
     auth_token auth ≠ token) →
  let '(out, fin) := handle_connection server_name token session_id inbound in
  Forall harmless out ∧ fin = Session_error.
Proof.
  intros Hno. unfold handle_connection.
  destruct inbound as [|a [|b rest]]; [by repeat constructor| |].
  { destruct (arr_msg a), (arr_reply_ok a); by repeat constructor. }
  specialize (Hno b). destruct (arr_msg a); try by repeat constructor.
  destruct (arr_reply_ok a); cbn [negb]; [|by repeat constructor].
  destruct (arr_msg b) as [| | | | | |auth| | | | | | | | |] eqn:Hb; try by repeat constructor.
  rewrite bool_decide_false by (by apply Hno).
  destruct (arr_reply_ok b); by repeat constructor.
Qed.

Lemma quic_gate_witness :
  let a m := mkArrival 0 true m in
  let inbound := [a (Message_Hello (mkHello 15 [])); a (Message_DataPlaneAuth (mkDataPlaneAuth [1]));
                  a (Message_InputEvent (IE_Close 3))] in
  let '(out, fin) := handle_connection (lit "s") [2] 7 inbound in
  Forall harmless out ∧ fin = Session_error.
Proof.
  apply quic_gate. intros b auth [= <-] [= <-] Heq. discriminate Heq.
Defined.

(** What an input, clipboard or volume message asks for. *)
Definition asked (m : Message) : option server_effect :=
  match m with
  | Message_InputEvent e => Some (Forward_input e)
  | Message_Clipboard c => Some (Forward_clipboard c)
  | Message_VolumeChange v => Some (Forward_volume v)
  | _ => None
  end.

Definition is_forward (e : server_effect) : option server_effect :=
  match e with Reply _ | Start_view _ => None | _ => Some e end.

Definition ends_session (m : Message) : bool :=
  match m with Message_Goodbye _ | Message_ViewRequest _ => true | _ => false end.

(** Until a goodbye, a view request or a broken connection, a TCP session forwards
    every input, clipboard and volume message, once, in order, whatever else arrives in
    between, and answers every ping with its sequence number. *)
Theorem handle_loop_forwards inbound rest :
  Forall (λ a, arr_reply_ok a = true ∧ ends_session (arr_msg a) = false) inbound →
  let '(out, fin) := handle_loop (inbound ++ rest) in
  let '(out', fin') := handle_loop rest in
  fin = fin' ∧ ∃ pre, out = pre ++ out'
    ∧ omap is_forward pre = omap (λ a, asked (arr_msg a)) inbound
    ∧ omap (λ e, match e with Reply (Message_Pong p) => Some (pong_seq p) | _ => None end) pre
      = omap (λ a, match arr_msg a with Message_Ping p => Some (ping_seq p) | _ => None end) inbound.
Proof.
  intros Hall. induction inbound as [|a inbound IH]; cbn [app].
  - destruct (handle_loop rest) as [out fin]. split; [done|]. by exists [].
  - apply Forall_cons in Hall as [[Hok Hend] Hall]. specialize (IH Hall).
    cbn [handle_loop]. rewrite Hok. cbn [negb].
    destruct (handle_loop (inbound ++ rest)) as [out fin].
    destruct (handle_loop rest) as [out' fin']. destruct IH as (-> & pre & -> & H1 & H2).
    destruct (arr_msg a) eqn:Em; cbn [decide_handle_action ends_session] in *; try done; (split; [done|]);
      [.. | exists (Forward_volume m :: pre)];
      first [ exists (Reply (Message_Pong (mkPong (ping_seq m) (arr_now_ns a))) :: pre);
              cbn; rewrite ?Em; cbn; rewrite <- ?H1, <- ?H2; done
            | exists (Forward_input m :: pre); cbn; rewrite ?Em; cbn; rewrite <- ?H1, <- ?H2; done
            | exists (Forward_clipboard m :: pre); cbn; rewrite ?Em; cbn; rewrite <- ?H1, <- ?H2; done
            | exists pre; cbn; rewrite ?Em; cbn; rewrite <- ?H1, <- ?H2; done
            | cbn; rewrite ?Em; cbn; rewrite <- ?H1, <- ?H2; done ].
Qed.

Lemma handle_loop_forwards_witness :
  let a m := mkArrival 5 true m in
  let inbound := [a (Message_Ping (mkPing 9 0)); a (Message_Hello (mkHello 15 []));
                  a (Message_InputEvent (IE_Close 3))] in
  let rest := [a (Message_Goodbye (mkGoodbye []))] in
  let '(out, fin) := handle_loop (inbound ++ rest) in
  let '(out', fin') := handle_loop rest in
  fin = fin' ∧ ∃ pre, out = pre ++ out'
    ∧ omap is_forward pre = omap (λ a, asked (arr_msg a)) inbound
    ∧ omap (λ e, match e with Reply (Message_Pong p) => Some (pong_seq p) | _ => None end) pre
      = omap (λ a, match arr_msg a with Message_Ping p => Some (ping_seq p) | _ => None end) inbound.
Proof. apply handle_loop_forwards. repeat constructor. Defined.

(** What a wire carries, and the window whose stream carries it. *)
Definition carried (e : wire) : option Message :=
  match e with
  | Wire_channel _ m | Wire_main m => Some m
  | Wire_datagrams _ tile => Some (Message_FrameTile tile)
  | Wire_open _ | Wire_finish _ => None
  end.

Definition window_of (m : Message) : option Z :=
  match m with
  | Message_FrameTile tile => Some (tile_id tile)
  | Message_WindowEvent event => Some (window_event_channel_id event)
  | _ => None
  end.

(** The streams a receiver has seen opened and not ended; [None]: a frame on a stream that
    was never opened, or a frame on the stream of another window. *)
Fixpoint stream_discipline (streams : gset Z) (out : list wire) : option (gset Z) :=
  match out with
  | [] => Some streams
  | Wire_open c :: out => stream_discipline ({[c]} ∪ streams) out
  | Wire_channel c m :: out =>
      if decide (c ∈ streams ∧ window_of m = Some c) then stream_discipline streams out else None
  | Wire_finish c :: out =>
      if decide (c ∈ streams) then stream_discipline (streams ∖ {[c]}) out else None
  | Wire_main _ :: out | Wire_datagrams _ _ :: out => stream_discipline streams out
  end.

Lemma stream_discipline_app streams out out' :
  stream_discipline streams (out ++ out')
  = stream_discipline streams out ≫= λ s, stream_discipline s out'.
Proof.
  revert streams. induction out as [|[] out IH]; intros streams; cbn; auto; case_decide; auto.
Qed.

Lemma write_with_fallback_spec n streams seen channel m :
  streams ⊆ seen → window_of m = Some channel →
  let '(streams', out, ok) := write_with_fallback n streams channel m in
  ∃ seen', stream_discipline seen out = Some seen' ∧ streams' ⊆ seen'
    ∧ omap carried out = (if ok then [m] else []).
Proof.
  intros Hsub Hw. unfold write_with_fallback, write_channel_frame.
  assert (channel ∈ {[channel]} ∪ seen) as Hnew by set_solver.
  case_decide as Hin; [|destruct (open_ok n)]; cbn [negb]; destruct (channel_ok n), (main_ok n);
    cbn; rewrite ?decide_True by auto;
    first [ by (exists seen; split_and!; [done|set_solver +Hsub|done])
          | by (exists ({[channel]} ∪ seen); split_and!; [done|set_solver +Hsub|done]) ].
Qed.

Lemma writer_step_spec w n m seen :
  channel_streams w ⊆ seen →
  let '(w', out, ok) := writer_step w n m in
  ∃ seen', stream_discipline seen out = Some seen' ∧ channel_streams w' ⊆ seen'
    ∧ omap carried out = if ok then [m] else [].
Proof.
  intros Hsub.
  pose proof (λ c, write_with_fallback_spec n (channel_streams w) seen c m Hsub) as Hfall.
  destruct m as [| | | | | | | | |event|tile| | | | |]; cbn [writer_step];
    try (destruct (main_ok n); exists seen; by split_and!).
  - specialize (Hfall _ eq_refl).
    destruct (write_with_fallback _ _ _ _) as [[streams out] ok].
    destruct Hfall as (seen' & Hseen & Hsub' & Hout). destruct ok; cbn [negb]; [|by exists seen'].
    destruct event; try by exists seen'.
    unfold close_channel_stream. cbn [window_event_channel_id]. case_decide as Hin.
    + eexists. rewrite stream_discipline_app, Hseen, omap_app, Hout. cbn.
      rewrite decide_True by set_solver. split_and!; [done|set_solver|done].
    + exists seen'. by rewrite app_nil_r.
  - destruct (datagrams_ok n); [by exists seen|]. specialize (Hfall _ eq_refl).
    by destruct (write_with_fallback _ _ _ _) as [[streams out] ok].
Qed.

(** Whatever the network refuses, as long as the session stays connected the QUIC
    writer sends every message of the compositor exactly once and in order, each frame on
    the stream of its own window only while that stream is open, or on the session's first
    stream; and a session in which a message could not be sent at all is disconnected with
    everything before it delivered. *)
Theorem writer_delivers msgs :
  let '(_, out, ok) := writer_run (mkWriter 0 ∅) msgs in
  is_Some (stream_discipline ∅ out)
  ∧ omap carried out `prefix_of` map snd msgs
  ∧ (ok = true → omap carried out = map snd msgs).
Proof.
  assert (∀ w seen, channel_streams w ⊆ seen →
    let '(_, out, ok) := writer_run w msgs in
    is_Some (stream_discipline seen out) ∧ omap carried out `prefix_of` map snd msgs
    ∧ (ok = true → omap carried out = map snd msgs)) as Hgen; [|by apply Hgen].
  induction msgs as [|[n m] msgs IH]; intros w seen Hsub; cbn [writer_run map snd]; [done|].
  pose proof (writer_step_spec w n m seen Hsub) as Hstep.
  destruct (writer_step w n m) as [[w' out] []]; destruct Hstep as (seen' & Hseen & Hsub' & Hout).
  - specialize (IH w' seen' Hsub'). destruct (writer_run w' msgs) as [[w'' out'] ok].
    destruct IH as (Hd & Hp & Hok).
    rewrite stream_discipline_app, Hseen, omap_app, Hout. cbn. split_and!; [done| |].
    + by apply prefix_cons.
    + intros H. by rewrite Hok.
  - rewrite Hout, Hseen. split_and!; [by eexists|apply prefix_nil|done].
Qed.
