(* ===== verification/ClientNet.v ===== *)
(** * The client's connections (crates/client/src: net.rs, data_plane/tcp.rs, data_plane/quic.rs, volume.rs)

    The handshakes over TCP and QUIC, the commands that open a connection to send a few
    messages, the choice between the two transports and the fallback from one to the other,
    the messages the commands are made of, and the volume poll.

    A connection is what will come in on it (a read that times out is an error there), what the
    socket has accepted, and when it stops accepting. What the socket accepts need not arrive:
    nothing is acknowledged, so the peer reads an initial part of it, and the theorems that
    speak of the peer speak of every such part. TLS is a parameter: the digest of a certificate; the checks the
    code makes on it are its own. *)

From Stdlib Require Import SpecFloat.
From S2P Require Import Prelude Text Wire Framing Transport Float Keys Server.

(** ** Connections *)

Inductive net_error :=
  | Net_connect
  | Net_write
  | Net_frame (e : frame_error)
  | Server_refused (reason : rstring)
  | Server_error (code : Z) (message : rstring)
  | Expected_welcome (got : Kind)
  | Expected_channel (got : Kind)
  | Protocol_mismatch (server : Z)
  | Pong_mismatch (got expected : Z)
  | Unexpected_reply (got : Kind)
  | Needs_quic_addr | Needs_quic_token | Needs_quic_cert | Bad_cert_pin
  | Expected_response (got : Kind)
  | Rpc_failed (message : rstring)
  | Local_error (message : rstring).

(** Computations that may fail on a state of type [S]. *)
Definition prog (S A : Type) : Type := S → result net_error A * S.

#[export] Instance prog_ret {S} : MRet (prog S) := λ A a s, (Ok a, s).
#[export] Instance prog_bind {S} : MBind (prog S) := λ A B f m s,
  match m s with (Ok a, s') => f a s' | (Err e, s') => (Err e, s') end.

Definition fail {S A} (e : net_error) : prog S A := λ s, (Err e, s).
Definition lift {S A} (r : result net_error A) : prog S A := λ s, (r, s).
(** [let _ = m]. *)
Definition ignore {S} (m : prog S unit) : prog S unit := λ s, (Ok tt, (m s).2).

(** [outgoing] is what the socket has accepted, of which the peer gets an initial part; it takes
    that many more writes, and of the next one, which fails, a part. *)
Record conn := mkConn {
  reachable : bool;
  peer_cert : list byte;
  incoming : source;
  outgoing : list byte;
  takes : nat;
  part : nat
}.

Definition connect : prog conn unit := λ c, (if reachable c then Ok tt else Err Net_connect, c).

(** [write_all]: success says that the socket took all of it; a failure, that it took less. *)
Definition send (bs : list byte) : prog conn unit := λ c,
  match takes c with
  | O =>
      (Err Net_write,
       mkConn (reachable c) (peer_cert c) (incoming c)
         (outgoing c ++ take (Nat.min (part c) (length bs - 1)) bs) O O)
  | S n => (Ok tt, mkConn (reachable c) (peer_cert c) (incoming c) (outgoing c ++ bs) n (part c))
  end.

Definition recv {A} (r : reader A) : prog conn A := λ c,
  let '(a, rest) := r (incoming c) in
  (match a with Ok a => Ok a | Err e => Err (Net_frame e) end,
   mkConn (reachable c) (peer_cert c) rest (outgoing c) (takes c) (part c)).

(** ** The volume poll *)

Definition fabs (x : spec_float) : spec_float :=
  match x with
  | S754_zero _ => S754_zero false
  | S754_infinity _ => S754_infinity false
  | S754_finite _ m e => S754_finite false m e
  | S754_nan => S754_nan
  end.

Definition LEVEL_EPSILON : spec_float := f32_lit 5 1000.
Definition MAX_UPDATES_PER_SEC : Z := 20.
Definition POLL_INTERVAL_MS : Z := 50.

Definition worth_sending (current : VolumeChange) (last : option VolumeChange) : bool :=
  match last with
  | None => true
  | Some prev =>
      negb (eqb (vol_muted prev) (vol_muted current))
      || fleb LEVEL_EPSILON (fabs (fsub 24 128 (vol_level prev) (vol_level current)))
  end.

(** One tick: what CoreAudio answered, and whether the viewer still takes messages. *)
Record tick := mkTick { tick_volume : option VolumeChange; tick_open : bool }.

(** [run_poll_loop]: what was sent before, and at the end. *)
Fixpoint run_poll_loop (last_sent : option VolumeChange) (ticks : list tick) :
    list VolumeChange * option VolumeChange :=
  match ticks with
  | [] => ([], last_sent)
  | t :: rest =>
      match tick_volume t with
      | None => run_poll_loop last_sent rest
      | Some current =>
          if negb (worth_sending current last_sent) then run_poll_loop last_sent rest
          else if negb (tick_open t) then ([], last_sent)
          else let '(out, last) := run_poll_loop (Some current) rest in (current :: out, last)
      end
  end.

Definition percent_to_wire_level (percent : Z) : spec_float :=
  F32.div (F32.of_int (Z.min percent 100)) (F32.of_int 100).

(** ** The messages of a command *)

Inductive InputCmd :=
  | Cmd_Motion (x y : Z)
  | Cmd_Click (x y : Z)
  | Cmd_Drag (from_x from_y to_x to_y : Z)
  | Cmd_Text (text : list rstring)
  | Cmd_Preedit (text : list rstring)
  | Cmd_Key (keycode : Z).

(** Wrapping [i32] arithmetic, as in a release build. *)
Definition lerp_i32 (from to step steps : Z) : Z :=
  as_i32 (from + Z.quot (as_i32 (as_i32 (to - from) * step)) (Z.max steps 1)).

Definition BTN_LEFT : Z := 272.

Definition build_drag_sequence (id from_x from_y to_x to_y : Z) : list InputEvent :=
  [IE_PointerMotion id from_x from_y; IE_PointerButton id BTN_LEFT Button_Pressed]
  ++ ((λ step, IE_PointerMotion id (lerp_i32 from_x to_x step 8) (lerp_i32 from_y to_y step 8)) <$> seqZ 1 8)
  ++ [IE_PointerButton id BTN_LEFT Button_Released].

Definition build_input_command_sequence (id : Z) (event : InputCmd) : list InputEvent :=
  match event with
  | Cmd_Motion x y => [IE_PointerMotion id x y]
  | Cmd_Click x y =>
      [IE_PointerMotion id x y; IE_PointerButton id BTN_LEFT Button_Pressed;
       IE_PointerButton id BTN_LEFT Button_Released]
  | Cmd_Drag from_x from_y to_x to_y => build_drag_sequence id from_x from_y to_x to_y
  | Cmd_Text text => [IE_Text id (join (lit " ") text)]
  | Cmd_Preedit text =>
      let text := join (lit " ") text in
      let cursor := usize_to_i32 (str_len text) in
      [IE_Preedit id text cursor cursor]
  | Cmd_Key keycode => [IE_Key id keycode Key_Pressed; IE_Key id keycode Key_Released]
  end.

Definition build_view_request (socket_name : rstring) (width height : Z) : ViewRequest :=
  mkViewRequest socket_name (Z.max width 1) (Z.max height 1).

(** ** Replies *)

Inductive PingReply :=
  | Reply_Pong (seq : Z)
  | Reply_SeqMismatch (got expected : Z)
  | Reply_UnexpectedKind (kind : Kind).

Definition classify_ping_reply (msg : Message) (expected_seq : Z) : PingReply :=
  match msg with
  | Message_Pong p =>
      if pong_seq p =? expected_seq then Reply_Pong (pong_seq p)
      else Reply_SeqMismatch (pong_seq p) expected_seq
  | other => Reply_UnexpectedKind (message_kind other)
  end.

Inductive InteractiveCommand :=
  | Interactive_Ping | Interactive_Quit | Interactive_Nothing | Interactive_Unknown (text : rstring).

Definition parse_interactive_line (line : rstring) : InteractiveCommand :=
  let s := trim line in
  if bool_decide (s = lit "ping") then Interactive_Ping
  else if bool_decide (s = lit "quit" ∨ s = lit "exit") then Interactive_Quit
  else if bool_decide (s = []) then Interactive_Nothing
  else Interactive_Unknown s.

(** What the prompt prints: the reply to a ping, a line it does not know. *)
Inductive printed :=
  | Print_pong (seq : Z)
  | Print_got (kind : Kind)
  | Print_unknown (text : rstring).

(** ** Certificates *)

Definition hex_digit (c : char) : option Z :=
  if is_ascii_digit c then Some (c - 48)
  else if (65 <=? c) && (c <=? 70) then Some (c - 55)
  else if (97 <=? c) && (c <=? 102) then Some (c - 87)
  else None.

(** A pair of hexadecimal digits. *)
Definition hex_pair (pair : rstring) : option byte :=
  match pair with
  | [a; b] => x ← hex_digit a; y ← hex_digit b; mret (byte_of_Z (16 * x + y))
  | _ => None
  end.

Definition parse_sha256_hex (input : rstring) : result net_error (list byte) :=
  let compact := filter (λ c, c ≠ 58) input in
  if negb (str_len compact =? 64) then Err Bad_cert_pin
  else ok_or Bad_cert_pin (mapM hex_pair (chunks 2 compact)).

(** The daemon's side of the pin (crates/controld/src/state.rs). *)
Definition hex_char (n : Z) : char := if n <? 10 then 48 + n else 87 + n.
Definition sha256_hex (digest : list byte → list byte) (bytes : list byte) : rstring :=
  digest bytes ≫= λ b, [hex_char (byte_to_Z b / 16); hex_char (byte_to_Z b mod 16)].

(** ** Sessions *)

Record Session := mkSession { session_server_name : rstring; session_id : Z; next_seq : Z }.

Record CommandTransport := mkCommandTransport {
  ct_mode : DataPlaneMode;
  ct_quic_addr : option SocketAddr;
  ct_quic_token : option rstring;
  ct_quic_cert_sha256 : option rstring
}.

Definition CommandTransport_tcp : CommandTransport := mkCommandTransport TcpOnly None None None.

(** The connections a command would open. *)
Record links := mkLinks { tcp : conn; quic : conn }.

Definition on_tcp {A} (m : prog conn A) : prog links A := λ l,
  let '(r, c) := m (tcp l) in (r, mkLinks c (quic l)).
Definition on_quic {A} (m : prog conn A) : prog links A := λ l,
  let '(r, c) := m (quic l) in (r, mkLinks (tcp l) c).

Section client.
Context `{C : Codec Message}.
(** The name the client gives itself, the clock at each ping, and of QUIC: the digest of a
    certificate, and whether the environment waives the check. *)
Context (client_name : rstring) (now_ns : Z → Z) (digest : list byte → list byte) (insecure : bool).

Definition write_message (msg : Message) : prog conn unit := λ c,
  match encode_frame msg with
  | Ok bs => send bs c
  | Err e => (Err (Net_frame e), c)
  end.

Fixpoint write_messages (msgs : list Message) : prog conn unit :=
  match msgs with
  | [] => mret tt
  | msg :: rest => write_message msg;; write_messages rest
  end.

Definition hello : Message := Message_Hello (mkHello PROTOCOL_VERSION client_name).
Definition goodbye (reason : rstring) : Message := Message_Goodbye (mkGoodbye reason).

(** The answer to [Hello], the same over either transport. *)
Definition read_welcome : prog conn Welcome :=
  m ← recv read_frame;
  w ← lift match m with
           | Message_Welcome w => Ok w
           | Message_Goodbye g => Err (Server_refused (goodbye_reason g))
           | Message_Error e => Err (Server_error (perr_code e) (perr_message e))
           | other => Err (Expected_welcome (message_kind other))
           end;
  if negb (welcome_protocol_version w =? PROTOCOL_VERSION)
  then fail (Protocol_mismatch (welcome_protocol_version w))
  else mret w.

Definition handshake : prog conn Session :=
  connect;;
  send write_prelude;;
  recv read_prelude;;
  write_message hello;;
  w ← read_welcome;
  mret (mkSession (welcome_server_name w) (welcome_session_id w) 1).

(** *** Over TCP *)

Definition one_shot_tcp_ping : prog conn unit :=
  s ← handshake;
  let seq := next_seq s in
  write_message (Message_Ping (mkPing seq (now_ns seq)));;
  resp ← recv read_frame;
  match classify_ping_reply resp seq with
  | Reply_Pong _ => ignore (write_message (goodbye (lit "ping complete")))
  | Reply_SeqMismatch got expected => fail (Pong_mismatch got expected)
  | Reply_UnexpectedKind kind => fail (Unexpected_reply kind)
  end.

Fixpoint interactive_loop (seq : Z) (stdin : list rstring) : prog conn (list printed) :=
  match stdin with
  | [] => mret []
  | line :: rest =>
      match parse_interactive_line line with
      | Interactive_Ping =>
          write_message (Message_Ping (mkPing seq (now_ns seq)));;
          resp ← recv read_frame;
          out ← interactive_loop (wrapping_succ_u64 seq) rest;
          mret (match resp with Message_Pong p => Print_pong (pong_seq p) | other => Print_got (message_kind other) end :: out)
      | Interactive_Quit => ignore (write_message (goodbye (lit "user")));; mret []
      | Interactive_Nothing => interactive_loop seq rest
      | Interactive_Unknown other => out ← interactive_loop seq rest; mret (Print_unknown other :: out)
      end
  end.

Definition interactive (stdin : list rstring) : prog conn (list printed) :=
  s ← handshake; interactive_loop (next_seq s) stdin.

Definition send_tcp_command_messages (messages : list Message) (reason : rstring) : prog conn unit :=
  handshake ≫= λ _,
  write_messages messages;;
  ignore (write_message (goodbye reason)).

(** [input_network]: what the viewer's channel yields until it is closed. *)
Definition input_network (rx : list Message) : prog conn unit :=
  send_tcp_command_messages rx (lit "viewer closed").

(** The loop of a view: frames are passed on until one cannot be read, or the viewer is gone.
    Every iteration but the last consumes some of the source. *)
Fixpoint forward_frames (fuel : nat) (open : nat → bool) (sent : list Message) (src : source) :
    list Message * option net_error :=
  match fuel with
  | O => (sent, None)
  | S fuel' =>
      match read_frame src with
      | (Ok msg, src') => if open (length sent) then forward_frames fuel' open (sent ++ [msg]) src' else (sent, None)
      | (Err e, _) => (sent, Some (Net_frame e))
      end
  end.

Definition forward_all (open : nat → bool) : prog conn (list Message * option net_error) := λ c,
  (Ok (forward_frames (S (length (incoming c))) open [] (incoming c)), c).

Definition view_network (open : nat → bool) (socket_name : rstring) (width height : Z) :
    prog conn (list Message * option net_error) :=
  handshake ≫= λ _,
  write_message (Message_ViewRequest (build_view_request socket_name width height));;
  forward_all open.

(** *** Over QUIC *)

(** [client_config]: the digest to check, or none. *)
Definition client_config (server_cert_sha256 : option rstring) : result net_error (option (list byte)) :=
  match server_cert_sha256 with
  | Some pin => Some <$> parse_sha256_hex pin
  | None => if insecure then Ok None else Err Needs_quic_cert
  end.

Definition verify_server_cert (config : option (list byte)) (cert : list byte) : bool :=
  match config with
  | Some expected => bool_decide (digest cert = expected)
  | None => true
  end.

Definition quic_connect (config : option (list byte)) : prog conn unit := λ c,
  (if reachable c && verify_server_cert config (peer_cert c) then Ok tt else Err Net_connect, c).

Definition quic_write_prelude : prog conn unit := send MAGIC;; send (to_be_bytes 2 PROTOCOL_VERSION).

Definition open_authenticated_stream (token : rstring) (server_cert_sha256 : option rstring) : prog conn unit :=
  config ← lift (client_config server_cert_sha256);
  quic_connect config;;
  quic_write_prelude;;
  recv read_prelude;;
  write_message hello;;
  read_welcome ≫= λ _,
  write_message (Message_DataPlaneAuth (mkDataPlaneAuth token)).

Definition quic_ping (token : rstring) (server_cert_sha256 : option rstring) : prog conn unit :=
  open_authenticated_stream token server_cert_sha256;;
  write_message (Message_Ping (mkPing 1 (now_ns 1)));;
  resp ← recv read_frame;
  match resp with
  | Message_Pong pong =>
      if pong_seq pong =? 1 then write_message (goodbye (lit "ping complete"))
      else fail (Pong_mismatch (pong_seq pong) 1)
  | other => fail (Unexpected_reply (message_kind other))
  end.

Definition quic_send_messages (messages : list Message) (reason token : rstring)
    (server_cert_sha256 : option rstring) : prog conn unit :=
  open_authenticated_stream token server_cert_sha256;;
  write_messages messages;;
  write_message (goodbye reason).

(** The stream of a view up to its main loop. *)
Definition quic_view_network (open : nat → bool) (token : rstring) (server_cert_sha256 : option rstring)
    (socket_name : rstring) (width height : Z) : prog conn (list Message * option net_error) :=
  open_authenticated_stream token server_cert_sha256;;
  write_message (Message_ViewRequest (mkViewRequest socket_name (Z.max width 1) (Z.max height 1)));;
  forward_all open.

(** A stream the server opens for a window. *)
Definition read_channel_stream (open : nat → bool) : prog conn (list Message * option net_error) :=
  recv read_prelude;;
  m ← recv read_frame;
  match m with
  | Message_DataPlaneChannel _ => forward_all open
  | other => fail (Expected_channel (message_kind other))
  end.

Definition bind_addr_for (remote : SocketAddr) : SocketAddr :=
  mkSocketAddr (match sa_ip remote with IpAddr_V4 _ => IpAddr_V4 0 | IpAddr_V6 _ => IpAddr_V6 0 end) 0.

(** *** Either *)

Definition by_transport {A} (t : CommandTransport) (over_tcp : prog conn A)
    (over_quic : rstring → option rstring → prog conn A) : prog links A :=
  match ct_mode t with
  | TcpOnly => on_tcp over_tcp
  | QuicOnly | Auto =>
      match ct_quic_addr t with
      | None => if bool_decide (ct_mode t = Auto) then on_tcp over_tcp else fail Needs_quic_addr
      | Some _ =>
          match ct_quic_token t with
          | None => if bool_decide (ct_mode t = Auto) then on_tcp over_tcp else fail Needs_quic_token
          | Some token => λ l,
              match on_quic (over_quic token (ct_quic_cert_sha256 t)) l with
              | (Ok a, l') => (Ok a, l')
              | (Err e, l') => if bool_decide (ct_mode t = Auto) then on_tcp over_tcp l' else (Err e, l')
              end
          end
      end
  end.

Definition one_shot_ping_with_transport (t : CommandTransport) : prog links unit :=
  by_transport t one_shot_tcp_ping quic_ping.

Definition send_command_messages (t : CommandTransport) (messages : list Message) (reason : rstring) : prog links unit :=
  by_transport t (send_tcp_command_messages messages reason) (quic_send_messages messages reason).

Definition send_input_command (t : CommandTransport) (id : Z) (event : InputCmd) : prog links unit :=
  send_command_messages t (Message_InputEvent <$> build_input_command_sequence id event)
    (lit "input command complete").

Definition send_volume_command (t : CommandTransport) (level_percent : Z) (muted : option bool) : prog links unit :=
  send_command_messages t
    [Message_VolumeChange (mkVolumeChange (percent_to_wire_level level_percent) (default false muted))]
    (lit "volume command complete").

End client.

(** ** The viewer's outbound messages *)

Record ViewTransport := mkViewTransport {
  vt_mode : DataPlaneMode;
  vt_quic_addr : option SocketAddr;
  vt_quic_token : option rstring;
  vt_quic_cert_sha256 : option rstring
}.

Definition ViewTransport_tcp : ViewTransport := mkViewTransport TcpOnly None None None.

(** The networks [spawn_view_network] starts. *)
Inductive view_threads :=
  | Threads_tcp
  | Threads_quic (token : rstring) (cert : option rstring) (falls_back : bool).

Definition spawn_view_network (t : ViewTransport) : result net_error view_threads :=
  match vt_mode t with
  | TcpOnly => Ok Threads_tcp
  | QuicOnly | Auto =>
      let auto := bool_decide (vt_mode t = Auto) in
      match vt_quic_addr t with
      | None => if auto then Ok Threads_tcp else Err Needs_quic_addr
      | Some _ =>
          match vt_quic_token t with
          | None => if auto then Ok Threads_tcp else Err Needs_quic_token
          | Some token => Ok (Threads_quic token (vt_quic_cert_sha256 t) auto)
          end
      end
  end.

(** The tee of a view that can fall back: every message goes to QUIC's channel, and to TCP's
    once the gate is open. *)
Record tee := mkTee { gate : bool; quic_tx : list Message; tcp_tx : list Message }.

Definition tee_message (t : tee) (msg : Message) : tee :=
  mkTee (gate t) (quic_tx t ++ [msg]) (if gate t then tcp_tx t ++ [msg] else tcp_tx t).

(** The QUIC network has failed: the gate opens, and TCP takes over. *)
Definition tee_fall_back (t : tee) : tee := mkTee true (quic_tx t) (tcp_tx t).

Inductive tee_event := Tee_message (msg : Message) | Tee_fall_back.

Definition tee_step (t : tee) (e : tee_event) : tee :=
  match e with Tee_message msg => tee_message t msg | Tee_fall_back => tee_fall_back t end.

Definition run_tee (events : list tee_event) : tee := foldl tee_step (mkTee false [] []) events.

(** ** Lemmas: programs *)

Lemma prog_bind_ok {S A B} (m : prog S A) (f : A → prog S B) s b s' :
  (m ≫= f) s = (Ok b, s') ↔ ∃ a s1, m s = (Ok a, s1) ∧ f a s1 = (Ok b, s').
Proof.
  unfold mbind, prog_bind. destruct (m s) as [[a|e] s1]; [by naive_solver|]. split; [done|]. by intros (? & ? & [=] & _).
Qed.

Lemma prog_bind_at {S A B} (m : prog S A) (f : A → prog S B) s a s1 : m s = (Ok a, s1) → (m ≫= f) s = f a s1.
Proof. intros E. unfold mbind, prog_bind. by rewrite E. Qed.

(** [m] writes only initial parts of what [W] allows, all of it when it succeeds. *)
Definition writes {A} (m : prog conn A) (W : list byte → Prop) (all : list byte → Prop) : Prop :=
  ∀ c r c', m c = (r, c') → ∃ bs, outgoing c' = outgoing c ++ bs ∧ W bs ∧ (∀ a, r = Ok a → all bs).

Lemma writes_ret {A} (a : A) (W all : list byte → Prop) : W [] → all [] → writes (mret a) W all.
Proof. intros HW Ha c r c' [= <- <-]. exists []. by rewrite app_nil_r. Qed.

Lemma writes_quiet {A} (m : prog conn A) (W all : list byte → Prop) :
  (∀ c, outgoing (m c).2 = outgoing c) → W [] → all [] → writes m W all.
Proof. intros Hm HW Ha c r c' H. exists []. specialize (Hm c). rewrite H in Hm. by rewrite app_nil_r. Qed.

(** A sequence of writes. *)
Lemma writes_bind {A B} (m : prog conn A) (f : A → prog conn B) (W all W1 all1 W2 all2 : list byte → Prop) :
  writes m W1 all1 → (∀ a, writes (f a) W2 all2) →
  (∀ bs, W1 bs → W bs) → (∀ bs bs', all1 bs → W2 bs' → W (bs ++ bs')) →
  (∀ bs bs', all1 bs → all2 bs' → all (bs ++ bs')) → writes (m ≫= f) W all.
Proof.
  intros Hm Hf HW1 HW2 Hall c r c' H. unfold mbind, prog_bind in H. destruct (m c) as [[a|e] c1] eqn:Hc.
  - destruct (Hm c _ c1 Hc) as (bs & Hout & _ & Ha). destruct (Hf a c1 r c' H) as (bs' & Hout' & HW' & Hb).
    exists (bs ++ bs'). rewrite Hout', Hout, <- app_assoc. split_and!; [done|by eapply HW2, HW'; eapply Ha|].
    intros b ->. eapply Hall; [by eapply Ha|by eapply Hb].
  - injection H as <- <-. destruct (Hm c _ c1 Hc) as (bs & Hout & HW & _). exists bs. split_and!; [done|by apply HW1|done].
Qed.

Section lemmas.
Context `{C : Codec Message, L : !CodecLaws Message}.

(** The bytes of some messages. *)
Definition frames_of (ms : list Message) (bs : list byte) : Prop :=
  ∃ frs, Forall2 (λ m f, encode_frame m = Ok f) ms frs ∧ bs = concat frs.

Lemma frames_of_nil : frames_of [] [].
Proof. exists []. by split; [constructor|]. Qed.

Lemma frames_of_one m f : encode_frame m = Ok f → frames_of [m] f.
Proof. exists [f]. split; [by constructor|]. simpl. by rewrite app_nil_r. Qed.

Lemma frames_of_app ms1 ms2 b1 b2 : frames_of ms1 b1 → frames_of ms2 b2 → frames_of (ms1 ++ ms2) (b1 ++ b2).
Proof.
  intros (f1 & H1 & ->) (f2 & H2 & ->). exists (f1 ++ f2). by split; [apply Forall2_app|rewrite concat_app].
Qed.

Lemma frames_of_cons m ms b : frames_of (m :: ms) b → ∃ f b', encode_frame m = Ok f ∧ frames_of ms b' ∧ b = f ++ b'.
Proof. intros (frs & H & ->). inversion H as [|? f ? frs' Hm Hms]; subst. exists f, (concat frs'). split_and!; [done|by exists frs'|done]. Qed.

Lemma encode_read m f rest : encode_frame m = Ok f → read_frame (bytes_of f ++ rest) = (Ok m, rest).
Proof.
  intros (p & Hp & Hle & ->)%encode_frame_ok. apply read_frame_ok. exists p. by split_and!; [| |apply from_to_bytes].
Qed.

Lemma encode_nonempty m f : encode_frame m = Ok f → f ≠ [].
Proof. by intros (p & _ & _ & ->)%encode_frame_ok. Qed.

(** *** What a peer makes of the bytes *)

(** A server that gets these bytes reads the prelude, and then frames as long as there are
    any. *)
Definition received (bs : list byte) : list Message :=
  match read_prelude (bytes_of bs) with
  | (Ok _, src) => (forward_frames (S (length src)) (λ _, true) [] src).1
  | _ => []
  end.

Lemma forward_frames_fuel fuel fuel' open sent src :
  (length src < fuel)%nat → (length src < fuel')%nat →
  forward_frames fuel open sent src = forward_frames fuel' open sent src.
Proof.
  revert fuel' sent src. induction fuel as [|fuel IH]; intros [|fuel'] sent src; try lia.
  intros Hf Hf'. cbn [forward_frames]. destruct (read_frame src) as [r rest] eqn:E.
  destruct src as [|e src]; [rewrite read_frame_eof in E; by injection E as <- <-|].
  apply read_frame_progress in E; [|done]. cbn [length] in *. destruct r as [m|e']; [|done]. case_match; [|done]. apply IH; lia.
Qed.

Lemma forward_frames_run ms bs sent rest open :
  frames_of ms bs → (∀ i, open i = true) →
  forward_frames (S (length (bytes_of bs ++ rest))) open sent (bytes_of bs ++ rest)
  = forward_frames (S (length rest)) open (sent ++ ms) rest.
Proof.
  revert bs sent. induction ms as [|m ms IH]; intros bs sent H Ho.
  { destruct H as (frs & H & ->). inversion H; subst. cbn. by rewrite app_nil_r. }
  apply frames_of_cons in H as (f & b & Hm & Hms & ->). rewrite bytes_of_app, <- app_assoc.
  cbn [forward_frames]. rewrite (encode_read _ _ _ Hm), Ho. rewrite (forward_frames_fuel _ (S (length (bytes_of b ++ rest)))).
  - by rewrite IH, <- app_assoc.
  - rewrite (length_app (bytes_of f)). pose proof (encode_nonempty _ _ Hm). destruct f; [done|]. cbn. lia.
  - lia.
Qed.

(** A stream that ends anywhere: the frames that came in whole are passed on. *)
Lemma forward_frames_cut ms frs k open sent :
  Forall2 (λ m f, encode_frame m = Ok f) ms frs → (∀ i, open i = true) →
  let src := bytes_of (take k (concat frs)) in
  (forward_frames (S (length src)) open sent src).1 = sent ++ take (whole_frames k frs) ms.
Proof.
  intros Hms Ho. revert k sent. induction Hms as [|m f ms frs Hm Hms IH]; intros k sent.
  { cbn. by rewrite take_nil, app_nil_r. }
  cbn [concat whole_frames]. destruct (Nat.leb_spec (length f) k) as [Hle|Hlt].
  - rewrite take_app_ge, bytes_of_app by done. cbn [forward_frames]. rewrite (encode_read _ _ _ Hm), Ho.
    rewrite (forward_frames_fuel _ (S (length (bytes_of (take (k - length f) (concat frs)))))).
    + rewrite IH. cbn [take]. by rewrite <- app_assoc.
    + rewrite (length_app (bytes_of f)). pose proof (encode_nonempty _ _ Hm). destruct f; [done|]. cbn. lia.
    + lia.
  - rewrite take_app_le by lia. destruct (read_frame_short m f k Hm Hlt) as [st Hst].
    cbn [forward_frames]. rewrite Hst. cbn. by rewrite app_nil_r.
Qed.


(** The loop ends with an error, or because the viewer is gone. *)
Lemma forward_frames_ends fuel open sent src :
  (length src < fuel)%nat →
  ∃ sent' e, forward_frames fuel open sent src = (sent', e) ∧ (e = None → open (length sent') = false).
Proof.
  revert sent src. induction fuel as [|fuel IH]; intros sent src Hf; [lia|]. cbn [forward_frames].
  destruct (read_frame src) as [r rest] eqn:E.
  destruct r as [m|e]; [|by eexists _, _]. destruct (open (length sent)) eqn:Ho; [|by eexists _, _].
  destruct src as [|x src]; [by rewrite read_frame_eof in E|]. apply read_frame_progress in E; [|done].
  cbn [length] in *. apply IH. lia.
Qed.


Lemma received_cut ms frs k :
  Forall2 (λ m f, encode_frame m = Ok f) ms frs →
  received (write_prelude ++ take k (concat frs)) = take (whole_frames k frs) ms.
Proof.
  intros Hms. unfold received. rewrite bytes_of_app.
  change (read_prelude (bytes_of write_prelude ++ bytes_of (take k (concat frs)))) with
    (Ok (E := frame_error) PROTOCOL_VERSION, bytes_of (take k (concat frs))). cbv match.
  by apply (forward_frames_cut _ _ k _ []).
Qed.

Lemma received_frames ms bs : frames_of ms bs → received (write_prelude ++ bs) = ms.
Proof.
  intros (frs & Hms & ->). pose proof (received_cut ms frs (length (concat frs)) Hms) as H.
  rewrite firstn_all in H. rewrite H, whole_frames_all. apply Forall2_length in Hms. by rewrite <- Hms, firstn_all.
Qed.

Lemma received_prefix ms b d : frames_of ms b → d `prefix_of` write_prelude ++ b → received d `prefix_of` ms.
Proof.
  intros (frs & Hms & ->) Hd. destruct (decide (length write_prelude ≤ length d)%nat) as [Hle|Hlt].
  - destruct Hd as [k Hk]. destruct (app_split_long _ _ _ _ Hk Hle) as (d' & -> & Hd').
    assert (d' = take (length d') (concat frs)) as -> by by rewrite Hd', take_app_length.
    rewrite (received_cut _ _ _ Hms). eexists. symmetry. apply take_drop.
  - assert (received d = []) as ->; [|apply prefix_nil]. destruct Hd as [k Hk].
    assert (take (length d) (write_prelude ++ concat frs) = d) as Ed by (rewrite Hk; apply take_app_length).
    rewrite take_app_le in Ed by lia. rewrite <- Ed. revert Hlt. generalize (length d). intros n Hlt. cbn in Hlt.
    do 6 (destruct n as [|n]; [done|]). lia.
Qed.

(** *** What a program sends *)

(** Whatever happens, [m] writes an initial part of the frames of [must ++ may]; if it
    succeeds, all of [must] is among them. *)
Definition sends {A} (must may : list Message) (m : prog conn A) : Prop :=
  writes m (λ bs, ∃ sent b, sent `prefix_of` must ++ may ∧ frames_of sent b ∧ bs `prefix_of` b)
    (λ bs, ∃ more, more `prefix_of` may ∧ frames_of (must ++ more) bs).

(** The same of a program that opens the connection. *)
Definition opens {A} (must may : list Message) (m : prog conn A) : Prop :=
  writes m (λ bs, ∃ sent b, sent `prefix_of` must ++ may ∧ frames_of sent b ∧ bs `prefix_of` write_prelude ++ b)
    (λ bs, ∃ more b, more `prefix_of` may ∧ frames_of (must ++ more) b ∧ bs = write_prelude ++ b).

Definition silent {A} (m : prog conn A) : Prop := ∀ c, outgoing (m c).2 = outgoing c.

Lemma sends_silent {A} (m : prog conn A) may : silent m → sends [] may m.
Proof.
  intros Hm. apply writes_quiet; [done| |].
  - exists [], []. split_and!; [apply prefix_nil|apply frames_of_nil|done].
  - exists []. split; [apply prefix_nil|apply frames_of_nil].
Qed.

Lemma sends_bind {A B} (m : prog conn A) (f : A → prog conn B) ms1 ms2 may :
  sends ms1 [] m → (∀ a, sends ms2 may (f a)) → sends (ms1 ++ ms2) may (m ≫= f).
Proof.
  intros Hm Hf. eapply writes_bind; [exact Hm|exact Hf|..]; cbv beta; rewrite <- ?app_assoc.
  - intros bs (sent & b & Hp & Hb & Hpre). exists sent, b. rewrite app_nil_r in Hp. split_and!; [by apply prefix_app_r|done..].
  - intros bs bs' (more & Hmore%prefix_nil_inv & Hb) (sent & b & Hp & Hb' & Hpre). subst more. rewrite app_nil_r in Hb.
    exists (ms1 ++ sent), (bs ++ b). split_and!; [by apply prefix_app|by apply frames_of_app|by apply prefix_app].
  - intros bs bs' (more & Hmore%prefix_nil_inv & Hb) (more' & Hp & Hb'). subst more. rewrite app_nil_r in Hb.
    exists more'. rewrite <- app_assoc. split; [done|by apply frames_of_app].
Qed.

Lemma take_prefix {X} n (l : list X) : take n l `prefix_of` l.
Proof. exists (drop n l). by rewrite take_drop. Qed.

Lemma writes_send bs (W : list byte → Prop) : (∀ b, b `prefix_of` bs → W b) → writes (send bs) W (λ bs', bs' = bs).
Proof.
  intros HW c r c'. unfold send. destruct (takes c) as [|n]; intros [= <- <-]; eexists; (split; [reflexivity|]).
  - split; [apply HW, take_prefix|done].
  - split; [by apply HW|done].
Qed.

Lemma sends_message m : sends [m] [] (write_message m).
Proof.
  intros c r c'. unfold write_message. destruct (encode_frame m) as [f|e] eqn:Hf.
  - intros H. apply frames_of_one in Hf.
    destruct (writes_send f (λ bs, ∃ sent b, sent `prefix_of` [m] ++ [] ∧ frames_of sent b ∧ bs `prefix_of` b)) with c r c'
      as (bs & Hout & HW & Hall); [by intros b Hb; exists [m], f|done|]. exists bs. split_and!; [done..|].
    intros a Ha. exists []. split; [done|]. by rewrite (Hall a Ha).
  - intros [= <- <-]. exists []. rewrite app_nil_r. split_and!; [done| |done].
    exists [], []. split_and!; [apply prefix_nil|apply frames_of_nil|done].
Qed.

Lemma sends_messages ms : sends ms [] (write_messages ms).
Proof.
  induction ms as [|m ms IH]; [by apply sends_silent|]. cbn [write_messages]. apply (sends_bind _ _ [m]); [apply sends_message|done].
Qed.

(** The outcome of a write that is ignored. *)
Lemma sends_ignore m : writes (ignore (write_message m))
  (λ bs, ∃ sent b, sent `prefix_of` [m] ∧ frames_of sent b ∧ bs `prefix_of` b)
  (λ bs, ∃ sent b, sent `prefix_of` [m] ∧ frames_of sent b ∧ bs `prefix_of` b).
Proof.
  intros c r c' [= <- <-]. destruct (sends_message m c _ _ (surjective_pairing _)) as (bs & Hout & HW & _).
  rewrite app_nil_r in HW. by exists bs.
Qed.

Lemma silent_recv {A} (r : reader A) : silent (recv r).
Proof. intros c. unfold recv. by destruct (r (incoming c)) as [[]]. Qed.

Lemma silent_welcome : silent read_welcome.
Proof.
  intros c. unfold read_welcome, recv, mbind, prog_bind, lift, fail, mret, prog_ret.
  destruct (read_frame (incoming c)) as [[[]|] src]; try done. cbn. by case_match.
Qed.

Lemma opens_silent {A B} (m : prog conn A) (f : A → prog conn B) must may :
  silent m → (∀ a, opens must may (f a)) → opens must may (m ≫= f).
Proof.
  intros Hm Hf. eapply (writes_bind _ _ _ _ (λ bs, bs = []) (λ bs, bs = [])); [by apply writes_quiet|exact Hf|..]; cbv beta.
  - intros bs ->. exists [], []. split_and!; [apply prefix_nil|apply frames_of_nil|apply prefix_nil].
  - by intros bs bs' -> H.
  - by intros bs bs' -> H.
Qed.

Lemma opens_prelude {A B} (m : prog conn A) (f : A → prog conn B) must may :
  writes m (λ bs, bs `prefix_of` write_prelude) (λ bs, bs = write_prelude) →
  (∀ a, sends must may (f a)) → opens must may (m ≫= f).
Proof.
  intros Hm Hf. eapply writes_bind; [exact Hm|exact Hf|..]; cbv beta.
  - intros bs Hbs. exists [], []. split_and!; [apply prefix_nil|apply frames_of_nil|by apply prefix_app_r].
  - intros bs bs' -> (sent & b & Hp & Hb & Hpre). exists sent, b. split_and!; [done..|by apply prefix_app].
  - intros bs bs' -> (more & Hp & Hb). by exists more, bs'.
Qed.

Lemma opens_bind {A B} (m : prog conn A) (f : A → prog conn B) ms1 ms2 may :
  opens ms1 [] m → (∀ a, sends ms2 may (f a)) → opens (ms1 ++ ms2) may (m ≫= f).
Proof.
  intros Hm Hf. eapply writes_bind; [exact Hm|exact Hf|..]; cbv beta; rewrite <- ?app_assoc.
  - intros bs (sent & b & Hp & Hb & Hpre). exists sent, b. rewrite app_nil_r in Hp. split_and!; [by apply prefix_app_r|done..].
  - intros bs bs' (more & b & Hmore%prefix_nil_inv & Hb & ->) (sent & b' & Hp & Hb' & Hpre). subst more. rewrite app_nil_r in Hb.
    exists (ms1 ++ sent), (b ++ b'). rewrite <- app_assoc.
    split_and!; [by apply prefix_app|by apply frames_of_app|by do 2 apply prefix_app].
  - intros bs bs' (more & b & Hmore%prefix_nil_inv & Hb & ->) (more' & Hp & Hb'). subst more. rewrite app_nil_r in Hb.
    exists more', (b ++ bs'). rewrite <- !app_assoc. split_and!; [done|by apply frames_of_app|done].
Qed.

Context (client_name : rstring) (now_ns : Z → Z) (digest : list byte → list byte) (insecure : bool).
Abbreviation the_hello := (hello client_name).

Lemma opens_handshake : opens [the_hello] [] (handshake client_name).
Proof.
  unfold handshake. apply opens_silent; [done|intros _]. apply opens_prelude; [by apply writes_send|intros _].
  apply (sends_bind _ _ []); [apply sends_silent, silent_recv|intros _].
  apply (sends_bind _ _ [the_hello] []); [apply sends_message|intros _]. apply (sends_bind _ _ [] []); [apply sends_silent, silent_welcome|].
  intros w. by apply sends_silent.
Qed.

Lemma opens_stream token cert :
  opens [the_hello; Message_DataPlaneAuth (mkDataPlaneAuth token)] []
    (open_authenticated_stream client_name digest insecure token cert).
Proof.
  unfold open_authenticated_stream. apply opens_silent; [done|intros config]. apply opens_silent; [done|intros _].
  apply opens_prelude.
  - unfold quic_write_prelude. apply (writes_bind _ _ _ _ (λ b, b `prefix_of` MAGIC) (λ b, b = MAGIC) (λ b, b `prefix_of` to_be_bytes 2 PROTOCOL_VERSION) (λ b, b = to_be_bytes 2 PROTOCOL_VERSION)).
    + by apply writes_send.
    + intros _. by apply writes_send.
    + intros bs Hbs. by apply prefix_app_r.
    + intros bs bs' -> Hbs. by apply prefix_app.
    + by intros bs bs' -> ->.
  - intros _. apply (sends_bind _ _ []); [apply sends_silent, silent_recv|intros _].
    apply (sends_bind _ _ [the_hello]); [apply sends_message|intros _].
    apply (sends_bind _ _ []); [apply sends_silent, silent_welcome|intros w]. apply sends_message.
Qed.

(** A program that ends with a farewell whose fate it does not look at. *)
Definition parts {A} (must : list Message) (last : Message) (m : prog conn A) : Prop :=
  writes m (λ bs, ∃ sent b, sent `prefix_of` must ++ [last] ∧ frames_of sent b ∧ bs `prefix_of` write_prelude ++ b)
    (λ bs, ∃ more b d, more `prefix_of` [last] ∧ frames_of must b ∧ frames_of more d ∧
       write_prelude ++ b `prefix_of` bs ∧ bs `prefix_of` write_prelude ++ b ++ d).

Lemma parts_farewell {A B} (m : prog conn A) last (f : A → prog conn B) must :
  opens must [] m → (∀ a, silent (f a)) → parts must last (m ≫= λ a, ignore (write_message last);; f a).
Proof.
  intros Hm Hf. eapply (writes_bind _ _ _ _ _ _
    (λ bs, ∃ sent b, sent `prefix_of` [last] ∧ frames_of sent b ∧ bs `prefix_of` b)
    (λ bs, ∃ sent b, sent `prefix_of` [last] ∧ frames_of sent b ∧ bs `prefix_of` b)); [exact Hm| |..]; cbv beta.
  - intros a. eapply (writes_bind _ _ _ _ _ _ (λ bs, bs = []) (λ bs, bs = [])); [apply sends_ignore|intros _; apply writes_quiet; [apply Hf|done..]|done|..];
      intros bs bs' H ->; by rewrite app_nil_r.
  - intros bs (sent & b & Hp & Hb & Hpre). exists sent, b. rewrite app_nil_r in Hp. split_and!; [by apply prefix_app_r|done..].
  - intros bs bs' (more & b & Hmore%prefix_nil_inv & Hb & ->) (sent & d & Hp & Hd & Hpre). subst more. rewrite app_nil_r in Hb.
    exists (must ++ sent), (b ++ d). rewrite <- app_assoc.
    split_and!; [by apply prefix_app|by apply frames_of_app|by do 2 apply prefix_app].
  - intros bs bs' (more & b & Hmore%prefix_nil_inv & Hb & ->) (sent & d & Hp & Hd & Hpre). subst more. rewrite app_nil_r in Hb.
    exists sent, b, d. rewrite <- app_assoc. split_and!; [done..|by apply prefix_app, prefix_app_r|by do 2 apply prefix_app].
Qed.

Lemma parts_tcp_command ms reason :
  parts (the_hello :: ms) (goodbye reason) (send_tcp_command_messages client_name ms reason).
Proof.
  assert (opens (the_hello :: ms) [] (handshake client_name ≫= λ _, write_messages ms)) as Ho.
  { apply (opens_bind _ _ [the_hello]); [apply opens_handshake|intros _; apply sends_messages]. }
  pose proof (parts_farewell _ (goodbye reason) (λ _, mret tt) _ Ho (λ _ _, eq_refl)) as Hp.
  intros c r c' H. apply (Hp c r c'). revert H. unfold send_tcp_command_messages, mbind, prog_bind.
  destruct (handshake client_name c) as [[s|e] c1]; [|done]. destruct (write_messages ms c1) as [[[]|e] c2]; [|done]. done.
Qed.

(** What of it arrives; and that what must be there is among it, if all arrives. *)
Lemma parts_received {A} (m : prog conn A) must last c r c' d :
  parts must last m → outgoing c = [] → m c = (r, c') → d `prefix_of` outgoing c' →
  received d `prefix_of` must ++ [last] ∧ (d = outgoing c' → ∀ a, r = Ok a → must `prefix_of` received d).
Proof.
  intros Hm Hc H Hd. destruct (Hm c r c' H) as (bs & Hout & HW & Hall). rewrite Hout, Hc in *. cbn [app] in *. split.
  - destruct HW as (sent & b & Hp & Hb & Hpre). etrans; [|exact Hp]. eapply received_prefix; [exact Hb|]. by etrans.
  - intros -> a ->. destruct (Hall a eq_refl) as (more & b & x & _ & (frs & Hms & ->) & (frs2 & Hms2 & ->) & [t ->] & Hpre).
    rewrite <- app_assoc in *. apply prefix_app_inv, prefix_app_inv in Hpre as [u Hu].
    assert (concat frs ++ t = take (length (concat frs) + length t) (concat (frs ++ frs2))) as ->.
    { by rewrite concat_app, Hu, app_assoc, <- length_app, take_app_length. }
    rewrite (received_cut (must ++ more)) by by apply Forall2_app. rewrite whole_frames_app.
    apply Forall2_length in Hms as Hlen. rewrite take_app_ge by lia. by apply prefix_app_r.
Qed.

(** ** A command and the server *)

(** The messages as they reach a server whose replies go through. *)
Definition arrive (now : Z) (ms : list Message) : list arrival := mkArrival now true <$> ms.

Definition inputs (effects : list server_effect) : list InputEvent :=
  omap (λ e, match e with Forward_input event => Some event | _ => None end) effects.

Lemma inputs_forward evs : inputs (Forward_input <$> evs) = evs.
Proof. induction evs as [|e evs IH]; [done|]. unfold inputs in *. csimpl. by rewrite IH. Qed.

Lemma prefix_map_last {A B} (f : A → B) (l : list A) g sent :
  sent `prefix_of` (f <$> l) ++ [g] →
  ∃ l' more, l' `prefix_of` l ∧ sent = (f <$> l') ++ more ∧ more `prefix_of` [g].
Proof.
  revert sent. induction l as [|x l IH]; intros sent Hp; [by exists [], sent|]. destruct sent as [|y sent].
  { exists [], []. split_and!; [apply prefix_nil|done|apply prefix_nil]. }
  csimpl in Hp. apply prefix_cons_inv_1 in Hp as Hy. apply prefix_cons_inv_2 in Hp.
  destruct (IH sent Hp) as (l' & more & Hl' & -> & Hmore). exists (x :: l'), more. subst y.
  split_and!; [by apply prefix_cons|done|done].
Qed.

(** A part that holds the whole list. *)
Lemma prefix_map_all (evs evs' : list InputEvent) more reason :
  evs' `prefix_of` evs → more `prefix_of` [goodbye reason] →
  (Message_InputEvent <$> evs) `prefix_of` (Message_InputEvent <$> evs') ++ more → evs' = evs.
Proof.
  intros [k ->] Hmore Hall. rewrite fmap_app in Hall. apply prefix_app_inv in Hall.
  destruct k as [|e k]; [by rewrite app_nil_r|exfalso]. csimpl in Hall.
  destruct more as [|m more]; [by destruct Hall|]. apply prefix_cons_inv_1 in Hmore. apply prefix_cons_inv_1 in Hall.
  unfold goodbye in Hmore. congruence.
Qed.

Lemma handle_loop_inputs now evs rest :
  handle_loop (arrive now ((Message_InputEvent <$> evs) ++ rest)) =
  let '(out, fin) := handle_loop (arrive now rest) in ((Forward_input <$> evs) ++ out, fin).
Proof.
  induction evs as [|e evs IH]; [cbn [fmap list_fmap app]; by case_match|].
  unfold arrive in *. cbn [fmap list_fmap app handle_loop decide_handle_action arr_msg]. rewrite IH.
  by destruct (handle_loop (mkArrival now true <$> rest)).
Qed.

Lemma handle_inputs name sid now evs more reason :
  more `prefix_of` [goodbye reason] →
  handle name sid (arrive now (the_hello :: (Message_InputEvent <$> evs) ++ more)) =
  (Reply (Message_Welcome (build_welcome_for_session name sid)) :: (Forward_input <$> evs), Session_ok).
Proof.
  intros Hm. unfold arrive. cbn [fmap list_fmap handle arr_msg hello arr_reply_ok negb].
  change (mkArrival now true <$> ((Message_InputEvent <$> evs) ++ more)) with (arrive now ((Message_InputEvent <$> evs) ++ more)).
  rewrite handle_loop_inputs.
  assert (more = [] ∨ more = [goodbye reason]) as [->| ->].
  { destruct more as [|m more]; [by left|right]. pose proof (prefix_cons_inv_1 _ _ _ _ Hm) as ->.
    destruct more as [|m' more]; [done|]. apply prefix_cons_inv_2 in Hm. by apply prefix_nil_not in Hm. }
  - cbn [arrive fmap list_fmap handle_loop]. by rewrite app_nil_r.
  - cbn. by rewrite app_nil_r.
Qed.

(** C17: an input command over TCP, of whose bytes any initial part [d] may reach the server,
    for the client reads no acknowledgement. Whatever breaks, on either side or between them,
    the server does an initial part of the events the command stands for, in their order and
    nothing else; and all of them, in a session that ends in order, when the command reports
    success and everything its socket took arrives. Success alone says only that the socket
    took it all. *)
Theorem input_command_delivered t id event l r l' name sid now d :
  ct_mode t = TcpOnly → outgoing (tcp l) = [] →
  send_input_command client_name digest insecure t id event l = (r, l') →
  d `prefix_of` outgoing (tcp l') →
  let '(effects, fin) := handle name sid (arrive now (received d)) in
  quic l' = quic l ∧ inputs effects `prefix_of` build_input_command_sequence id event ∧
  Forall (λ e, harmless e ∨ ∃ event, e = Forward_input event) effects ∧
  (r = Ok tt → d = outgoing (tcp l') →
   inputs effects = build_input_command_sequence id event ∧ fin = Session_ok).
Proof.
  intros Hmode Hout H Hd. unfold send_input_command, send_command_messages, by_transport, on_tcp in H. rewrite Hmode in H.
  set (evs := build_input_command_sequence id event) in *.
  destruct (send_tcp_command_messages _ _ _ (tcp l)) as [r' c] eqn:Hsend. injection H as -> <-. cbn [tcp quic] in *.
  destruct (parts_received _ _ _ _ _ _ d (parts_tcp_command _ _) Hout Hsend Hd) as [Hp Hall].
  destruct (received d) as [|m sent] eqn:Hrec.
  { cbn. split_and!; [done|apply prefix_nil|done|]. intros -> He. by pose proof (Hall He tt eq_refl) as ?%prefix_nil_not. }
  cbn [app] in Hp. pose proof (prefix_cons_inv_1 _ _ _ _ Hp) as Hm. apply prefix_cons_inv_2 in Hp. subst m.
  apply prefix_map_last in Hp as (evs' & more & Hevs & -> & Hmore).
  rewrite (handle_inputs _ _ _ _ _ _ Hmore). unfold inputs at 1 2. cbn [omap list_omap]. fold (inputs (Forward_input <$> evs')).
  rewrite inputs_forward. split_and!; [done|done| |].
  - constructor; [by left|]. apply Forall_fmap, Forall_true. intros e. right. by exists e.
  - intros Hr He. split; [|done]. pose proof (Hall He tt Hr) as Hall2%prefix_cons_inv_2. by eapply prefix_map_all.
Qed.

(** ** Dialogues *)

Lemma recv_at {A} (r : reader A) a rest re p i o n k :
  r i = (Ok a, rest) → recv r (mkConn re p i o n k) = (Ok a, mkConn re p rest o n k).
Proof. intros H. unfold recv. cbn [incoming]. by rewrite H. Qed.

Lemma send_at bs re p i o n k : send bs (mkConn re p i o (S n) k) = (Ok tt, mkConn re p i (o ++ bs) n k).
Proof. done. Qed.

Lemma message_at m f re p i o n k :
  encode_frame m = Ok f → write_message m (mkConn re p i o (S n) k) = (Ok tt, mkConn re p i (o ++ f) n k).
Proof. intros H. unfold write_message. by rewrite H. Qed.

Lemma prelude_read rest : read_prelude (bytes_of write_prelude ++ rest) = (Ok PROTOCOL_VERSION, rest).
Proof. done. Qed.

Lemma welcome_at name sid w rest re p o n k :
  encode_frame (Message_Welcome (mkWelcome PROTOCOL_VERSION name sid)) = Ok w →
  read_welcome (mkConn re p (bytes_of w ++ rest) o n k) = (Ok (mkWelcome PROTOCOL_VERSION name sid), mkConn re p rest o n k).
Proof. intros H. unfold read_welcome. by rewrite (prog_bind_at _ _ _ _ _ (recv_at _ _ _ _ _ _ _ _ _ (encode_read _ _ _ H))). Qed.

(** A server that welcomes the client. *)
Lemma handshake_at name sid w f rest p o n k :
  encode_frame (Message_Welcome (mkWelcome PROTOCOL_VERSION name sid)) = Ok w → encode_frame the_hello = Ok f →
  handshake client_name (mkConn true p (bytes_of write_prelude ++ bytes_of w ++ rest) o (S (S n)) k) =
  (Ok (mkSession name sid 1), mkConn true p rest (o ++ write_prelude ++ f) n k).
Proof.
  intros Hw Hf. unfold handshake. erewrite (prog_bind_at connect) by reflexivity.
  rewrite (prog_bind_at _ _ _ _ _ (send_at _ _ _ _ _ _ _)). rewrite (prog_bind_at _ _ _ _ _ (recv_at _ _ _ _ _ _ _ _ _ (prelude_read _))).
  rewrite (prog_bind_at _ _ _ _ _ (message_at _ _ _ _ _ _ _ _ Hf)). rewrite (prog_bind_at _ _ _ _ _ (welcome_at _ _ _ _ _ _ _ _ _ Hw)).
  by rewrite <- app_assoc.
Qed.

(** A ping over TCP succeeds against the server: given what the server answers to exactly
    what the ping writes, the ping reports success, having sent its greeting, itself and its
    farewell. *)
Theorem ping_meets_server c name sid now replies :
  let dialogue := [the_hello; Message_Ping (mkPing 1 (now_ns 1)); goodbye (lit "ping complete")] in
  let effects := (handle name sid (arrive now dialogue)).1 in
  reachable c = true → (4 ≤ takes c)%nat → outgoing c = [] →
  Forall (λ m, is_ok (encode_frame m) = true) dialogue →
  frames_of (omap (λ e, match e with Reply m => Some m | _ => None end) effects) replies →
  incoming c = bytes_of (write_prelude ++ replies) →
  ∃ c', one_shot_tcp_ping client_name now_ns c = (Ok tt, c') ∧ received (outgoing c') = dialogue.
Proof.
  intros dialogue effects Hr Ht Ho Henc Hrep Hin.
  assert (is_Some_list : ∀ m, is_ok (encode_frame m) = true → ∃ f, encode_frame m = Ok f).
  { intros m H. destruct (encode_frame m) as [f|]; [by exists f|done]. }
  unfold dialogue in Henc. rewrite !Forall_cons in Henc. destruct Henc as (H1 & H2 & H3 & _).
  apply is_Some_list in H1 as [f1 H1], H2 as [f2 H2], H3 as [f3 H3]. clear is_Some_list.
  unfold effects in Hrep. cbn in Hrep.
  apply frames_of_cons in Hrep as (w & b & Hw & Hrep & ->). apply frames_of_cons in Hrep as (p & b' & Hp & Hrep & ->).
  assert (b' = []) as -> by (destruct Hrep as (frs & H & ->); by inversion H).
  destruct c as [re cert inc out n k]. cbn [reachable takes outgoing incoming] in *. subst re out inc.
  destruct n as [|[|[|[|n]]]]; try lia.
  set (c0 := mkConn true cert (bytes_of []) (write_prelude ++ f1 ++ f2 ++ f3) n k).
  exists c0. split; [|apply received_frames; exists [f1; f2; f3]; cbn; rewrite app_nil_r; by repeat constructor].
  rewrite app_nil_r, !bytes_of_app, <- (app_nil_r (bytes_of p)). unfold one_shot_tcp_ping.
  rewrite (prog_bind_at _ _ _ _ _ (handshake_at _ _ _ _ _ _ _ _ _ Hw H1)). cbv zeta. cbn [next_seq].
  rewrite (prog_bind_at _ _ _ _ _ (message_at _ _ _ _ _ _ _ _ H2)).
  rewrite (prog_bind_at _ _ _ _ _ (recv_at _ _ _ _ _ _ _ _ _ (encode_read _ _ _ Hp))).
  cbn [classify_ping_reply pong_seq ping_seq]. unfold ignore. rewrite Z.eqb_refl, (message_at _ _ _ _ _ _ _ _ H3).
  cbn [app]. by rewrite <- !app_assoc.
Qed.

(** ** Falling back *)

Definition encodable (m : Message) : Prop := is_ok (encode_frame m) = true.

Lemma encodable_frame m : encodable m → ∃ f, encode_frame m = Ok f.
Proof. unfold encodable. destruct (encode_frame m) as [f|]; [by exists f|done]. Qed.

(** A frame that the socket took in part is not read. *)
Lemma received_broken ms bs m f j :
  frames_of ms bs → encode_frame m = Ok f → (j < length f)%nat → received (write_prelude ++ bs ++ take j f) = ms.
Proof.
  intros (frs & Hms & ->) Hf Hj.
  assert (concat frs ++ take j f = take (length (concat frs) + j) (concat (frs ++ [f]))) as ->.
  { rewrite concat_app. cbn [concat]. rewrite app_nil_r, take_app_add. done. }
  rewrite (received_cut (ms ++ [m])) by by apply Forall2_app; [|constructor]. rewrite whole_frames_app. cbn [whole_frames].
  rewrite (proj2 (Nat.leb_gt _ _)), Nat.add_0_r by done. apply Forall2_length in Hms. by rewrite <- Hms, take_app_length.
Qed.

Lemma write_breaks m f re p i o k :
  encode_frame m = Ok f →
  ∃ j, (j < length f)%nat ∧
    write_message m (mkConn re p i o 0 k) = (Err Net_write, mkConn re p i (o ++ take j f) 0 0).
Proof.
  intros Hf. exists (Nat.min k (length f - 1)). pose proof (encode_nonempty _ _ Hf).
  split; [destruct f; [done|cbn; lia]|]. unfold write_message. by rewrite Hf.
Qed.

Lemma write_messages_break ms re p i o n k :
  Forall encodable ms → (n < length ms)%nat →
  ∃ bs m f j, frames_of (take n ms) bs ∧ encode_frame m = Ok f ∧ (j < length f)%nat ∧
    write_messages ms (mkConn re p i o n k) = (Err Net_write, mkConn re p i (o ++ bs ++ take j f) 0 0).
Proof.
  intros Henc. revert o n. induction Henc as [|m ms Hm _ IH]; intros o n Hn; [cbn in Hn; lia|].
  destruct (encodable_frame m Hm) as [f Hf]. destruct n as [|n].
  { destruct (write_breaks m f re p i o k Hf) as (j & Hj & Hw). exists [], m, f, j.
    split_and!; [apply frames_of_nil|done..|]. cbn [write_messages app]. unfold mbind, prog_bind. by rewrite Hw. }
  destruct (IH (o ++ f) n) as (bs & m' & f' & j & Hbs & Hf' & Hj & Hw); [cbn in Hn; lia|]. exists (f ++ bs), m', f', j. split_and!; [|done..|].
  - apply (frames_of_app [m]); [by apply frames_of_one|done].
  - cbn [write_messages]. rewrite (prog_bind_at _ _ _ _ _ (message_at _ _ _ _ _ _ _ _ Hf)), Hw. by rewrite !app_assoc.
Qed.

Lemma write_messages_all ms bs re p i o n k :
  frames_of ms bs → write_messages ms (mkConn re p i o (length ms + n) k) = (Ok tt, mkConn re p i (o ++ bs) n k).
Proof.
  revert bs o. induction ms as [|m ms IH]; intros bs o H.
  { destruct H as (frs & H & ->). inversion H. cbn. by rewrite app_nil_r. }
  apply frames_of_cons in H as (f & b & Hm & Hms & ->). cbn [write_messages length plus].
  rewrite (prog_bind_at _ _ _ _ _ (message_at _ _ _ _ _ _ _ _ Hm)), (IH b) by done. by rewrite app_assoc.
Qed.

Lemma encodable_frames ms : Forall encodable ms → ∃ bs, frames_of ms bs.
Proof.
  induction 1 as [|m ms Hm _ [bs IH]]; [exists []; apply frames_of_nil|]. destruct (encodable_frame m Hm) as [f Hf].
  exists (f ++ bs). apply (frames_of_app [m]); [by apply frames_of_one|done].
Qed.

(** An authenticated stream that breaks after [k] of the messages, the farewell counted. *)
Lemma quic_send_breaks ms reason token cert c c1 :
  Forall encodable ms → (takes c1 ≤ length ms)%nat → outgoing c = [] →
  open_authenticated_stream client_name digest insecure token cert c = (Ok tt, c1) →
  ∃ e c2, quic_send_messages client_name digest insecure ms reason token cert c = (Err e, c2) ∧
    received (outgoing c2) = the_hello :: Message_DataPlaneAuth (mkDataPlaneAuth token) :: take (takes c1) ms.
Proof.
  intros Henc Hk Hout Hopen. destruct (opens_stream _ _ _ _ _ Hopen) as (bs & Hbs & _ & Hall).
  destruct (Hall tt eq_refl) as (more & b & Hmore%prefix_nil_inv & Hb & Hpre). subst more bs. rewrite Hout in Hbs. cbn [app] in Hbs.
  rewrite app_nil_r in Hb. destruct c1 as [re p i o n k]. cbn [outgoing takes] in *. subst o.
  unfold quic_send_messages. rewrite (prog_bind_at _ _ _ _ _ Hopen).
  destruct (decide (n < length ms)%nat) as [Hlt|Hge].
  - destruct (write_messages_break ms re p i (write_prelude ++ b) n k Henc Hlt) as (bs & m & f & j & Hms & Hf & Hj & Hw).
    exists Net_write. eexists. split; [unfold mbind, prog_bind; by rewrite Hw|]. cbn [outgoing]. rewrite <- app_assoc, (app_assoc b).
    eapply received_broken; [by apply (frames_of_app [_; _])|done..].
  - assert (n = length ms + 0)%nat as -> by lia. destruct (encodable_frames ms Henc) as [bs Hms].
    rewrite (prog_bind_at _ _ _ _ _ (write_messages_all _ _ _ _ _ _ _ _ Hms)). rewrite Nat.add_0_r, firstn_all.
    destruct (encode_frame (goodbye reason)) as [f|e] eqn:Hf.
    + destruct (write_breaks _ f re p i ((write_prelude ++ b) ++ bs) k Hf) as (j & Hj & Hw).
      exists Net_write. eexists. split; [exact Hw|]. cbn [outgoing]. rewrite <- !app_assoc, (app_assoc b).
      eapply received_broken; [by apply (frames_of_app [_; _])|done..].
    + exists (Net_frame e). eexists. split; [unfold write_message; by rewrite Hf|]. cbn [outgoing]. rewrite <- app_assoc.
      apply received_frames. by apply (frames_of_app [_; _]).
Qed.

Lemma one_shot_inputs now evs :
  handle_one_shot_stream (arrive now (Message_InputEvent <$> evs)) = (Forward_input <$> evs, Session_ok).
Proof.
  unfold arrive. induction evs as [|e evs IH]; [done|]. cbn [fmap list_fmap handle_one_shot_stream handle_one_shot_message arr_msg].
  by rewrite IH.
Qed.

Lemma handle_connection_inputs name token sid now evs :
  inputs (handle_connection name token sid (arrive now (the_hello :: Message_DataPlaneAuth (mkDataPlaneAuth token) :: (Message_InputEvent <$> evs)))).1 = evs.
Proof.
  unfold arrive. cbn [fmap list_fmap handle_connection arr_msg hello arr_reply_ok negb auth_token].
  rewrite bool_decide_true by done. destruct evs as [|e evs]; [done|]. cbn [fmap list_fmap arr_msg].
  pose proof (one_shot_inputs now (e :: evs)) as H. unfold arrive in H. cbn [fmap list_fmap] in H. rewrite H.
  unfold inputs. cbn [fst omap list_omap]. fold (inputs (Forward_input e :: (Forward_input <$> evs))). apply (inputs_forward (e :: evs)).
Qed.

(** C39: with [auto], a QUIC stream that breaks after [k] of the events — only the farewell may be
    missing — is followed by the whole command over TCP: it reports success, and the guest has
    had the first [k] events twice. *)
Theorem fallback_repeats_input t token id event l c1 ct name sid sid' now :
  let evs := build_input_command_sequence id event in
  ct_mode t = Auto → is_Some (ct_quic_addr t) → ct_quic_token t = Some token →
  Forall encodable (Message_InputEvent <$> evs) → outgoing (quic l) = [] → outgoing (tcp l) = [] →
  open_authenticated_stream client_name digest insecure token (ct_quic_cert_sha256 t) (quic l) = (Ok tt, c1) →
  (takes c1 ≤ length evs)%nat →
  send_tcp_command_messages client_name (Message_InputEvent <$> evs) (lit "input command complete") (tcp l) = (Ok tt, ct) →
  ∃ l', send_input_command client_name digest insecure t id event l = (Ok tt, l') ∧
    inputs (handle_connection name token sid (arrive now (received (outgoing (quic l'))))).1 = take (takes c1) evs ∧
    inputs (handle name sid' (arrive now (received (outgoing (tcp l'))))).1 = evs.
Proof.
  intros evs Hmode [addr Haddr] Htok Henc Hq Ht Hopen Hk Htcp.
  destruct (quic_send_breaks _ (lit "input command complete") _ _ _ _ Henc ltac:(by rewrite length_fmap) Hq Hopen) as (e & c2 & Hsend & Hrec).
  exists (mkLinks ct c2). split_and!.
  - unfold send_input_command, send_command_messages, by_transport. fold evs. rewrite Hmode, Haddr, Htok. unfold on_quic, on_tcp.
    rewrite Hsend. cbn [tcp quic]. rewrite bool_decide_true by done. by rewrite Htcp.
  - cbn [quic]. rewrite Hrec, <- fmap_take. apply handle_connection_inputs.
  - cbn [tcp]. destruct (parts_received _ _ _ _ _ _ _ (parts_tcp_command _ _) Ht Htcp (reflexivity _)) as [Hp Hall].
    destruct (Hall eq_refl tt eq_refl) as [more Hmore]. rewrite Hmore in Hp |- *. apply prefix_app_inv in Hp.
    cbn [app]. rewrite (handle_inputs _ _ _ _ _ _ Hp). unfold inputs. cbn [fst omap list_omap].
    apply inputs_forward.
Qed.

Lemma hex_digit_char n : 0 ≤ n < 16 → hex_digit (hex_char n) = Some n ∧ hex_char n ≠ 58 ∧ char_len_utf8 (hex_char n) = 1%nat.
Proof.
  intros Hn. assert (n ∈ seqZ 0 16) as Hin by (apply elem_of_seqZ; lia). revert n Hin Hn.
  assert (Forall (λ n, hex_digit (hex_char n) = Some n ∧ hex_char n ≠ 58 ∧ char_len_utf8 (hex_char n) = 1%nat) (seqZ 0 16)) as H.
  { repeat (constructor; [by vm_compute|]). constructor. }
  rewrite Forall_forall in H. intros n Hin _. by apply H.
Qed.

Definition hex_pair_of (b : byte) : rstring := [hex_char (byte_to_Z b / 16); hex_char (byte_to_Z b mod 16)].

Lemma byte_digits b : 0 ≤ byte_to_Z b / 16 < 16 ∧ 0 ≤ byte_to_Z b mod 16 < 16.
Proof. pose proof (byte_to_Z_range b) as Hb. unfold is_u8 in Hb. split; [|by apply Z.mod_pos_bound]. revert Hb. generalize (byte_to_Z b). intros z Hz. split; [apply Z.div_pos; lia|apply Z.div_lt_upper_bound; lia]. Qed.

Lemma hex_pair_read b : hex_pair (hex_pair_of b) = Some b.
Proof.
  destruct (byte_digits b) as [H1 H2]. unfold hex_pair, hex_pair_of. destruct (hex_digit_char _ H1) as (-> & _), (hex_digit_char _ H2) as (-> & _).
  cbn. rewrite <- Z.div_mod by done. by rewrite byte_of_to_Z.
Qed.

Lemma hex_text_shape (l : list byte) :
  filter (λ c, c ≠ 58) (l ≫= hex_pair_of) = l ≫= hex_pair_of ∧ str_len (l ≫= hex_pair_of) = 2 * Z.of_nat (length l).
Proof.
  induction l as [|b l [IH1 IH2]]; [done|]. destruct (byte_digits b) as [H1 H2].
  destruct (hex_digit_char _ H1) as (_ & Ha & La), (hex_digit_char _ H2) as (_ & Hb & Lb).
  change ((b :: l) ≫= hex_pair_of) with (hex_char (byte_to_Z b / 16) :: hex_char (byte_to_Z b mod 16) :: (l ≫= hex_pair_of)).
  generalize dependent (l ≫= hex_pair_of). intros s IH1 IH2. split.
  - rewrite !filter_cons_True by done. by rewrite IH1.
  - unfold str_len in *. rewrite !fmap_cons, La, Lb. change (sum_list (?a :: ?c :: ?t)) with (a + (c + sum_list t))%nat. cbn [length]. lia.
Qed.

Lemma chunks_pairs (l : list byte) : chunks 2 (l ≫= hex_pair_of) = hex_pair_of <$> l.
Proof.
  unfold chunks. assert (∀ fuel, (length (l ≫= hex_pair_of) ≤ fuel)%nat → chunks_fuel fuel 2 (l ≫= hex_pair_of) = hex_pair_of <$> l) as H; [|by apply H].
  induction l as [|b l IH]; intros fuel Hf; [by destruct fuel|].
  change ((b :: l) ≫= hex_pair_of) with (hex_char (byte_to_Z b / 16) :: hex_char (byte_to_Z b mod 16) :: (l ≫= hex_pair_of)) in *.
  cbn [length] in Hf. destruct fuel as [|fuel]; [lia|]. cbn [chunks_fuel take drop]. rewrite take_0, drop_0. cbn [fmap list_fmap].
  unfold hex_pair_of at 2. f_equal. apply IH. lia.
Qed.

(** The daemon's fingerprint of a certificate is read back by the client as the digest, and
    then exactly the certificates with that digest are accepted. *)
Theorem pin_accepts_one_digest cert cert' :
  length (digest cert) = 32%nat →
  client_config insecure (Some (sha256_hex digest cert)) = Ok (Some (digest cert)) ∧
  (verify_server_cert digest (Some (digest cert)) cert' = true ↔ digest cert' = digest cert).
Proof.
  intros Hl. split; [|apply bool_decide_eq_true]. unfold client_config, sha256_hex, parse_sha256_hex. fold hex_pair_of.
  change (λ b, [hex_char (byte_to_Z b / 16); hex_char (byte_to_Z b mod 16)]) with hex_pair_of.
  destruct (hex_text_shape (digest cert)) as [-> ->]. rewrite Hl, chunks_pairs. change (negb _) with false. cbv match.
  assert (mapM hex_pair (hex_pair_of <$> digest cert) = Some (digest cert)) as ->; [|done].
  generalize (digest cert) as l. induction l as [|b l IH]; [done|]. cbn [fmap list_fmap mapM]. by rewrite hex_pair_read; cbn; rewrite IH.
Qed.

(** Over QUIC nothing is written to a server whose certificate does not have the digest of
    the pin; then [quic-only] fails, and [auto] does what TCP does. *)
Theorem pin_enforced t pin messages reason l r l' :
  ct_quic_cert_sha256 t = Some pin → parse_sha256_hex pin ≠ Ok (digest (peer_cert (quic l))) →
  send_command_messages client_name digest insecure t messages reason l = (r, l') →
  quic l' = quic l ∧
  (ct_mode t = QuicOnly → tcp l' = tcp l ∧ r ≠ Ok tt) ∧
  (ct_mode t = Auto → (r, tcp l') = send_tcp_command_messages client_name messages reason (tcp l)).
Proof.
  intros Hpin Hne H.
  assert (Hquic : ∀ token, ∃ e, quic_send_messages client_name digest insecure messages reason token (Some pin) (quic l) = (Err e, quic l)).
  { intros token. unfold quic_send_messages, open_authenticated_stream, client_config, lift, mbind, prog_bind.
    destruct (parse_sha256_hex pin) as [d|e] eqn:Hd; [|by exists e]. cbn [fmap result_fmap]. exists Net_connect.
    unfold quic_connect, verify_server_cert. rewrite bool_decide_false by congruence. by rewrite andb_false_r. }
  unfold send_command_messages, by_transport, on_tcp, on_quic in H. rewrite Hpin in H.
  assert (Htcp : ∀ c r0, send_tcp_command_messages client_name messages reason (tcp l) = (r0, c) → (r0, mkLinks c (quic l)) = (r, l') →
    quic l' = quic l ∧ (r, tcp l') = send_tcp_command_messages client_name messages reason (tcp l)) by (intros c r0 Hs [= <- <-]; by rewrite Hs).
  destruct (send_tcp_command_messages client_name messages reason (tcp l)) as [rt c] eqn:Hs. specialize (Htcp c rt eq_refl).
  destruct l as [lt lq]. cbn [tcp quic] in *.
  destruct (ct_mode t) eqn:Hmode.
  - cbn [tcp quic] in H. rewrite Hs in H. destruct (Htcp H). by split_and!.
  - replace (bool_decide (QuicOnly = Auto)) with false in H by done. split_and!; [|intros _|done];
      (destruct (ct_quic_addr t); [destruct (ct_quic_token t) as [token|]; [destruct (Hquic token) as [e He]; cbn [tcp quic] in H; rewrite He in H|]|]);
      by injection H as <- <-.
  - replace (bool_decide (Auto = Auto)) with true in H by done.
    destruct (ct_quic_addr t); [destruct (ct_quic_token t) as [token|]; [destruct (Hquic token) as [e He]; cbn [tcp quic] in H; rewrite He in H|]|];
      cbn [tcp quic] in H; rewrite Hs in H; destruct (Htcp H); by split_and!.
Qed.

Lemma run_tee_split before after :
  let t := run_tee ((Tee_message <$> before) ++ Tee_fall_back :: (Tee_message <$> after)) in
  tcp_tx t = after ∧ quic_tx t = before ++ after.
Proof.
  assert (Hgen : ∀ ms t, foldl tee_step t (Tee_message <$> ms) =
    mkTee (gate t) (quic_tx t ++ ms) (if gate t then tcp_tx t ++ ms else tcp_tx t)).
  { intros ms. induction ms as [|m ms IH]; intros [g q s]; [destruct g; cbn; by rewrite ?app_nil_r|].
    cbn [fmap list_fmap foldl]. rewrite IH. cbn. rewrite <- !app_assoc. destruct g; [by rewrite <- app_assoc|done]. }
  unfold run_tee. cbv zeta. rewrite foldl_app, Hgen. cbn [foldl tee_step tee_fall_back]. by rewrite Hgen.
Qed.

(** When the QUIC server of a view with fallback is never reached, what the viewer had sent
    before the fallback reaches nobody: QUIC writes nothing, and TCP only what came after. *)
Theorem fallback_drops_waiting before after token cert socket width height open q c c' :
  reachable q = false → outgoing q = [] → outgoing c = [] →
  let t := run_tee ((Tee_message <$> before) ++ Tee_fall_back :: (Tee_message <$> after)) in
  input_network client_name (tcp_tx t) c = (Ok tt, c') →
  outgoing (quic_view_network client_name digest insecure open token cert socket width height q).2 = [] ∧
  (received (outgoing c') = the_hello :: after ∨
   received (outgoing c') = the_hello :: after ++ [goodbye (lit "viewer closed")]).
Proof.
  intros Hq Hqo Hc t Hin. destruct (run_tee_split before after) as [Htcp _]. fold t in Htcp. rewrite Htcp in Hin. split.
  - unfold quic_view_network, open_authenticated_stream, lift, mbind, prog_bind.
    destruct (client_config insecure cert) as [config|e]; [|done]. unfold quic_connect. rewrite Hq. done.
  - unfold input_network in Hin. destruct (parts_received _ _ _ _ _ _ _ (parts_tcp_command _ _) Hc Hin (reflexivity _)) as [Hp Hall].
    destruct (Hall eq_refl tt eq_refl) as [more Hmore]. rewrite Hmore in Hp |- *. apply prefix_app_inv in Hp.
    destruct more as [|m more]; [left; by rewrite app_nil_r|right]. pose proof (prefix_cons_inv_1 _ _ _ _ Hp) as ->.
    by apply prefix_cons_inv_2, prefix_nil_inv in Hp as ->.
Qed.

(** The frame loop of a view ends on every source: with an error it reports, or because the
    viewer is gone; an interrupted stream never leaves it waiting. *)
Theorem view_ends open c :
  ∃ sent e, forward_all open c = (Ok (sent, e), c) ∧ (e = None → open (length sent) = false).
Proof.
  destruct (forward_frames_ends (S (length (incoming c))) open [] (incoming c)) as (sent & e & Hs & He); [lia|].
  exists sent, e. unfold forward_all. by rewrite Hs.
Qed.
End lemmas.

(** ** Drags *)

Lemma as_i32_id z : is_i32 z → as_i32 z = z.
Proof.
  unfold is_i32, as_i32, i32_min, i32_max. intros Hz.
  case_match eqn:E; [apply Z.leb_le in E|apply Z.leb_gt in E]; cbv zeta in E; div_lia.
Qed.

Lemma as_i32_range z : is_i32 (as_i32 z).
Proof.
  unfold is_i32, as_i32, i32_min, i32_max. pose proof (Z.mod_pos_bound z 4294967296 ltac:(lia)).
  case_match eqn:E; [apply Z.leb_le in E|apply Z.leb_gt in E]; cbv zeta in *; lia.
Qed.

Lemma as_i32_eq z : ∃ k, as_i32 z = z + k * 4294967296.
Proof.
  unfold as_i32. pose proof (Z.div_mod z 4294967296 ltac:(lia)). cbv zeta.
  case_match; [exists (- (z / 4294967296))|exists (- (z / 4294967296) - 1)]; lia.
Qed.

Definition motions (l : list InputEvent) : list (Z * Z) :=
  omap (λ e, match e with IE_PointerMotion _ x y => Some (x, y) | _ => None end) l.

(** The difference, as the code computes it, is at most an eighth of the range. *)
Definition short_way (from to : Z) : Prop := - 2 ^ 28 ≤ as_i32 (to - from) < 2 ^ 28.

Lemma lerp_end from to : is_i32 from → is_i32 to → (lerp_i32 from to 8 8 = to ↔ short_way from to).
Proof.
  intros Hf Ht. unfold lerp_i32, short_way. change (Z.max 8 1) with 8.
  pose proof (as_i32_range (to - from)) as Hd. destruct (as_i32_eq (to - from)) as [k Hk]. set (d := as_i32 (to - from)) in *.
  unfold is_i32, i32_min, i32_max in *. split.
  - intros H. pose proof (as_i32_range (d * 8)) as Hr. destruct (as_i32_eq (d * 8)) as [j Hj].
    unfold is_i32, i32_min, i32_max in Hr. set (p := as_i32 (d * 8)) in *.
    assert (p = 8 * (d + j * 536870912)) as Hp by lia. rewrite Hp, (Z.mul_comm 8), Z.quot_mul in H by done.
    destruct (as_i32_eq (from + (d + j * 536870912))) as [i Hi]. rewrite H in Hi. lia.
  - intros H. rewrite (as_i32_id (d * 8)) by (unfold is_i32, i32_min, i32_max; lia). rewrite Z.quot_mul by done.
    replace (from + d) with (to + k * 4294967296) by lia. rewrite <- (as_i32_id to) at 2 by done.
    unfold as_i32. by rewrite Z_mod_plus_full.
Qed.

Lemma lerp_between from to step :
  is_i32 from → is_i32 to → Z.abs (to - from) < 2 ^ 28 → 0 ≤ step ≤ 8 →
  Z.min from to ≤ lerp_i32 from to step 8 ≤ Z.max from to.
Proof.
  intros Hf Ht Hd Hs. unfold lerp_i32. change (Z.max 8 1) with 8. unfold is_i32, i32_min, i32_max in *.
  rewrite (as_i32_id (to - from)) by (unfold is_i32, i32_min, i32_max; lia).
  rewrite (as_i32_id ((to - from) * step)) by (unfold is_i32, i32_min, i32_max; nia).
  set (q := Z.quot ((to - from) * step) 8).
  assert (Z.min 0 (to - from) ≤ q ≤ Z.max 0 (to - from)) as Hq.
  { unfold q. destruct (Z.le_ge_cases 0 (to - from)).
    - rewrite Z.quot_div_nonneg by nia. split; [apply Z.le_trans with 0; [lia|apply Z.div_pos; nia]|].
      rewrite Z.max_r by done. apply Z.div_le_upper_bound; nia.
    - replace ((to - from) * step) with (- ((from - to) * step)) by lia. rewrite Z.quot_opp_l by done.
      rewrite Z.quot_div_nonneg by nia. assert (0 ≤ (from - to) * step / 8 ≤ from - to); [|lia].
      split; [apply Z.div_pos; nia|apply Z.div_le_upper_bound; nia]. }
  rewrite as_i32_id by (unfold is_i32, i32_min, i32_max; lia). lia.
Qed.

(** A drag is the motion to its start, a press, eight motions and a release; its last motion
    is to its end exactly when the difference of each coordinate, in 32 bits, is in [-2^28, 2^28):
    beyond that the product with the step wraps, and the button is released somewhere else. *)
Theorem drag_ends_at_target id fx fy tx ty :
  is_i32 fx → is_i32 fy → is_i32 tx → is_i32 ty →
  let drag := build_drag_sequence id fx fy tx ty in
  (∃ ms, drag = [IE_PointerMotion id fx fy; IE_PointerButton id BTN_LEFT Button_Pressed] ++ ms
                ++ [IE_PointerButton id BTN_LEFT Button_Released] ∧ length (motions ms) = 8%nat) ∧
  (last (motions drag) = Some (tx, ty) ↔ short_way fx tx ∧ short_way fy ty).
Proof.
  intros Hfx Hfy Htx Hty drag. split; [by eexists|]. rewrite <- !lerp_end by done.
  change (last (motions drag)) with (Some (lerp_i32 fx tx 8 8, lerp_i32 fy ty 8 8)). split; [intros [= -> ->]; done|by intros [-> ->]].
Qed.

(** A drag no longer than that stays in the rectangle its two ends span. *)
Theorem drag_stays_between id fx fy tx ty x y :
  is_i32 fx → is_i32 fy → is_i32 tx → is_i32 ty → Z.abs (tx - fx) < 2 ^ 28 → Z.abs (ty - fy) < 2 ^ 28 →
  (x, y) ∈ motions (build_drag_sequence id fx fy tx ty) →
  Z.min fx tx ≤ x ≤ Z.max fx tx ∧ Z.min fy ty ≤ y ≤ Z.max fy ty.
Proof.
  intros Hfx Hfy Htx Hty Hx Hy.
  change (motions (build_drag_sequence id fx fy tx ty)) with
    ((fx, fy) :: ((λ step, (lerp_i32 fx tx step 8, lerp_i32 fy ty step 8)) <$> seqZ 1 8)).
  intros [[= -> ->]|(step & [= -> ->] & Hstep%elem_of_seqZ)%list_elem_of_fmap]%elem_of_cons; [lia|].
  split; apply lerp_between; by try lia.
Qed.

(** ** Volume *)

Definition level_ok (p : Z) : bool :=
  let l := percent_to_wire_level p in
  is_finite l && fleb (S754_zero false) l && fleb l (F32.of_int 1).

Lemma levels_ok : Forall (λ p, level_ok p = true) (seqZ 0 256).
Proof.
  assert (forallb level_ok (seqZ 0 256) = true) as H by by vm_compute.
  rewrite forallb_forall in H. apply Forall_forall. by intros p Hp%list_elem_of_In%H.
Qed.

Lemma levels_grow : Forall (λ p, Forall (λ q, p ≤ q → fleb (percent_to_wire_level p) (percent_to_wire_level q) = true) (seqZ 0 101)) (seqZ 0 101).
Proof.
  assert (forallb (λ p, forallb (λ q, negb (p <=? q) || fleb (percent_to_wire_level p) (percent_to_wire_level q)) (seqZ 0 101)) (seqZ 0 101) = true) as H
    by by vm_compute.
  rewrite forallb_forall in H. apply Forall_forall. intros p Hp%list_elem_of_In%H. rewrite forallb_forall in Hp.
  apply Forall_forall. intros q Hq%list_elem_of_In%Hp Hle. rewrite (proj2 (Z.leb_le p q) Hle) in Hq. done.
Qed.

(** Every [u8] percentage gives a finite level between 0 and 1, the ends exactly, and a greater
    percentage never gives a lower level. *)
Theorem wire_level_bounds p q :
  0 ≤ p < 256 → 0 ≤ q < 256 → p ≤ q →
  let level := percent_to_wire_level p in
  is_finite level = true ∧ fleb (S754_zero false) level = true ∧ fleb level (F32.of_int 1) = true ∧
  fleb level (percent_to_wire_level q) = true ∧ (100 ≤ p → level = F32.of_int 1).
Proof.
  intros Hp Hq Hle level. pose proof levels_ok as Hok. rewrite Forall_forall in Hok.
  specialize (Hok p ltac:(apply elem_of_seqZ; lia)). unfold level_ok in Hok. rewrite !andb_true_iff in Hok.
  destruct Hok as [[H1 H2] H3]. split_and!; [done|done|done| |].
  - assert (∀ z, percent_to_wire_level z = percent_to_wire_level (Z.min z 100)) as Hmin.
    { intros z. unfold percent_to_wire_level. by rewrite <- Z.min_assoc. }
    unfold level. rewrite (Hmin p), (Hmin q). pose proof levels_grow as Hg. rewrite Forall_forall in Hg.
    specialize (Hg (Z.min p 100) ltac:(apply elem_of_seqZ; lia)). rewrite Forall_forall in Hg.
    apply Hg; [apply elem_of_seqZ; lia|lia].
  - intros H. unfold level, percent_to_wire_level. rewrite Z.min_r by done. by vm_compute.
Qed.

(** The states that were sent, each against the one before. *)
Fixpoint worthwhile (last : option VolumeChange) (sent : list VolumeChange) : Prop :=
  match sent with
  | [] => True
  | v :: rest => worth_sending v last = true ∧ worthwhile (Some v) rest
  end.

Definition readings (ticks : list tick) : list VolumeChange := omap tick_volume ticks.

(** The volume poll sends a subsequence of what it read, no state that does not differ enough
    from the one before it; and as long as the viewer takes them, the guest's state is always
    within the deadband of the last reading. *)
Theorem poll_within_deadband start ticks out last_sent v :
  Forall (λ t, tick_open t = true) ticks → last (readings ticks) = Some v →
  run_poll_loop start ticks = (out, last_sent) →
  out `sublist_of` readings ticks ∧ worthwhile start out ∧
  ∃ g, last_sent = Some g ∧ (g = v ∨ worth_sending v (Some g) = false).
Proof.
  intros Hopen Hlast.
  assert (∀ ticks start out last_sent, Forall (λ t, tick_open t = true) ticks → run_poll_loop start ticks = (out, last_sent) →
    out `sublist_of` readings ticks ∧ worthwhile start out ∧
    match last (readings ticks) with
    | None => last_sent = start
    | Some v => ∃ g, last_sent = Some g ∧ (g = v ∨ worth_sending v (Some g) = false)
    end) as H.
  2: { intros Hrun. specialize (H _ _ _ _ Hopen Hrun). by rewrite Hlast in H. }
  clear. intros ticks. induction ticks as [|[vol open] ticks IH]; intros start out last_sent Hopen Hrun.
  { injection Hrun as <- <-. by split_and!; [constructor| |]. }
  apply Forall_cons in Hopen as [Ho Hopen]. cbn in Ho. subst open. cbn [run_poll_loop tick_volume tick_open] in Hrun.
  destruct vol as [cur|]; [|by apply IH]. change (readings (mkTick (Some cur) true :: ticks)) with (cur :: readings ticks).
  destruct (worth_sending cur start) eqn:Hw; cbn [negb] in Hrun.
  - destruct (run_poll_loop (Some cur) ticks) as [out' l'] eqn:Hrun'. injection Hrun as <- <-.
    destruct (IH _ _ _ Hopen Hrun') as (Hsub & Hww & Hl). split; [by apply sublist_skip|]. split; [by split|].
    revert Hl. rewrite last_cons. destruct (last (readings ticks)); [done|intros ->]. exists cur. by split; [|left].
  - destruct (IH _ _ _ Hopen Hrun) as (Hsub & Hww & Hl). split; [by apply sublist_cons|]. split; [done|].
    revert Hl. rewrite last_cons. destruct (last (readings ticks)); [done|intros ->].
    destruct start as [g|]; [|done]. exists g. by split; [|right].
Qed.

(** ** Witnesses *)

(** A codec for the messages of these dialogues: a tag, the numbers, the text. *)
Module ToyDialogue.
Definition code (m : Message) : option (Z * list Z * rstring) :=
  match m with
  | Message_Hello h => Some (0, [hello_protocol_version h], hello_client_name h)
  | Message_Welcome w => Some (1, [welcome_protocol_version w; welcome_session_id w], welcome_server_name w)
  | Message_Goodbye g => Some (2, [], goodbye_reason g)
  | Message_Ping p => Some (3, [ping_seq p; ping_stamp_ns p], [])
  | Message_Pong p => Some (4, [pong_seq p; pong_stamp_ns p], [])
  | Message_DataPlaneAuth a => Some (5, [], auth_token a)
  | Message_InputEvent (IE_Text id text) => Some (6, [id], text)
  | Message_InputEvent (IE_PointerMotion id x y) => Some (7, [id; x; y], [])
  | Message_InputEvent (IE_PointerButton id b Button_Pressed) => Some (8, [id; b], [])
  | Message_InputEvent (IE_PointerButton id b Button_Released) => Some (9, [id; b], [])
  | Message_RpcRequest (mkRpcRequest id (Rpc_Authenticate token)) => Some (10, [id], token)
  | Message_RpcRequest (mkRpcRequest id (Rpc_StopInstance instance)) => Some (11, [id], instance)
  | Message_RpcResponse (mkRpcResponse id (RpcResult_Err msg)) => Some (12, [id], msg)
  | Message_RpcResponse (mkRpcResponse id (RpcResult_Ok RpcOk_Authenticated)) => Some (13, [id], [])
  | Message_RpcResponse (mkRpcResponse id (RpcResult_Ok RpcOk_InstanceStopped)) => Some (14, [id], [])
  | _ => None
  end.

Definition decode (c : Z * list Z * rstring) : option Message :=
  match c with
  | (0, [v], s) => Some (Message_Hello (mkHello v s))
  | (1, [v; i], s) => Some (Message_Welcome (mkWelcome v s i))
  | (2, [], s) => Some (Message_Goodbye (mkGoodbye s))
  | (3, [a; b], []) => Some (Message_Ping (mkPing a b))
  | (4, [a; b], []) => Some (Message_Pong (mkPong a b))
  | (5, [], s) => Some (Message_DataPlaneAuth (mkDataPlaneAuth s))
  | (6, [id], s) => Some (Message_InputEvent (IE_Text id s))
  | (7, [id; x; y], []) => Some (Message_InputEvent (IE_PointerMotion id x y))
  | (8, [id; b], []) => Some (Message_InputEvent (IE_PointerButton id b Button_Pressed))
  | (9, [id; b], []) => Some (Message_InputEvent (IE_PointerButton id b Button_Released))
  | (10, [id], s) => Some (Message_RpcRequest (mkRpcRequest id (Rpc_Authenticate s)))
  | (11, [id], s) => Some (Message_RpcRequest (mkRpcRequest id (Rpc_StopInstance s)))
  | (12, [id], s) => Some (Message_RpcResponse (mkRpcResponse id (RpcResult_Err s)))
  | (13, [id], []) => Some (Message_RpcResponse (mkRpcResponse id (RpcResult_Ok RpcOk_Authenticated)))
  | (14, [id], []) => Some (Message_RpcResponse (mkRpcResponse id (RpcResult_Ok RpcOk_InstanceStopped)))
  | _ => None
  end.

Lemma decode_code m c : code m = Some c → decode c = Some m.
Proof.
  destruct m as [[]|[]|[]|[]|[]| |[]| | | | |[]|[? []]|[? [[]|]]| |]; try done; try (by intros [= <-]).
  destruct state; by intros [= <-].
Qed.

#[export] Instance codec : Codec Message := {|
  to_allocvec m := c ← code m; to_allocvec (Codec := Bits.codec) c;
  from_bytes bs := c ← from_bytes (Codec := Bits.codec) bs; decode c
|}.

#[export] Instance laws : CodecLaws Message.
Proof.
  intros m bs (c & Hc & Hbs)%bind_Some. apply bind_Some. exists c. split; [by apply (Bits.laws c)|by apply decode_code].
Qed.
End ToyDialogue.

#[local] Existing Instances ToyDialogue.codec ToyDialogue.laws.

Definition frame (m : Message) : list byte := match encode_frame m with Ok bs => bs | Err _ => [] end.

(** What a server with nothing else to say sends. *)
Definition greeting : list byte := write_prelude ++ frame (Message_Welcome (mkWelcome PROTOCOL_VERSION [115] 7)).

Definition fresh (n : nat) : conn := mkConn true [] (bytes_of greeting) [] n 0.
Definition me : rstring := [109].
Definition no_clock : Z → Z := λ _, 0.
Definition pad (cert : list byte) : list byte := take 32 (cert ++ replicate 32 Byte.x00).

Lemma input_command_delivered_witness :
  let l' := (send_input_command me pad false CommandTransport_tcp 3 (Cmd_Click 5 6) (mkLinks (fresh 9) (fresh 0))).2 in
  inputs (handle [115] 7 (arrive 0 (received (outgoing (tcp l'))))).1 = build_input_command_sequence 3 (Cmd_Click 5 6).
Proof.
  intros l'. assert ((send_input_command me pad false CommandTransport_tcp 3 (Cmd_Click 5 6) (mkLinks (fresh 9) (fresh 0))).1 = Ok tt) as Hr
    by by vm_compute.
  pose proof (input_command_delivered me pad false CommandTransport_tcp 3 (Cmd_Click 5 6) (mkLinks (fresh 9) (fresh 0)) _ _ [115] 7 0
    (outgoing (tcp l')) eq_refl eq_refl (surjective_pairing _) (reflexivity _)) as H. fold l' in H.
  destruct (handle _ _ _) as [effects fin]. destruct H as (_ & _ & _ & H). exact (proj1 (H Hr eq_refl)).
Defined.


Lemma ping_meets_server_witness :
  let replies := greeting ++ frame (Message_Pong (mkPong 1 9)) in
  ∃ c', one_shot_tcp_ping me no_clock (mkConn true [] (bytes_of replies) [] 4 0) = (Ok tt, c') ∧
    received (outgoing c') = [hello me; Message_Ping (mkPing 1 0); goodbye (lit "ping complete")].
Proof.
  intros replies.
  refine (ping_meets_server me no_clock (mkConn true [] (bytes_of replies) [] 4 0) [115] 7 9
    (frame (Message_Welcome (mkWelcome PROTOCOL_VERSION [115] 7)) ++ frame (Message_Pong (mkPong 1 9))) eq_refl _ eq_refl _ _ _).
  - cbn. lia.
  - repeat (constructor; [by vm_compute|]). constructor.
  - exists [frame (Message_Welcome (mkWelcome PROTOCOL_VERSION [115] 7)); frame (Message_Pong (mkPong 1 9))].
    split; [|by vm_compute]. repeat (constructor; [by vm_compute|]). constructor.
  - by vm_compute.
Defined.

Definition auto_transport : CommandTransport :=
  mkCommandTransport Auto (Some (mkSocketAddr (IpAddr_V4 1) 2)) (Some [116]) (Some (sha256_hex pad [])).

(** The stream breaks with the farewell: the click is made twice. *)
Lemma fallback_repeats_input_witness :
  let evs := build_input_command_sequence 3 (Cmd_Click 5 6) in
  ∃ l', send_input_command me pad false auto_transport 3 (Cmd_Click 5 6) (mkLinks (fresh 9) (fresh 7)) = (Ok tt, l') ∧
    inputs (handle_connection [115] [116] 7 (arrive 0 (received (outgoing (quic l'))))).1 = evs ∧
    inputs (handle [115] 8 (arrive 0 (received (outgoing (tcp l'))))).1 = evs.
Proof.
  intros evs. set (opened := open_authenticated_stream me pad false [116] (ct_quic_cert_sha256 auto_transport) (fresh 7)).
  assert (opened.1 = Ok tt) as Ho by by vm_compute. assert (takes opened.2 = 3%nat) as Hk by by vm_compute.
  set (sent := send_tcp_command_messages me (Message_InputEvent <$> evs) (lit "input command complete") (fresh 9)).
  assert (sent.1 = Ok tt) as Hs by by vm_compute.
  pose proof (fallback_repeats_input me pad false auto_transport [116] 3 (Cmd_Click 5 6) (mkLinks (fresh 9) (fresh 7)) opened.2 sent.2
    [115] 7 8 0 eq_refl ltac:(by eexists) eq_refl) as H. rewrite Hk in H.
  apply H; [repeat (constructor; [by vm_compute|]); constructor|done|done| |cbn; lia|].
  - rewrite <- Ho. apply surjective_pairing.
  - rewrite <- Hs. apply surjective_pairing.
Defined.

Lemma pin_accepts_one_digest_witness :
  client_config false (Some (sha256_hex pad [Byte.x01])) = Ok (Some (pad [Byte.x01])) ∧
  (verify_server_cert pad (Some (pad [Byte.x01])) [Byte.x02] = true ↔ pad [Byte.x02] = pad [Byte.x01]).
Proof. by apply pin_accepts_one_digest. Defined.

Lemma pin_enforced_witness :
  let t := mkCommandTransport Auto (Some (mkSocketAddr (IpAddr_V4 1) 2)) (Some [116]) (Some (sha256_hex pad [Byte.x01])) in
  quic (send_command_messages me pad false t [] [] (mkLinks (fresh 9) (fresh 7))).2 = fresh 7.
Proof.
  intros t. refine (proj1 (pin_enforced me pad false t (sha256_hex pad [Byte.x01]) [] [] (mkLinks (fresh 9) (fresh 7)) _ _ eq_refl _ (surjective_pairing _))).
  intros H. vm_compute in H. discriminate H.
Defined.

Definition unreachable : conn := mkConn false [] [] [] 0 0.

Lemma fallback_drops_waiting_witness :
  let t := run_tee [Tee_message (goodbye [1]); Tee_fall_back; Tee_message (goodbye [2])] in
  let c' := (input_network me (tcp_tx t) (fresh 9)).2 in
  received (outgoing c') = [hello me; goodbye [2]] ∨
  received (outgoing c') = [hello me; goodbye [2]; goodbye (lit "viewer closed")].
Proof.
  intros t c'. assert ((input_network me (tcp_tx t) (fresh 9)).1 = Ok tt) as Hr by by vm_compute.
  refine (proj2 (fallback_drops_waiting me pad false [goodbye [1]] [goodbye [2]] [116] None [118] 1 1 (λ _, true) unreachable (fresh 9) c'
    eq_refl eq_refl eq_refl _)).
  rewrite <- Hr. apply surjective_pairing.
Defined.

Lemma drag_ends_at_target_witness :
  last (motions (build_drag_sequence 1 0 0 268435456 0)) ≠ Some (268435456, 0).
Proof.
  intros H. apply (drag_ends_at_target 1 0 0 268435456 0) in H as [[_ H] _]; [by vm_compute in H|done..].
Defined.

Lemma drag_stays_between_witness : 0 ≤ 40 ≤ 80 ∧ -20 ≤ -10 ≤ 0.
Proof.
  apply (drag_stays_between 1 0 0 80 (-20) 40 (-10)); [done..|]. apply (bool_decide_unpack _). by vm_compute.
Defined.

Lemma wire_level_bounds_witness : fleb (percent_to_wire_level 33) (percent_to_wire_level 66) = true.
Proof. by apply (wire_level_bounds 33 66). Defined.

Lemma poll_within_deadband_witness :
  let v n := mkVolumeChange (f32_lit n 1000) false in
  let run := run_poll_loop None [mkTick (Some (v 500)) true; mkTick (Some (v 501)) true; mkTick None true] in
  run.1 = [v 500] ∧ ∃ g, run.2 = Some g ∧ (g = v 501 ∨ worth_sending (v 501) (Some g) = false).
Proof.
  intros v run. split; [by vm_compute|].
  refine (proj2 (proj2 (poll_within_deadband None _ run.1 run.2 (v 501) _ _ (surjective_pairing _)))); [by repeat constructor|done].
Defined.
