(* ===== verification/Certs.v ===== *)
(** * Certificates and keys on disk (crates/controld/src/state.rs; crates/client/src/ctl/tls.rs;
      crates/server/src/data_plane/quic_listener.rs)

    The daemon keeps a certificate per instance, which it hands to the server it starts and
    whose fingerprint it gives to callers; the client's helper makes an authority and the two
    certificates of a TLS deployment. rcgen and the PEM reader are parameters; the files they
    are kept in are those of [Files], with writes that may be torn. *)

From S2P Require Import Prelude Text Daemon ClientNet Files.

(** ** Certificates *)

Inductive ExtendedKeyUsagePurpose := ServerAuth | ClientAuth.
Inductive KeyUsagePurpose := KeyCertSign | CrlSign | DigitalSignature | KeyEncipherment.

(** What the code sets of rcgen's [CertificateParams]. *)
Record CertificateParams := mkParams {
  alt_names : list rstring;
  common_name : rstring;
  is_ca : bool;
  extended_key_usages : list ExtendedKeyUsagePurpose;
  key_usages : list KeyUsagePurpose
}.

Record QuicCertMaterial := mkMaterial { cert_path : rstring; key_path : rstring }.

(** Where an instance keeps them. *)
Definition quic_cert_dir (work_dir instance : rstring) : rstring :=
  path_join (path_join work_dir (lit "quic-certs")) (safe_instance_component instance).

Definition material_of (work_dir instance : rstring) : QuicCertMaterial :=
  let dir := quic_cert_dir work_dir instance in
  mkMaterial (path_join dir (lit "server.pem")) (path_join dir (lit "server.key.pem")).

(** ** Where the files are *)

Lemma safe_no_slash instance : 47 ∉ safe_instance_component instance.
Proof.
  intros (c & Hc & _)%list_elem_of_fmap. revert Hc.
  destruct (is_ascii_alphanumeric c || (c =? 45) || (c =? 95) || (c =? 46)) eqn:E; [|done].
  intros <-. done.
Qed.

Lemma safe_head instance : head (safe_instance_component instance) ≠ Some 47.
Proof. pose proof (safe_no_slash instance). destruct (safe_instance_component instance); [done|]. set_solver. Qed.

Section paths.
Context (work_dir : rstring).
Abbreviation root := (dir_prefix (path_join work_dir (lit "quic-certs"))).
Abbreviation material := (material_of work_dir).

Lemma cert_dir_path i : quic_cert_dir work_dir i = root ++ safe_instance_component i.
Proof. apply path_join_prefix, safe_head. Qed.

Lemma material_path i name : i ≠ [] → head name ≠ Some 47 →
  path_join (quic_cert_dir work_dir i) name = root ++ safe_instance_component i ++ 47 :: name.
Proof.
  intros Hi Hn. rewrite path_join_prefix, cert_dir_path, dir_prefix_name; [by rewrite <- !app_assoc|..|done].
  - intros H. by destruct i.
  - apply safe_no_slash.
Qed.

(** What another instance's files are called: never like this one's, unless both use the
    same directory. *)
Definition own_file i p : Prop := p = cert_path (material i) ∨ p = key_path (material i).
Definition own_path i p : Prop := p = quic_cert_dir work_dir i ∨ own_file i p.

Lemma material_apart i j p : i ≠ [] → safe_instance_component i ≠ safe_instance_component j →
  own_file i p → ¬ own_path j p.
Proof.
  intros Hi Hij Hp Hq.
  assert (∃ n, p = root ++ safe_instance_component i ++ 47 :: n ∧ 47 ∉ n) as (n & -> & Hn).
  { destruct Hp as [->| ->]; (eexists; split; [by apply material_path|]); by compute_done. }
  clear Hp. assert (∀ name, head name ≠ Some 47 → 47 ∉ name →
    root ++ safe_instance_component i ++ 47 :: n ≠ path_join (quic_cert_dir work_dir j) name) as Hf.
  { intros name Hh Hs H. destruct (decide (j = [])) as [->|Hj].
    - rewrite (path_join_prefix (quic_cert_dir work_dir []) name), cert_dir_path in H by done. change (safe_instance_component []) with ([] : rstring) in H.
      rewrite (app_nil_r root) in H. rewrite dir_prefix_idem in H. apply app_inv_head in H. subst. apply Hs. set_solver.
    - rewrite material_path in H by done. apply app_inv_head in H.
      pose proof (split_once_app 47 (safe_instance_component j) name (safe_no_slash j)) as E1.
      pose proof (split_once_app 47 (safe_instance_component i) n (safe_no_slash i)) as E2. rewrite H, E1 in E2. by simplify_eq. }
  destruct Hq as [Hq|[Hq|Hq]].
  - rewrite cert_dir_path in Hq. apply app_inv_head in Hq. pose proof (safe_no_slash j) as Hs. rewrite <- Hq in Hs. set_solver.
  - revert Hq. apply Hf; by compute_done.
  - revert Hq. apply Hf; by compute_done.
Qed.
End paths.

Lemma file_not_dir work_dir i p : i ≠ [] → own_file work_dir i p → p ≠ quic_cert_dir work_dir i.
Proof.
  intros Hi Hp. rewrite cert_dir_path. destruct Hp as [->| ->]; cbn [material_of cert_path key_path];
    rewrite material_path by (done || by compute_done); intros H%app_inv_head;
    pose proof (safe_no_slash i) as Hs; rewrite <- H in Hs; set_solver.
Qed.

Lemma cert_not_key work_dir i : i ≠ [] → cert_path (material_of work_dir i) ≠ key_path (material_of work_dir i).
Proof.
  intros Hi. cbn [material_of cert_path key_path]. rewrite !material_path by (done || by compute_done).
  by intros ?%app_inv_head%app_inv_head.
Qed.

Definition has_both work_dir i (s : files) : Prop := ∀ p, own_file work_dir i p → is_Some (nodes s !! p).

Lemma has_both_exists work_dir i s : no_links s → has_both work_dir i s ↔
  exists_ (cert_path (material_of work_dir i)) s && exists_ (key_path (material_of work_dir i)) s = true.
Proof.
  intros Hs. rewrite !exists_plain, andb_true_iff, !bool_decide_eq_true by done. unfold has_both, own_file. naive_solver.
Qed.

(** A deployment's files. *)
Section names.
Context (out : rstring).
Abbreviation at_ name := (path_join out (lit name)).

Definition ca_file p : Prop := p = at_ "ca.pem" ∨ p = at_ "ca.key.pem".
Definition leaf_file p : Prop :=
  p = at_ "server.pem" ∨ p = at_ "server.key.pem" ∨ p = at_ "client.pem" ∨ p = at_ "client.key.pem".

Definition some_ca (s : files) : Prop := ∀ p, ca_file p → is_Some (nodes s !! p).

Lemma leaf_server p : p = at_ "server.pem" ∨ p = at_ "server.key.pem" → leaf_file p.
Proof. unfold leaf_file. tauto. Qed.

Lemma leaf_client p : p = at_ "client.pem" ∨ p = at_ "client.key.pem" → leaf_file p.
Proof. unfold leaf_file. tauto. Qed.

Lemma at_inj a b : head a ≠ Some 47 → head b ≠ Some 47 → path_join out a = path_join out b → a = b.
Proof. intros Ha Hb. rewrite !path_join_prefix by done. apply app_inv_head. Qed.

Lemma at_ne a b : head a ≠ Some 47 → head b ≠ Some 47 → a ≠ b → path_join out a ≠ path_join out b.
Proof. intros Ha Hb Hab H. by apply Hab, at_inj. Qed.

Lemma at_out a : head a ≠ Some 47 → a ≠ [] → path_join out a ≠ out.
Proof.
  intros Ha Hn. rewrite path_join_prefix by done. unfold dir_prefix. case_bool_decide; intros Hl%(f_equal length);
    rewrite ?length_app in Hl; destruct a; [done| |done|]; cbn in Hl; lia.
Qed.

Lemma leaf_apart p : leaf_file p → ¬ ca_file p.
Proof. intros Hl Hc. destruct Hl as [->|[->|[->| ->]]], Hc as [H|H]; revert H; apply at_ne; by compute_done. Qed.

Lemma some_ca_exists s : no_links s → some_ca s ↔ exists_ (at_ "ca.pem") s && exists_ (at_ "ca.key.pem") s = true.
Proof.
  intros Hs. rewrite !exists_plain, andb_true_iff, !bool_decide_eq_true by done. unfold some_ca, ca_file. naive_solver.
Qed.

Lemma ca_not_key : at_ "ca.pem" ≠ at_ "ca.key.pem".
Proof. apply at_ne; by compute_done. Qed.

Lemma ca_out p : ca_file p → p ≠ out.
Proof. intros [->| ->]; by apply at_out; compute_done. Qed.

End names.

(** What rcgen yields. *)
Definition made {A} (msg : rstring) (o : option A) : io A := lift (ok_or [msg; lit "rcgen"] o).

Lemma only_made P {A} msg (o : option A) : only P (made msg o).
Proof. apply only_lift. Qed.

Lemma made_ok {A} msg (o : option A) s a s' : made msg o s = (Ok a, s') ↔ o = Some a ∧ s' = s.
Proof. unfold made, lift. destruct o; naive_solver. Qed.

(** ** The programs *)

Section certs.
#[local] Set Default Proof Using "Type".
(** rcgen: keys and certificates, and their PEM. *)
Context {KeyPair Certificate : Type} (names_ok : list rstring → bool)
  (self_signed : CertificateParams → KeyPair → option Certificate)
  (signed_by : CertificateParams → KeyPair → Certificate → KeyPair → option Certificate)
  (cert_pem : Certificate → rstring) (key_pem : KeyPair → rstring)
  (key_from_pem : rstring → option KeyPair) (from_ca_cert_pem : rstring → option CertificateParams)
  (cert_der : Certificate → list byte) (key_der : KeyPair → list byte).
(** rustls_pemfile: the certificates of a text, each as DER or an error, and its first key;
    what rustls and SHA-256 make of them. *)
Context (pem_certs : rstring → list (option (list byte))) (pem_key : rstring → option (option (list byte)))
  (installs : list (list byte) → list byte → bool) (digest : list byte → list byte).

(** ** The daemon's certificate of an instance *)

(** The first certificate of a text. *)
Definition first_der (path text : rstring) : result chain (list byte) :=
  match pem_certs text with
  | Some der :: _ => Ok der
  | None :: _ => Err [lit "parse certificate " ++ path; lit "pem"]
  | [] => Err [lit "no certificate in " ++ path]
  end.

Definition load_first_cert_der (path : rstring) : io (list byte) :=
  text ← context (lit "open " ++ path) (read_to_string path);
  lift (first_der path text).

Definition quic_params : CertificateParams :=
  mkParams [lit "vbox-server"; lit "localhost"] (lit "vbox-server") false [ServerAuth] [DigitalSignature; KeyEncipherment].

(** [generated]: what [KeyPair::generate] yields. *)
Definition new_cert_material (generated : option KeyPair) (material : QuicCertMaterial) : io QuicCertMaterial :=
  key ← made (lit "generate QUIC certificate key") generated;
  params ← made (lit "QUIC certificate params") (if names_ok (alt_names quic_params) then Some quic_params else None);
  cert ← made (lit "self-sign QUIC certificate") (self_signed params key);
  context (lit "write " ++ cert_path material) (write (cert_path material) (cert_pem cert));;
  context (lit "write " ++ key_path material) (write (key_path material) (key_pem key));;
  context (lit "stat " ++ key_path material) (metadata (key_path material));;
  context (lit "chmod 0600 " ++ key_path material) (set_mode (key_path material) 384);;
  mret material.

Definition ensure_quic_cert_material (work_dir instance : rstring) (generated : option KeyPair) : io QuicCertMaterial :=
  let dir := quic_cert_dir work_dir instance in
  let material := material_of work_dir instance in
  context (lit "create " ++ dir) (create_dir_all dir);;
  both ← look (λ s, exists_ (cert_path material) s && exists_ (key_path material) s);
  if both : bool then load_first_cert_der (cert_path material);; mret material
  else new_cert_material generated material.

(** What [PrepareDataPlane] answers with. *)
Definition quic_cert_sha256 (work_dir instance : rstring) : io (option rstring) :=
  let path := cert_path (material_of work_dir instance) in
  found ← look (exists_ path);
  if found : bool then der ← load_first_cert_der path; mret (Some (sha256_hex digest der)) else mret None.

(** ** The server's listener *)

Definition load_certs (path : rstring) : io (list (list byte)) :=
  text ← read_to_string path;
  lift (ok_or [lit "parse certificates " ++ path; lit "pem"] (mapM id (pem_certs text))).

Definition load_private_key (path : rstring) : io (list byte) :=
  text ← read_to_string path;
  lift match pem_key text with
       | Some (Some key) => Ok key
       | Some None => Err [lit "no private key in " ++ path]
       | None => Err [lit "parse private key " ++ path; lit "pem"]
       end.

Definition listener_params : CertificateParams := mkParams [lit "vbox-server"] (lit "vbox-server") false [] [].

(** [run], up to the endpoint: the certificates it presents, its own first, and its key. *)
Definition listener_identity (cert key : option rstring) (generated : option KeyPair) : io (list (list byte) * list byte) :=
  pair ← match cert, key with
         | Some cert, Some key =>
             certs ← context (lit "load QUIC cert " ++ cert) (load_certs cert);
             key ← context (lit "load QUIC key " ++ key) (load_private_key key);
             mret (certs, key)
         | None, None =>
             key ← made (lit "generate QUIC cert key") generated;
             params ← made (lit "QUIC cert params") (if names_ok (alt_names listener_params) then Some listener_params else None);
             cert ← made (lit "self-sign QUIC cert") (self_signed params key);
             mret ([cert_der cert], key_der key)
         | _, _ => bail (lit "--quic-cert and --quic-key must be set together")
         end;
  if installs pair.1 pair.2 then mret pair else lift (Err [lit "build QUIC rustls server config"; lit "rustls"]).

(** ** The helper of TLS deployments *)

Definition write_secret (path content : rstring) : io unit :=
  context (lit "write " ++ path) (write path content);;
  context (lit "chmod " ++ path) (set_mode path 384).

Definition ca_params : CertificateParams := mkParams [] (lit "vbox-ca") true [] [KeyCertSign; CrlSign].
Definition server_params (sans : list rstring) : CertificateParams :=
  mkParams sans (lit "vbox-controld") false [ServerAuth] [DigitalSignature; KeyEncipherment].
Definition client_params : CertificateParams :=
  mkParams [lit "vbox-host"] (lit "vbox-host") false [ClientAuth] [DigitalSignature; KeyEncipherment].

(** The authority: the one on disk, rebuilt, or a new one. *)
Definition load_or_mint_ca (ca_cert_path ca_key_path : rstring) (generated : option KeyPair) : io (Certificate * KeyPair) :=
  both ← look (λ s, exists_ ca_cert_path s && exists_ ca_key_path s);
  if both : bool then
    cert_text ← context (lit "read " ++ ca_cert_path) (read_to_string ca_cert_path);
    key_text ← context (lit "read " ++ ca_key_path) (read_to_string ca_key_path);
    key ← made (lit "parse CA key") (key_from_pem key_text);
    params ← made (lit "parse CA cert") (from_ca_cert_pem cert_text);
    cert ← made (lit "rebuild CA cert") (self_signed params key);
    mret (cert, key)
  else
    params ← made (lit "CA params") (if names_ok [] then Some ca_params else None);
    key ← made (lit "generate CA key") generated;
    cert ← made (lit "self-sign CA") (self_signed params key);
    write ca_cert_path (cert_pem cert);;
    write_secret ca_key_path (key_pem key);;
    mret (cert, key).

(** One of the two leaves. *)
Definition mint_leaf (what : rstring) (params : CertificateParams) (ca : Certificate * KeyPair) (cert_path key_path : rstring)
    (generated : option KeyPair) : io unit :=
  params ← made (what ++ lit " cert SANs") (if names_ok (alt_names params) then Some params else None);
  key ← made (lit "generate " ++ what ++ lit " key") generated;
  cert ← made (lit "sign " ++ what ++ lit " cert") (signed_by params key ca.1 ca.2);
  write cert_path (cert_pem cert);;
  write_secret key_path (key_pem key).

Definition tls_bootstrap (sans : list rstring) (out_dir : rstring) (g1 g2 g3 : option KeyPair) : io unit :=
  context (lit "create " ++ out_dir) (create_dir_all out_dir);;
  ca ← load_or_mint_ca (path_join out_dir (lit "ca.pem")) (path_join out_dir (lit "ca.key.pem")) g1;
  mint_leaf (lit "server") (server_params sans) ca (path_join out_dir (lit "server.pem")) (path_join out_dir (lit "server.key.pem")) g2;;
  mint_leaf (lit "client") client_params ca (path_join out_dir (lit "client.pem")) (path_join out_dir (lit "client.key.pem")) g3.


(** ** The certificate of an instance stays *)

Abbreviation ensure := ensure_quic_cert_material.
Abbreviation fingerprint := quic_cert_sha256.
Abbreviation identity := listener_identity.

Lemma only_new work_dir i g : only (own_file work_dir i) (new_cert_material g (material_of work_dir i)).
Proof.
  unfold new_cert_material. repeat (apply only_bind; [|intros]); try apply only_context; try apply only_made; auto with vbox.
  - apply only_write. by left.
  - apply only_write. by right.
  - apply only_set_mode. by right.
Qed.

Lemma only_load_first P path : only P (load_first_cert_der path).
Proof. apply only_bind; [by auto with vbox|]. intros. apply only_lift. Qed.

Lemma only_ensure work_dir i g : only (own_path work_dir i) (ensure work_dir i g).
Proof.
  apply only_bind; [by apply only_context, only_create_dir; left|]. intros _. apply only_bind; [apply only_look|]. intros b. apply only_if.
  - apply only_bind; [apply only_load_first|]. intros. apply only_ret.
  - apply (only_weaken (own_file work_dir i)); [by right|]. apply only_new.
Qed.

(** With both files there, nothing but the directory may change. *)
Lemma ensure_existing work_dir i g s : i ≠ [] → no_links s → has_both work_dir i s →
  ∀ p, own_file work_dir i p → nodes (ensure work_dir i g s).2 !! p = nodes s !! p.
Proof.
  intros Hi Hs Hb p Hp. unfold ensure_quic_cert_material at 1. cbv zeta. unfold mbind at 1, io_bind at 1.
  pose proof (only_context _ (lit "create " ++ quic_cert_dir work_dir i) _ (only_create_dir (λ q, q = quic_cert_dir work_dir i) _ eq_refl) s Hs) as [H1 H2].
  destruct (context _ _ s) as [[u|e] s1]; cbn [snd] in *; [|by apply H2, file_not_dir].
  assert (has_both work_dir i s1) as Hb1 by (intros q Hq; rewrite H2; [by apply Hb|by apply file_not_dir]).
  rewrite look_bind. apply has_both_exists in Hb1 as ->; [|done].
  assert (only (λ _, False) (load_first_cert_der (cert_path (material_of work_dir i));; mret (material_of work_dir i))) as H3.
  { apply only_bind; [apply only_load_first|]. intros. apply only_ret. }
  destruct (H3 s1 H1) as [_ ->]; [|by intros []]. by apply H2, file_not_dir.
Qed.

(** Starting any instances, however that fares. *)
Definition ensures (work_dir : rstring) (calls : list (rstring * option KeyPair)) (s : files) : files :=
  foldl (λ s '(i, g), (ensure work_dir i g s).2) s calls.

Lemma ensures_kept work_dir i calls s : i ≠ [] → no_links s → has_both work_dir i s →
  no_links (ensures work_dir calls s) ∧ ∀ p, own_file work_dir i p → nodes (ensures work_dir calls s) !! p = nodes s !! p.
Proof.
  intros Hi. revert s. induction calls as [|[j g] calls IH]; intros s Hs Hb; [done|]. cbn [ensures foldl].
  destruct (only_ensure work_dir j g s Hs) as [H1 H2].
  assert (∀ p, own_file work_dir i p → nodes (ensure work_dir j g s).2 !! p = nodes s !! p) as H3.
  { intros p Hp. destruct (decide (safe_instance_component i = safe_instance_component j)) as [E|E].
    - assert (own_file work_dir i = own_file work_dir j) as Ej by (unfold own_file, material_of, quic_cert_dir; by rewrite E).
      unfold has_both in Hb. rewrite Ej in *. apply ensure_existing; [|done..]. intros ->. by destruct i.
    - apply H2. by apply (material_apart work_dir i j). }
  destruct (IH (ensure work_dir j g s).2 H1) as [H4 H5]; [intros p Hp; rewrite H3; [by apply Hb|done]|].
  split; [done|]. intros p Hp. rewrite H5, H3; done.
Qed.

Lemma new_ok work_dir i g s m s' : i ≠ [] → no_links s →
  new_cert_material g (material_of work_dir i) s = (Ok m, s') →
  m = material_of work_dir i ∧ ∃ k c mode, g = Some k ∧ self_signed quic_params k = Some c ∧
    nodes s' = <[key_path m := File (key_pem k) 384]> (<[cert_path m := File (cert_pem c) mode]> (nodes s)).
Proof.
  intros Hi Hs. unfold new_cert_material.
  intros (k & s1 & Hk & (p & s2 & Hp & (c & s3 & Hc & (u1 & s4 & Hw1 & (u2 & s5 & Hw2 & (u3 & s6 & Hm & (u4 & s7 & Hch & [= <- <-])
    %io_bind_ok)%io_bind_ok)%io_bind_ok)%io_bind_ok)%io_bind_ok)%io_bind_ok)%io_bind_ok.
  apply made_ok in Hk as [-> ->], Hp as [Hp ->], Hc as [Hc ->]. case_match; [|done]. injection Hp as <-.
  apply context_ok in Hw1, Hw2, Hm, Hch.
  assert (no_links s4) as H4 by (eapply (no_links_after (λ _, True)); [by apply only_write|done|exact Hw1]).
  assert (no_links s5) as H5 by (eapply (no_links_after (λ _, True)); [by apply only_write|done|exact Hw2]).
  apply write_ok in Hw1 as (E1 & _); [|done]. apply write_ok in Hw2 as (E2 & _); [|done].
  apply metadata_ok in Hm as ->. apply set_mode_ok in Hch as (n & Hn & ->); [|done]. cbn [nodes advance] in *.
  rewrite E2, lookup_insert_eq in Hn. simplify_eq. rewrite E2, insert_insert_eq, E1. split; [done|]. by eexists k, c, _.
Qed.

Lemma material_kept_ok work_dir i g s m s' : i ≠ [] → no_links s → ensure work_dir i g s = (Ok m, s') →
  m = material_of work_dir i ∧ has_both work_dir i s' ∧
  (has_both work_dir i s ∧ (∀ p, own_file work_dir i p → nodes s' !! p = nodes s !! p) ∨
   ∃ k c mode, g = Some k ∧ self_signed quic_params k = Some c ∧
     nodes s' !! cert_path m = Some (File (cert_pem c) mode) ∧ nodes s' !! key_path m = Some (File (key_pem k) 384)).
Proof.
  intros Hi Hs H. unfold ensure_quic_cert_material in H. apply io_bind_ok in H as (u & s1 & Hd & H). rewrite look_bind in H.
  pose proof (only_context _ (lit "create " ++ quic_cert_dir work_dir i) _ (only_create_dir (λ q, q = quic_cert_dir work_dir i) _ eq_refl) s Hs) as [H1 H2].
  rewrite Hd in H1, H2. cbn [snd] in *. destruct (_ && _) eqn:Eb.
  - apply has_both_exists in Eb; [|done]. apply io_bind_ok in H as (der & s2 & Hl & [= <- <-]).
    pose proof (only_load_first (λ _, False) (cert_path (material_of work_dir i)) s1 H1) as [_ H3]. rewrite Hl in H3. cbn [snd] in H3.
    split_and!; [done|intros p Hp; rewrite H3 by auto; by apply Eb|]. left. split; [intros p Hp; rewrite <- H2; [by apply Eb|by apply file_not_dir]|].
    intros p Hp. rewrite H3, H2; [done|by apply file_not_dir|auto].
  - apply new_ok in H as (-> & k & c & mode & -> & Hc & E); [|done..].
    pose proof (cert_not_key work_dir i Hi) as Hne.
    split_and!; [done| |].
    + intros p [->| ->]; rewrite E; [rewrite lookup_insert_ne by done|]; by rewrite lookup_insert_eq.
    + right. exists k, c, mode. rewrite E, lookup_insert_eq, lookup_insert_ne by done. by rewrite lookup_insert_eq.
Qed.

Lemma identity_ok cert key g certs k s s' : no_links s →
  identity (Some cert) (Some key) g s = (Ok (certs, k), s') →
  nodes s' = nodes s ∧ ∃ text mode, nodes s !! cert = Some (File text mode) ∧ mapM id (pem_certs text) = Some certs.
Proof.
  intros Hs (pair & s1 & (certs' & s2 & (t1 & s3 & Hr1 & Hc)%context_ok%io_bind_ok & (k' & s4 & (t2 & s5 & Hr2 & Hk)%context_ok%io_bind_ok & [= <- <-])
    %io_bind_ok)%io_bind_ok & Hi)%io_bind_ok.
  destruct (installs _ _); [|done]. unfold mret, io_ret in Hi. injection Hi as -> -> ->. apply read_ok in Hr1 as [-> (mode & Hn)]; [|done].
  unfold lift in Hc, Hk. injection Hc as Hc <-. injection Hk as _ <-. apply read_ok in Hr2 as [-> _]; [|done]. split; [done|].
  exists t1, mode. split; [done|]. by destruct (mapM id (pem_certs t1)); [|done]; cbn in Hc; simplify_eq.
Qed.

Lemma fingerprint_ok work_dir i pin s s' text mode : no_links s →
  nodes s !! cert_path (material_of work_dir i) = Some (File text mode) →
  fingerprint work_dir i s = (Ok pin, s') → ∃ der rest, pem_certs text = Some der :: rest ∧ pin = Some (sha256_hex digest der).
Proof.
  intros Hs Hn. unfold quic_cert_sha256. rewrite look_bind, exists_plain, Hn by done. rewrite bool_decide_true by eauto.
  intros (der & s1 & (t & s2 & Hr & Hl)%io_bind_ok & [= <- <-])%io_bind_ok. apply context_ok, read_ok in Hr as [-> (m & Hm)]; [|done].
  rewrite Hn in Hm. simplify_eq. unfold lift, first_der in Hl. case_match; [done|]. case_match; [|done]. simplify_eq. eauto.
Qed.

(** C20: the fingerprint the daemon answers with always fits the server it started: whatever
    instances are started in between, and however that fares, a client that is given the
    daemon's answer accepts exactly the certificate that server presents. *)
Theorem pin_fits_server work_dir i g s m s1 calls1 g' certs key s3 calls2 pin s5 :
  (∀ bs, length (digest bs) = 32%nat) → i ≠ [] → no_links s →
  ensure work_dir i g s = (Ok m, s1) →
  identity (Some (cert_path m)) (Some (key_path m)) g' (ensures work_dir calls1 s1) = (Ok (certs, key), s3) →
  fingerprint work_dir i (ensures work_dir calls2 s3) = (Ok pin, s5) →
  ∃ leaf rest config, certs = leaf :: rest ∧ (∀ insecure, client_config insecure pin = Ok config) ∧
    ∀ presented, verify_server_cert digest config presented = true ↔ digest presented = digest leaf.
Proof.
  intros Hd Hi Hs He Hid Hpin. pose proof (only_ensure work_dir i g s Hs) as [Hs1 _]. rewrite He in Hs1. cbn [snd] in Hs1.
  apply material_kept_ok in He as (-> & Hb1 & _); [|done..].
  destruct (ensures_kept work_dir i calls1 s1 Hi Hs1 Hb1) as [Hs2 Hk2].
  apply identity_ok in Hid as (E3 & text & mode & Hn & Hcerts); [|done].
  assert (no_links s3) as Hs3 by (unfold no_links; by rewrite E3).
  assert (has_both work_dir i s3) as Hb3 by (intros p Hp; rewrite E3, Hk2 by done; by apply Hb1).
  destruct (ensures_kept work_dir i calls2 s3 Hi Hs3 Hb3) as [Hs4 Hk4].
  apply (fingerprint_ok _ _ _ _ _ text mode) in Hpin as (der & rest & Hp & ->); [|done|by rewrite Hk4, E3 by (by left)].
  rewrite Hp in Hcerts. apply mapM_Some, Forall2_cons_inv_l in Hcerts as (leaf & rest' & [= ->] & _ & ->).
  exists leaf, rest', (Some (digest leaf)). split; [done|].
  split; [intros insecure; apply (pin_accepts_one_digest digest insecure leaf leaf), Hd|intros presented; apply (pin_accepts_one_digest digest true leaf presented), Hd].
Qed.

(** Making sure that an instance has its certificate touches nothing but its own files;
    it keeps the pair it finds, and a key that it makes and reports is its owner's only. *)
Theorem cert_material_kept work_dir i g s : i ≠ [] → no_links s →
  let '(r, s') := ensure work_dir i g s in
  (∀ p, ¬ own_path work_dir i p → nodes s' !! p = nodes s !! p) ∧
  (has_both work_dir i s → ∀ p, own_file work_dir i p → nodes s' !! p = nodes s !! p) ∧
  (∀ m, r = Ok m → m = material_of work_dir i ∧
     (has_both work_dir i s ∨ ∃ k c mode, g = Some k ∧ self_signed quic_params k = Some c ∧
        nodes s' !! cert_path m = Some (File (cert_pem c) mode) ∧ nodes s' !! key_path m = Some (File (key_pem k) 384))).
Proof.
  intros Hi Hs. pose proof (only_ensure work_dir i g s Hs) as [_ H1]. pose proof (ensure_existing work_dir i g s Hi Hs) as H2.
  destruct (ensure work_dir i g s) as [r s'] eqn:E. cbn [snd] in *. split_and!; [done..|]. intros m ->.
  apply material_kept_ok in E as (-> & _ & H); [|done..]. split; [done|]. destruct H as [[H _]|H]; [by left|by right].
Qed.

(** ** A torn key *)

(** When the write of a new key is torn, the start that made it fails, but the next one
    reports success and hands out what is left of the key. *)
Theorem torn_key_kept work_dir i k c der rest n s : i ≠ [] → no_links s →
  names_ok (alt_names quic_params) = true → self_signed quic_params k = Some c → pem_certs (cert_pem c) = Some der :: rest →
  nodes s !! quic_cert_dir work_dir i = None ∨ nodes s !! quic_cert_dir work_dir i = Some Dir →
  (∀ p, own_file work_dir i p → nodes s !! p = None) → faults s = [Fine; Fine; Torn n] →
  let '(r, s1) := ensure work_dir i (Some k) s in
  is_ok r = false ∧ ∀ g, let '(r', s2) := ensure work_dir i g s1 in
    r' = Ok (material_of work_dir i) ∧
    nodes s2 !! key_path (material_of work_dir i) = Some (File (take n (key_pem k)) (fresh_mode s)).
Proof.
  intros Hi Hs Hnames Hc Hp Hdir Hnone Hf. destruct s as [ns fm fs]. cbn [nodes faults fresh_mode] in *. subst fs.
  set (mat := material_of work_dir i) in *. set (dir := quic_cert_dir work_dir i) in *.
  assert (cert_path mat ≠ dir ∧ key_path mat ≠ dir ∧ cert_path mat ≠ key_path mat) as (Hd1 & Hd2 & Hd3).
  { split_and!; [apply file_not_dir; [done|by left]|apply file_not_dir; [done|by right]|by apply cert_not_key]. }
  pose proof (Hnone _ (or_introl eq_refl)) as Hc0. pose proof (Hnone _ (or_intror eq_refl)) as Hk0. fold mat in Hc0, Hk0.
  set (ns1 := <[dir := Dir]> ns). set (ns2 := <[cert_path mat := File (cert_pem c) fm]> ns1).
  set (ns3 := <[key_path mat := File (take n (key_pem k)) fm]> ns2).
  assert (∀ f, no_links (mkFiles ns1 fm f)) as L1 by (intros f; by eapply (no_links_insert _ _ _ _ _ _ _ Hs)).
  assert (∀ f, no_links (mkFiles ns2 fm f)) as L2 by (intros f; by apply (no_links_insert _ _ _ _ _ _ _ (L1 f))).
  assert (∀ f, no_links (mkFiles ns3 fm f)) as L3 by (intros f; by apply (no_links_insert _ _ _ _ _ _ _ (L2 f))).
  assert (ns1 !! cert_path mat = None) as E1 by (unfold ns1; by rewrite lookup_insert_ne).
  assert (ensure work_dir i (Some k) (mkFiles ns fm [Fine; Fine; Torn n]) =
    (Err ((lit "write " ++ key_path mat) :: os_error), mkFiles ns3 fm [])) as ->.
  { unfold ensure_quic_cert_material. fold dir mat.
    rewrite (bind_run _ _ _ tt (mkFiles ns1 fm [Fine; Torn n])) by (by apply context_ok, create_dir_fine).
    rewrite look_bind, exists_plain by done. cbn [nodes]. rewrite E1, bool_decide_false by (by intros []).
    cbn [andb]. unfold new_cert_material. erewrite (bind_run (made _ _)) by (by apply made_ok).
    erewrite (bind_run (made _ _)) by (apply made_ok; by rewrite Hnames). erewrite (bind_run (made _ _)) by (by apply made_ok).
    rewrite (bind_run _ _ _ tt (mkFiles ns2 fm [Torn n])) by (apply context_ok, write_fine; done).
    unfold mbind at 1, io_bind at 1. erewrite context_run; [|apply write_torn; [done| |done]]; [done|].
    cbn. unfold ns2, ns1. by rewrite !lookup_insert_ne. }
  split; [done|]. intros g. unfold ensure_quic_cert_material. fold dir mat.
  assert (ns3 !! dir = Some Dir) as Hdir3 by (unfold ns3, ns2, ns1; rewrite !lookup_insert_ne by done; by rewrite lookup_insert_eq).
  assert (<[dir := Dir]> ns3 = ns3) as E3 by (by apply insert_id).
  rewrite (bind_run _ _ _ tt (mkFiles ns3 fm [])) by (apply context_ok; rewrite create_dir_fine by (done || by right); cbn; by rewrite E3).
  assert (ns3 !! key_path mat = Some (File (take n (key_pem k)) fm)) as Hk3 by apply lookup_insert_eq.
  assert (ns3 !! cert_path mat = Some (File (cert_pem c) fm)) as Hc3 by (unfold ns3; rewrite lookup_insert_ne by done; apply lookup_insert_eq).
  rewrite look_bind, !exists_plain by done. cbn [nodes]. rewrite Hc3, Hk3, !bool_decide_true by eauto. cbn [andb].
  rewrite (bind_run (load_first_cert_der _) _ _ der (mkFiles ns3 fm [])); [done|].
  unfold load_first_cert_der. rewrite (bind_run _ _ _ (cert_pem c) (mkFiles ns3 fm [])) by (by eapply context_ok, read_fine). unfold lift, first_der. by rewrite Hp.
Qed.

(** ** Deployments *)

Section deployment.
Context (out : rstring).
Abbreviation at_ name := (path_join out (lit name)).

Abbreviation ca_file := (ca_file out).
Abbreviation leaf_file := (leaf_file out).
Abbreviation some_ca := (some_ca out).

(** The directory has an authority: a certificate, signed with the key beside it. *)
Definition has_ca (c : Certificate) (s : files) : Prop := ∃ p k m1 m2, self_signed p k = Some c ∧
  nodes s !! at_ "ca.pem" = Some (File (cert_pem c) m1) ∧ nodes s !! at_ "ca.key.pem" = Some (File (key_pem k) m2).

Lemma only_secret (P : rstring → Prop) path content : P path → only P (write_secret path content).
Proof. intros HP. apply only_bind; [by apply only_context, only_write|]. intros _. by apply only_context, only_set_mode. Qed.

Lemma only_leaf (P : rstring → Prop) what params ca cp kp g : P cp → P kp → only P (mint_leaf what params ca cp kp g).
Proof.
  intros H1 H2. unfold mint_leaf. repeat (apply only_bind; [first [apply only_made|by apply only_write]|intros]).
  by apply only_secret.
Qed.

Lemma leaf_ok what params ca cp kp g s s' : no_links s → cp ≠ kp → mint_leaf what params ca cp kp g s = (Ok tt, s') →
  ∃ k c m, signed_by params k ca.1 ca.2 = Some c ∧ nodes s' !! cp = Some (File (cert_pem c) m) ∧ nodes s' !! kp = Some (File (key_pem k) 384).
Proof.
  intros Hs Hne (p & s1 & Hp & (k & s2 & Hk & (c & s3 & Hc & (u1 & s4 & Hw1 & (u2 & s5 & Hw2 & Hm)
    %io_bind_ok)%io_bind_ok)%io_bind_ok)%io_bind_ok)%io_bind_ok.
  apply made_ok in Hp as [Hp ->], Hk as [-> ->], Hc as [Hc ->]. case_match; [|done]. injection Hp as ->.
  apply context_ok in Hw2, Hm.
  assert (no_links s4) as H4 by (eapply (no_links_after (λ _, True)); [by apply only_write|done|exact Hw1]).
  assert (no_links s5) as H5 by (eapply (no_links_after (λ _, True)); [by apply only_write|done|exact Hw2]).
  apply write_ok in Hw1 as (E1 & _); [|done]. apply write_ok in Hw2 as (E2 & _); [|done].
  apply set_mode_ok in Hm as (n & Hn & ->); [|done]. rewrite E2, lookup_insert_eq in Hn. simplify_eq.
  rewrite E2, insert_insert_eq, E1. eexists k, c, _. split; [done|].
  rewrite lookup_insert_eq, lookup_insert_ne by done. by rewrite lookup_insert_eq.
Qed.

Abbreviation the_ca := (load_or_mint_ca (at_ "ca.pem") (at_ "ca.key.pem")).

Lemma only_ca g : only ca_file (the_ca g).
Proof.
  unfold load_or_mint_ca. apply only_bind; [apply only_look|]. intros b. apply only_if.
  - repeat (apply only_bind; [first [apply only_made|by auto with vbox]|intros]). apply only_ret.
  - do 3 (apply only_bind; [apply only_made|intros]). apply only_bind; [apply only_write; by left|intros].
    apply only_bind; [apply only_secret; by right|intros; apply only_ret].
Qed.

(** With an authority there, nothing is written for one. *)
Lemma ca_existing g s : no_links s → some_ca s → nodes (the_ca g s).2 = nodes s.
Proof.
  intros Hs Hca. unfold load_or_mint_ca. rewrite look_bind. apply some_ca_exists in Hca as ->; [|done].
  match goal with |- nodes (?m s).2 = _ => assert (only (λ _, False) m) as H end.
  { repeat (apply only_bind; [first [apply only_made|by auto with vbox]|intros]). apply only_ret. }
  destruct (H s Hs) as [_ H1]. apply map_eq. intros p. apply H1. by intros [].
Qed.

(** rcgen reads back the keys it writes. *)
Hypothesis key_reads : ∀ k, key_from_pem (key_pem k) = Some k.

Lemma ca_ok g s ca s' : no_links s → (some_ca s → ∃ c, has_ca c s) → the_ca g s = (Ok ca, s') →
  ∃ c p0 p, has_ca c s' ∧ self_signed p0 ca.2 = Some c ∧ self_signed p ca.2 = Some ca.1 ∧
    (ca.1 = c ∨ from_ca_cert_pem (cert_pem c) = Some p).
Proof using Type key_reads.
  intros Hs Hgood H. unfold load_or_mint_ca in H. rewrite look_bind in H. destruct (_ && _) eqn:Eb.
  - apply some_ca_exists in Eb; [|done]. destruct (Hgood Eb) as (c & p0 & k0 & m1 & m2 & Hc & H1 & H2).
    apply io_bind_ok in H as (t1 & s1 & Hr1 & H). apply context_ok, read_ok in Hr1 as [-> (m & Hn)]; [|done].
    apply io_bind_ok in H as (t2 & s2 & Hr2 & H). apply context_ok, read_ok in Hr2 as [-> (m' & Hn')]; [|done].
    cbn [nodes advance] in Hn'. rewrite H1 in Hn. rewrite H2 in Hn'. simplify_eq.
    apply io_bind_ok in H as (k & s3 & [Hk ->]%made_ok & (p & s4 & [Hp ->]%made_ok & (c' & s5 & [Hc' ->]%made_ok & [= <- <-])%io_bind_ok)%io_bind_ok).
    rewrite key_reads in Hk. simplify_eq. exists c, p0, p. split_and!; [|done..|by right]. by exists p0, k, m, m'.
  - apply io_bind_ok in H as (p & s1 & [Hp ->]%made_ok & (k & s2 & [-> ->]%made_ok & (c & s3 & [Hc ->]%made_ok & (u1 & s4 & Hw1 & (u2 & s5 & (u3 & s6 & Hw2 & Hm)%io_bind_ok & [= <- <-])%io_bind_ok)%io_bind_ok)%io_bind_ok)%io_bind_ok).
    apply context_ok in Hw2, Hm.
    assert (no_links s4) as H4 by (eapply (no_links_after (λ _, True)); [by apply only_write|done|exact Hw1]).
    assert (no_links s6) as H6 by (eapply (no_links_after (λ _, True)); [by apply only_write|done|exact Hw2]).
    apply write_ok in Hw1 as (E1 & _); [|done]. apply write_ok in Hw2 as (E2 & _); [|done].
    apply set_mode_ok in Hm as (n & Hn & E3); [|done]. rewrite E2, lookup_insert_eq in Hn. simplify_eq.
    rewrite E2, insert_insert_eq, E1 in E3. exists c, p, p. cbn [fst snd]. split_and!; [|done..|by left].
    eexists p, k, _, _. split; [done|]. pose proof ca_not_key. rewrite E3, lookup_insert_eq, lookup_insert_ne by done. by rewrite lookup_insert_eq.
Qed.

(** What a client makes of two PEM texts: the second was issued by the first. An authority
    vouches for what its key signed, and so does one rebuilt from its text and key. *)
Context (chains : rstring → rstring → Prop).
Hypothesis issued_chains : ∀ params k c ca leaf cak, self_signed params cak = Some ca →
  signed_by c k ca cak = Some leaf → chains (cert_pem ca) (cert_pem leaf).
Hypothesis rebuilt_chains : ∀ p0 p k c c' leaf, self_signed p0 k = Some c → from_ca_cert_pem (cert_pem c) = Some p →
  self_signed p k = Some c' → chains (cert_pem c') leaf → chains (cert_pem c) leaf.

(** [name] holds a certificate that the authority issued, and [key_name] a private key. *)
Definition issued (ca : Certificate) (name key_name : rstring) (s : files) : Prop := ∃ leaf m key,
  nodes s !! path_join out name = Some (File leaf m) ∧ chains (cert_pem ca) leaf ∧
  nodes s !! path_join out key_name = Some (File key 384).

Definition deployed (ca : Certificate) (s : files) : Prop := has_ca ca s ∧
  issued ca (lit "server.pem") (lit "server.key.pem") s ∧ issued ca (lit "client.pem") (lit "client.key.pem") s.

(** [name] holds the certificate [leaf], made with [params] and the key in [key_name]. *)
Definition leaf_at (params : CertificateParams) (ca leaf : Certificate) (k : KeyPair) (name key_name : rstring) (s : files) : Prop :=
  (∃ signer cak, signed_by params k signer cak = Some leaf) ∧ chains (cert_pem ca) (cert_pem leaf) ∧
  (∃ m, nodes s !! path_join out name = Some (File (cert_pem leaf) m)) ∧
  nodes s !! path_join out key_name = Some (File (key_pem k) 384).

Lemma leaf_issued params ca leaf k name key_name s : leaf_at params ca leaf k name key_name s → issued ca name key_name s.
Proof. intros (_ & Hc & (m & Hf) & Hk). by exists (cert_pem leaf), m, (key_pem k). Qed.

Lemma only_bootstrap sans g1 g2 g3 s : no_links s → some_ca s →
  no_links (tls_bootstrap sans out g1 g2 g3 s).2 ∧ ∀ p, ca_file p → nodes (tls_bootstrap sans out g1 g2 g3 s).2 !! p = nodes s !! p.
Proof.
  intros Hs Hca. unfold tls_bootstrap. rewrite bind_snd.
  pose proof (only_context _ (lit "create " ++ out) _ (only_create_dir (λ q, q = out) _ eq_refl) s Hs) as [H1 H2].
  assert (∀ p, ca_file p → p ≠ out) as Hout by (intros p [->| ->]; by apply at_out; compute_done).
  destruct (context _ _ s) as [[u|e] s1]; cbn [fst snd] in *; [|split; [done|]; intros; by apply H2, Hout].
  assert (some_ca s1) as Hca1 by (intros p Hp; rewrite H2 by (by apply Hout); by apply Hca).
  rewrite bind_snd. pose proof (only_ca g1 s1 H1) as [H3 _]. pose proof (ca_existing g1 s1 H1 Hca1) as H4.
  destruct (the_ca g1 s1) as [[ca|e] s2]; cbn [fst snd] in *; [|split; [done|]; intros; rewrite H4; by apply H2, Hout].
  match goal with |- no_links (?m s2).2 ∧ _ => assert (only leaf_file m) as Hm end.
  { apply only_bind; [|intros]; apply only_leaf; by unfold Certs.leaf_file; auto 10. }
  destruct (Hm s2 H3) as [H5 H6]. split; [done|]. intros p Hp. rewrite H6, H4; [by apply H2, Hout|]. intros Hl. by apply (leaf_apart out p).
Qed.

Lemma no_links_create path s u s1 : no_links s → context (lit "create " ++ path) (create_dir_all path) s = (Ok u, s1) →
  no_links s1 ∧ ∀ q, q ≠ path → nodes s1 !! q = nodes s !! q.
Proof.
  intros Hs H. pose proof (only_context _ (lit "create " ++ path) _ (only_create_dir (λ q, q = path) _ eq_refl) s Hs) as [H1 H2].
  by rewrite H in *.
Qed.

Lemma has_ca_kept c s s' : (∀ p, ca_file p → nodes s' !! p = nodes s !! p) → has_ca c s → has_ca c s'.
Proof.
  intros H (p & k & m1 & m2 & Hc & H1 & H2). exists p, k, m1, m2. split; [done|].
  rewrite !H; [done|by right|by left].
Qed.

Lemma has_some_ca c s : has_ca c s → some_ca s.
Proof. intros (p & k & m1 & m2 & _ & H1 & H2) q [->| ->]; eauto. Qed.

Lemma bootstrap_ok sans g1 g2 g3 s s' : no_links s → (some_ca s → ∃ c, has_ca c s) →
  tls_bootstrap sans out g1 g2 g3 s = (Ok tt, s') → ∃ ca l1 k1 l2 k2, has_ca ca s' ∧
    leaf_at (server_params sans) ca l1 k1 (lit "server.pem") (lit "server.key.pem") s' ∧
    leaf_at client_params ca l2 k2 (lit "client.pem") (lit "client.key.pem") s'.
Proof using Type key_reads issued_chains rebuilt_chains.
  intros Hs Hgood (u & s1 & Hd & (ca & s2 & Hca & (v & s3 & Hsrv & Hcli)%io_bind_ok)%io_bind_ok)%io_bind_ok.
  apply no_links_create in Hd as [H1 E1]; [|done].
  pose proof (only_ca g1 s1 H1) as [H2 _]. rewrite Hca in H2. cbn [snd] in H2.
  apply ca_ok in Hca as (c & p0 & p & Hc & Hp0 & Hp & Hsame); [|done|].
  2: { intros Hsome. destruct Hgood as [c Hc]; [intros q Hq; rewrite <- E1 by (by apply ca_out); by apply Hsome|].
       exists c. eapply has_ca_kept; [|exact Hc]. intros q Hq. by apply E1, ca_out. }
  assert (∀ params k leaf, signed_by params k ca.1 ca.2 = Some leaf → chains (cert_pem c) (cert_pem leaf)) as Hchain.
  { intros params k leaf Hl. pose proof (issued_chains _ _ _ _ _ _ Hp Hl) as H. destruct Hsame as [<-|Hpem]; [done|]. by eapply rebuilt_chains. }
  destruct v. pose proof (only_leaf (λ q, q = at_ "server.pem" ∨ q = at_ "server.key.pem") (lit "server") (server_params sans) ca
    (at_ "server.pem") (at_ "server.key.pem") g2 (or_introl eq_refl) (or_intror eq_refl) s2 H2) as [H3 E3]. rewrite Hsrv in H3, E3.
  pose proof (only_leaf (λ q, q = at_ "client.pem" ∨ q = at_ "client.key.pem") (lit "client") client_params ca
    (at_ "client.pem") (at_ "client.key.pem") g3 (or_introl eq_refl) (or_intror eq_refl) s3 H3) as [_ E4]. rewrite Hcli in E4.
  cbn [snd] in *. apply leaf_ok in Hsrv as (k1 & l1 & m1 & S1 & F1 & K1); [|done|apply at_ne; by compute_done].
  apply leaf_ok in Hcli as (k2 & l2 & m2 & S2 & F2 & K2); [|done|apply at_ne; by compute_done].
  assert (∀ a, a = lit "server.pem" ∨ a = lit "server.key.pem" → nodes s' !! path_join out a = nodes s3 !! path_join out a) as E5.
  { intros a Ha. apply E4. intros H. destruct Ha as [->| ->], H as [H|H]; revert H; apply at_ne; by compute_done. }
  exists c, l1, k1, l2, k2. split_and!.
  - apply (has_ca_kept c s2); [|done]. intros q Hq. rewrite E4, E3; [done|intros Hl%leaf_server; by apply (leaf_apart out q)|intros Hl%leaf_client; by apply (leaf_apart out q)].
  - split; [by eexists _, _|]. rewrite !E5 by auto. split; [by eapply Hchain|]. split; [by exists m1|done].
  - split; [by eexists _, _|]. split; [by eapply Hchain|]. split; [by exists m2|done].
Qed.

Lemma bootstrap_no_links sans g1 g2 g3 s r s1 : no_links s → tls_bootstrap sans out g1 g2 g3 s = (r, s1) → no_links s1.
Proof.
  intros Hs Hrun. eapply (no_links_after (λ _, True)); [|exact Hs|exact Hrun]. apply only_bind; [by apply only_context, only_create_dir|intros].
  apply only_bind; [by eapply only_weaken, only_ca|intros]. apply only_bind; intros; by apply only_leaf.
Qed.

Lemma bootstrap_deployed sans g1 g2 g3 s s' : no_links s → (some_ca s → ∃ c, has_ca c s) →
  tls_bootstrap sans out g1 g2 g3 s = (Ok tt, s') → ∃ ca, deployed ca s'.
Proof using Type key_reads issued_chains rebuilt_chains.
  intros Hs Hg H. destruct (bootstrap_ok _ _ _ _ _ _ Hs Hg H) as (ca & l1 & k1 & l2 & k2 & Hca & H1 & H2).
  exists ca. split_and!; [done|by eapply leaf_issued..].
Qed.

(** C22: a deployment's certificates trust each other across runs of the helper: a run that
    succeeds leaves an authority, which issued both certificates beside it, with their keys
    the owner's only; and any later run, with other names and however it ends, keeps that
    authority, so that when it succeeds its certificates and the earlier ones still agree. *)
Theorem runs_trust_each_other sans g1 g2 g3 sans' h1 h2 h3 s s1 : no_links s → (some_ca s → ∃ c, has_ca c s) →
  tls_bootstrap sans out g1 g2 g3 s = (Ok tt, s1) →
  ∃ ca, deployed ca s1 ∧
    let '(r, s2) := tls_bootstrap sans' out h1 h2 h3 s1 in
    has_ca ca s2 ∧ (r = Ok tt → deployed ca s2).
Proof using Type key_reads issued_chains rebuilt_chains.
  intros Hs Hgood Hrun. pose proof Hrun as Hca. apply bootstrap_deployed in Hca as [ca Hd]; [|done..]. exists ca. split; [done|].
  destruct Hd as [Hca _]. pose proof (bootstrap_no_links _ _ _ _ _ _ _ Hs Hrun) as H1.
  pose proof (only_bootstrap sans' h1 h2 h3 s1 H1 (has_some_ca _ _ Hca)) as [_ E].
  destruct (tls_bootstrap sans' out h1 h2 h3 s1) as [r s2] eqn:Hrun2. cbn [snd] in E.
  assert (has_ca ca s2) as Hca2 by (by eapply has_ca_kept). split; [done|]. intros ->.
  apply bootstrap_deployed in Hrun2 as (ca2 & (p & k & m1 & m2 & _ & F1 & _) & Hi1 & Hi2); [|done|by exists ca].
  assert (cert_pem ca2 = cert_pem ca) as Hpem by (destruct Hca2 as (p' & k' & m1' & m2' & _ & F & _); rewrite F1 in F; by injection F).
  unfold deployed, issued in *. by rewrite Hpem in *.
Qed.
End deployment.
End certs.

(** ** Witnesses *)

Module ToyCerts.
Definition names_ok (_ : list rstring) : bool := true.
Definition self_signed (p : CertificateParams) (k : Z) : option rstring := Some (k :: k :: common_name p).
Definition signed_by (p : CertificateParams) (k : Z) (_ : rstring) (ca_key : Z) : option rstring := Some (k :: ca_key :: common_name p).
Definition key_pem (k : Z) : rstring := [k].
Definition from_ca_cert_pem (t : rstring) : option CertificateParams := Some (mkParams [] (drop 2 t) true [] []).
Definition der (t : rstring) : list byte := byte_of_Z <$> t.
Definition pem_certs (t : rstring) : list (option (list byte)) := match t with [] => [] | _ => [Some (der t)] end.
Definition pem_key (t : rstring) : option (option (list byte)) := Some (Some (der t)).
Definition installs (_ : list (list byte)) (_ : list byte) : bool := true.
Definition digest (bs : list byte) : list byte := take 32 (bs ++ replicate 32 Byte.x00).
(** The issuer's key, which the second place of a certificate names, is the authority's. *)
Definition chains (ca leaf : rstring) : Prop := ca !! 0%nat = leaf !! 1%nat.

Lemma digest_length bs : length (digest bs) = 32%nat.
Proof. unfold digest. rewrite length_take, length_app, length_replicate. lia. Qed.

Definition ensure := ensure_quic_cert_material names_ok self_signed id key_pem pem_certs.
Definition identity := listener_identity names_ok self_signed der (λ k, der [k]) pem_certs pem_key installs.
Definition fingerprint := quic_cert_sha256 pem_certs digest.
Definition bootstrap := tls_bootstrap names_ok self_signed signed_by id key_pem head from_ca_cert_pem.
End ToyCerts.
Import ToyCerts.

Definition empty_disk : files := mkFiles ∅ 420 [].
Definition work : rstring := lit "/w".
Definition demo_instance : rstring := lit "demo".
Definition demo_material : QuicCertMaterial := material_of work demo_instance.

Lemma empty_no_links fs : no_links (mkFiles ∅ 420 fs).
Proof. intros p t. cbn [nodes]. by rewrite lookup_empty. Qed.

Definition started : files := (ensure work demo_instance (Some 7) empty_disk).2.
Definition others : list (rstring * option Z) := [(lit "other", Some 8); (demo_instance, Some 9)].
Definition later : files := ensures names_ok self_signed id key_pem pem_certs work others started.

Lemma pin_fits_server_witness :
  ∃ leaf rest config, [der (7 :: 7 :: lit "vbox-server")] = leaf :: rest ∧
    (∀ insecure, client_config insecure (Some (sha256_hex digest (der (7 :: 7 :: lit "vbox-server")))) = Ok config) ∧
    ∀ presented, verify_server_cert digest config presented = true ↔ digest presented = digest leaf.
Proof.
  refine (pin_fits_server names_ok self_signed id key_pem der (λ k, der [k]) pem_certs pem_key installs digest
    work demo_instance (Some 7) empty_disk demo_material started others None _ (der [7]) _ [] _ _
    digest_length _ (empty_no_links []) (run_at _ _ _ _) (run_at _ _ _ _) (run_at _ _ _ _)); [done|by vm_compute..].
Defined.

Lemma cert_material_kept_witness :
  let r := ensure work demo_instance (Some 7) empty_disk in
  r.1 = Ok demo_material ∧ nodes r.2 !! key_path demo_material = Some (File [7] 384).
Proof.
  intros r. pose proof (cert_material_kept names_ok self_signed id key_pem pem_certs work demo_instance (Some 7) empty_disk ltac:(done) (empty_no_links [])) as H.
  fold (ensure work demo_instance (Some 7) empty_disk) in H. fold r in H. assert (r.1 = Ok demo_material) as E by (by vm_compute). split; [done|].
  destruct r as [res s']. cbn [fst snd] in *. destruct H as (_ & _ & H). destruct (H _ E) as [_ [Hb|(k & c & m & [= <-] & _ & _ & Hk)]]; [|exact Hk].
  by destruct (Hb _ (or_introl eq_refl)).
Defined.

Lemma torn_key_kept_witness :
  let s := mkFiles ∅ 420 [Fine; Fine; Torn 0] in
  is_ok (ensure work demo_instance (Some 7) s).1 = false ∧
  (ensure work demo_instance None (ensure work demo_instance (Some 7) s).2).1 = Ok demo_material.
Proof.
  intros s. pose proof (torn_key_kept names_ok self_signed id key_pem pem_certs work demo_instance 7 (7 :: 7 :: lit "vbox-server")
    (der (7 :: 7 :: lit "vbox-server")) [] 0%nat s ltac:(done) (empty_no_links _) eq_refl eq_refl eq_refl (or_introl eq_refl) ltac:(done) eq_refl) as H.
  fold ensure in H. destruct (ensure work demo_instance (Some 7) s) as [r s1]. destruct H as [H1 H2]. split; [exact H1|]. cbn [snd].
  specialize (H2 None). destruct (ensure work demo_instance None s1). apply H2.
Defined.

Lemma runs_trust_each_other_witness :
  let out := lit "/tls" in
  let s1 := (bootstrap [lit "guest"] out (Some 1) (Some 2) (Some 3) empty_disk).2 in
  ∃ ca, deployed self_signed id key_pem out chains ca s1 ∧
    let '(r, s2) := bootstrap [lit "other"] out None (Some 5) (Some 6) s1 in
    has_ca self_signed id key_pem out ca s2 ∧ (r = Ok tt → deployed self_signed id key_pem out chains ca s2).
Proof.
  intros out s1. assert ((bootstrap [lit "guest"] out (Some 1) (Some 2) (Some 3) empty_disk).1 = Ok tt) as E by (by vm_compute).
  refine (runs_trust_each_other names_ok self_signed signed_by id key_pem head from_ca_cert_pem out _ chains _ _
    [lit "guest"] (Some 1) (Some 2) (Some 3) [lit "other"] None (Some 5) (Some 6) empty_disk s1 (empty_no_links []) _ _).
  - done.
  - by intros ? ? ? ? ? ? [= <-] [= <-].
  - intros ? ? ? ? ? ? [= <-] _ [= <-]. done.
  - intros Hca. by destruct (Hca _ (or_introl eq_refl)).
  - exact (run_at (bootstrap [lit "guest"] out (Some 1) (Some 2) (Some 3)) empty_disk tt E).
Defined.
