(* ===== verification/Quic.v ===== *)
(** * A view over QUIC, end to end (crates/server/src/data_plane/quic_listener.rs, crates/client/src/data_plane/quic.rs)

    The writer of the server at the level of bytes: tiles as datagrams, the events of a
    window on a stream of their own, everything else and whatever failed on the first
    stream. The three readers of the client: of the first stream, of a window's stream, of
    the datagrams. And the way back: the client's writer and the server's reader. [Server]
    has the same writer with the network abstracted to what it takes; here a write may take
    a part of a frame, a stream may break while it opens, datagrams may be lost and reordered. *)

From S2P Require Import Prelude Wire Framing Datagram Transport Server ClientNet.

(** ** The frame layer of the streams: each end has a copy of this text *)

Section frame_layer.
Context `{C : Codec Message}.

Definition quic_read_prelude : reader unit :=
  magic ← read_exact Stage_magic 4;
  rd_lift (ensure (bool_decide (magic = MAGIC)) (FE_bad_magic magic)) ≫= λ _,
  ver ← read_exact Stage_version 2;
  let ver := from_be_bytes ver in
  rd_lift (ensure (ver =? PROTOCOL_VERSION) (FE_version_mismatch ver)).

Definition quic_read_frame : reader Message :=
  len ← read_exact Stage_length 4;
  let frame_len := from_be_bytes len in
  rd_lift (ensure (4 <=? frame_len) (FE_too_small frame_len)) ≫= λ _,
  rd_lift (ensure (frame_len <=? MAX_FRAME_BYTES) (FE_too_big frame_len)) ≫= λ _,
  kind_raw ← read_exact Stage_kind 4;
  let kind_raw := from_be_bytes kind_raw in
  rd_lift (ok_or (FE_unknown_kind kind_raw) (kind_from_u32 kind_raw)) ≫= λ kind,
  payload ← read_exact Stage_payload (Z.to_nat (frame_len - 4));
  rd_lift (decode_frame_payload kind payload).

(** They agree with the readers of proto/src/framing.rs on every source. *)
Lemma quic_frame_layer src :
  quic_read_frame src = read_frame src ∧
  quic_read_prelude src = (match (read_prelude src).1 with Ok _ => Ok tt | Err e => Err e end, (read_prelude src).2).
Proof.
  split; [done|]. unfold quic_read_prelude, read_prelude, mbind, reader_bind, rd_lift, ensure, mret, reader_ret.
  destruct (read_exact Stage_magic 4 src) as [[magic|e] s1]; [|done]. case_bool_decide; [|done].
  destruct (read_exact Stage_version 2 s1) as [[ver|e] s2]; [|done]. by destruct (_ =? _).
Qed.
End frame_layer.

(** ** The server's writer *)

(** What the connection takes while one message is written: whole datagrams, bytes of the
    opening of a new stream, bytes of a frame on a window's stream and on the first one. *)
Record link := mkLink {
  max_datagram_size : option Z; datagrams_taken : nat;
  open_uni_ok : bool; opening_taken : nat; frame_taken : nat; main_taken : nat
}.

(** What has been written: the first stream, the streams of the windows in the order of their
    opening with the window each announces, the datagrams by frame. [open_streams] is the
    writer's map of streams. *)
Record connection := mkConnection {
  main_out : list byte;
  window_streams : list (Z * list byte);
  open_streams : gmap Z nat;
  tile_seq : Z;
  datagrams_out : list (list (list byte))
}.

Section data_plane.
Context `{C : Codec Message, L : !CodecLaws Message, D : Codec DataPlaneDatagram, DL : !CodecLaws DataPlaneDatagram}.

(** [write_frame] on a stream that takes [k] bytes: what arrives, and success. *)
Definition stream_write (k : nat) (m : Message) : list byte * bool :=
  match encode_frame m with Ok f => (take k f, (length f <=? k)%nat) | Err _ => ([], false) end.

(** [write_prelude] and the frame that announces the window. *)
Definition write_opening (k : nat) (channel : Z) : list byte * bool :=
  match encode_frame (Message_DataPlaneChannel (mkDataPlaneChannel channel WindowReliable)) with
  | Ok f => let bs := write_prelude ++ f in (take k bs, (length bs <=? k)%nat)
  | Err _ => (take k write_prelude, false)
  end.

Definition append_main (bs : list byte) (c : connection) : connection :=
  mkConnection (main_out c ++ bs) (window_streams c) (open_streams c) (tile_seq c) (datagrams_out c).

Definition append_stream (i : nat) (bs : list byte) (c : connection) : connection :=
  match window_streams c !! i with
  | Some (channel, b) =>
      mkConnection (main_out c) (<[i := (channel, b ++ bs)]> (window_streams c)) (open_streams c) (tile_seq c) (datagrams_out c)
  | None => c
  end.

Definition with_streams (f : gmap Z nat → gmap Z nat) (c : connection) : connection :=
  mkConnection (main_out c) (window_streams c) (f (open_streams c)) (tile_seq c) (datagrams_out c).

(** The stream of a window, opened if there is none. *)
Definition channel_stream (n : link) (channel : Z) (c : connection) : connection * option nat :=
  match open_streams c !! channel with
  | Some i => (c, Some i)
  | None =>
      if negb (open_uni_ok n) then (c, None) else
      let '(bs, ok) := write_opening (opening_taken n) channel in
      let i := length (window_streams c) in
      let c := mkConnection (main_out c) (window_streams c ++ [(channel, bs)]) (open_streams c) (tile_seq c) (datagrams_out c) in
      if ok : bool then (with_streams <[channel := i]> c, Some i) else (c, None)
  end.

Definition send_channel_frame (n : link) (channel : Z) (m : Message) (c : connection) : connection * bool :=
  match channel_stream n channel c with
  | (c, None) => (c, false)
  | (c, Some i) =>
      let '(bs, ok) := stream_write (frame_taken n) m in
      let c := append_stream i bs c in
      if ok : bool then (c, true) else (with_streams (delete channel) c, false)
  end.

Definition send_main (n : link) (m : Message) (c : connection) : connection * bool :=
  let '(bs, ok) := stream_write (main_taken n) m in (append_main bs c, ok).

Definition send_or_fall_back (n : link) (channel : Z) (m : Message) (c : connection) : connection * bool :=
  match send_channel_frame n channel m c with
  | (c, true) => (c, true)
  | (c, false) => send_main n m c
  end.

(** The datagrams of a tile that were sent, and whether all were. *)
Definition send_frame_tile_datagrams (n : link) (tile : FrameTile) (seq : Z) : list (list byte) * bool :=
  match max_datagram_size n with
  | None => ([], false)
  | Some max =>
      match frame_tile_datagrams tile (tile_id tile) seq max with
      | Err _ => ([], false)
      | Ok ds => (take (datagrams_taken n) ds, (length ds <=? datagrams_taken n)%nat)
      end
  end.

(** One turn of the writer; [false]: the session is disconnected. *)
Definition send_message (n : link) (m : Message) (c : connection) : connection * bool :=
  match m with
  | Message_FrameTile tile =>
      let seq := wrapping_succ_u64 (tile_seq c) in
      let '(ds, ok) := send_frame_tile_datagrams n tile seq in
      let c := mkConnection (main_out c) (window_streams c) (open_streams c) seq (datagrams_out c ++ [ds]) in
      if ok : bool then (c, true) else send_or_fall_back n (tile_id tile) m c
  | Message_WindowEvent event =>
      let channel := window_event_channel_id event in
      match send_or_fall_back n channel m c with
      | (c, false) => (c, false)
      | (c, true) => (match event with WE_Destroyed _ => with_streams (delete channel) c | _ => c end, true)
      end
  | _ => send_main n m c
  end.

Fixpoint send_all (msgs : list (link * Message)) (c : connection) : connection * bool :=
  match msgs with
  | [] => (c, true)
  | (n, m) :: rest =>
      match send_message n m c with
      | (c, true) => send_all rest c
      | (c, false) => (c, false)
      end
  end.

(** ** The client's readers *)

(** The task that reads datagrams, while [open] says the viewer takes a tile. *)
Fixpoint datagram_reader (open : nat → bool) (sent : list FrameTile) (a : gmap (Z * Z) PendingFrameTile)
    (ds : list (list byte)) : list FrameTile :=
  match ds with
  | [] => sent
  | d :: ds =>
      match decode_datagram d with
      | Ok (Datagram_FrameTileChunk chunk) =>
          let '(a, out) := push a chunk in
          match out with
          | Some tile => if open (length sent) then datagram_reader open (sent ++ [tile]) a ds else sent
          | None => datagram_reader open sent a ds
          end
      | Err _ => datagram_reader open sent a ds
      end
  end.

(** ** The way back *)

(** The client's writer: what the viewer sends until it closes its end. *)
Definition outbound_writer (msgs : list Message) : prog conn unit :=
  write_messages msgs;; write_message (goodbye (lit "viewer closed")).

(** The server's reader: what the view is handed before it is told of the disconnection. *)
Definition inbound_reader (open : nat → bool) (src : list read_event) : list Message :=
  (forward_frames (S (length src)) open [] src).1.

(** ** Lemmas: what is read of the bytes *)

Definition read_all (bs : list byte) : list Message := inbound_reader (λ _, true) (bytes_of bs).

(** What the reader of a window's stream passes on of its bytes. *)
Definition stream_received (bs : list byte) : list Message :=
  match (read_channel_stream (λ _, true) (mkConn true [] (bytes_of bs) [] 0 0)).1 with Ok (ms, _) => ms | Err _ => [] end.

(** No frame can be read of it: an end of the stream, or of a part of a frame. *)
Definition unread (bs : list byte) : Prop := ∃ e, (read_frame (bytes_of bs)).1 = Err e.

Lemma read_frame_more src m rest more : read_frame src = (Ok m, rest) → read_frame (src ++ more) = (Ok m, rest ++ more).
Proof.
  rewrite !read_frame_ok. intros (p & -> & Hl & Hp). exists p. by rewrite <- app_assoc.
Qed.

Lemma unread_nil : unread [].
Proof. unfold unread. change (bytes_of []) with (@nil read_event). rewrite read_frame_eof. eauto. Qed.

Lemma unread_part m f k : encode_frame m = Ok f → (k < length f)%nat → unread (take k f).
Proof.
  intros Hf Hk. unfold unread. destruct (read_frame (bytes_of (take k f))) as [[m'|e] rest] eqn:E; [|eauto]. exfalso.
  apply (read_frame_more _ _ _ (bytes_of (drop k f))) in E. rewrite <- bytes_of_app, take_drop in E.
  pose proof (encode_read m f [] Hf) as E'. rewrite app_nil_r in E'. rewrite E' in E.
  injection E as _ E. symmetry in E. apply app_eq_nil in E as [_ E]. apply (f_equal length) in E.
  unfold bytes_of in E. rewrite length_fmap, length_drop in E. cbn in E. lia.
Qed.

Lemma unread_write k m : (stream_write k m).2 = false → unread (stream_write k m).1.
Proof.
  unfold stream_write. destruct (encode_frame m) as [f|e] eqn:E; cbn; [|intros _; apply unread_nil].
  rewrite Nat.leb_gt. by apply unread_part with m.
Qed.

Lemma written k m bs : stream_write k m = (bs, true) → encode_frame m = Ok bs.
Proof.
  unfold stream_write. destruct (encode_frame m) as [f|e]; [|done].
  intros [= <- Hk%Nat.leb_le]. by rewrite take_ge.
Qed.

Lemma read_all_frames ms b t : frames_of ms b → unread t → read_all (b ++ t) = ms.
Proof.
  intros Hb [e Ht]. unfold read_all, inbound_reader. rewrite bytes_of_app, (forward_frames_run ms b []) by done.
  cbn [forward_frames]. destruct (read_frame (bytes_of t)) as [[] ?]; [done|]. reflexivity.
Qed.

Lemma read_all_prefix ms b d : frames_of ms b → d `prefix_of` b → read_all d `prefix_of` ms.
Proof.
  intros (frs & Hms & ->) [k Hk]. assert (d = take (length d) (concat frs)) as -> by by rewrite Hk, take_app_length.
  unfold read_all, inbound_reader. rewrite (forward_frames_cut _ _ _ _ [] Hms) by done. cbn [fst app].
  eexists. symmetry. apply take_drop.
Qed.

Lemma stream_received_prelude bs :
  stream_received (write_prelude ++ bs) =
  match read_frame (bytes_of bs) with
  | (Ok (Message_DataPlaneChannel _), src) => inbound_reader (λ _, true) src
  | _ => []
  end.
Proof.
  unfold stream_received, read_channel_stream. rewrite bytes_of_app.
  unfold mbind, prog_bind, recv. cbn [incoming].
  change (read_prelude (bytes_of write_prelude ++ bytes_of bs)) with (Ok (E := frame_error) PROTOCOL_VERSION, bytes_of bs).
  cbn [incoming]. destruct (read_frame (bytes_of bs)) as [[m|e] src]; [|done]. by destruct m.
Qed.

(** A stream that never got past its opening. *)
Lemma stream_unopened bs : (∀ b, bs = write_prelude ++ b → unread b) → stream_received bs = [].
Proof.
  intros H. destruct (decide (take 6 bs = write_prelude)) as [Hp|Hp].
  - rewrite <- (take_drop 6 bs), Hp, stream_received_prelude.
    destruct (H (drop 6 bs)) as [e He]; [by rewrite <- Hp, take_drop|].
    destruct (read_frame (bytes_of (drop 6 bs))) as [[] ?]; [done|reflexivity].
  - unfold stream_received, read_channel_stream, mbind, prog_bind, recv. cbn [incoming].
    destruct (read_prelude (bytes_of bs)) as [[v|e] src] eqn:E; [|done]. exfalso. apply Hp.
    apply read_prelude_iff in E as [E _]. unfold bytes_of in E.
    apply (f_equal (take 6)) in E. rewrite <- fmap_take, take_app_length' in E by done.
    assert (Inj (=) (=) RE_byte) by (by intros ?? [=]). by apply (inj (fmap RE_byte)) in E.
Qed.

Definition intact (channel : Z) (ms : list Message) (b : list byte) : Prop :=
  ∃ f fb, encode_frame (Message_DataPlaneChannel (mkDataPlaneChannel channel WindowReliable)) = Ok f
    ∧ frames_of ms fb ∧ b = write_prelude ++ f ++ fb.

Lemma intact_received channel ms b t : intact channel ms b → unread t → stream_received (b ++ t) = ms.
Proof.
  intros (f & fb & Hf & Hfb & ->) Ht. rewrite <- !app_assoc, stream_received_prelude, bytes_of_app.
  rewrite (encode_read _ _ _ Hf). by apply read_all_frames.
Qed.

Lemma intact_write channel ms b m bs k :
  intact channel ms b → stream_write k m = (bs, true) → intact channel (ms ++ [m]) (b ++ bs).
Proof.
  intros (f & fb & Hf & Hfb & ->) Hm%written. exists f, (fb ++ bs). split_and!; [done| |by rewrite <- !app_assoc].
  apply frames_of_app; [done|by apply frames_of_one].
Qed.

Lemma opening_spec k channel bs ok : write_opening k channel = (bs, ok) →
  if ok then intact channel [] bs else stream_received bs = [].
Proof.
  unfold write_opening. destruct (encode_frame _) as [f|e] eqn:Hf; intros [<- <-]%pair_equal_spec.
  - destruct (Nat.leb_spec (length (write_prelude ++ f)) k).
    + rewrite take_ge by done. exists f, []. split_and!; [done|apply frames_of_nil|by rewrite app_nil_r].
    + apply stream_unopened. intros b Hb. rewrite take_app in Hb.
      destruct (decide (6 ≤ k)%nat).
      * rewrite take_ge in Hb by done. apply app_inv_head in Hb as <-. rewrite length_app in *. cbn [length write_prelude] in *.
        apply (unread_part _ _ _ Hf). cbn in *. lia.
      * apply (f_equal length) in Hb. rewrite !length_app, !length_take in Hb. cbn in Hb. lia.
  - apply stream_unopened. intros b Hb. apply (f_equal length) in Hb. rewrite length_app, length_take in Hb.
    destruct b; [apply unread_nil|]. cbn in Hb. lia.
Qed.

(** ** Lemmas: datagrams *)

(** What one turn of the writer put into datagrams: the first [turn_sent] chunks of a tile.
    The writer takes the tile for sent when that is all of them. *)
Record turn := mkTurn { turn_tile : FrameTile; turn_seq : Z; turn_limit : nat; turn_sent : nat }.

Definition turn_chunks (t : turn) : list FrameTileChunk :=
  tile_chunks (turn_tile t) (tile_id (turn_tile t)) (turn_seq t) (turn_limit t).
Definition chunks_sent (t : turn) : list FrameTileChunk := take (turn_sent t) (turn_chunks t).
Definition turn_key (t : turn) : Z * Z := (tile_id (turn_tile t), turn_seq t).
Definition told (t : turn) : option FrameTile :=
  if decide (length (turn_chunks t) ≤ turn_sent t)%nat then Some (turn_tile t) else None.

Definition turn_ok (t : turn) (ds : list (list byte)) : Prop :=
  (0 < turn_limit t ≤ 944)%nat ∧ decodes_to ds (chunks_sent t).

(** The tiles that come out with chunks of a given key, in a run of the assembler. *)
Fixpoint outs_of (key : Z * Z) (a : gmap (Z * Z) PendingFrameTile) (cs : list FrameTileChunk) : list FrameTile :=
  match cs with
  | [] => []
  | c :: cs => (if decide (chunk_key c = key) then option_list (push a c).2 else []) ++ outs_of key (push a c).1 cs
  end.

Lemma concat_one {K} `{EqDecision K} {A} (x : K) (l : list A) (f : K → list A) ks :
  NoDup ks → x ∈ ks → concat ((λ k, (if decide (x = k) then l else []) ++ f k) <$> ks) ≡ₚ l ++ concat (f <$> ks).
Proof.
  assert (∀ ks, x ∉ ks → concat ((λ k, (if decide (x = k) then l else []) ++ f k) <$> ks) = concat (f <$> ks)) as Hnot.
  { intros l0. induction l0 as [|k l0 IH]; [done|]. intros [Hne Hx]%not_elem_of_cons. csimpl. by rewrite decide_False, IH. }
  induction 1 as [|k ks Hk Hnd IH]; [by intros ?%elem_of_nil|]. intros Hx. csimpl. destruct (decide (x = k)) as [->|Hne].
  - rewrite Hnot by done. by rewrite <- app_assoc.
  - apply elem_of_cons in Hx as [->|Hx]; [done|]. rewrite IH by done. cbn [app]. by rewrite !app_assoc, (Permutation_app_comm l).
Qed.

Lemma outs_by_key ks a cs :
  NoDup ks → Forall (λ c, chunk_key c ∈ ks) cs →
  omap id (push_all a cs).2 ≡ₚ concat ((λ k, outs_of k a cs) <$> ks).
Proof.
  intros Hnd Hall. revert a. induction Hall as [|c cs Hc _ IH]; intros a.
  - cbn. clear. induction ks as [|k ks IH]; [done|]. csimpl. by rewrite <- IH.
  - cbn [outs_of]. rewrite concat_one by done. rewrite <- (IH (push a c).1). cbn [push_all].
    destruct (push a c) as [a' out]. cbn [fst snd]. destruct (push_all a' cs) as [a'' outs]. by destruct out.
Qed.

(** A chunk of another tile leaves a slot alone, or throws everything away. *)
Lemma push_other_any key a c : chunk_key c ≠ key → (push a c).1 !! key = a !! key ∨ (push a c).1 !! key = None.
Proof.
  intros Hk. unfold push. destruct (chunk_admissible c); cbn [negb]; [|by left].
  destruct (admit_slot a c) as [b s0] eqn:E.
  assert (b !! key = a !! key ∨ b !! key = None) as Hb.
  { apply admit_slot_spec in E as [[_ ->]|(Hn & _ & base & -> & _ & [[-> _]|[-> ?]])]; [by left|left|right].
    - by rewrite lookup_insert_ne.
    - by rewrite lookup_insert_ne, lookup_empty. }
  repeat case_match; cbn; rewrite ?lookup_delete_ne, ?lookup_insert_ne by done; done.
Qed.

Section one_tile.
Context (tile : FrameTile) (ch seq : Z) (limit : nat) (limit_pos : (0 < limit)%nat).
Context (T := tile_chunks tile ch seq limit) (key := (ch, seq)).

(** No chunk of the tile, or too many: nothing comes out for it. *)
Lemma outs_none a cs : (∀ c, c ∈ cs → chunk_key c = key → chunk_admissible c = false) → outs_of key a cs = [].
Proof.
  revert a. induction cs as [|c cs IH]; intros a H; [done|]. cbn [outs_of]. rewrite IH by (intros; apply H; [by right|done]).
  destruct (decide (chunk_key c = key)) as [Hc|]; [|done]. unfold push. by rewrite H by (done || left).
Qed.

Context (count_fits : Z.of_nat (length T) ≤ MAX_CHUNKS_PER_FRAME) (len_fits : Z.of_nat (length (tile_bytes tile)) ≤ MAX_FRAME_BYTES).

(** Each chunk arriving once at most, a tile comes out once at most, when all its chunks are
    in, and it does if nothing threw its slot away. *)
Lemma outs_of_tile a l cs :
  seen tile ch seq limit a l → NoDup cs → (∀ x, x ∈ l → x ∉ cs) → (∀ x, x ∈ cs → chunk_key x = key → x ∈ T) → ¬ T ⊆ l →
  (outs_of key a cs = [] ∨ outs_of key a cs = [tile] ∧ T ⊆ l ++ cs) ∧
  (undisturbed key a cs → T ⊆ l ++ cs → outs_of key a cs = [tile]).
Proof.
  assert (¬ T ⊆ []) as Hne.
  { intros Hsub. assert (length T ≠ 0%nat) as Hlen by (unfold T; rewrite tile_chunks_length by done; lia).
    destruct T as [|x T']; [done|]. by destruct (not_elem_of_nil x (Hsub x ltac:(left))). }
  revert a l. induction cs as [|c cs IH]; intros a l Hs Hnd Hdis Hown Hmiss.
  { cbn. rewrite app_nil_r. by split; [left|]. }
  apply NoDup_cons in Hnd as [Hc Hnd]. cbn [outs_of undisturbed].
  assert (∀ x, x ∈ cs → chunk_key x = key → x ∈ T) as Hown' by (intros; apply Hown; [by right|done]).
  destruct (decide (chunk_key c = key)) as [Hk|Hk].
  - assert (c ∈ T) as HcT by (apply Hown; [left|done]).
    assert (c ∉ l) as Hcl by (intros Hin; apply (Hdis c Hin); left).
    destruct (push_own_new tile ch seq limit limit_pos count_fits len_fits a l c HcT Hcl Hs) as (a' & E & Ha').
    rewrite E. cbn [fst snd]. fold T in E, Ha' |- *. destruct (decide (T ⊆ c :: l)) as [Hall|Hmore].
    + assert (outs_of key a' cs = []) as ->.
      { apply outs_none. intros x Hx Hxk. exfalso. apply (Hown' x Hx) in Hxk. apply Hall in Hxk.
        apply elem_of_cons in Hxk as [->|Hxl]; [done|]. apply (Hdis x Hxl). by right. }
      assert (T ⊆ l ++ c :: cs) as Hin by (intros x Hx%Hall; apply elem_of_app; rewrite !elem_of_cons in *; tauto).
      split; [by right|done].
    + assert (∀ x, x ∈ c :: l → x ∉ cs) as Hdis'.
      { intros x [->|Hx]%elem_of_cons; [done|]. intros ?. apply (Hdis x Hx). by right. }
      destruct (IH a' (c :: l) Ha' Hnd Hdis' Hown' Hmore) as [H1 H2].
      assert (∀ X, X ⊆ (c :: l) ++ cs ↔ X ⊆ l ++ c :: cs) as Heq.
      { intros X. split; intros H x Hx%H; rewrite !elem_of_app, !elem_of_cons in *; tauto. }
      rewrite Heq in H1, H2. split; [exact H1|]. intros [_ Hu]. by apply H2.
  - assert (T ⊆ l ++ c :: cs → T ⊆ l ++ cs) as Hskip.
    { intros H x Hx. pose proof (H x Hx) as Hin. rewrite elem_of_app, elem_of_cons in Hin. rewrite elem_of_app.
      destruct Hin as [?|[->|?]]; [by left| |by right]. exfalso. apply Hk.
      apply list_elem_of_lookup in Hx as [i Hi]. by apply tile_chunks_lookup in Hi as [? _]. }
    assert (∀ x, x ∈ l → x ∉ cs) as Hdis' by (intros x Hx ?; apply (Hdis x Hx); by right). split.
    + destruct (push_other_any key a c Hk) as [E|E].
      * destruct (IH (push a c).1 l) as [H _]; [unfold seen in *; change (ch, seq) with key in Hs |- *; by rewrite E|done..|].
        destruct H as [H|[H Hin]]; [by left|right; split; [exact H|]]. intros x Hx%Hin. rewrite elem_of_app, elem_of_cons in *. tauto.
      * destruct (IH (push a c).1 []) as [H _]; [exact E|done|by intros ? ?%not_elem_of_nil|done|exact Hne|].
        destruct H as [H|[H Hin]]; [by left|right; split; [exact H|]]. intros x Hx%Hin. apply elem_of_app. right. by right.
    + intros [Hq Hu] Hall. destruct (IH (push a c).1 l) as [_ H]; [|done..|by apply H, Hskip].
      unfold seen in *. change (ch, seq) with key in Hs |- *. by rewrite (push_other tile ch seq limit) by auto.
Qed.
End one_tile.

Lemma decoded_run ds cs more sent a : decodes_to ds cs →
  datagram_reader (λ _, true) sent a (ds ++ more)
  = datagram_reader (λ _, true) (sent ++ omap id (push_all a cs).2) (push_all a cs).1 more.
Proof.
  intros H. revert sent a. induction H as [|d c ds cs Hd _ IH]; intros sent a.
  - cbn. by rewrite app_nil_r.
  - cbn [app datagram_reader push_all]. rewrite Hd. destruct (push a c) as [a' out]. 
    destruct (push_all a' cs) as [a'' outs] eqn:E. specialize (IH (match out with Some t => sent ++ [t] | None => sent end) a').
    rewrite E in IH. destruct out; cbn in *; rewrite IH; [by rewrite <- app_assoc|done].
Qed.

Lemma decodes_perm ds cs ds' : decodes_to ds cs → ds' ≡ₚ ds → ∃ cs', decodes_to ds' cs' ∧ cs' ≡ₚ cs.
Proof.
  intros H Hp. symmetry in Hp. destruct (Permutation_Forall2 Hp H) as (cs' & Hcs & H'). exists cs'. by rewrite Hcs.
Qed.

(** The chunks among the datagrams. *)
Definition chunks_of (ds : list (list byte)) : list FrameTileChunk :=
  omap (λ d, match decode_datagram d with Ok (Datagram_FrameTileChunk c) => Some c | Err _ => None end) ds.

Lemma decodes_chunks ds cs : decodes_to ds cs → chunks_of ds = cs.
Proof. unfold chunks_of. induction 1 as [|d c ds cs Hd _ IH]; [done|]. cbn. by rewrite Hd, IH. Qed.

Lemma decodes_concat ts dss : Forall2 turn_ok ts dss → decodes_to (concat dss) (concat (chunks_sent <$> ts)).
Proof. induction 1 as [|t ds ts dss [_ H] _ IH]; [constructor|]. cbn. by apply Forall2_app. Qed.

Lemma turn_keys t c : (0 < turn_limit t)%nat → c ∈ turn_chunks t → chunk_key c = turn_key t.
Proof. intros Hl [i Hi]%list_elem_of_lookup. by apply tile_chunks_lookup in Hi as [? _]. Qed.

Lemma sent_chunk t c : c ∈ chunks_sent t → c ∈ turn_chunks t.
Proof. intros H. rewrite <- (take_drop (turn_sent t) (turn_chunks t)). apply elem_of_app. by left. Qed.

Lemma elem_of_turns c ts : c ∈ concat (chunks_sent <$> ts) ↔ ∃ t, t ∈ ts ∧ c ∈ chunks_sent t.
Proof.
  rewrite list_elem_of_In, in_concat. setoid_rewrite <- list_elem_of_In. setoid_rewrite list_elem_of_fmap. naive_solver.
Qed.

(** Different turns have different keys, so a chunk is of one turn only. *)
Lemma chunks_nodup ts dss : NoDup (turn_seq <$> ts) → Forall2 turn_ok ts dss → NoDup (concat (chunks_sent <$> ts)).
Proof.
  intros Hnd H. induction H as [|t ds ts dss [Hl _] Hts IH]; [constructor|]. cbn in *. apply NoDup_cons in Hnd as [Ht Hnd].
  apply NoDup_app. split_and!; [| |by apply IH].
  - eapply sublist_NoDup; [|apply sublist_take]. apply tile_chunks_nodup. lia.
  - intros c Hc%sent_chunk Hin. apply turn_keys in Hc; [|lia]. apply elem_of_turns in Hin as (t' & Ht' & Hin).
    apply Ht.
    apply list_elem_of_lookup in Ht' as [i Hi]. destruct (Forall2_lookup_l _ _ _ _ _ Hts Hi) as (ds' & _ & Hl' & _).
    apply sent_chunk, turn_keys in Hin; [|lia]. rewrite Hc in Hin. injection Hin as _ Heq.
    apply list_elem_of_fmap. exists t'. split; [done|]. by eapply list_elem_of_lookup_2.
Qed.

Lemma own_chunk ts dss t c :
  NoDup (turn_seq <$> ts) → Forall2 turn_ok ts dss → t ∈ ts →
  c ∈ concat (chunks_sent <$> ts) → chunk_key c = turn_key t → c ∈ chunks_sent t.
Proof.
  intros Hnd H Ht Hc Hk. apply elem_of_turns in Hc as (t' & Ht' & Hin).
  assert (t' = t) as ->; [|done]. apply list_elem_of_lookup in Ht as [i Hi], Ht' as [j Hj].
  destruct (Forall2_lookup_l _ _ _ _ _ H Hj) as (ds & _ & Hl & _).
  apply sent_chunk, turn_keys in Hin; [|lia]. rewrite Hin in Hk. injection Hk as _ Heq.
  assert (j = i) as ->; [|congruence]. eapply (NoDup_lookup (turn_seq <$> ts)); [done|by rewrite list_lookup_fmap, Hj|].
  rewrite list_lookup_fmap, Hi. cbn. by rewrite Heq.
Qed.

(** The tiles sent as datagrams that did not come out, with their turns. *)
Fixpoint lost_from (got : turn → list FrameTile) (i : nat) (ts : list turn) : list (nat * FrameTile) :=
  match ts with
  | [] => []
  | t :: ts => match told t, got t with Some tile, [] => [(i, tile)] | _, _ => [] end ++ lost_from got (S i) ts
  end.

Lemma lost_from_perm got i ts :
  Forall (λ t, got t = [] ∨ (∃ tile, got t = [tile] ∧ told t = Some tile)) ts →
  concat (got <$> ts) ++ (lost_from got i ts).*2 ≡ₚ omap told ts.
Proof.
  intros H. revert i. induction H as [|t ts Ht _ IH]; intros i; [done|]. csimpl. rewrite fmap_app.
  destruct Ht as [->|(tile & -> & ->)]; cbn [app fmap list_fmap]; [|by rewrite (IH (S i))].
  destruct (told t) as [tile|]; cbn; [|by apply IH]. by rewrite <- (IH (S i)), Permutation_middle.
Qed.

Lemma lost_from_in got i ts j tile :
  (j, tile) ∈ lost_from got i ts → ∃ t, ts !! (j - i)%nat = Some t ∧ (i ≤ j)%nat ∧ told t = Some tile ∧ got t = [].
Proof.
  revert i. induction ts as [|t ts IH]; intros i H; [by apply elem_of_nil in H|]. cbn [lost_from] in H.
  apply elem_of_app in H as [H|H].
  - destruct (told t) as [x|] eqn:Ht, (got t) eqn:Hg; try (by apply elem_of_nil in H).
    apply list_elem_of_singleton in H. injection H as -> ->. exists t. by rewrite Nat.sub_diag.
  - destruct (IH (S i) H) as (t' & Ht' & Hle & Htold & Hg). exists t'.
    replace (j - i)%nat with (S (j - S i)) by lia. split_and!; [done|lia|done..].
Qed.

Lemma lost_from_nodup got i ts : NoDup (lost_from got i ts).*1.
Proof.
  revert i. induction ts as [|t ts IH]; intros i; [constructor|]. cbn [lost_from]. rewrite fmap_app. apply NoDup_app. split_and!; [| |done].
  - destruct (told t), (got t); try apply NoDup_nil_2; apply NoDup_singleton.
  - intros j Hj [[j' tile] [-> (t' & _ & Hle & _)%lost_from_in]]%list_elem_of_fmap. cbn in Hj.
    destruct (told t), (got t); try (by apply elem_of_nil in Hj); apply list_elem_of_singleton in Hj; cbn in Hj; lia.
Qed.

(** Why a tile of a turn is lost: a datagram of it did not arrive, it has more datagrams than
    the assembler takes, or other tiles in progress filled the assembler's 32 slots. *)
Definition lost_because (dss : list (list (list byte))) (arr : list (list byte)) (i : nat) (tile : FrameTile) : Prop :=
  ∃ ds, dss !! i = Some ds ∧
    ((∃ d, d ∈ ds ∧ d ∉ arr) ∨ MAX_CHUNKS_PER_FRAME < Z.of_nat (length ds)
     ∨ ¬ undisturbed (tile_id tile, Z.of_nat i + 1) ∅ (chunks_of arr)).

(** The tile of a turn, in a run on chunks of all turns in any order. *)
Lemma turn_outs ts dss t ds cs missing :
  NoDup (turn_seq <$> ts) → Forall2 turn_ok ts dss → t ∈ ts → turn_ok t ds →
  cs ++ missing ≡ₚ concat (chunks_sent <$> ts) →
  (outs_of (turn_key t) ∅ cs = [] ∨ ∃ tile, outs_of (turn_key t) ∅ cs = [tile] ∧ told t = Some tile) ∧
  (told t = Some (turn_tile t) → (∀ c, c ∈ chunks_sent t → c ∈ cs) → Z.of_nat (length ds) ≤ MAX_CHUNKS_PER_FRAME →
   undisturbed (turn_key t) ∅ cs → outs_of (turn_key t) ∅ cs = [turn_tile t]).
Proof.
  intros Hnd Hts Ht [Hl Hds] Hcs. pose proof (chunks_nodup ts dss Hnd Hts) as Hall. rewrite <- Hcs in Hall.
  apply NoDup_app in Hall as (Hncs & _ & _).
  assert (∀ c, c ∈ cs → chunk_key c = turn_key t → c ∈ chunks_sent t) as Hown.
  { intros c Hc Hk. eapply own_chunk; [done..| |done]. rewrite <- Hcs. apply elem_of_app. by left. }
  pose proof (tile_chunks_length (turn_tile t) (tile_id (turn_tile t)) (turn_seq t) (turn_limit t) ltac:(lia)) as Hlen.
  destruct (decide (Z.of_nat (length (turn_chunks t)) ≤ MAX_CHUNKS_PER_FRAME)) as [Hfit|Hbig].
  - assert (Z.of_nat (length (tile_bytes (turn_tile t))) ≤ MAX_FRAME_BYTES) as Hb.
    { unfold turn_chunks in Hfit. rewrite Hlen in Hfit.
      pose proof (div_ceil_covers (length (tile_bytes (turn_tile t))) (turn_limit t) ltac:(lia)) as Hc.
      apply inj_le in Hc. rewrite Nat2Z.inj_mul in Hc. unfold MAX_CHUNKS_PER_FRAME, MAX_FRAME_BYTES in *. nia. }
    destruct (outs_of_tile (turn_tile t) (tile_id (turn_tile t)) (turn_seq t) (turn_limit t) ltac:(lia) Hfit Hb ∅ [] cs) as [H1 H2];
      [done|done|by intros ? ?%elem_of_nil|intros x Hx Hk; by apply sent_chunk, Hown| |].
    { intros Hsub. fold (turn_chunks t) in Hsub.
      destruct (turn_chunks t) as [|x T] eqn:E; [unfold turn_chunks in E; rewrite E in Hlen; cbn in Hlen; lia|].
      by destruct (not_elem_of_nil x (Hsub x ltac:(left))). }
    fold (turn_chunks t) (turn_key t) in H1, H2. cbn [app] in H1, H2. split.
    + destruct H1 as [H1|[H1 Hin]]; [by left|right]. exists (turn_tile t). split; [done|]. unfold told.
      destruct (decide _) as [|Hlt]; [done|exfalso]. apply Hlt.
      assert (turn_chunks t ⊆ chunks_sent t) as Hsub.
      { intros x Hx. apply Hown; [by apply Hin|]. apply turn_keys; [lia|done]. }
      apply NoDup_submseteq in Hsub; [|apply tile_chunks_nodup; lia]. apply submseteq_length in Hsub.
      unfold chunks_sent in Hsub. rewrite length_take in Hsub. lia.
    + intros Htold Hin _ Hu. apply H2; [done|]. unfold told in Htold. destruct (decide _) as [Hle|]; [|done].
      intros x Hx. apply Hin. unfold chunks_sent. by rewrite take_ge.
  - assert (outs_of (turn_key t) ∅ cs = []) as Hnone.
    { apply outs_none. intros c Hc Hk. apply Hown, sent_chunk, list_elem_of_lookup in Hk as [i Hi]; [|done].
      apply tile_chunks_lookup in Hi as (_ & _ & Hn & _); [|lia]. fold (turn_chunks t) in Hn.
      destruct (chunk_admissible c) eqn:Ha; [|done]. apply chunk_admissible_spec in Ha as (_ & Ha & _). lia. }
    split; [by left|]. intros Htold Hin Hn. exfalso. apply Hbig. unfold told in Htold. destruct (decide _) as [Hle|]; [|done].
    apply Forall2_length in Hds. rewrite Hds in Hn. unfold chunks_sent in Hn. by rewrite take_ge in Hn.
Qed.

Lemma turn_lost ts dss arr missing cs1 cs2 t j tile :
  turn_seq <$> ts = seqZ 1 (Z.of_nat (length ts)) → Forall2 turn_ok ts dss →
  decodes_to arr cs1 → decodes_to missing cs2 → cs1 ++ cs2 ≡ₚ concat (chunks_sent <$> ts) →
  ts !! j = Some t → told t = Some tile → outs_of (turn_key t) ∅ cs1 = [] → lost_because dss arr j tile.
Proof.
  intros Hseq Hts H1 H2 Hperm Hj Htold Hgot. assert (NoDup (turn_seq <$> ts)) as Hnd by (rewrite Hseq; apply NoDup_seqZ).
  destruct (Forall2_lookup_l _ _ _ _ _ Hts Hj) as (ds & Hds & Hok). exists ds. split; [done|].
  assert (tile = turn_tile t) as -> by (unfold told in Htold; destruct (decide _); congruence).
  destruct (decide (Forall (λ d, d ∈ arr) ds)) as [Hin|Hout].
  2:{ left. apply not_Forall_Exists, Exists_exists in Hout; [|apply _]. naive_solver. }
  destruct (decide (Z.of_nat (length ds) ≤ MAX_CHUNKS_PER_FRAME)) as [Hfit|]; [|right; left; lia].
  right. right. rewrite (decodes_chunks _ _ H1). intros Hu.
  assert (turn_seq t = Z.of_nat j + 1) as Hs.
  { pose proof (f_equal (lookup j) Hseq) as Hl. rewrite list_lookup_fmap, Hj in Hl. symmetry in Hl.
    apply lookup_seqZ in Hl as [-> _]. lia. }
  rewrite <- Hs in Hu. apply list_elem_of_lookup_2 in Hj as Ht.
  destruct (turn_outs ts dss t ds cs1 cs2 Hnd Hts Ht Hok Hperm) as [_ Hgo]. rewrite Hgo in Hgot; [done|done| |done|done].
  intros c Hc. apply list_elem_of_lookup in Hc as [i Hi]. destruct (Forall2_lookup_r _ _ _ _ _ (proj2 Hok) Hi) as (d & Hd & Hdec).
  rewrite Forall_forall in Hin. apply list_elem_of_lookup_2, Hin, list_elem_of_lookup in Hd as [k Hk].
  destruct (Forall2_lookup_l _ _ _ _ _ H1 Hk) as (c' & Hc' & Hdec'). rewrite Hdec in Hdec'. injection Hdec' as <-.
  by eapply list_elem_of_lookup_2.
Qed.

(** Datagrams of different turns in any order, any of them missing: the tiles the reader puts
    together and the lost ones are the tiles the writer takes for sent. *)
Lemma turns_arrive ts dss arr missing :
  turn_seq <$> ts = seqZ 1 (Z.of_nat (length ts)) → Forall2 turn_ok ts dss → arr ++ missing ≡ₚ concat dss →
  ∃ lost, datagram_reader (λ _, true) [] ∅ arr ++ lost.*2 ≡ₚ omap told ts ∧ NoDup lost.*1 ∧
    Forall (λ p, lost_because dss arr p.1 p.2) lost.
Proof.
  intros Hseq Hts Harr. assert (NoDup (turn_seq <$> ts)) as Hnd by (rewrite Hseq; apply NoDup_seqZ).
  destruct (decodes_perm _ _ _ (decodes_concat _ _ Hts) Harr) as (cs & Hcs & Hperm).
  apply Forall2_app_inv_l in Hcs as (cs1 & cs2 & H1 & H2 & ->).
  exists (lost_from (λ t, outs_of (turn_key t) ∅ cs1) 0 ts). split_and!; [|apply lost_from_nodup|].
  - rewrite <- (app_nil_r arr), (decoded_run arr cs1) by done. cbn [datagram_reader app].
    rewrite (outs_by_key (turn_key <$> ts)).
    + rewrite <- list_fmap_compose. apply lost_from_perm, Forall_forall. intros t Ht.
      apply list_elem_of_lookup in Ht as Hi. destruct Hi as [i Hi]. destruct (Forall2_lookup_l _ _ _ _ _ Hts Hi) as (ds & _ & Hok).
      by eapply turn_outs.
    + apply (NoDup_fmap_1 snd). by rewrite <- list_fmap_compose.
    + apply Forall_forall. intros c Hc. assert (c ∈ concat (chunks_sent <$> ts)) as Hin by (rewrite <- Hperm; apply elem_of_app; by left).
      apply elem_of_turns in Hin as (t & Ht & Hin).
      apply list_elem_of_lookup in Ht as Hi. destruct Hi as [i Hi]. destruct (Forall2_lookup_l _ _ _ _ _ Hts Hi) as (ds & _ & Hl & _).
      rewrite (turn_keys t c); [by apply list_elem_of_fmap_2|lia|by apply sent_chunk].
  - apply Forall_forall. intros [j tile] (t & Hj & _ & Htold & Hgot)%lost_from_in. cbn [fst snd]. rewrite Nat.sub_0_r in Hj.
    eapply turn_lost; done.
Qed.

(** ** Lemmas: the writer *)

(** What a reader of each stream and of the datagrams gets, of the messages [h] written so
    far: [mm] on the first stream, [sm] on the streams of windows, [gs] the turns with a tile. *)
Record core (c : connection) (h mm : list Message) (sm : list (list Message)) (gs : list turn) : Prop := {
  core_main : read_all (main_out c) = mm;
  core_streams : Forall2 (λ s ms, stream_received s.2 = ms ∧ Forall (λ m, window_of m = Some s.1) ms ∧ ms `sublist_of` h) (window_streams c) sm;
  core_seqs : turn_seq <$> gs = seqZ 1 (Z.of_nat (length gs));
  core_groups : Forall2 turn_ok gs (datagrams_out c);
  core_all : mm ++ concat sm ++ (Message_FrameTile <$> omap told gs) ≡ₚ h;
  core_main_order : mm `sublist_of` h
}.

(** While the session is connected. *)
Record sending (c : connection) (h mm : list Message) (sm : list (list Message)) (gs : list turn) : Prop := {
  sending_core : core c h mm sm gs;
  sending_main : frames_of mm (main_out c);
  sending_open : ∀ ch i, open_streams c !! ch = Some i → ∃ b ms, window_streams c !! i = Some (ch, b) ∧ intact ch ms b;
  sending_seq : tile_seq c = Z.of_nat (length (datagrams_out c))
}.

Lemma streams_later ss sm (h : list Message) m :
  Forall2 (λ s ms, stream_received s.2 = ms ∧ Forall (λ m, window_of m = Some s.1) ms ∧ ms `sublist_of` h) ss sm →
  Forall2 (λ s ms, stream_received s.2 = ms ∧ Forall (λ m, window_of m = Some s.1) ms ∧ ms `sublist_of` h ++ [m]) ss sm.
Proof.
  intros H. eapply Forall2_impl; [exact H|]. intros s ms (? & ? & ?). split_and!; [done..|by apply sublist_inserts_r].
Qed.

Lemma send_main_spec n m c h mm sm gs : sending c h mm sm gs →
  let '(c', ok) := send_main n m c in if ok then sending c' (h ++ [m]) (mm ++ [m]) sm gs else core c' h mm sm gs.
Proof.
  intros [[] Hmain Hopen Hseq]. unfold send_main. destruct (stream_write (main_taken n) m) as [bs []] eqn:E.
  - apply written in E. assert (frames_of (mm ++ [m]) (main_out c ++ bs)) as Hf
      by (apply frames_of_app; [done|by apply frames_of_one]).
    split; [|done..]. split; cbn; try done.
    + rewrite <- (app_nil_r (_ ++ bs)). apply read_all_frames; [done|apply unread_nil].
    + by apply streams_later.
    + rewrite <- core_all0. solve_Permutation.
    + by apply sublist_app.
  - split; cbn; try done. apply read_all_frames; [done|].
    pose proof (unread_write (main_taken n) m) as Hu. rewrite E in Hu. by apply Hu.
Qed.

Lemma core_with_streams f c h mm sm gs : core c h mm sm gs → core (with_streams f c) h mm sm gs.
Proof. intros []. by split. Qed.

Lemma concat_insert {A} (ls : list (list A)) i l x : ls !! i = Some l → concat (<[i := l ++ [x]]> ls) ≡ₚ concat ls ++ [x].
Proof.
  intros H. rewrite <- (take_drop_middle ls i l H) at 2. pose proof (lookup_lt_Some _ _ _ H).
  rewrite insert_take_drop by done. rewrite !concat_app. cbn [concat]. solve_Permutation.
Qed.

Lemma channel_stream_spec n ch c h mm sm gs : sending c h mm sm gs →
  let '(c', oi) := channel_stream n ch c in
  ∃ sm', sending c' h mm sm' gs ∧ ∀ i, oi = Some i → open_streams c' !! ch = Some i.
Proof.
  intros Hs. pose proof Hs as [[] Hmain Hopen Hseq]. unfold channel_stream.
  destruct (open_streams c !! ch) as [i|] eqn:Hi.
  { exists sm. split; [done|]. by intros ? [= <-]. }
  destruct (open_uni_ok n); cbn [negb]; [|by exists sm].
  destruct (write_opening (opening_taken n) ch) as [bs ok] eqn:E. apply opening_spec in E.
  assert (stream_received bs = []) as Hr.
  { destruct ok; [|done]. rewrite <- (app_nil_r bs). by eapply intact_received, unread_nil. }
  set (c1 := mkConnection _ _ _ _ _).
  assert (core c1 h mm (sm ++ [[]]) gs) as Hcore.
  { split; cbn; try done.
    - apply Forall2_app; [done|]. constructor; [|done]. split_and!; [done..|apply sublist_nil_l].
    - by rewrite concat_app, app_nil_r. }
  assert (∀ ch i, open_streams c !! ch = Some i → ∃ b ms, window_streams c1 !! i = Some (ch, b) ∧ intact ch ms b) as Hold.
  { intros ch' i (b & ms & Hb & Hint)%Hopen. exists b, ms. split; [|done]. cbn. by apply lookup_app_l_Some. }
  destruct ok; exists (sm ++ [[]]); (split; [split; try done; try (by apply core_with_streams)|]).
  - cbn. intros ch' i [[<- <-]|[_ ?]]%lookup_insert_Some; [|by apply Hold].
    exists bs, []. split; [|done]. by rewrite lookup_app_r, Nat.sub_diag by done.
  - intros i [= <-]. cbn. by rewrite lookup_insert_eq.
  - done.
Qed.

Lemma send_channel_spec n ch m c h mm sm gs : window_of m = Some ch → sending c h mm sm gs →
  let '(c', ok) := send_channel_frame n ch m c in ∃ sm', sending c' (if ok then h ++ [m] else h) mm sm' gs.
Proof.
  intros Hw Hs. unfold send_channel_frame. apply (channel_stream_spec n ch) in Hs.
  destruct (channel_stream n ch c) as [c1 [i|]]; destruct Hs as (sm1 & Hs & Hi); [|by exists sm1].
  specialize (Hi i eq_refl). destruct Hs as [[] Hmain Hopen Hseq]. destruct (Hopen _ _ Hi) as (b & ms & Hb & Hint).
  destruct (Forall2_lookup_l _ _ _ _ _ core_streams0 Hb) as (ms' & Hms & Hr & Hwin & Hsub).
  assert (ms' = ms) as ->.
  { rewrite <- Hr, <- (app_nil_r (snd _)). cbn. by eapply intact_received, unread_nil. }
  assert (∀ t ch' i', ch' ≠ ch → open_streams c1 !! ch' = Some i' →
    ∃ b ms, <[i := (ch, t)]> (window_streams c1) !! i' = Some (ch', b) ∧ intact ch' ms b) as Hold.
  { intros t ch' i' Hne (b' & ms' & Hb' & Hint')%Hopen. exists b', ms'. split; [|done].
    rewrite list_lookup_insert_ne; [done|]. intros ->. rewrite Hb in Hb'. congruence. }
  assert (∀ h' t ms', stream_received t = ms' → Forall (λ m, window_of m = Some ch) ms' → ms' `sublist_of` h' →
    Forall2 (λ s ms, stream_received s.2 = ms ∧ Forall (λ m, window_of m = Some s.1) ms ∧ ms `sublist_of` h') (window_streams c1) sm1 →
    Forall2 (λ s ms, stream_received s.2 = ms ∧ Forall (λ m, window_of m = Some s.1) ms ∧ ms `sublist_of` h')
      (<[i := (ch, t)]> (window_streams c1)) (<[i := ms']> sm1)) as Hins.
  { intros h' t ms' ? ? ? ?. by apply Forall2_insert. }
  pose proof (lookup_lt_Some _ _ _ Hb) as Hlt.
  destruct (stream_write (frame_taken n) m) as [bs ok] eqn:E. unfold append_stream. rewrite Hb. destruct ok.
  - pose proof (intact_write _ _ _ _ _ _ Hint E) as Hint'. exists (<[i := ms ++ [m]]> sm1). split; try done.
    + split; cbn; try done.
      * apply Hins; [|apply Forall_app; split; [done|by constructor]|by apply sublist_app|by apply streams_later].
        rewrite <- (app_nil_r (b ++ bs)). by eapply intact_received, unread_nil.
      * rewrite concat_insert by done. rewrite <- core_all0. solve_Permutation.
      * by apply sublist_inserts_r.
    + cbn. intros ch' i' Hi'. destruct (decide (ch' = ch)) as [->|Hne]; [|by apply Hold].
      rewrite Hi in Hi'. injection Hi' as <-. exists (b ++ bs), (ms ++ [m]). by rewrite list_lookup_insert_eq.
  - exists (<[i := ms]> sm1). rewrite (list_insert_id sm1) by done. split; try done.
    + split; cbn; try done. rewrite <- (list_insert_id sm1 i ms) by done. apply Hins; try done.
      eapply intact_received; [done|]. pose proof (unread_write (frame_taken n) m) as Hu. rewrite E in Hu. by apply Hu.
    + cbn. intros ch' i' [Hne Hi']%lookup_delete_Some. by apply Hold.
Qed.

Lemma send_or_fall_back_spec n ch m c h mm sm gs : window_of m = Some ch → sending c h mm sm gs →
  let '(c', ok) := send_or_fall_back n ch m c in
  ∃ mm' sm', if ok then sending c' (h ++ [m]) mm' sm' gs else core c' h mm' sm' gs.
Proof.
  intros Hw Hs. unfold send_or_fall_back. pose proof (send_channel_spec n ch m c h mm sm gs Hw Hs) as H.
  destruct (send_channel_frame n ch m c) as [c1 []]; destruct H as [sm1 H]; [by exists mm, sm1|].
  apply (send_main_spec n m) in H. destruct (send_main n m c1) as [c2 []]; [by exists (mm ++ [m]), sm1|by exists mm, sm1].
Qed.

Lemma tile_group n tile seq ds ok : send_frame_tile_datagrams n tile seq = (ds, ok) →
  ∃ t, turn_ok t ds ∧ turn_seq t = seq ∧ told t = if ok then Some tile else None.
Proof.
  assert (∃ t, turn_ok t [] ∧ turn_seq t = seq ∧ told t = None) as Hnone.
  { exists (mkTurn tile seq 1 0). split_and!; [|done|].
    - split; [cbn; lia|]. constructor.
    - unfold told. rewrite decide_False; [done|]. unfold turn_chunks. cbn. rewrite tile_chunks_length; lia. }
  unfold send_frame_tile_datagrams. destruct (max_datagram_size n) as [max|]; [|by intros [= <- <-]].
  destruct (frame_tile_datagrams _ _ _ _) as [all|] eqn:E; [|by intros [= <- <-]].
  pose proof E as [Hmax _]%frame_tile_datagrams_chunks. apply datagrams_decode in E.
  destruct (payload_limit_bounds max Hmax) as [Hlim _]. intros [<- <-]%pair_equal_spec.
  exists (mkTurn tile seq (payload_limit max) (datagrams_taken n)). split_and!; [|done|].
  - split; [cbn; lia|]. by apply Forall2_take.
  - unfold told, turn_chunks. cbn. rewrite <- (Forall2_length _ _ _ E).
    destruct (Nat.leb_spec (length all) (datagrams_taken n)); [by rewrite decide_True|rewrite decide_False; [done|lia]].
Qed.

Lemma sending_tile c h mm sm gs ds t : sending c h mm sm gs → turn_ok t ds → turn_seq t = tile_seq c + 1 →
  sending (mkConnection (main_out c) (window_streams c) (open_streams c) (tile_seq c + 1) (datagrams_out c ++ [ds]))
    (h ++ (Message_FrameTile <$> option_list (told t))) mm sm (gs ++ [t]).
Proof.
  intros [[] Hmain Hopen Hseq] Hg Ht. pose proof (Forall2_length _ _ _ core_groups0) as Hlen.
  assert (omap told (gs ++ [t]) = omap told gs ++ option_list (told t)) as Ho.
  { rewrite omap_app. cbn. by destruct (told t). }
  split; cbn; try done; [|rewrite length_app; cbn; lia].
  split; cbn; try done.
  - destruct (told t); cbn; [by apply streams_later|by rewrite app_nil_r].
  - rewrite fmap_app, core_seqs0, length_app, Nat2Z.inj_add, seqZ_app by lia. cbn. rewrite Ht. f_equal.
    change (Z.of_nat 1) with 1. rewrite seqZ_cons by done. cbn. f_equal. lia.
  - apply Forall2_app; [done|]. constructor; [done|constructor].
  - rewrite Ho, fmap_app, <- core_all0. solve_Permutation.
  - by apply sublist_inserts_r.
Qed.

Lemma sending_count c h mm sm gs : sending c h mm sm gs → tile_seq c = Z.of_nat (length gs).
Proof. intros [[] _ _ ->]. by rewrite <- (Forall2_length _ _ _ core_groups0). Qed.

Lemma send_message_spec n m c h mm sm gs : sending c h mm sm gs → tile_seq c < u64_max →
  let '(c', ok) := send_message n m c in
  ∃ mm' sm' gs', if ok then sending c' (h ++ [m]) mm' sm' gs' ∧ tile_seq c' ≤ tile_seq c + 1 else core c' h mm' sm' gs'.
Proof.
  intros Hs Hlt.
  destruct m as [| | | | | | | | |event|tile| | | | |]; cbn [send_message];
    try (match goal with |- context [send_main n ?m c] => pose proof (send_main_spec n m c h mm sm gs Hs) as H end;
         destruct (send_main _ _ _) as [c' []] eqn:E; eexists _, sm, gs; [|exact H];
         split; [exact H|]; unfold send_main in E; destruct (stream_write _ _) in E; injection E as <- _; cbn; lia).
  - pose proof (send_or_fall_back_spec n _ (Message_WindowEvent event) c h mm sm gs eq_refl Hs) as H.
    destruct (send_or_fall_back _ _ _ _) as [c' []]; destruct H as (mm' & sm' & H); [|by exists mm', sm', gs].
    exists mm', sm', gs. split.
    + destruct event; try done. destruct H as [Hc Hm Ho Hq]. split; try done; [by apply core_with_streams|].
      cbn. intros ch i [_ Hi]%lookup_delete_Some. by apply Ho.
    + apply sending_count in Hs, H. destruct event; cbn; lia.
  - unfold wrapping_succ_u64. rewrite Z.mod_small by (unfold u64_max in Hlt; apply sending_count in Hs; lia).
    destruct (send_frame_tile_datagrams n tile (tile_seq c + 1)) as [ds ok] eqn:E.
    destruct (tile_group _ _ _ _ _ E) as (t & Hg & Hseq & Ht). pose proof (sending_tile c h mm sm gs _ _ Hs Hg Hseq) as H.
    rewrite Ht in H. destruct ok; [exists mm, sm, (gs ++ [t]); split; [done|cbn; lia]|].
    rewrite app_nil_r in H. apply (send_or_fall_back_spec n (tile_id tile) (Message_FrameTile tile)) in H as H2; [|done].
    destruct (send_or_fall_back _ _ _ _) as [c' []]; destruct H2 as (mm' & sm' & H2); [|by eexists mm', sm', _].
    exists mm', sm', (gs ++ [t]). split; [done|]. apply sending_count in H, H2. cbn in H. lia.
Qed.

Lemma send_all_spec msgs c h mm sm gs : sending c h mm sm gs →
  tile_seq c + Z.of_nat (length msgs) ≤ u64_max →
  let '(c', ok) := send_all msgs c in
  ∃ handled mm' sm' gs', handled `prefix_of` msgs.*2 ∧ (ok = true → handled = msgs.*2) ∧ core c' (h ++ handled) mm' sm' gs'.
Proof.
  revert c h mm sm gs. induction msgs as [|[n m] msgs IH]; intros c h mm sm gs Hs Hn.
  - exists [], mm, sm, gs. rewrite app_nil_r. split_and!; [done..|]. by destruct Hs.
  - cbn [length] in Hn. rewrite Nat2Z.inj_succ in Hn.
    cbn [send_all]. pose proof (send_message_spec n m c h mm sm gs Hs ltac:(lia)) as H.
    destruct (send_message n m c) as [c1 []]; destruct H as (mm1 & sm1 & gs1 & H).
    + destruct H as [H Hle]. specialize (IH c1 _ _ _ _ H ltac:(lia)).
      destruct (send_all msgs c1) as [c2 ok]. destruct IH as (handled & mm2 & sm2 & gs2 & Hp & Hok & Hc).
      exists (m :: handled), mm2, sm2, gs2. rewrite fmap_cons. split_and!; [by apply prefix_cons|..].
      * intros ?. by rewrite Hok.
      * by rewrite <- app_assoc in Hc.
    + exists [], mm1, sm1, gs1. rewrite app_nil_r. split_and!; [apply prefix_nil|done..].
Qed.

Definition idle_connection : connection := mkConnection [] [] ∅ 0 [].

Lemma idle_sending : sending idle_connection [] [] [] [].
Proof.
  split; [split| | |]; try done; try apply frames_of_nil.
Qed.

(** ** Theorems *)

(** C7: a view over QUIC loses nothing but tiles, and those for three reasons. Whatever the
    network takes of each write (a part of a tile's datagrams, of the opening of a window's
    stream, of a frame) and whichever of the datagrams arrive, in whatever order and however
    those of different tiles interleave, as long as the session stays connected every one
    of the compositor's fewer than 2^64 messages is handed to the viewer exactly once or is one of the lost
    tiles: by the reader of the first stream, by the reader of a stream of its own window, or
    as a tile put together from datagrams. The streams are read to the end of what was
    written, and every reader before its queue closes. A lost tile is one whose datagrams
    were all sent, and it is lost because one of them did not arrive, or because there are
    more of them than the 16384 the client puts together, or because more than 32 tiles were
    in progress at some time, when the client throws the unfinished ones away. The readers of
    streams hand on what they get in the order of sending, and a session that breaks has
    handled an initial part of the messages. *)
Theorem quic_view_delivers msgs c ok arr missing :
  send_all msgs idle_connection = (c, ok) → Z.of_nat (length msgs) ≤ u64_max →
  arr ++ missing ≡ₚ concat (datagrams_out c) →
  let from_main := read_all (main_out c) in
  let from_windows := (λ s, (s.1, stream_received s.2)) <$> window_streams c in
  let from_datagrams := Message_FrameTile <$> datagram_reader (λ _, true) [] ∅ arr in
  ∃ handled lost,
    handled `prefix_of` msgs.*2 ∧ (ok = true → handled = msgs.*2)
    ∧ from_main ++ concat from_windows.*2 ++ from_datagrams ++ (Message_FrameTile <$> lost.*2) ≡ₚ handled
    ∧ NoDup lost.*1 ∧ Forall (λ p, lost_because (datagrams_out c) arr p.1 p.2) lost
    ∧ from_main `sublist_of` handled
    ∧ Forall (λ s, Forall (λ m, window_of m = Some s.1) s.2 ∧ s.2 `sublist_of` handled) from_windows.
Proof.
  intros Hrun Hn Harr. pose proof (send_all_spec msgs _ _ _ _ _ idle_sending Hn) as H. rewrite Hrun in H.
  destruct H as (handled & mm & sm & gs & Hp & Hok & []). cbn [app] in *.
  destruct (turns_arrive gs _ arr missing core_seqs0 core_groups0 Harr) as (lost & Hgot & Hnd & Hwhy).
  exists handled, lost.
  assert (((λ s, (s.1, stream_received s.2)) <$> window_streams c).*2 = sm) as Hsm.
  { clear -core_streams0. induction core_streams0 as [|s ms ss sm (Hs & _) _ IH]; [done|]. cbn. by rewrite Hs, IH. }
  split_and!; try done.
  - rewrite core_main0, Hsm, <- fmap_app, Hgot. done.
  - by rewrite core_main0.
  - apply Forall_fmap. clear -core_streams0. induction core_streams0 as [|s ms ss sm (Hs & Hw & Ho) _ IH]; constructor; [|done].
    cbn. by rewrite Hs.
Qed.

(** What the viewer sends over QUIC reaches the view of the server. Of the messages the
    viewer sends until it closes, followed by the goodbye, the server's reader hands the view
    an initial part in order, whatever the connection takes and however much of that arrives,
    and all of them when no write failed and everything taken arrives. *)
Theorem quic_input_arrives msgs c r c' :
  outbound_writer msgs c = (r, c') →
  let all := msgs ++ [goodbye (lit "viewer closed")] in
  ∃ bs, outgoing c' = outgoing c ++ bs
    ∧ (∀ d, d `prefix_of` bs → read_all d `prefix_of` all) ∧ (r = Ok tt → read_all bs = all).
Proof.
  intros Hrun. assert (sends (msgs ++ [goodbye (lit "viewer closed")]) [] (outbound_writer msgs)) as Hs.
  { apply sends_bind; [apply sends_messages|]. intros _. apply sends_message. }
  destruct (Hs c r c' Hrun) as (bs & Hout & (sent & b & Hp & Hf & Hb) & Hall). rewrite app_nil_r in Hp.
  exists bs. split_and!; [done|..].
  - intros d Hd. etrans; [|exact Hp]. apply (read_all_prefix _ b); [done|]. by etrans.
  - intros ->. destruct (Hall tt eq_refl) as (more & ->%prefix_nil_inv & Hf'). rewrite app_nil_r in Hf'.
    rewrite <- (app_nil_r bs). by apply read_all_frames, unread_nil.
Qed.
End data_plane.

(** ** Witnesses *)

(** A codec for a few messages of a view. *)
Module ToyView.
Definition code (m : Message) : option (Z * list Z) :=
  match m with
  | Message_DataPlaneChannel (mkDataPlaneChannel id WindowReliable) => Some (0, [id])
  | Message_WindowEvent (WE_Minimized id) => Some (1, [id])
  | Message_WindowEvent (WE_MoveRequested id) => Some (2, [id])
  | Message_WindowEvent (WE_Destroyed id) => Some (3, [id])
  | Message_Pong p => Some (4, [pong_seq p; pong_stamp_ns p])
  | Message_Goodbye g => Some (6, goodbye_reason g)
  | Message_FrameTile (mkFrameTile id x y w h s RawRgba []) => Some (5, [id; x; y; w; h; s])
  | _ => None
  end.

Definition decode (c : Z * list Z) : option Message :=
  match c with
  | (0, [id]) => Some (Message_DataPlaneChannel (mkDataPlaneChannel id WindowReliable))
  | (1, [id]) => Some (Message_WindowEvent (WE_Minimized id))
  | (2, [id]) => Some (Message_WindowEvent (WE_MoveRequested id))
  | (3, [id]) => Some (Message_WindowEvent (WE_Destroyed id))
  | (4, [a; b]) => Some (Message_Pong (mkPong a b))
  | (6, reason) => Some (Message_Goodbye (mkGoodbye reason))
  | (5, [id; x; y; w; h; s]) => Some (Message_FrameTile (mkFrameTile id x y w h s RawRgba []))
  | _ => None
  end.

Lemma decode_view_code m c : code m = Some c → decode c = Some m.
Proof.
  destruct m as [| |[]| |[]| | |[? []]| |[]|[? ? ? ? ? ? [] []]| | | | |]; try done; by intros [= <-].
Qed.

#[export] Instance codec : Codec Message := {|
  to_allocvec m := c ← code m; to_allocvec (Codec := Bits.codec) c;
  from_bytes bs := c ← from_bytes (Codec := Bits.codec) bs; decode c
|}.

#[export] Instance laws : CodecLaws Message.
Proof.
  intros m bs (c & Hc & Hbs)%bind_Some. apply bind_Some. exists c. split; [by apply (Bits.laws c)|by apply decode_view_code].
Qed.
End ToyView.

#[local] Existing Instances ToyView.codec ToyView.laws ToyDatagram.codec ToyDatagram.laws.

Definition good : link := mkLink (Some 512) 9 true 999 999 999.

(** A stream breaks in a frame, another in its opening; the others go well. *)
Definition demo_view : list (link * Message) :=
  [(good, Message_WindowEvent (WE_Minimized 1));
   (good, Message_FrameTile (sample_tile 600));
   (mkLink (Some 512) 9 true 999 7 999, Message_WindowEvent (WE_MoveRequested 1));
   (mkLink None 0 true 5 999 999, Message_FrameTile (sample_tile 0));
   (good, Message_FrameTile (sample_tile 9));
   (mkLink (Some 512) 2 true 999 999 999, Message_Pong (mkPong 4 2));
   (good, Message_WindowEvent (WE_Destroyed 1))].

Definition demo_sent : connection := (send_all demo_view idle_connection).1.
(** The three datagrams of the first tile and the one of the second, in another order; one of
    the first tile is lost, and so is that tile. *)
Definition demo_arrivals : list (list byte) :=
  match concat (datagrams_out demo_sent) with [a; b; c; d] => [c; d; a] | _ => [] end.
Definition demo_missing : list (list byte) :=
  match concat (datagrams_out demo_sent) with [a; b; c; d] => [b] | _ => [] end.

Lemma quic_view_delivers_witness :
  let '(c, ok) := send_all demo_view idle_connection in
  ok = true ∧ length <$> datagrams_out c = [3; 0; 1]%nat ∧ length (window_streams c) = 3%nat
  ∧ datagram_reader (λ _, true) [] ∅ demo_arrivals = [sample_tile 9]
  ∧ ∃ lost, read_all (main_out c) ++ concat ((λ s, stream_received s.2) <$> window_streams c)
    ++ [Message_FrameTile (sample_tile 9)] ++ (Message_FrameTile <$> lost) ≡ₚ demo_view.*2.
Proof.
  destruct (send_all demo_view idle_connection) as [c ok] eqn:E.
  assert (ok = true) as -> by (change ok with (c, ok).2; rewrite <- E; vm_compute; reflexivity).
  assert (c = demo_sent) as -> by (unfold demo_sent; by rewrite E).
  assert (datagram_reader (λ _, true) [] ∅ demo_arrivals = [sample_tile 9]) as Hgot by (vm_compute; reflexivity).
  split_and!; [reflexivity|vm_compute; reflexivity|vm_compute; reflexivity|exact Hgot|].
  destruct (quic_view_delivers demo_view demo_sent true demo_arrivals demo_missing E) as (handled & lost & _ & Hok & Hall & _).
  - vm_compute. discriminate.
  - apply (Permutation_trans (l' := concat (datagrams_out demo_sent))); [|apply Permutation_refl].
    assert (∃ a b c d, concat (datagrams_out demo_sent) = [a; b; c; d]) as (a & b & c & d & Hc)
      by (do 4 eexists; vm_compute; reflexivity).
    unfold demo_arrivals, demo_missing. rewrite Hc. cbn [app]. solve_Permutation.
  - exists lost.*2. rewrite (Hok eq_refl), Hgot, <- list_fmap_compose in Hall. exact Hall.
Defined.

Lemma quic_input_arrives_witness :
  let msgs := [Message_Pong (mkPong 1 2); Message_WindowEvent (WE_Minimized 3)] in
  read_all (outgoing (outbound_writer msgs (mkConn true [] [] [] 3 0)).2) = msgs ++ [goodbye (lit "viewer closed")].
Proof.
  intros msgs. destruct (outbound_writer msgs (mkConn true [] [] [] 3 0)) as [r c] eqn:E.
  destruct (quic_input_arrives msgs _ r c E) as (bs & Hout & _ & Hall).
  cbn [snd]. rewrite Hout. apply Hall.
  change r with (r, c).1. rewrite <- E. vm_compute. reflexivity.
Defined.
