(* ===== verification/Launch.v ===== *)
(** * Launchers (crates/client/src: launch.rs, app_icon.rs, main.rs; crates/vbox-cli/src/runtime.rs)

    Both ends of an installed application: the vbox tool writes a launcher's resources and
    prints what a prepared instance is, the client, started by the launcher, reads both and
    runs the tool again. A bundle's resources are a map of file contents; JSON is a parameter;
    the tool's answers and the viewer's outcome are inputs. *)

From S2P Require Import Prelude Text Shell Wire Runtime Stack ClientNet.

(** ** The client's command line (main.rs, app_icon.rs) *)

Definition app_id_char (s : rstring * bool) (ch : char) : rstring * bool :=
  let '(out, last_was_dash) := s in
  let mapped := if is_ascii_alphanumeric ch || (ch =? 46) || (ch =? 95) || (ch =? 45) then ch else 45 in
  if mapped =? 45 then (if last_was_dash then out else out ++ [45], true) else (out ++ [mapped], false).

Definition sanitize_app_id (app_id : rstring) : rstring :=
  trim_end_matches (Z.eqb 45) (foldl app_id_char ([], true) app_id).1.

Definition find_icon_file_in (exists_ : rstring → bool) (dir app_id : rstring) : option rstring :=
  let safe := sanitize_app_id app_id in
  if bool_decide (app_id = []) || bool_decide (safe = []) then None
  else find exists_ ((λ ext, path_join dir (safe ++ lit "." ++ ext)) <$>
         [lit "png"; lit "jpg"; lit "jpeg"; lit "tiff"; lit "tif"; lit "icns"]).

Definition resolve_launch_instance (explicit : option rstring) (app_id : rstring) : rstring :=
  default (sanitize_app_id app_id) explicit.

Definition resolve_volume_mute_flag (muted unmuted : bool) : option bool :=
  match muted, unmuted with
  | true, false => Some true
  | false, true => Some false
  | _, _ => None
  end.

Definition should_enter_bundle_launch (arg_count : Z) (bundle_args_present : bool) : bool :=
  (arg_count =? 1) && bundle_args_present.

Definition format_client_name (version host_os host_arch : rstring) : rstring :=
  lit "vbox-client/" ++ version ++ lit " (" ++ host_os ++ lit " " ++ host_arch ++ lit ")".

(** ** The launcher's resources, read (launch.rs) *)

Record BundleLaunchArgs := mkBundleLaunchArgs {
  vbox_native : rstring;
  bundle_app_id : rstring;
  bundle_instance : rstring;
  command_env : list (rstring * rstring);
  icon_dir : option rstring
}.

(** [fs::read_to_string] under Resources. *)
Definition resources : Type := gmap rstring rstring.

Definition read_resource (r : resources) (name : rstring) : option rstring :=
  s ← r !! name; let s := trim s in if bool_decide (s = []) then None else Some s.

Definition command_env_files : list (rstring * rstring) :=
  [(lit "Root.txt", lit "VBOX_ROOT"); (lit "StateDir.txt", lit "VBOX_STATE_DIR"); (lit "Guest.txt", lit "VBOX_GUEST");
   (lit "GuestDir.txt", lit "VBOX_GUEST_DIR"); (lit "Port.txt", lit "VBOX_PORT"); (lit "Width.txt", lit "VBOX_WIDTH");
   (lit "Height.txt", lit "VBOX_HEIGHT")].

Definition bundle_command_env (r : resources) : list (rstring * rstring) :=
  omap (λ '(file, key), (λ value, (key, value)) <$> read_resource r file) command_env_files.

Definition bundle_launch_args (r : resources) : option BundleLaunchArgs :=
  app_id ← read_resource r (lit "AppID.txt");
  vbox_native ← (match read_resource r (lit "VBoxNativePath.txt") with
                 | Some path => Some path
                 | None => read_resource r (lit "CohNativePath.txt")
                 end);
  if bool_decide (app_id = []) || bool_decide (vbox_native = []) then None else
  let instance := default (sanitize_app_id app_id) (read_resource r (lit "Instance.txt")) in
  Some (mkBundleLaunchArgs vbox_native app_id instance (bundle_command_env r) (read_resource r (lit "IconDir.txt"))).

(** ** The tool's arguments *)

Definition prepare_app_bundle_helper_argv (instance app_id : rstring) : list rstring :=
  [lit "--no-build"; lit "--instance"; instance; lit "prepare-app"; lit "--bundle"; app_id].

Definition prepare_app_helper_argv (instance app_id : rstring) : list rstring :=
  [lit "--no-build"; lit "--instance"; instance; lit "prepare-app"; app_id].

Definition app_id_helper_argv (instance app_id : rstring) : list rstring :=
  [lit "--no-build"; lit "--instance"; instance; lit "app-id"; app_id].

Definition stop_helper_argv (instance : rstring) : list rstring :=
  [lit "--no-build"; lit "--instance"; instance; lit "stop"].

(** ** A prepared instance, read *)

Record PreparedInstance := mkPreparedInstance {
  prep_port : Z; prep_socket : rstring; prep_width : Z; prep_height : Z; prep_transport : ViewTransport
}.

Record PrepareAppDataPlane := mkPrepareAppDataPlane {
  pd_mode : rstring; pd_quic_addr : option SocketAddr; pd_session_token : option rstring; pd_cert : option rstring
}.

Record PrepareAppBundle := mkPrepareAppBundle {
  pb_version : Z; pb_port : Z; pb_socket : rstring; pb_width : Z; pb_height : Z;
  pb_data_plane : option PrepareAppDataPlane
}.

Inductive prepare_error :=
  | Prepare_failed | No_stdout | Malformed (line : rstring) | Bad_number | Bad_bundle
  | Unsupported_version (v : Z) | Unknown_mode (mode : rstring) | Missing_quic_addr | Missing_token | Missing_cert.

Definition prepare_app_transport (d : PrepareAppDataPlane) : result prepare_error ViewTransport :=
  mode ← (if bool_decide (pd_mode d = lit "tcp-only") then Ok TcpOnly
          else if bool_decide (pd_mode d = lit "auto") then Ok Auto
          else if bool_decide (pd_mode d = lit "quic-only") then Ok QuicOnly
          else Err (Unknown_mode (pd_mode d)));
  if bool_decide (mode = TcpOnly) then Ok ViewTransport_tcp else
  quic_addr ← ok_or Missing_quic_addr (pd_quic_addr d);
  quic_token ← ok_or Missing_token (pd_session_token d);
  quic_cert ← ok_or Missing_cert (pd_cert d);
  Ok (mkViewTransport mode (Some quic_addr) (Some quic_token) (Some quic_cert)).

Section prepared.
(** [serde_json::from_str] at the type of a bundle. *)
Context (bundle_from_json : rstring → option PrepareAppBundle).

Definition parse_prepare_app_bundle (line : rstring) : result prepare_error PreparedInstance :=
  bundle ← ok_or Bad_bundle (bundle_from_json line);
  if negb (pb_version bundle =? 1) then Err (Unsupported_version (pb_version bundle)) else
  transport ← (match pb_data_plane bundle with
               | Some data_plane => prepare_app_transport data_plane
               | None => Ok ViewTransport_tcp
               end);
  Ok (mkPreparedInstance (pb_port bundle) (pb_socket bundle) (pb_width bundle) (pb_height bundle) transport).

Definition parse_prepare_app_stdout (stdout : rstring) : result prepare_error PreparedInstance :=
  match find (λ s, negb (bool_decide (s = []))) (reverse (trim <$> lines stdout)) with
  | None => Err No_stdout
  | Some line =>
      if starts_with [123] line then parse_prepare_app_bundle line else
      match split_whitespace line with
      | [port; socket; width; height] =>
          port ← ok_or Bad_number (parse u16_max port);
          width ← ok_or Bad_number (parse u32_max width);
          height ← ok_or Bad_number (parse u32_max height);
          Ok (mkPreparedInstance port socket width height ViewTransport_tcp)
      | _ => Err (Malformed line)
      end
  end.

(** ** The launch *)

(** [Path::parent] of a path without a trailing slash. *)
Definition parent (path : rstring) : option rstring :=
  match drop_while (λ c, negb (c =? 47)) (reverse path) with
  | [] => if bool_decide (path = []) then None else Some []
  | [_] => if bool_decide (path = [47]) then None else Some [47]
  | _ :: rest => Some (reverse rest)
  end.

Definition vbox_icon_dir_for (vbox_native : rstring) : option rstring :=
  (λ root, path_join root (lit ".vbox/icons")) <$> parent vbox_native.

(** What a launch does: runs of the tool, the second of them in its own thread; the icon
    directory; the view on the local port. *)
Inductive launch_action :=
  | Run_tool (program : rstring) (argv : list rstring) (env : list (rstring * rstring))
  | Set_icon_dir (dir : rstring)
  | View (port : Z) (socket : rstring) (width height : Z) (transport : ViewTransport).

(** [stdout]: what the tool printed when it prepared the instance, if it succeeded;
    [view_result]: how the view ended. *)
Definition run_launch_with_env (vbox_native app_id instance : rstring) (env : list (rstring * rstring))
    (icons : option rstring) (stdout : option rstring) (view_result : result prepare_error unit) :
    list launch_action * result prepare_error unit :=
  let prepare := Run_tool vbox_native (prepare_app_bundle_helper_argv instance app_id) env in
  match stdout with
  | None => ([prepare], Err Prepare_failed)
  | Some stdout =>
      match parse_prepare_app_stdout stdout with
      | Err e => ([prepare], Err e)
      | Ok p =>
          ([prepare]
           ++ match (match icons with Some dir => Some dir | None => vbox_icon_dir_for vbox_native end) with
              | Some dir => [Set_icon_dir dir]
              | None => []
              end
           ++ [Run_tool vbox_native (app_id_helper_argv instance app_id) env;
               View (prep_port p) (prep_socket p) (prep_width p) (prep_height p) (prep_transport p);
               Run_tool vbox_native (stop_helper_argv instance) env],
           view_result)
      end
  end.

Definition run_launch (vbox_native app_id instance : rstring) :=
  run_launch_with_env vbox_native app_id instance [] None.

Definition run_bundle_launch (args : BundleLaunchArgs) :=
  run_launch_with_env (vbox_native args) (bundle_app_id args) (bundle_instance args) (command_env args) (icon_dir args).
End prepared.

(** ** The tool's side (runtime.rs) *)

Definition quoted (s : rstring) : rstring := 34 :: s ++ [34].

(** What [prepare_app] prints. *)
Definition prepare_app_stdout (bundle : bool) (app_ctx : AppContext) : rstring :=
  (if bundle then
     lit "{" ++ quoted (lit "version") ++ lit ":1," ++ quoted (lit "port") ++ lit ":" ++ dec (port app_ctx)
     ++ lit "," ++ quoted (lit "socket") ++ lit ":" ++ quoted (socket app_ctx) ++ lit "," ++ quoted (lit "width") ++ lit ":"
     ++ dec (width app_ctx) ++ lit "," ++ quoted (lit "height") ++ lit ":" ++ dec (height app_ctx) ++ lit ","
     ++ quoted (lit "data_plane") ++ lit ":{" ++ quoted (lit "mode") ++ lit ":" ++ quoted (lit "tcp-only") ++ lit "}}"
   else dec (port app_ctx) ++ lit " " ++ socket app_ctx ++ lit " " ++ dec (width app_ctx) ++ lit " " ++ dec (height app_ctx))
  ++ [10].

(** The instance of an application. *)
Definition app_instance (row : AppRecord) : rstring := sanitize_id (app_id row).

(** The text resources [build_launcher_app] writes, [app_port] being the instance's. *)
Definition launcher_files (ctx : AppContext) (row : AppRecord) (app_port : Z) : list (rstring * rstring) :=
  [(lit "AppID.txt", app_id row ++ [10]); (lit "AppName.txt", app_name row ++ [10]); (lit "Exec.txt", app_exec row ++ [10]);
   (lit "Argv.b64", argv_b64 row ++ [10]); (lit "VBoxNativePath.txt", cli_path ctx ++ [10]); (lit "Root.txt", root ctx ++ [10]);
   (lit "StateDir.txt", state_dir ctx ++ [10]); (lit "Guest.txt", default [] (guest ctx) ++ [10]);
   (lit "GuestDir.txt", default [] (guest_dir ctx) ++ [10]); (lit "Port.txt", dec app_port ++ [10]);
   (lit "Width.txt", dec (width ctx) ++ [10]); (lit "Height.txt", dec (height ctx) ++ [10]);
   (lit "IconDir.txt", icon_cache_dir ctx ++ [10]); (lit "Instance.txt", app_instance row ++ [10])].

Section launchers.
Context (env_var : rstring → option rstring).

Definition plist_entry (key value : rstring) : rstring :=
  lit "  <key>" ++ key ++ lit "</key><string>" ++ value ++ lit "</string>" ++ [10].

Definition info_plist (row : AppRecord) (has_icon : bool) : rstring :=
  let safe_id := app_instance row in
  lit "<?xml version=" ++ quoted (lit "1.0") ++ lit " encoding=" ++ quoted (lit "UTF-8") ++ lit "?>" ++ [10]
  ++ lit "<!DOCTYPE plist PUBLIC " ++ quoted (lit "-//Apple//DTD PLIST 1.0//EN") ++ lit " "
  ++ quoted (lit "http://www.apple.com/DTDs/PropertyList-1.0.dtd") ++ lit ">" ++ [10]
  ++ lit "<plist version=" ++ quoted (lit "1.0") ++ lit ">" ++ [10] ++ lit "<dict>" ++ [10]
  ++ plist_entry (lit "CFBundleExecutable") (plist_escape (lit "vbox-client-" ++ safe_id))
  ++ plist_entry (lit "CFBundleIdentifier") (plist_escape (lit "local.vbox.native.app." ++ safe_id))
  ++ plist_entry (lit "CFBundleName") (plist_escape (app_name row))
  ++ plist_entry (lit "CFBundleDisplayName") (plist_escape (launcher_display_name env_var (app_name row)))
  ++ (if has_icon then plist_entry (lit "CFBundleIconFile") (lit "AppIcon") else [])
  ++ lit "  <key>LSUIElement</key><false/>" ++ [10]
  ++ plist_entry (lit "CFBundlePackageType") (lit "APPL")
  ++ plist_entry (lit "CFBundleShortVersionString") (lit "0.1.1")
  ++ plist_entry (lit "CFBundleVersion") (lit "1")
  ++ plist_entry (lit "LSMinimumSystemVersion") (lit "11.0")
  ++ lit "  <key>NSHighResolutionCapable</key><true/>" ++ [10] ++ lit "</dict>" ++ [10] ++ lit "</plist>" ++ [10].

(** A bundle: its Info.plist, if it has one yet, and the text files of its Resources. *)
Record bundle := mkBundle { plist : option rstring; bundle_resources : resources }.

(** The launchers by their path, and the file of the instances' ports. *)
Record desk := mkDesk { launchers : gmap rstring bundle; ports_file : text_file }.

Inductive launcher_error := Not_macos | Launcher_port (e : port_error) | Copy_failed | No_match.

(** [build_launcher_app]: [writable], the port file can be replaced; [copied], the client's
    binary could be copied. The icon and the code signature leave no text behind. *)
Definition build_launcher_app (macos writable copied has_icon : bool) (ctx : AppContext) (row : AppRecord) (d : desk) :
    result launcher_error rstring * desk :=
  if negb macos then (Err Not_macos, d) else
  let app := launcher_app_path env_var row in
  let old := default (mkBundle None ∅) (launchers d !! app) in
  let res := delete (lit "Socket.txt") (bundle_resources old) in
  let made b file := mkDesk (<[app := b]> (launchers d)) file in
  match instance_context env_var ctx writable (app_instance row) (ports_file d) with
  | (Err e, file) => (Err (Launcher_port e), made (mkBundle (plist old) res) file)
  | (Ok app_ctx, file) =>
      let info := Some (info_plist row has_icon) in
      if negb copied then (Err Copy_failed, made (mkBundle info res) file) else
      (Ok app, made (mkBundle info (list_to_map (launcher_files ctx row (port app_ctx)) ∪ res)) file)
  end.

Definition remove_launcher_app (row : AppRecord) (d : desk) : desk :=
  mkDesk (delete (launcher_app_path env_var row) (launchers d)) (ports_file d).

(** The loop of [install_apps] over the cached rows; the count. *)
Fixpoint install_rows (writable : bool) (ctx : AppContext) (filters : list rstring) (rows : list AppRecord) (count : Z) (d : desk) :
    result launcher_error Z * desk :=
  match rows with
  | [] => (if count =? 0 then Err No_match else Ok count, d)
  | row :: rest =>
      if selected (app_id row) (app_name row) filters then
        match build_launcher_app true writable true false ctx row d with
        | (Ok _, d') => install_rows writable ctx filters rest (count + 1) d'
        | (Err e, d') => (Err e, d')
        end
      else install_rows writable ctx filters rest count d
  end.

Fixpoint remove_rows (filters : list rstring) (rows : list AppRecord) (count : Z) (d : desk) : result launcher_error Z * desk :=
  match rows with
  | [] => (if count =? 0 then Err No_match else Ok count, d)
  | row :: rest =>
      if selected (app_id row) (app_name row) filters
      then remove_rows filters rest (count + 1) (remove_launcher_app row d)
      else remove_rows filters rest count d
  end.

(** [launchpad_check]: the selected rows, and whether each has a launcher. *)
Definition launchpad_check (filters : list rstring) (rows : list AppRecord) (d : desk) : list (AppRecord * bool) :=
  (λ row, (row, bool_decide (is_Some (launchers d !! launcher_app_path env_var row)))) <$>
  filter (λ row, selected (app_id row) (app_name row) filters = true) rows.
(** [prepare_app]: what it prints, the ports, and the processes. *)
Definition prepare_app (is_file : rstring → bool) (ssh_opts : SshOptions) (decode_argv : rstring → option (list rstring))
    (cache : text_file) (writable : bool) (ctx : AppContext) (query : rstring) (bundle_form : bool) (ports : text_file) (s : stack) :
    option rstring * text_file * stack :=
  match find_app_record decode_argv cache query with
  | None => (None, ports, s)
  | Some record =>
      match instance_context env_var ctx writable (sanitize_id (app_id record)) ports with
      | (Err _, ports') => (None, ports', s)
      | (Ok app_ctx, ports') =>
          match start_stack env_var is_file ssh_opts app_ctx s with
          | (Err _, s') => (None, ports', s')
          | (Ok _, s') => (Some (prepare_app_stdout bundle_form app_ctx), ports', s')
          end
      end
  end.
End launchers.

(** ** Lemmas: names *)

Lemma drop_while_head p s c t : drop_while p s = c :: t → p c = false.
Proof. induction s as [|d s IH]; [done|]. cbn. destruct (p d) eqn:Hd; [done|]. by intros [= <- _]. Qed.

Lemma drop_while_suffix p s : ∃ k, s = k ++ drop_while p s.
Proof. induction s as [|d s [k IH]]; [by exists []|]. cbn. destruct (p d); [exists (d :: k); cbn; by f_equal|by exists []]. Qed.

Lemma trim_end_matches_last p s c t : reverse (trim_end_matches p s) = c :: t → p c = false.
Proof. unfold trim_end_matches. rewrite reverse_involutive. apply drop_while_head. Qed.

Lemma trim_end_matches_prefix p s : trim_end_matches p s `prefix_of` s.
Proof.
  unfold trim_end_matches. destruct (drop_while_suffix p (reverse s)) as [k Hk]. exists (reverse k).
  rewrite <- reverse_app, <- Hk. by rewrite reverse_involutive.
Qed.

Lemma trim_matches_ends p s :
  match trim_matches p s with c :: _ => p c = false | [] => True end ∧
  match reverse (trim_matches p s) with c :: _ => p c = false | [] => True end.
Proof.
  unfold trim_matches. split.
  - destruct (trim_end_matches p (drop_while p s)) as [|c t] eqn:E; [done|].
    destruct (trim_end_matches_prefix p (drop_while p s)) as [k Hk]. rewrite E in Hk. cbn in Hk. by apply drop_while_head in Hk.
  - destruct (reverse (trim_end_matches p (drop_while p s))) as [|c t] eqn:E; [done|]. by apply trim_end_matches_last in E.
Qed.

(** An instance name: letters and digits, with dashes between them. *)
Definition instance_char (c : char) : bool := is_ascii_alphanumeric c || (c =? 45).

Record instance_name (s : rstring) : Prop := {
  instance_chars : made_of instance_char s;
  instance_first : match s with c :: _ => c ≠ 45 | [] => True end;
  instance_last : match reverse s with c :: _ => c ≠ 45 | [] => True end
}.

Lemma sanitize_id_instance id : instance_name (sanitize_id id).
Proof.
  split; [apply sanitize_id_made_of| |].
  - unfold sanitize_id. pose proof (proj1 (trim_matches_ends (Z.eqb 45) ((λ ch, if is_ascii_alphanumeric ch then ch else 45) <$> id))) as H.
    destruct (trim_matches _ _); [done|]. apply Z.eqb_neq in H. by intros ->.
  - unfold sanitize_id. pose proof (proj2 (trim_matches_ends (Z.eqb 45) ((λ ch, if is_ascii_alphanumeric ch then ch else 45) <$> id))) as H.
    destruct (reverse _); [done|]. apply Z.eqb_neq in H. by intros ->.
Qed.

Lemma map_chars s : made_of instance_char s → (λ ch, if is_ascii_alphanumeric ch then ch else 45) <$> s = s.
Proof.
  induction s as [|c s IH]; intros H; [done|]. rewrite fmap_cons, IH; [|intros d Hd; apply H; set_solver].
  f_equal. specialize (H c ltac:(set_solver)). unfold instance_char in H. apply orb_true_iff in H as [->|Hc]; [done|].
  apply Z.eqb_eq in Hc as ->. by case_match.
Qed.

Lemma sanitize_id_fixed s : instance_name s → sanitize_id s = s.
Proof.
  intros [Hc Hf Hl]. unfold sanitize_id. rewrite map_chars by done. apply trim_matches_id.
  - destruct s; [done|]. by apply Z.eqb_neq.
  - destruct (reverse s); [done|]. by apply Z.eqb_neq.
Qed.

(** Two dashes in a row. *)
Definition double_dash (s : rstring) : Prop := ∃ a b, s = a ++ 45 :: 45 :: b.

Lemma double_dash_app a b : double_dash a → double_dash (a ++ b).
Proof. intros (x & y & ->). exists x, (y ++ b). by rewrite <- app_assoc. Qed.

Lemma double_dash_snoc s c : double_dash (s ++ [c]) ↔ double_dash s ∨ (last s = Some 45 ∧ c = 45).
Proof.
  split.
  - intros (a & b & Heq). destruct b as [|d b' _] using rev_ind.
    2: { left. exists a, b'. change (a ++ 45 :: 45 :: (b' ++ [d])) with (a ++ (45 :: 45 :: b') ++ [d]) in Heq. rewrite app_assoc in Heq.
         by apply app_inj_tail in Heq as [-> _]. }
    right. change (a ++ [45; 45]) with (a ++ [45] ++ [45]) in Heq. rewrite app_assoc in Heq.
    apply app_inj_tail in Heq as [-> ->]. by rewrite last_snoc.
  - intros [H|[H ->]]; [by apply double_dash_app|]. apply last_Some in H as [s' ->]. exists s', []. by rewrite <- app_assoc.
Qed.

(** The loop of [sanitize_socket_name] keeps a name without two dashes in a row as it is. *)
Lemma socket_chars_keep s out :
  made_of instance_char s → ¬ double_dash (out ++ s) → match out ++ s with c :: _ => c ≠ 45 | [] => True end →
  (foldl socket_char (out, bool_decide (last out = Some 45)) s).1 = out ++ s.
Proof.
  revert out. induction s as [|c s IH]; intros out Hs Hd Hf; [cbn; by rewrite app_nil_r|]. cbn [foldl].
  assert (instance_char c = true) as Hc by (apply Hs; set_solver).
  assert (socket_char (out, bool_decide (last out = Some 45)) c = (out ++ [c], bool_decide (last (out ++ [c]) = Some 45))) as ->.
  { unfold socket_char. assert (is_ascii_alphanumeric c || (c =? 95) || (c =? 45) = true) as ->.
    { unfold instance_char in Hc. rewrite !orb_true_iff in *. tauto. }
    rewrite last_snoc. destruct (Z.eqb_spec c 45) as [->|Hne].
    - rewrite bool_decide_false, bool_decide_false; [by rewrite bool_decide_true| |].
      + intros ->. by apply Hf.
      + intros Hl. apply Hd. change (45 :: s) with ([45] ++ s). rewrite app_assoc. apply double_dash_app, double_dash_snoc. by right.
    - by rewrite bool_decide_false by congruence. }
  change (out ++ c :: s) with (out ++ [c] ++ s) in *. rewrite app_assoc in *. apply IH; [|done|done]. intros d Hdd. apply Hs. set_solver.
Qed.

Lemma socket_chars_single s out ld :
  ¬ double_dash out → (last out = Some 45 → ld = true) → ¬ double_dash (foldl socket_char (out, ld) s).1.
Proof.
  revert out ld. induction s as [|c s IH]; intros out ld Hd Hl; [done|]. cbn [foldl]. unfold socket_char at 2.
  set (m := if _ || _ || _ then c else 45). destruct (Z.eqb_spec m 45) as [->|Hne].
  - apply IH; [|done]. destruct ld; cbn; [done|]. case_bool_decide; cbn; [done|]. rewrite double_dash_snoc.
    intros [?|[Hl' _]]; [done|]. by specialize (Hl Hl').
  - apply IH; [|rewrite last_snoc; congruence]. rewrite double_dash_snoc. intros [?|[_ ?]]; done.
Qed.

Lemma sanitize_socket_name_single s : ¬ double_dash (sanitize_socket_name s).
Proof.
  unfold sanitize_socket_name.
  assert (¬ double_dash (foldl socket_char ([], false) s).1) as H.
  { apply socket_chars_single; [|done]. intros (a & b & Heq). by destruct a. }
  destruct (foldl _ _ s) as [out ld]. cbn in H.
  assert (¬ double_dash (trim_end_matches (Z.eqb 45) out)) as Ht.
  { intros Hd. apply H. destruct (trim_end_matches_prefix (Z.eqb 45) out) as [k Hk]. rewrite Hk. by apply double_dash_app. }
  destruct (trim_end_matches _ out); [|done]. intros (a & b & Heq).
  assert (45 ∈ lit "default") as Hin by (rewrite Heq; set_solver).
  apply (bool_decide_pack _) in Hin. by vm_compute in Hin.
Qed.

Lemma sanitize_socket_name_fixed s : instance_name s → s ≠ [] → ¬ double_dash s → sanitize_socket_name s = s.
Proof.
  intros [Hc Hf Hl] Hne Hd. unfold sanitize_socket_name.
  pose proof (socket_chars_keep s [] Hc Hd Hf) as H. rewrite bool_decide_false in H by done. cbn [app] in H.
  destruct (foldl _ _ s) as [out ld]. cbn in H. subst out.
  assert (trim_end_matches (Z.eqb 45) s = s) as ->; [|by destruct s].
  unfold trim_end_matches. rewrite drop_while_id; [by rewrite reverse_involutive|].
  destruct (reverse s); [done|]. by apply Z.eqb_neq.
Qed.

(** The two socket names of an application's instance agree exactly when its name has no two
    dashes in a row: the one [prepare_app] gives the viewer, and the one the commands run for
    that instance wait for. *)
Theorem launcher_sockets_agree env_var ctx writable id file app_ctx file' :
  sanitize_id id ≠ [] →
  instance_context env_var ctx writable (sanitize_id id) file = (Ok app_ctx, file') →
  (socket app_ctx = socket_for (sanitize_id id) ↔ ¬ double_dash (sanitize_id id)).
Proof.
  intros Hne H. unfold instance_context in H. destruct (instance_port _ _ _ _ _) as [[p|e] f]; [|done]. injection H as <- _.
  cbn [socket]. unfold socket_for. pose proof (sanitize_id_instance id) as Hi. set (inst := sanitize_id id) in *.
  destruct (decide (inst = lit "default")) as [Hd|Hd].
  { rewrite Hd, !bool_decide_true by done. split; [|done]. intros _ (a & b & Heq).
    assert (45 ∈ lit "default") as Hin by (rewrite Heq; set_solver). apply (bool_decide_pack _) in Hin. by vm_compute in Hin. }
  rewrite !bool_decide_false by done. rewrite (sanitize_id_fixed inst Hi). split.
  - intros Heq. apply (app_inv_head (lit "vbox-")) in Heq. rewrite Heq. apply sanitize_socket_name_single.
  - intros Hdd. by rewrite sanitize_socket_name_fixed.
Qed.

(** ** What is printed is read *)

(** A single line that begins and ends with something. *)
Definition tidy (line : rstring) : Prop :=
  10 ∉ line ∧ (∃ c t, line = c :: t ∧ is_whitespace c = false) ∧ (∃ c t, line = t ++ [c] ∧ is_whitespace c = false).

Lemma tidy_trim line : tidy line → trim line = line.
Proof.
  intros (_ & (c & t & -> & Hc) & (d & u & Hd & Hdw)). unfold trim. apply trim_matches_id; [done|]. rewrite Hd. by rewrite reverse_snoc.
Qed.

Lemma tidy_lines line : tidy line → lines (line ++ [10]) = [line].
Proof.
  intros (Hn & _ & (d & u & Hd & Hdw)). rewrite lines_cons; [done|done|]. rewrite Hd, last_snoc. intros [= ->]. done.
Qed.

Lemma parse_tidy json line :
  tidy line → parse_prepare_app_stdout json (line ++ [10]) =
  if starts_with [123] line then parse_prepare_app_bundle json line else
  match split_whitespace line with
  | [port; socket; width; height] =>
      port ← ok_or Bad_number (parse u16_max port);
      width ← ok_or Bad_number (parse u32_max width);
      height ← ok_or Bad_number (parse u32_max height);
      Ok (mkPreparedInstance port socket width height ViewTransport_tcp)
  | _ => Err (Malformed line)
  end.
Proof.
  intros Ht. unfold parse_prepare_app_stdout. rewrite (tidy_lines _ Ht). cbn [fmap list_fmap reverse rev_append find].
  rewrite (tidy_trim _ Ht). destruct Ht as (_ & (c & t & -> & _) & _). done.
Qed.

Lemma digits_ends s : digits s → s ≠ [] →
  (∃ c t, s = c :: t ∧ 48 ≤ c ≤ 57) ∧ (∃ c t, s = t ++ [c] ∧ 48 ≤ c ≤ 57).
Proof.
  intros Hd Hne. split; [destruct s as [|c t]; [done|]; exists c, t; split; [done|]; apply Hd; set_solver|].
  destruct s as [|c t _] using rev_ind; [done|]. exists c, t. split; [done|]. apply Hd. set_solver.
Qed.

Lemma digit_not_space c : 48 ≤ c ≤ 57 → is_whitespace c = false.
Proof. intros H. apply (digits_plain [c]); [|set_solver]. by intros d ->%list_elem_of_singleton. Qed.

Lemma plain_not_in p s c : plain p s → p c = true → c ∉ s.
Proof. intros Hs Hc Hin. by rewrite (Hs c Hin) in Hc. Qed.

(** The numbers and the socket of a context fit a line. *)
Record printable (ctx : AppContext) : Prop := {
  print_port : is_u16 (port ctx);
  print_width : is_u32 (width ctx);
  print_height : is_u32 (height ctx);
  print_socket : socket ctx ≠ [] ∧ plain is_whitespace (socket ctx)
}.

Lemma dec_words n max : 0 ≤ n ≤ max → dec n ≠ [] ∧ digits (dec n) ∧ plain is_whitespace (dec n) ∧ parse max (dec n) = Some n.
Proof.
  intros Hn. destruct (dec_nonneg n) as [Hd Hne]; [lia|]. split_and!; [done|done|by apply digits_plain|by apply parse_dec].
Qed.

Lemma plain_line ctx json : printable ctx →
  parse_prepare_app_stdout json (prepare_app_stdout false ctx) =
  Ok (mkPreparedInstance (port ctx) (socket ctx) (width ctx) (height ctx) ViewTransport_tcp).
Proof.
  intros [Hp Hw Hh [Hs Hsp]]. unfold is_u16, is_u32 in *.
  destruct (dec_words _ u16_max Hp) as (Pn & Pd & Pp & Pr), (dec_words _ u32_max Hw) as (Wn & Wd & Wp & Wr), (dec_words _ u32_max Hh) as (Hn & Hd & Hp' & Hr).
  unfold prepare_app_stdout. change (lit " ") with [32]. rewrite parse_tidy.
  - destruct (digits_ends _ Pd Pn) as [(c & t & Hc & Hcr) _].
    assert (starts_with [123] (dec (port ctx) ++ [32] ++ socket ctx ++ [32] ++ dec (width ctx) ++ [32] ++ dec (height ctx)) = false) as ->.
    { apply bool_decide_false. rewrite Hc. intros [k Hk]. cbn in Hk. injection Hk as Hk _. lia. }
    repeat change ([32] ++ ?x) with (32 :: x). rewrite !split_whitespace_word, split_whitespace_last by done. rewrite Pr, Wr. cbn [ok_or mbind result_bind].
    by rewrite Hr.
  - split_and!.
    + rewrite !not_elem_of_app, !list_elem_of_singleton. split_and!; try done; by apply (plain_not_in is_whitespace).
    + destruct (digits_ends _ Pd Pn) as [(c & t & Hc & Hcr) _]. eexists c, _. rewrite Hc. cbn [Datatypes.app]. split; [done|by apply digit_not_space].
    + destruct (digits_ends _ Hd Hn) as [_ (c & t & Hc & Hcr)]. exists c. eexists. rewrite Hc, !app_assoc. split; [done|by apply digit_not_space].
Qed.

(** The line of the other form, without its end. *)
Definition bundle_line (ctx : AppContext) : rstring := removelast (prepare_app_stdout true ctx).

Lemma bundle_line_spec ctx : prepare_app_stdout true ctx = bundle_line ctx ++ [10].
Proof. unfold bundle_line, prepare_app_stdout. by rewrite removelast_last. Qed.

Lemma bundle_line_tidy ctx : printable ctx → tidy (bundle_line ctx) ∧ starts_with [123] (bundle_line ctx) = true.
Proof.
  intros [Hp Hw Hh [Hs Hsp]]. unfold is_u16, is_u32 in *.
  destruct (dec_words _ u16_max Hp) as (_ & _ & Pp & _), (dec_words _ u32_max Hw) as (_ & _ & Wp & _), (dec_words _ u32_max Hh) as (_ & _ & Hp' & _).
  unfold bundle_line, prepare_app_stdout. rewrite removelast_last. split; [|apply bool_decide_true; by eexists]. split_and!.
  - unfold quoted. rewrite ?not_elem_of_app, ?not_elem_of_cons, ?not_elem_of_app.
    split_and!; try (by apply (plain_not_in is_whitespace)); try done; by apply (bool_decide_unpack _); vm_compute.
  - eexists _, _. split; [reflexivity|done].
  - exists 125. eexists. split; [|done]. change (lit "}}") with ([125] ++ [125]). by rewrite !app_assoc.
Qed.

Lemma instance_printable env_var ctx writable id file app_ctx file' :
  instance_context env_var ctx writable id file = (Ok app_ctx, file') →
  is_u16 (port app_ctx) → is_u32 (width ctx) → is_u32 (height ctx) → printable app_ctx.
Proof.
  intros H Hp Hw Hh. unfold instance_context in H. destruct (instance_port _ _ _ _ _) as [[p|e] f]; [|done]. injection H as <- _.
  split; [done|done|done|]. cbn [socket]. case_bool_decide; [split; [done|]; intros c Hc; by repeat (apply elem_of_cons in Hc as [->|Hc]; [done|]); apply elem_of_nil in Hc|].
  split; [done|]. intros c Hc. apply (elem_of_app (lit "vbox-")) in Hc as [Hc|Hc].
  - by repeat (apply elem_of_cons in Hc as [->|Hc]; [done|]); apply elem_of_nil in Hc.
  - apply sanitize_id_made_of in Hc. unfold is_whitespace, is_ascii_alphanumeric, is_ascii_digit in *. lia.
Qed.

(** What [prepare_app] prints of the instance of an application, the client reads back, in
    either form, given that the JSON of the second is read as JSON. *)
Theorem prepared_roundtrip env_var ctx writable id file app_ctx file' json :
  instance_context env_var ctx writable id file = (Ok app_ctx, file') →
  is_u16 (port app_ctx) → is_u32 (width ctx) → is_u32 (height ctx) →
  json (bundle_line app_ctx) =
    Some (mkPrepareAppBundle 1 (port app_ctx) (socket app_ctx) (width app_ctx) (height app_ctx)
            (Some (mkPrepareAppDataPlane (lit "tcp-only") None None None))) →
  ∀ bundle_form, parse_prepare_app_stdout json (prepare_app_stdout bundle_form app_ctx) =
  Ok (mkPreparedInstance (port app_ctx) (socket app_ctx) (width ctx) (height ctx) ViewTransport_tcp).
Proof.
  intros H Hp Hw Hh Hjson bundle_form. pose proof (instance_printable _ _ _ _ _ _ _ H Hp Hw Hh) as Hpr.
  assert (width app_ctx = width ctx ∧ height app_ctx = height ctx) as [Ew Eh].
  { unfold instance_context in H. destruct (instance_port _ _ _ _ _) as [[p|e] f]; [|done]. by injection H as <- _. }
  destruct bundle_form; [|by rewrite plain_line, Ew, Eh].
  rewrite bundle_line_spec. destruct (bundle_line_tidy _ Hpr) as [Ht Hst]. rewrite (parse_tidy _ _ Ht), Hst.
  unfold parse_prepare_app_bundle. rewrite Hjson, Ew, Eh. done.
Qed.

(** ** A launcher, written and read *)

(** [Command::envs]: the child's environment. *)
Definition with_envs (env_var : rstring → option rstring) (l : list (rstring * rstring)) (k : rstring) : option rstring :=
  match find (λ e, bool_decide (e.1 = k)) l with Some e => Some e.2 | None => env_var k end.

(** What the flags of the client's runs of the tool stand for. *)
Definition helper_options (instance : rstring) : GlobalOptions :=
  mkGlobalOptions None None (Some instance) None None None None false true.

Definition presentable (s : rstring) : Prop := s ≠ [] ∧ trim s = s.
Definition presentable_opt (o : option rstring) : Prop := match o with Some s => presentable s | None => True end.

Lemma presentable_line s : presentable s → trim (s ++ [10]) = s.
Proof.
  intros [Hne Ht]. destruct (trim_matches_ends is_whitespace s) as [Hf Hl]. fold (trim s) in Hf, Hl. rewrite Ht in Hf, Hl.
  unfold trim, trim_matches. rewrite (drop_while_id is_whitespace (s ++ [10])) by (destruct s; [done|exact Hf]).
  unfold trim_end_matches. rewrite reverse_snoc. change (drop_while is_whitespace (10 :: reverse s)) with (drop_while is_whitespace (reverse s)).
  rewrite drop_while_id by done. by rewrite reverse_involutive.
Qed.

Lemma presentable_dec n max : 0 ≤ n ≤ max → presentable (dec n).
Proof.
  intros Hn. destruct (dec_words n max Hn) as (Hne & Hd & Hp & _). split; [done|]. destruct (digits_ends _ Hd Hne) as [(c & t & Hc & Hcr) (e & u & He & Her)].
  apply trim_matches_id; [rewrite Hc; by apply digit_not_space|rewrite He, reverse_snoc; by apply digit_not_space].
Qed.

Lemma presentable_instance s : instance_name s → s ≠ [] → presentable s.
Proof.
  intros [Hc Hf Hl] Hne. split; [done|].
  assert (∀ c, c ∈ s → is_whitespace c = false) as Hw.
  { intros c Hin%Hc. unfold instance_char, is_whitespace, is_ascii_alphanumeric, is_ascii_digit in *. lia. }
  apply trim_matches_id; [destruct s; [done|]; apply Hw; set_solver|].
  destruct (reverse s) as [|c t] eqn:E; [done|]. apply Hw. apply elem_of_reverse. rewrite E. set_solver.
Qed.

(** The text resources of a launcher, over what the bundle had before. *)
Definition launcher_resources (ctx : AppContext) (row : AppRecord) (p : Z) (before : resources) : resources :=
  list_to_map (launcher_files ctx row p) ∪ before.

Lemma launcher_file ctx row p before name text :
  (name, text) ∈ launcher_files ctx row p → launcher_resources ctx row p before !! name = Some text.
Proof.
  intros Hin. apply lookup_union_Some_l, elem_of_list_to_map_1; [|done].
  change ((launcher_files ctx row p).*1) with [lit "AppID.txt"; lit "AppName.txt"; lit "Exec.txt"; lit "Argv.b64"; lit "VBoxNativePath.txt";
    lit "Root.txt"; lit "StateDir.txt"; lit "Guest.txt"; lit "GuestDir.txt"; lit "Port.txt"; lit "Width.txt"; lit "Height.txt"; lit "IconDir.txt"; lit "Instance.txt"].
  apply (bool_decide_unpack _). by vm_compute.
Qed.

Lemma read_launcher_file ctx row p before name s :
  (name, s ++ [10]) ∈ launcher_files ctx row p → presentable s → read_resource (launcher_resources ctx row p before) name = Some s.
Proof.
  intros Hin Hs. unfold read_resource. rewrite (launcher_file _ _ _ _ _ _ Hin). cbn. rewrite presentable_line by done.
  by rewrite bool_decide_false by apply Hs.
Qed.

Lemma read_launcher_opt ctx row p before name o :
  (name, default [] o ++ [10]) ∈ launcher_files ctx row p → presentable_opt o → read_resource (launcher_resources ctx row p before) name = o.
Proof.
  intros Hin Hs. destruct o as [s|]; [by apply read_launcher_file|]. unfold read_resource. by rewrite (launcher_file _ _ _ _ _ _ Hin).
Qed.

Lemma find_env env_var l k : k ∉ l.*1 → with_envs env_var l k = env_var k.
Proof.
  intros Hk. unfold with_envs. induction l as [|[k' v] l IH]; [done|]. cbn in *. apply not_elem_of_cons in Hk as [Hne Hk].
  rewrite bool_decide_false by done. by apply IH.
Qed.

Lemma bundle_env_lookup env_var r file key :
  (file, key) ∈ command_env_files →
  with_envs env_var (bundle_command_env r) key = match read_resource r file with Some v => Some v | None => env_var key end.
Proof.
  assert (NoDup command_env_files.*2) as Hnd by (apply (bool_decide_unpack _); by vm_compute). unfold bundle_command_env. revert Hnd.
  generalize command_env_files as l. intros l Hnd. induction l as [|[f k] l IH]; intros Hin; [by apply elem_of_nil in Hin|].
  cbn in Hnd. apply NoDup_cons in Hnd as [Hk Hnd]. cbn [omap list_omap]. apply elem_of_cons in Hin as [[= -> ->]|Hin].
  - destruct (read_resource r f) as [v|]; cbn [fmap option_fmap option_map]; [unfold with_envs; cbn; by rewrite bool_decide_true|].
    apply find_env. intros ([k' v] & Heq & Hkv)%list_elem_of_fmap. cbn in Heq. subst k'. apply list_elem_of_omap in Hkv as ([f' k'] & Hin' & Hs).
    destruct (read_resource r f'); [|done]. injection Hs as -> <-. apply Hk. apply list_elem_of_fmap. by exists (f', k).
  - assert (k ≠ key) as Hne by (intros ->; apply Hk, list_elem_of_fmap; by exists (file, key)).
    destruct (read_resource r f) as [v|]; cbn [fmap option_fmap option_map]; [|by apply IH].
    unfold with_envs. cbn [find fst]. rewrite bool_decide_false by done. by apply IH.
Qed.

(** What is asked of a context and an application for their texts to survive: no blanks at the
    ends, no empty name. *)
Record launchable (ctx : AppContext) (row : AppRecord) : Prop := {
  launch_id : presentable (app_id row);
  launch_cli : presentable (cli_path ctx);
  launch_state : presentable (state_dir ctx);
  launch_icons : presentable (icon_cache_dir ctx);
  launch_guest : presentable_opt (guest ctx);
  launch_guest_dir : presentable_opt (guest_dir ctx);
  launch_sizes : is_u32 (width ctx) ∧ is_u32 (height ctx);
  launch_instance : app_instance row ≠ []
}.

Lemma launcher_args ctx row p before :
  launchable ctx row →
  bundle_launch_args (launcher_resources ctx row p before) =
  Some (mkBundleLaunchArgs (cli_path ctx) (app_id row) (app_instance row)
          (bundle_command_env (launcher_resources ctx row p before)) (Some (icon_cache_dir ctx))).
Proof.
  intros [Hid Hcli Hst Hic Hg Hgd [Hw Hh] Hi]. unfold bundle_launch_args.
  rewrite (read_launcher_file _ _ _ _ (lit "AppID.txt") (app_id row)) by (done || by apply (list_elem_of_lookup_2 _ 0)).
  rewrite (read_launcher_file _ _ _ _ (lit "VBoxNativePath.txt") (cli_path ctx)) by (done || by apply (list_elem_of_lookup_2 _ 4)).
  cbn [mbind option_bind]. rewrite !bool_decide_false by (apply Hid || apply Hcli). cbn [orb].
  rewrite (read_launcher_file _ _ _ _ (lit "Instance.txt") (app_instance row)) by ((by apply (list_elem_of_lookup_2 _ 13)) || by apply presentable_instance; [apply sanitize_id_instance|]).
  by rewrite (read_launcher_file _ _ _ _ (lit "IconDir.txt") (icon_cache_dir ctx)) by (done || by apply (list_elem_of_lookup_2 _ 12)).
Qed.

(** C26: what the tool writes into a launcher, the client reads back: the application, the tool,
    its own instance; and a run of the tool with the environment made of it has the launcher's
    port, size, state directory and guest, whatever the environment it inherits says of them. *)
Theorem launcher_context_agrees env_var ctx row p before root' exe args :
  launchable ctx row → is_u16 p →
  bundle_launch_args (launcher_resources ctx row p before) = Some args →
  let c := from_globals (with_envs env_var (command_env args)) root' exe (helper_options (bundle_instance args)) in
  bundle_app_id args = app_id row ∧ vbox_native args = cli_path ctx ∧
  instance c = app_instance row ∧ port c = p ∧ width c = width ctx ∧ height c = height ctx ∧
  state_dir c = state_dir ctx ∧ guest c = (match guest ctx with Some g => Some g | None => env_var (lit "VBOX_GUEST") end) ∧
  guest_dir c = (match guest_dir ctx with Some d => Some d | None => env_var (lit "VBOX_GUEST_DIR") end) ∧ build c = false.
Proof.
  intros Hl Hp H c. rewrite (launcher_args _ _ _ _ Hl) in H. injection H as <-.
  destruct Hl as [Hid Hcli Hst Hic Hg Hgd [Hw Hh] Hi]. unfold is_u16, is_u32 in *.
  set (r := launcher_resources ctx row p before) in *.
  assert (∀ file key, (file, key) ∈ command_env_files → with_envs env_var (bundle_command_env r) key =
    match read_resource r file with Some v => Some v | None => env_var key end) as Hlook by (intros; by apply bundle_env_lookup).
  pose proof (Hlook (lit "StateDir.txt") (lit "VBOX_STATE_DIR") ltac:(by apply (list_elem_of_lookup_2 _ 1))) as H1.
  pose proof (Hlook (lit "Guest.txt") (lit "VBOX_GUEST") ltac:(by apply (list_elem_of_lookup_2 _ 2))) as H2.
  pose proof (Hlook (lit "GuestDir.txt") (lit "VBOX_GUEST_DIR") ltac:(by apply (list_elem_of_lookup_2 _ 3))) as H3.
  pose proof (Hlook (lit "Port.txt") (lit "VBOX_PORT") ltac:(by apply (list_elem_of_lookup_2 _ 4))) as H4.
  pose proof (Hlook (lit "Width.txt") (lit "VBOX_WIDTH") ltac:(by apply (list_elem_of_lookup_2 _ 5))) as H5.
  pose proof (Hlook (lit "Height.txt") (lit "VBOX_HEIGHT") ltac:(by apply (list_elem_of_lookup_2 _ 6))) as H6.
  unfold r in H1, H2, H3, H4, H5, H6.
  rewrite (read_launcher_file _ _ _ _ _ (state_dir ctx)) in H1 by (done || by apply (list_elem_of_lookup_2 _ 6)).
  rewrite (read_launcher_opt _ _ _ _ _ (guest ctx)) in H2 by (done || by apply (list_elem_of_lookup_2 _ 7)).
  rewrite (read_launcher_opt _ _ _ _ _ (guest_dir ctx)) in H3 by (done || by apply (list_elem_of_lookup_2 _ 8)).
  rewrite (read_launcher_file _ _ _ _ _ (dec p)) in H4 by ((by apply (list_elem_of_lookup_2 _ 9)) || by eapply presentable_dec).
  rewrite (read_launcher_file _ _ _ _ _ (dec (width ctx))) in H5 by ((by apply (list_elem_of_lookup_2 _ 10)) || by eapply presentable_dec).
  rewrite (read_launcher_file _ _ _ _ _ (dec (height ctx))) in H6 by ((by apply (list_elem_of_lookup_2 _ 11)) || by eapply presentable_dec).
  fold r in H1, H2, H3, H4, H5, H6. unfold c, from_globals, helper_options. cbn [bundle_app_id vbox_native bundle_instance command_env
    instance port width height state_dir guest guest_dir build opt_guest opt_guest_dir opt_instance opt_port opt_width opt_height opt_no_build default].
  rewrite H1, H2, H3, H4, H5, H6. cbn [mbind option_bind default]. rewrite !parse_dec by done. by split_and!.
Qed.

(** ** Launching *)

Definition tool_argvs (actions : list launch_action) : list (list rstring) :=
  omap (λ a, match a with Run_tool _ argv _ => Some argv | _ => None end) actions.

(** A launch that prepared its instance runs the application in it and, when the view is over,
    stops it, whatever the view's outcome, which is the launch's; one that could not read the
    instance does neither: what was prepared keeps running. *)
Theorem launch_outcomes json native app instance env icons stdout view :
  let '(actions, r) := run_launch_with_env json native app instance env icons stdout view in
  head actions = Some (Run_tool native (prepare_app_bundle_helper_argv instance app) env) ∧
  match (text ← stdout; match parse_prepare_app_stdout json text with Ok p => Some p | Err _ => None end) with
  | Some p => r = view ∧
      tool_argvs actions = [prepare_app_bundle_helper_argv instance app; app_id_helper_argv instance app; stop_helper_argv instance] ∧
      View (prep_port p) (prep_socket p) (prep_width p) (prep_height p) (prep_transport p) ∈ actions
  | None => (∃ e, r = Err e) ∧ tool_argvs actions = [prepare_app_bundle_helper_argv instance app]
  end.
Proof.
  unfold run_launch_with_env. destruct stdout as [text|]; cbn [mbind option_bind]; [|by split; [|split; [eexists|]]].
  destruct (parse_prepare_app_stdout json text) as [p|e]; [|by split; [|split; [eexists|]]].
  split; [done|]. split; [done|]. split; [by case_match|]. rewrite !elem_of_app. right. right. set_solver.
Qed.

(** Dots survive in the name the client makes of an id, never in the tool's. *)
Lemma instance_no_dot id : 46 ∉ sanitize_id id.
Proof. intros H%sanitize_id_made_of. done. Qed.

(** Launched by its id from the command line, an application with a dot in its name is
    prepared in one instance, and started and stopped in another: the name the client gives is
    never the one [prepare_app] takes from the record. *)
Theorem default_launch_other_instance env_var ctx writable id file app_ctx file' json native stdout view p :
  46 ∈ sanitize_app_id id →
  instance_context env_var ctx writable (sanitize_id id) file = (Ok app_ctx, file') →
  stdout = prepare_app_stdout false app_ctx →
  parse_prepare_app_stdout json stdout = Ok p →
  let name := resolve_launch_instance None id in
  name ≠ instance app_ctx ∧
  tool_argvs (run_launch json native id name (Some stdout) view).1 =
    [prepare_app_bundle_helper_argv name id; app_id_helper_argv name id; stop_helper_argv name].
Proof.
  intros Hdot H -> Hp name. split.
  - unfold instance_context in H. destruct (instance_port _ _ _ _ _) as [[q|e] f]; [|done]. injection H as <- _.
    unfold name, resolve_launch_instance. cbn [default instance]. intros Heq. rewrite Heq in Hdot. by apply (instance_no_dot id).
  - unfold run_launch, run_launch_with_env. rewrite Hp. cbn [fst]. by case_match.
Qed.

(** The application a query names is the first record whose id or name contains it, even when
    a later record has exactly that id. *)
Theorem query_takes_first_match decode pre other mid row post text query :
  read_app_cache decode (Contents text) = pre ++ other :: mid ++ row :: post →
  app_id row = query → selected (app_id other) (app_name other) [query] = true →
  ∃ r, find_app_record decode (Contents text) query = Some r ∧ r ∈ pre ++ [other].
Proof.
  intros Hrows _ Hsel. unfold find_app_record. rewrite Hrows. clear Hrows.
  induction pre as [|x pre IH]; cbn [Datatypes.app find].
  - rewrite Hsel. exists other. split; [done|set_solver].
  - destruct (selected (app_id x) (app_name x) [query]); [exists x; split; [done|set_solver]|].
    destruct IH as (r & Hf & Hin). exists r. split; [done|set_solver].
Qed.

(** ** The desk *)

Section desk.
Context (env_var : rstring → option rstring).
Abbreviation path_of := (launcher_app_path env_var).

Definition present (d : desk) (row : AppRecord) : Prop := is_Some (launchers d !! path_of row).

Lemma build_ok macos writable copied icon ctx row d path d' :
  build_launcher_app env_var macos writable copied icon ctx row d = (Ok path, d') →
  path = path_of row ∧ present d' row ∧ (∀ p, p ≠ path → launchers d' !! p = launchers d !! p) ∧
  ∃ p before b, launchers d' !! path = Some b ∧ bundle_resources b = launcher_resources ctx row p before.
Proof.
  unfold build_launcher_app. destruct macos; [|done]. cbn [negb]. destruct (instance_context _ _ _ _ _) as [[app_ctx|e] file]; [|done].
  destruct copied; [|done]. cbn [negb]. intros [= <- <-]. split_and!; [done| | |].
  - unfold present. cbn [launchers]. by rewrite lookup_insert_eq.
  - intros p Hp. cbn [launchers]. by rewrite lookup_insert_ne.
  - exists (port app_ctx), (delete (lit "Socket.txt") (bundle_resources (default (mkBundle None ∅) (launchers d !! path_of row)))).
    eexists. split; [cbn [launchers]; apply lookup_insert_eq|]. cbn [bundle_resources]. unfold launcher_resources. reflexivity.
Qed.

Lemma install_keeps writable ctx filters rows count d n d' :
  install_rows env_var writable ctx filters rows count d = (Ok n, d') →
  (∀ row, present d row → present d' row) ∧
  (∀ row, row ∈ rows → selected (app_id row) (app_name row) filters = true → present d' row) ∧
  (∀ p, (∀ row, row ∈ rows → selected (app_id row) (app_name row) filters = true → path_of row ≠ p) → launchers d' !! p = launchers d !! p).
Proof.
  revert count d. induction rows as [|row rows IH]; intros count d H.
  { cbn in H. destruct (count =? 0); [done|]. injection H as <- <-. split_and!; [done|by intros ? ?%elem_of_nil|done]. }
  cbn [install_rows] in H. destruct (selected _ _ filters) eqn:Hsel.
  - destruct (build_launcher_app _ _ _ _ _ _ _ _) as [[path|e] d1] eqn:Hb; [|done].
    apply build_ok in Hb as (-> & Hpres & Hother & _). destruct (IH _ _ H) as (Hk & Hi & Ho). split_and!.
    + intros r Hr. apply Hk. unfold present in *. destruct (decide (path_of r = path_of row)) as [Heq|Hne]; [by rewrite Heq|by rewrite Hother].
    + intros r [->|Hr]%elem_of_cons Hs; [by apply Hk|by apply Hi].
    + intros p Hp. rewrite Ho; [|intros r Hr; apply Hp; set_solver]. apply Hother. intros ->. apply (Hp row); [set_solver|done|done].
  - destruct (IH _ _ H) as (Hk & Hi & Ho). split_and!; [done| |].
    + intros r [->|Hr]%elem_of_cons Hs; [congruence|by apply Hi].
    + intros p Hp. apply Ho. intros r Hr. apply Hp. set_solver.
Qed.

Lemma remove_gone filters rows count d n d' :
  remove_rows env_var filters rows count d = (Ok n, d') →
  (∀ row, row ∈ rows → selected (app_id row) (app_name row) filters = true → launchers d' !! path_of row = None) ∧
  (∀ p, launchers d !! p = None → launchers d' !! p = None) ∧
  (∀ p, (∀ row, row ∈ rows → selected (app_id row) (app_name row) filters = true → path_of row ≠ p) → launchers d' !! p = launchers d !! p).
Proof.
  revert count d. induction rows as [|row rows IH]; intros count d H.
  { cbn in H. destruct (count =? 0); [done|]. injection H as <- <-. split_and!; [by intros ? ?%elem_of_nil|done|done]. }
  cbn [remove_rows] in H. destruct (selected _ _ filters) eqn:Hsel; destruct (IH _ _ H) as (Hg & Hn & Ho); split_and!.
  - intros r [->|Hr]%elem_of_cons Hs; [apply Hn; apply lookup_delete_eq|by apply Hg].
  - intros p Hp. apply Hn. cbn. by rewrite lookup_delete_None; right.
  - intros p Hp. rewrite Ho; [|intros r Hr; apply Hp; set_solver]. cbn. rewrite lookup_delete_ne; [done|]. apply Hp; [set_solver|done].
  - intros r [->|Hr]%elem_of_cons Hs; [congruence|by apply Hg].
  - done.
  - intros p Hp. apply Ho. intros r Hr. apply Hp. set_solver.
Qed.

(** After an installation every selected application has its launcher, as the check says; and
    removing what was selected takes those launchers away, and no other. *)
Theorem install_then_remove writable ctx filters rows d d1 d2 n m :
  install_rows env_var writable ctx filters rows 0 d = (Ok n, d1) →
  remove_rows env_var filters rows 0 d1 = (Ok m, d2) →
  Forall (λ e, e.2 = true) (launchpad_check env_var filters rows d1) ∧
  Forall (λ e, e.2 = false) (launchpad_check env_var filters rows d2) ∧
  ∀ p, (∀ row, row ∈ rows → selected (app_id row) (app_name row) filters = true → path_of row ≠ p) → launchers d2 !! p = launchers d !! p.
Proof.
  intros Hi Hr. destruct (install_keeps _ _ _ _ _ _ _ _ Hi) as (_ & Hall & Ho1), (remove_gone _ _ _ _ _ _ Hr) as (Hgone & _ & Ho2).
  split_and!.
  - apply Forall_fmap, Forall_forall. intros row [Hs Hin]%list_elem_of_filter. cbn. apply bool_decide_true. by apply Hall.
  - apply Forall_fmap, Forall_forall. intros row [Hs Hin]%list_elem_of_filter. cbn. apply bool_decide_false. rewrite Hgone by done. by intros [? ?].
  - intros p Hp. by rewrite Ho2, Ho1.
Qed.

Lemma install_last writable ctx filters row rows count d n d' :
  selected (app_id row) (app_name row) filters = true →
  install_rows env_var writable ctx filters (rows ++ [row]) count d = (Ok n, d') →
  ∃ p before b, launchers d' !! path_of row = Some b ∧ bundle_resources b = launcher_resources ctx row p before.
Proof.
  intros Hsel. revert count d. induction rows as [|r rows IH]; intros count d H; cbn [Datatypes.app install_rows] in H.
  - rewrite Hsel in H. destruct (build_launcher_app _ _ _ _ _ _ _ _) as [[path|e] d1] eqn:Hb; [|done].
    apply build_ok in Hb as (-> & _ & _ & Hlast). cbn in H. destruct (count + 1 =? 0); [done|]. by injection H as _ <-.
  - destruct (selected (app_id r) _ filters); [|by eapply IH]. destruct (build_launcher_app _ _ _ _ _ _ _ _) as [[path|e] d1]; [|done].
    by eapply IH.
Qed.

(** Two applications with the same name have one launcher between them: installed together,
    the one on disk is the later one's, though the check finds a launcher for both. *)
Theorem same_name_one_launcher writable ctx filters rows first second d d' n :
  launcher_display_name env_var (app_name first) = launcher_display_name env_var (app_name second) →
  first ∈ rows → launchable ctx second →
  selected (app_id first) (app_name first) filters = true → selected (app_id second) (app_name second) filters = true →
  install_rows env_var writable ctx filters (rows ++ [second]) 0 d = (Ok n, d') →
  (first, true) ∈ launchpad_check env_var filters (rows ++ [second]) d' ∧
  ∃ b args, launchers d' !! path_of first = Some b ∧ bundle_launch_args (bundle_resources b) = Some args ∧
    bundle_app_id args = app_id second.
Proof.
  intros Hname Hin Hl Hs1 Hs2 H. destruct (install_last _ _ _ _ _ _ _ _ _ Hs2 H) as (p & before & b & Hb & Hres).
  assert (path_of first = path_of second) as Hpath by (unfold launcher_app_path; by rewrite Hname).
  destruct (install_keeps _ _ _ _ _ _ _ _ H) as (_ & Hall & _). split.
  - apply list_elem_of_fmap. exists first. split; [|apply list_elem_of_filter; split; [done|set_solver]].
    f_equal. symmetry. apply bool_decide_true, Hall; [set_solver|done].
  - exists b. rewrite Hpath, Hres, (launcher_args _ _ _ _ Hl). by eexists.
Qed.
End desk.

(** ** Witnesses *)

Definition desk_context : AppContext :=
  mkAppContext (lit "r") (lit "s") (lit "c") (Some (lit "g")) None (lit "default") 5710 (lit "vbox-0") 640 480 false false.

Definition no_argv : rstring → option (list rstring) := λ _, None.
Definition for_id (id : rstring) : result port_error AppContext * text_file :=
  instance_context no_env desk_context true (sanitize_id id) Not_found.

Definition context_of (id : rstring) : AppContext := match (for_id id).1 with Ok c => c | Err _ => desk_context end.

Lemma for_id_ok id : is_ok (for_id id).1 = true → for_id id = (Ok (context_of id), (for_id id).2).
Proof. unfold context_of. destruct (for_id id) as [[c|e] f]; done. Qed.

Lemma dashes_ok : is_ok (for_id (lit "a--b")).1 = true.
Proof. by vm_compute. Qed.

Lemma dots_ok : is_ok (for_id (lit "a.b")).1 = true.
Proof. by vm_compute. Qed.

Lemma launcher_sockets_agree_witness : socket (context_of (lit "a--b")) ≠ socket_for (sanitize_id (lit "a--b")).
Proof.
  assert (sanitize_id (lit "a--b") ≠ []) as Hne by done.
  pose proof (launcher_sockets_agree no_env desk_context true (lit "a--b") Not_found _ _ Hne (for_id_ok _ dashes_ok)) as H.
  assert (double_dash (sanitize_id (lit "a--b"))) as Hd by (exists [97], [98]; by vm_compute). tauto.
Defined.

Lemma prepared_roundtrip_witness :
  let c := context_of (lit "a.b") in
  let json text := if bool_decide (text = bundle_line c) then
      Some (mkPrepareAppBundle 1 (port c) (socket c) (width c) (height c) (Some (mkPrepareAppDataPlane (lit "tcp-only") None None None))) else None in
  ∀ bundle_form, parse_prepare_app_stdout json (prepare_app_stdout bundle_form c) = Ok (mkPreparedInstance (port c) (socket c) 640 480 ViewTransport_tcp).
Proof.
  intros c json. apply (prepared_roundtrip no_env desk_context true (sanitize_id (lit "a.b")) Not_found c (for_id (lit "a.b")).2).
  - apply (for_id_ok _ dots_ok).
  - by vm_compute.
  - done.
  - done.
  - unfold json. by rewrite bool_decide_true.
Defined.

Definition row_named (id : rstring) : AppRecord := mkAppRecord id (lit "N") (lit "e") [] [] [].

Lemma row_launchable id : presentable id → sanitize_id id ≠ [] → launchable desk_context (row_named id).
Proof. intros Hid Hs. split; try done. Qed.

Lemma launcher_context_agrees_witness :
  let r := launcher_resources desk_context (row_named (lit "a.b")) 5712 ∅ in
  ∃ args, bundle_launch_args r = Some args ∧
    port (from_globals (with_envs no_env (command_env args)) (lit "q") None (helper_options (bundle_instance args))) = 5712.
Proof.
  intros r. assert (launchable desk_context (row_named (lit "a.b"))) as Hl by by apply row_launchable.
  pose proof (launcher_args desk_context (row_named (lit "a.b")) 5712 ∅ Hl) as Ha. fold r in Ha. revert Ha.
  generalize (bundle_command_env r) as e. intros e Ha. eexists. split; [exact Ha|].
  assert (is_u16 5712) as Hp by done.
  pose proof (launcher_context_agrees no_env desk_context (row_named (lit "a.b")) 5712 ∅ (lit "q") None _ Hl Hp Ha) as H.
  destruct H as (_ & _ & _ & H & _). exact H.
Defined.

Lemma default_launch_other_instance_witness :
  resolve_launch_instance None (lit "a.b") ≠ instance (context_of (lit "a.b")).
Proof.
  apply (default_launch_other_instance no_env desk_context true (lit "a.b") Not_found (context_of (lit "a.b")) (for_id (lit "a.b")).2
    (λ _, None) [] _ (Ok tt) (mkPreparedInstance 5712 (lit "vbox-a-b") 640 480 ViewTransport_tcp) ltac:(apply (bool_decide_unpack _); by vm_compute)
    (for_id_ok _ dots_ok) eq_refl).
  by vm_compute.
Defined.

Definition cached_line (id : rstring) : rstring := id ++ [9] ++ lit "N" ++ [9] ++ lit "e" ++ [9; 9; 9; 9] ++ lit "x" ++ [10].

Lemma query_takes_first_match_witness :
  ∃ r, find_app_record no_argv (Contents (cached_line (lit "a.bc") ++ cached_line (lit "a.b"))) (lit "a.b") = Some r ∧ app_id r = lit "a.bc".
Proof.
  destruct (query_takes_first_match no_argv [] (mkAppRecord (lit "a.bc") (lit "N") (lit "e") [] (lit "x") [lit "e"]) []
    (mkAppRecord (lit "a.b") (lit "N") (lit "e") [] (lit "x") [lit "e"]) [] (cached_line (lit "a.bc") ++ cached_line (lit "a.b")) (lit "a.b"))
    as (r & Hr & ->%list_elem_of_singleton); [by vm_compute|done|by vm_compute|by eexists].
Defined.

Definition bare_desk : desk := mkDesk ∅ Not_found.
Definition two_rows : list AppRecord := [row_named (lit "a"); row_named (lit "b")].
Definition installed := install_rows no_env true desk_context [] two_rows 0 bare_desk.

Lemma install_then_remove_witness :
  Forall (λ e, e.2 = false) (launchpad_check no_env [] two_rows (remove_rows no_env [] two_rows 0 installed.2).2).
Proof.
  assert (installed.1 = Ok 2) as Hi by by vm_compute.
  assert ((remove_rows no_env [] two_rows 0 installed.2).1 = Ok 2) as Hr by by vm_compute.
  apply (install_then_remove no_env true desk_context [] two_rows bare_desk installed.2 _ 2 2).
  - rewrite <- Hi. apply surjective_pairing.
  - rewrite <- Hr. apply surjective_pairing.
Defined.

Lemma same_name_one_launcher_witness :
  ∃ b args, launchers installed.2 !! launcher_app_path no_env (row_named (lit "a")) = Some b ∧
    bundle_launch_args (bundle_resources b) = Some args ∧ bundle_app_id args = lit "b".
Proof.
  assert (installed.1 = Ok 2) as Hi by by vm_compute.
  refine (proj2 (same_name_one_launcher no_env true desk_context [] [row_named (lit "a")] (row_named (lit "a")) (row_named (lit "b")) bare_desk installed.2 2
    eq_refl _ _ eq_refl eq_refl _)).
  - by apply list_elem_of_singleton.
  - by apply row_launchable.
  - change ([row_named (lit "a")] ++ [row_named (lit "b")]) with two_rows. rewrite <- Hi. apply surjective_pairing.
Defined.
