(* ===== verification/Volume.v ===== *)
(** * The guest's volume (crates/server/src/volume.rs)

    What the server asks wpctl to do for a change of the host's volume. How the commands end
    is printed and changes nothing, so that it is left out. *)

From Stdlib Require Import SpecFloat.
From S2P Require Import Prelude Text Wire Float ClientNet.

Definition clamp_level (raw : spec_float) : spec_float :=
  match raw with
  | S754_nan => S754_zero false
  | _ => if fltb raw (S754_zero false) then S754_zero false
         else if fltb (F32.of_int 1) raw then F32.of_int 1 else raw
  end.

(** [n] ten-thousandths, as [{:.4}] prints them. *)
Definition fixed4 (n : Z) : rstring :=
  dec (n / 10000) ++ lit "." ++ ((λ d, 48 + n / d mod 10) <$> [1000; 100; 10; 1]).

(** [format!("{x:.4}")] of a finite value: the sign, and the nearest decimal, ties to even. *)
Definition format4 (x : spec_float) : rstring :=
  (if fneg x then lit "-" else []) ++ fixed4 (nearest_even (Z.abs (fnum x) * 10000) (fden x)).

Definition apply_level (level : spec_float) : list rstring :=
  [lit "set-volume"; lit "@DEFAULT_AUDIO_SINK@"; format4 level].

Definition apply_mute (muted : bool) : list rstring :=
  [lit "set-mute"; lit "@DEFAULT_AUDIO_SINK@"; if muted then lit "1" else lit "0"].

(** [apply_volume]: the arguments of wpctl, in order. *)
Definition apply_volume (change : VolumeChange) : list (list rstring) :=
  [apply_level (clamp_level (vol_level change)); apply_mute (vol_muted change)].

Lemma nearest_even_bounds n d m : 0 < d → 0 ≤ n ≤ m * d → 0 ≤ nearest_even n d ≤ m.
Proof.
  intros Hd Hn. unfold nearest_even. assert (0 ≤ n / d ≤ m) as Hq by (split; [by apply Z.div_pos; lia|by apply Z.div_le_upper_bound; lia]).
  destruct (_ || _) eqn:E; [done|]. split; [lia|]. destruct (decide (n / d = m)) as [Hm|]; [|lia].
  exfalso. apply orb_false_iff in E as [E _]. pose proof (Z.mod_pos_bound n d Hd) as Hr.
  rewrite Z.mod_eq, Hm in * by lia. assert (n - d * m = 0) by lia. lia.
Qed.

(** Whatever level a peer sends, the number that reaches wpctl is a decimal of four places
    between 0 and 1: it has no sign, unless the level was a negative zero. *)
Theorem volume_argument level :
  ∃ n, 0 ≤ n ≤ 10000 ∧
    format4 (clamp_level level) = match level with S754_zero true => lit "-" | _ => [] end ++ fixed4 n.
Proof.
  destruct level as [s|s| |s m e]; cbn [clamp_level].
  - exists 0. split; [done|]. by destruct s.
  - exists (if s then 0 else 10000). by destruct s; vm_compute.
  - exists 0. by vm_compute.
  - destruct (fltb (S754_finite s m e) (S754_zero false)) eqn:E1; [exists 0; by destruct s|].
    destruct (fltb (F32.of_int 1) (S754_finite s m e)) eqn:E2; [exists 10000; split; [done|]; by destruct s; vm_compute|].
    change (F32.of_int 1) with (S754_finite false 8388608 (-23)) in E2. unfold fltb, fcompare in E1, E2. set (x := S754_finite s m e) in *.
    assert (0 < fden x) as Hd by apply fden_pos.
    assert (0 ≤ fnum x) as Hx by (destruct (Z.compare_spec (fnum x * fden (S754_zero false)) (fnum (S754_zero false) * fden x)); cbn in *; [lia|done|lia]).
    assert (fnum x ≤ fden x) as Hx1.
    { destruct (Z.le_gt_cases (fnum x) (fden x)) as [|Hgt]; [done|]. exfalso. revert E2.
      change (fnum (S754_finite false 8388608 (-23))) with 8388608. change (fden (S754_finite false 8388608 (-23))) with 8388608.
      cbn match. by rewrite (proj2 (Z.compare_lt_iff _ _)) by lia. }
    exists (nearest_even (fnum x * 10000) (fden x)). split; [apply nearest_even_bounds; lia|].
    unfold format4. rewrite Z.abs_eq by done. destruct s; [|done]. exfalso. unfold x, fnum in Hx.
    assert (0 < Z.pos m * 2 ^ Z.max e 0) by (apply Z.mul_pos_pos; [done|apply Z.pow_pos_nonneg; lia]). lia.
Qed.

(** The command [volume set] with a percentage has the guest's sink set to that percentage,
    at most a hundred: rounding on the way changes nothing. *)
Theorem percent_reaches_sink percent muted :
  0 ≤ percent →
  apply_volume (mkVolumeChange (percent_to_wire_level percent) muted) =
  [[lit "set-volume"; lit "@DEFAULT_AUDIO_SINK@"; fixed4 (100 * Z.min percent 100)];
   [lit "set-mute"; lit "@DEFAULT_AUDIO_SINK@"; if muted then lit "1" else lit "0"]].
Proof.
  intros Hp. unfold apply_volume, apply_level. cbn [vol_level vol_muted]. do 4 f_equal.
  assert (forallb (λ p, bool_decide (format4 (clamp_level (percent_to_wire_level p)) = fixed4 (100 * p))) (seqZ 0 101) = true) as H by by vm_compute.
  assert (percent_to_wire_level percent = percent_to_wire_level (Z.min percent 100)) as ->
    by by unfold percent_to_wire_level; rewrite <- Z.min_assoc, Z.min_id.
  rewrite forallb_forall in H. apply (bool_decide_eq_true_1 _), H, list_elem_of_In, elem_of_seqZ. lia.
Qed.

Lemma percent_reaches_sink_witness :
  apply_volume (mkVolumeChange (percent_to_wire_level 37) false) =
  [[lit "set-volume"; lit "@DEFAULT_AUDIO_SINK@"; lit "0.3700"]; [lit "set-mute"; lit "@DEFAULT_AUDIO_SINK@"; lit "0"]].
Proof. exact (percent_reaches_sink 37 false ltac:(lia)). Defined.
