(* ===== verification/Ctl.v ===== *)
(** * The control commands of the client (crates/client/src/ctl)

    One call of the daemon: the connection, the greeting, the token unless TLS has already
    authenticated the client, the request, its reply, the farewell. What the daemon makes of
    the bytes is [Control.handle_session]. TLS carries the bytes as they are; loading its
    certificates is a parameter. *)

From S2P Require Import Prelude Text Wire Framing Daemon Control Server ClientNet.

(** ** Commands *)

Inductive CtlCmd :=
  | Ctl_Status (addr : SocketAddr)
  | Ctl_StartInstance (addr : SocketAddr) (instance : rstring) (port : Z) (debug : bool)
      (quic_bind : option IpAddr) (quic_port : option Z) (quic_token : option rstring)
  | Ctl_StopInstance (addr : SocketAddr) (instance : rstring)
  | Ctl_LaunchApp (addr : SocketAddr) (instance socket : rstring) (wait_ready_ms : Z) (argv : list rstring)
  | Ctl_WaitSocket (addr : SocketAddr) (socket : rstring) (timeout_ms : Z)
  | Ctl_PrepareDataPlane (addr : SocketAddr) (instance : option rstring) (tcp_addr : SocketAddr)
      (quic_addr : option SocketAddr) (session_token : rstring)
  | Ctl_TlsBootstrap (sans : list rstring) (out_dir : rstring).

Inductive RoutedCmd :=
  | Routed_Rpc (addr : SocketAddr) (method : RpcMethod)
  | Routed_TlsBootstrap (sans : list rstring) (out_dir : rstring).

Definition route_ctl_cmd (cmd : CtlCmd) : result net_error RoutedCmd :=
  match cmd with
  | Ctl_Status addr => Ok (Routed_Rpc addr Rpc_Status)
  | Ctl_StartInstance addr instance port debug quic_bind quic_port quic_token =>
      Ok (Routed_Rpc addr (Rpc_StartInstance instance port debug quic_bind quic_port quic_token))
  | Ctl_StopInstance addr instance => Ok (Routed_Rpc addr (Rpc_StopInstance instance))
  | Ctl_LaunchApp addr instance socket wait_ready_ms argv =>
      match argv with
      | [] => Err (Local_error (lit "launch-app requires at least one argv element"))
      | _ => Ok (Routed_Rpc addr (Rpc_LaunchApp instance socket argv wait_ready_ms))
      end
  | Ctl_WaitSocket addr socket timeout_ms => Ok (Routed_Rpc addr (Rpc_WaitSocket socket timeout_ms))
  | Ctl_PrepareDataPlane addr instance tcp_addr quic_addr session_token =>
      Ok (Routed_Rpc addr (Rpc_PrepareDataPlane instance tcp_addr quic_addr session_token))
  | Ctl_TlsBootstrap sans out_dir => Ok (Routed_TlsBootstrap sans out_dir)
  end.

(** ** The token and TLS *)

(** [read_file]: what reading a path yields. *)
Definition resolve_token (env_value file_path : option rstring)
    (read_file : rstring → result net_error rstring) : result net_error rstring :=
  match trim <$> env_value with
  | Some (c :: t) => Ok (c :: t)
  | _ =>
      match file_path with
      | Some path =>
          s ← read_file path;
          match trim s with
          | [] => Err (Local_error (lit "token file " ++ path ++ lit " is empty"))
          | t => Ok t
          end
      | None => Err (Local_error (lit "set VBOX_CONTROL_TOKEN or VBOX_CONTROL_TOKEN_FILE (run `vbox controld-install` first)"))
      end
  end.

Definition validate_tls_env_triple (ca cert key : option rstring) :
    result net_error (option (rstring * rstring * rstring)) :=
  match ca, cert, key with
  | Some a, Some c, Some k => Ok (Some (a, c, k))
  | None, None, None => Ok None
  | _, _, _ => Err (Local_error (lit "VBOX_TLS_CA, VBOX_TLS_CERT, VBOX_TLS_KEY must all be set or all unset"))
  end.

Definition resolve_tls_server_name (value : option rstring) : rstring :=
  match trim <$> value with
  | Some (c :: s) => c :: s
  | _ => lit "vbox-controld"
  end.

(** What a call finds on its host: the environment, the files, and whether rustls takes the
    certificates of the three files for a server of the given name. *)
Record ctl_host := mkCtlHost {
  env_var : rstring → option rstring;
  read_file : rstring → result net_error rstring;
  tls_config : rstring * rstring * rstring → rstring → result net_error unit
}.

Definition load_token (h : ctl_host) : result net_error rstring :=
  resolve_token (env_var h (lit "VBOX_CONTROL_TOKEN")) (env_var h (lit "VBOX_CONTROL_TOKEN_FILE")) (read_file h).

(** Whether the connection is wrapped in TLS ([CtlClient::is_tls]). *)
Definition load_client_tls (h : ctl_host) : result net_error bool :=
  triple ← validate_tls_env_triple (env_var h (lit "VBOX_TLS_CA")) (env_var h (lit "VBOX_TLS_CERT"))
             (env_var h (lit "VBOX_TLS_KEY"));
  match triple with
  | None => Ok false
  | Some files =>
      _ ← tls_config h files (resolve_tls_server_name (env_var h (lit "VBOX_TLS_SERVER_NAME")));
      Ok true
  end.

(** ** The line to the daemon *)

Definition CONNECT_TIMEOUT_MS : Z := 5000.
Definition READ_TIMEOUT_MS : Z := 60000.
Definition WRITE_TIMEOUT_MS : Z := 10000.

(** What one connection does: how long it takes to be made, if it is; each byte that comes in,
    with how long it is waited for; how long each write waits until the socket has taken it,
    as many as it takes, and what it takes of the one after them. *)
Record ctl_line := mkLine {
  line_connect : option Z;
  line_cert : list byte;
  line_bytes : list (Z * byte);
  line_stalls : list Z;
  line_part : nat
}.

(** [set_read_timeout]: a byte that is not there in time makes the read fail. *)
Definition read_within (limit : Z) (bytes : list (Z * byte)) : source :=
  bytes ≫= λ '(wait, b), if wait <? limit then [RE_byte b] else [RE_error WouldBlock; RE_byte b].

(** [set_write_timeout]: the writes that work before the first that does not. *)
Fixpoint writes_within (limit : Z) (stalls : list Z) : nat :=
  match stalls with
  | [] => O
  | wait :: rest => if wait <? limit then S (writes_within limit rest) else O
  end.

(** [connect_timeout] and the two timeouts. *)
Definition connect_line (l : ctl_line) : conn :=
  mkConn (match line_connect l with Some wait => wait <? CONNECT_TIMEOUT_MS | None => false end) (line_cert l)
    (read_within READ_TIMEOUT_MS (line_bytes l)) [] (writes_within WRITE_TIMEOUT_MS (line_stalls l)) (line_part l).

(** ** The call *)

Section call.
Context `{C : Codec Message}.
(** The version of the crate. *)
Context (version : rstring).

Definition build_ctl_hello : Hello :=
  mkHello PROTOCOL_VERSION (lit "vbox-client/" ++ version ++ lit " (ctl)").

Definition ctl_hello : Message := Message_Hello build_ctl_hello.

(** The id of the reply is not looked at. *)
Definition rpc_round_trip (id : Z) (method : RpcMethod) : prog conn RpcOk :=
  write_message (Message_RpcRequest (mkRpcRequest id method));;
  m ← recv read_frame;
  lift match m with
       | Message_RpcResponse r =>
           match resp_result r with RpcResult_Ok ok => Ok ok | RpcResult_Err msg => Err (Rpc_failed msg) end
       | Message_Error e => Err (Server_error (perr_code e) (perr_message e))
       | other => Err (Expected_response (message_kind other))
       end.

(** The answer to the greeting: any [Welcome] will do. *)
Definition await_welcome : prog conn unit :=
  m ← recv read_frame;
  lift match m with
       | Message_Welcome _ => Ok tt
       | Message_Error e => Err (Server_error (perr_code e) (perr_message e))
       | other => Err (Expected_welcome (message_kind other))
       end.

Definition authenticate_call (h : ctl_host) : prog conn unit :=
  token ← lift (load_token h);
  rpc_round_trip 1 (Rpc_Authenticate token);;
  mret tt.

(** The dialogue on a connection. *)
Definition exchange (h : ctl_host) (method : RpcMethod) : prog conn RpcOk :=
  connect;;
  tls_mode ← lift (load_client_tls h);
  send write_prelude;;
  recv read_prelude;;
  write_message ctl_hello;;
  await_welcome;;
  (if tls_mode : bool then mret tt else authenticate_call h);;
  ok ← rpc_round_trip 2 method;
  ignore (write_message (goodbye (lit "ctl done")));;
  mret ok.

(** The call: the result, and the connection it leaves. *)
Definition call (h : ctl_host) (method : RpcMethod) (l : ctl_line) : result net_error RpcOk * conn :=
  exchange h method (connect_line l).

End call.

(** ** What is printed *)

(** An error as a chain of messages, outermost first; a failure the daemon reports is one. *)
Definition format_ctl_error (err : list rstring) : rstring :=
  let msg := default [] (head err) in
  lit "controld error: " ++
  (if contains msg ([10] ++ lit "  caused by:") then msg else join (lit ": ") err).

(** ** The token (crates/controld/src/main.rs and the caller's copy of its file) *)

Inductive token_error := Tok_dir | Tok_read | Tok_random | Tok_write | Tok_chmod.

(** A file that may not exist, or may not be read as text. *)
Inductive token_file := No_file | Unreadable | Token_text (text : rstring) (mode : Z).

(** What the system answers while the token is ensured: the random bytes among it. *)
Record token_env := mkTokenEnv {
  mkdir_ok : bool; write_ok : bool; chmod_ok : bool;
  urandom : option (list byte);
  fresh_mode : Z
}.

Definition TOKEN_BYTES : Z := 32.

(** [random_hex_token]: [urandom] holds as many bytes as were asked for. *)
Definition random_hex_token (bytes : list byte) : rstring :=
  bytes ≫= λ b, [hex_char (byte_to_Z b / 16); hex_char (byte_to_Z b mod 16)].

Definition new_token (e : token_env) (file : token_file) : result token_error rstring * token_file :=
  match urandom e with
  | None => (Err Tok_random, file)
  | Some bytes =>
      let token := random_hex_token bytes in
      if negb (write_ok e) then (Err Tok_write, file)
      else if negb (chmod_ok e) then (Err Tok_chmod, Token_text token (fresh_mode e))
      else (Ok token, Token_text token 384)
  end.

Definition ensure_token (e : token_env) (file : token_file) : result token_error rstring * token_file :=
  if negb (mkdir_ok e) then (Err Tok_dir, file) else
  match file with
  | Unreadable => (Err Tok_read, file)
  | No_file => new_token e file
  | Token_text s _ => match trim s with [] => new_token e file | trimmed => (Ok trimmed, file) end
  end.

(** What a caller reads of a file that is a copy of it. *)
Definition copy_of (file : token_file) (path : rstring) : result net_error rstring :=
  match file with Token_text s _ => Ok s | _ => Err (Local_error (lit "read token file " ++ path)) end.

(** ** The call and the daemon *)

Section meeting.
Context `{C : Codec Message, L : !CodecLaws Message}.

(** *** What the call sends *)

Context (version : rstring).
Abbreviation the_hello := (ctl_hello version).

Definition auth_requests (tls : bool) (token : rstring) : list Message :=
  if tls then [] else [Message_RpcRequest (mkRpcRequest 1 (Rpc_Authenticate token))].

(** All that a call may send, the farewell apart. *)
Definition ctl_dialogue (tls : bool) (token : rstring) (method : RpcMethod) : list Message :=
  the_hello :: auth_requests tls token ++ [Message_RpcRequest (mkRpcRequest 2 method)].

Definition farewell : Message := goodbye (lit "ctl done").

Lemma silent_lift {A} (r : result net_error A) : silent (lift r).
Proof. done. Qed.

Lemma silent_recv_lift {A B} (rd : reader A) (f : A → result net_error B) : silent (m ← recv rd; lift (f m)).
Proof.
  intros c. pose proof (silent_recv rd c) as H. unfold mbind, prog_bind, lift.
  destruct (recv rd c) as [[a|e] c1]; exact H.
Qed.

Lemma sends_rpc id method : sends [Message_RpcRequest (mkRpcRequest id method)] [] (rpc_round_trip id method).
Proof.
  apply (sends_bind _ _ [_] []); [apply sends_message|intros _]. apply sends_silent, silent_recv_lift.
Qed.

Lemma lift_bind {S A B} (a : A) (f : A → prog S B) : lift (Ok a) ≫= f = f a.
Proof. done. Qed.

Lemma sends_auth h token : load_token h = Ok token → sends (auth_requests false token) [] (authenticate_call h).
Proof.
  intros Ht. unfold authenticate_call. rewrite Ht, lift_bind. cbn [auth_requests].
  apply (sends_bind _ _ [_] []); [apply sends_rpc|intros ok]. by apply sends_silent.
Qed.

Lemma parts_exchange h tls token method :
  load_client_tls h = Ok tls → load_token h = Ok token ∨ tls = true →
  parts (ctl_dialogue tls token method) farewell (exchange version h method).
Proof.
  intros Htls Htok. pose (asked := connect;; send write_prelude;; recv read_prelude;; write_message the_hello;; await_welcome;;
    (if tls then mret tt else authenticate_call h);; rpc_round_trip 2 method : prog conn RpcOk).
  assert (opens (ctl_dialogue tls token method) [] asked) as Ho.
  { unfold asked, ctl_dialogue. apply opens_silent; [done|intros _].
    apply opens_prelude; [by apply writes_send|intros _].
    apply (sends_bind _ _ []); [apply sends_silent, silent_recv|intros _].
    apply (sends_bind _ _ [the_hello]); [apply sends_message|intros _].
    apply (sends_bind _ _ []); [apply sends_silent, silent_recv_lift|intros _].
    apply sends_bind; [destruct tls; [by apply sends_silent|destruct Htok as [Htok|]; [by apply sends_auth|done]]|intros _].
    apply sends_rpc. }
  pose proof (parts_farewell asked farewell (λ ok, mret ok) _ Ho (λ _ _, eq_refl)) as Hp.
  intros c r c' H. apply (Hp c r c'). revert H. unfold exchange, asked. rewrite Htls. unfold lift, mbind, prog_bind.
  repeat (case_match; try done); by intros.
Qed.

(** *** What the call reads *)

(** Nothing more to read, or an error. *)
Definition stops (rest : source) : Prop := rest = [] ∨ ∃ e rest', rest = RE_error e :: rest'.

(** A peer that answers [ms], up to the byte where its answer is cut or late. *)
Definition answers (ms : list Message) (c : conn) : Prop :=
  ∃ bs k rest, frames_of ms bs ∧ incoming c = bytes_of (take k bs) ++ rest ∧ stops rest.

Lemma read_within_stops limit bytes :
  ∃ k rest, read_within limit bytes = bytes_of (take k bytes.*2) ++ rest ∧ stops rest.
Proof.
  induction bytes as [|[wait b] bytes (k & rest & IH & Hstop)]; [by exists O, []; split; [|left]|].
  unfold read_within in *. cbn [mbind list_bind fmap list_fmap]. destruct (wait <? limit).
  - exists (S k), rest. cbn [take]. rewrite IH. done.
  - exists O. eexists. split; [reflexivity|]. right. by eexists _, _.
Qed.

Lemma bytes_of_inj a b : bytes_of a = bytes_of b → a = b.
Proof. apply list_fmap_eq_inj. by intros x y [= ->]. Qed.

Lemma bytes_of_cut (a b : list byte) rest x k :
  bytes_of (take k b) ++ rest = bytes_of a ++ x → stops rest →
  ∃ y, b = a ++ y ∧ x = bytes_of (take (k - length a) y) ++ rest.
Proof.
  intros H Hstop. assert (∃ z, bytes_of (take k b) = bytes_of a ++ z ∧ x = z ++ rest) as (z & Hz & ->).
  { apply app_eq_inv in H as [(z & -> & ->)|(z & Ha & ->)]; [by exists z|].
    destruct z as [|e z]; [exists []; by rewrite app_nil_r in *|]. exfalso.
    assert (e ∈ bytes_of a) as He by (rewrite Ha; apply elem_of_app; right; left).
    unfold bytes_of in He. apply list_elem_of_fmap in He as (y & -> & _). by destruct Hstop as [|(? & ? & ?)]. }
  clear H. assert (z = bytes_of (drop (length a) (take k b))) as ->.
  { unfold bytes_of in *. by rewrite fmap_drop, Hz, drop_app_length' by by rewrite length_fmap. }
  rewrite <- bytes_of_app in Hz. apply bytes_of_inj in Hz.
  assert (take (length a) (take k b) = a) as Ha by by rewrite Hz, take_app_length.
  assert (length a ≤ k)%nat by (rewrite <- Ha, !length_take; lia).
  rewrite take_take, Nat.min_l in Ha by done. exists (drop (length a) b).
  rewrite <- Ha at 1. rewrite take_drop, skipn_firstn_comm. done.
Qed.

Lemma recv_answers ms c m c' :
  answers ms c → recv read_frame c = (Ok m, c') → ∃ ms', ms = m :: ms' ∧ answers ms' c'.
Proof.
  intros (bs & k & tail & Hms & Hin & Hstop) H. unfold recv in H. destruct (read_frame (incoming c)) as [[m'|e] rest] eqn:Hr; [|done].
  injection H as -> <-. apply read_frame_ok in Hr as (p & Hsrc & Hlen & Hp). rewrite Hin in Hsrc.
  apply bytes_of_cut in Hsrc as (y & -> & ->); [|done].
  destruct ms as [|m1 ms].
  { destruct Hms as (frs & Hf & Hc). inversion Hf; subst. apply (f_equal length) in Hc.
    rewrite length_app, frame_layout_length in Hc. cbn [concat length] in Hc. lia. }
  apply frames_of_cons in Hms as (f & b & Hf & Hms & Hb).
  pose proof (encode_read _ _ (bytes_of b) Hf) as H1. rewrite <- bytes_of_app, <- Hb, bytes_of_app in H1.
  assert (read_frame (bytes_of (frame_layout (message_kind m) p) ++ bytes_of y) = (Ok m, bytes_of y)) as H2
    by by apply read_frame_ok; exists p.
  rewrite H2 in H1. injection H1 as <- Hy%bytes_of_inj. exists ms. split; [done|]. subst y. by eexists b, _, tail.
Qed.

(** A failure on this side, not one the daemon reports. *)
Definition ours {A} (r : result net_error A) : Prop := ∃ e, r = Err e ∧ ∀ msg, e ≠ Rpc_failed msg.

(** [m] ends in a failure of ours, or as [P] says. *)
Definition ends {A} (m : prog conn A) (c : conn) (P : result net_error A → conn → Prop) : Prop :=
  let '(r, c') := m c in ours r ∨ P r c'.

Lemma ends_bind {A B} (m : prog conn A) (f : A → prog conn B) c (P : result net_error A → conn → Prop) Q :
  ends m c P → (∀ r c1, P r c1 → match r with Ok a => ends (f a) c1 Q | Err e => ours (Err (A := B) e) ∨ Q (Err e) c1 end) →
  ends (m ≫= f) c Q.
Proof.
  unfold ends, mbind, prog_bind. intros Hm Hf. destruct (m c) as [[a|e] c1].
  - destruct Hm as [(e & ? & _)|Hm]; [done|]. exact (Hf (Ok a) c1 Hm).
  - destruct Hm as [(e' & [= <-] & He)|Hm]; [left; by exists e|]. exact (Hf (Err e) c1 Hm).
Qed.

Lemma ends_mono {A} (m : prog conn A) c (P Q : result net_error A → conn → Prop) :
  ends m c P → (∀ r c1, P r c1 → Q r c1) → ends m c Q.
Proof. unfold ends. destruct (m c) as [r c1]. intros [H|H] HPQ; [by left|right; by apply HPQ]. Qed.

Lemma message_reads ms m c : answers ms c → ends (write_message m) c (λ r c1, r = Ok tt ∧ answers ms c1).
Proof.
  intros Hms. unfold ends, write_message, send. destruct (encode_frame m) as [f|e]; [|left; by eexists].
  destruct (takes c); [left; by eexists|by right].
Qed.

Lemma recv_reads ms c :
  answers ms c → ends (recv read_frame) c (λ r c1, ∃ m ms', r = Ok m ∧ ms = m :: ms' ∧ answers ms' c1).
Proof.
  intros Hms. unfold ends. destruct (recv read_frame c) as [[m|e] c1] eqn:H.
  - destruct (recv_answers _ _ _ _ Hms H) as (ms' & -> & H'). right. by exists m, ms'.
  - left. exists e. split; [done|]. intros msg ->. unfold recv in H. by destruct (read_frame (incoming c)) as [[]].
Qed.

(** The reply to a request, when there is one. *)
Definition rpc_outcome (res : RpcResult) : result net_error RpcOk :=
  match res with RpcResult_Ok ok => Ok ok | RpcResult_Err msg => Err (Rpc_failed msg) end.

Lemma rpc_reads ms id method c i res rest :
  answers ms c → ms `prefix_of` Message_RpcResponse (mkRpcResponse i res) :: rest →
  ends (rpc_round_trip id method) c (λ r c1, r = rpc_outcome res ∧
    ∃ ms', ms = Message_RpcResponse (mkRpcResponse i res) :: ms' ∧ answers ms' c1).
Proof.
  intros Hms Hp. unfold rpc_round_trip. eapply ends_bind; [by apply message_reads|]. intros ? c1 [-> H1].
  eapply ends_bind; [by apply recv_reads|]. intros ? c2 (m & ms' & -> & -> & H2).
  apply prefix_cons_inv_1 in Hp as ->. right. split; [done|]. by exists ms'.
Qed.

Lemma welcome_reads ms c w rest :
  answers ms c → ms `prefix_of` Message_Welcome w :: rest →
  ends await_welcome c (λ r c1, r = Ok tt ∧ ∃ ms', ms = Message_Welcome w :: ms' ∧ answers ms' c1).
Proof.
  intros Hms Hp. eapply ends_bind; [by apply recv_reads|]. intros ? c2 (m & ms' & -> & -> & H2).
  apply prefix_cons_inv_1 in Hp as ->. right. split; [done|]. by exists ms'.
Qed.

Lemma prelude_reads bs k rest ms c :
  frames_of ms bs → incoming c = bytes_of (take k (write_prelude ++ bs)) ++ rest → stops rest →
  ends (recv read_prelude) c (λ r c1, is_ok r = true ∧ answers ms c1).
Proof.
  intros Hms Hin Hstop. unfold ends, recv. rewrite Hin. change write_prelude with (MAGIC ++ [Byte.x00; Byte.x0f]).
  do 6 (destruct k as [|k]; [destruct Hstop as [->|(e & rest' & ->)]; left; eexists; (by split; [reflexivity|])|]).
  right. split; [done|]. by exists bs, k, rest.
Qed.

Lemma auth_reads h ms c auth rest :
  answers ms c → ms `prefix_of` Message_RpcResponse (mkRpcResponse 1 auth) :: rest →
  (∀ msg, load_token h ≠ Err (Rpc_failed msg)) →
  ends (authenticate_call h) c (λ r c1, (rpc_is_ok auth = true ∧ r = Ok tt ∧
     ∃ ms', ms = Message_RpcResponse (mkRpcResponse 1 auth) :: ms' ∧ answers ms' c1) ∨
     ∃ msg, auth = RpcResult_Err msg ∧ r = Err (Rpc_failed msg)).
Proof.
  intros Hms Hp Ht. unfold authenticate_call. destruct (load_token h) as [token|e] eqn:Htok.
  2: { left. exists e. split; [done|]. intros msg ->. by apply (Ht msg). }
  rewrite lift_bind. eapply ends_bind; [by eapply rpc_reads|]. intros ? c1 [-> H1].
  destruct auth as [ok|msg]; cbn [rpc_outcome].
  - right. left. by split.
  - right. right. by exists msg.
Qed.

(** The replies a call is entitled to. *)
Definition ctl_replies (tls : bool) (w : Welcome) (auth res : RpcResult) : list Message :=
  Message_Welcome w :: (if tls then [] else [Message_RpcResponse (mkRpcResponse 1 auth)])
  ++ [Message_RpcResponse (mkRpcResponse 2 res)].

Lemma exchange_reads h tls method c ms bs k rest w auth res :
  load_client_tls h = Ok tls → (tls = false → ∀ msg, load_token h ≠ Err (Rpc_failed msg)) →
  frames_of ms bs → incoming c = bytes_of (take k (write_prelude ++ bs)) ++ rest → stops rest →
  ms `prefix_of` ctl_replies tls w auth res →
  ends (exchange version h method) c (λ r _,
    (tls = false ∧ ∃ msg, auth = RpcResult_Err msg ∧ r = Err (Rpc_failed msg)) ∨
    (ms = ctl_replies tls w auth res ∧ (tls = true ∨ rpc_is_ok auth = true) ∧ r = rpc_outcome res)).
Proof.
  intros Htls Htok Hms Hin Hstop Hp. unfold exchange.
  eapply (ends_bind _ _ _ (λ r c1, r = Ok tt ∧ c1 = c)).
  { unfold ends, connect. destruct (reachable c); [by right|left; by eexists]. }
  intros ? ? [-> ->]. rewrite Htls, lift_bind.
  eapply (ends_bind _ _ _ (λ r c1, r = Ok tt ∧ incoming c1 = incoming c)).
  { unfold ends, send. destruct (takes c); [left; by eexists|by right]. }
  intros ? c1 [-> Hc1]. rewrite <- Hc1 in Hin. eapply ends_bind; [by eapply prelude_reads|]. clear Hc1.
  intros r c2 [Hr Hc2]. destruct r as [v|e]; [|done].
  eapply ends_bind; [by apply message_reads|]. intros ? c3 [-> Hc3].
  eapply ends_bind; [by eapply welcome_reads|]. intros ? c4 (-> & ms' & -> & Hc4).
  apply prefix_cons_inv_2 in Hp.
  eapply (ends_bind _ _ _ (λ r c5, (tls = false ∧ ∃ msg, auth = RpcResult_Err msg ∧ r = Err (Rpc_failed msg)) ∨
    (r = Ok tt ∧ (tls = true ∨ rpc_is_ok auth = true) ∧
     ∃ ms2, ms' = (if tls then [] else [Message_RpcResponse (mkRpcResponse 1 auth)]) ++ ms2 ∧ answers ms2 c5))).
  { destruct tls; [by right; right; split_and!; [..|by left|by exists ms']|].
    eapply ends_mono; [eapply auth_reads; by eauto|]. intros r c5 [(Ha & -> & ms2 & -> & H2)|Hr2]; [right|by left; split].
    split_and!; [done|by right|by exists ms2]. }
  intros r c5 [(Ht & msg & -> & ->)|(-> & Ht & ms2 & -> & Hc5)]; [right; left; by split; [|exists msg]|].
  apply prefix_app_inv in Hp. eapply ends_bind; [by eapply rpc_reads|].
  intros r c6 (-> & ms3 & -> & Hc6). apply prefix_cons_inv_2, prefix_nil_inv in Hp as ->.
  destruct res as [ok|msg]; cbn [rpc_outcome]; right; right; by split_and!.
Qed.

(** *** What the daemon does *)

Context `{C' : Codec (list InstanceSnapshot)}.
Context (as_bytes : rstring → list byte) (debug_str : rstring → rstring) (daemon_version : rstring).

(** The messages as they reach the daemon, the [i]-th in the environment [es i]. *)
Definition arriving (es : nat → rpc_env) (ms : list Message) : list (rpc_env * Message) :=
  imap (λ i m, (es i, m)) ms.

Context (sid : Z) (expected : rstring) (es : nat → rpc_env) (st : DaemonState).

Definition the_session (tls : bool) (ms : list Message) : DaemonState * list Message * session_end :=
  handle_session as_bytes debug_str daemon_version sid tls expected st (arriving es ms).

(** The daemon has reason to trust the caller. *)
Definition trusted (tls : bool) (token : rstring) : bool := tls || bool_decide (as_bytes token = as_bytes expected).

(** The request itself, run once on the state it finds. *)
Definition the_effect (tls : bool) (method : RpcMethod) : DaemonState * RpcResult :=
  dispatch_method debug_str (es (if tls then 1 else 2)%nat) st method.

Definition ordinary_method (method : RpcMethod) : bool :=
  match method with Rpc_Authenticate _ => false | _ => true end.

Lemma authenticate_ok token : rpc_is_ok (authenticate (as_bytes token) (as_bytes expected)) = bool_decide (as_bytes token = as_bytes expected).
Proof.
  unfold authenticate. pose proof (constant_time_eq_true (as_bytes token) (as_bytes expected)) as H.
  destruct (constant_time_eq _ _); case_bool_decide; naive_solver.
Qed.

Lemma dispatch_request e s id method auth :
  ordinary_method method = true →
  dispatch as_bytes debug_str e s (mkRpcRequest id method) auth expected =
  if auth : bool then let '(s', res) := dispatch_method debug_str e s method in (s', true, mkRpcResponse id res)
  else (s, false, mkRpcResponse id (RpcResult_Err (lit "not authenticated"))).
Proof.
  intros Hm. unfold dispatch, dispatch_result. cbn [req_method req_id].
  destruct method; try done; destruct auth; try done; cbn [negb]; by destruct (dispatch_method _ _ _ _).
Qed.

Lemma dispatch_auth e s token :
  dispatch as_bytes debug_str e s (mkRpcRequest 1 (Rpc_Authenticate token)) false expected =
  (s, bool_decide (as_bytes token = as_bytes expected), mkRpcResponse 1 (authenticate (as_bytes token) (as_bytes expected))).
Proof.
  unfold dispatch, dispatch_result. cbn [req_method req_id]. rewrite authenticate_ok. by case_bool_decide.
Qed.

(** What the daemon answers to the request. *)
Definition the_answer (tls : bool) (token : rstring) (method : RpcMethod) : RpcResult :=
  if trusted tls token then (the_effect tls method).2 else RpcResult_Err (lit "not authenticated").

Definition the_replies (tls : bool) (token : rstring) (method : RpcMethod) : list Message :=
  ctl_replies tls (build_welcome daemon_version sid) (authenticate (as_bytes token) (as_bytes expected))
    (the_answer tls token method).

(** The initial parts of a list of constructors. *)
Ltac prefix_cases H :=
  match type of H with
  | ?ms `prefix_of` _ :: _ =>
      destruct ms as [|? ms];
      [clear H|let E := fresh in pose proof (prefix_cons_inv_1 _ _ _ _ H) as E; apply prefix_cons_inv_2 in H;
       rewrite E in *; clear E; prefix_cases H]
  | _ `prefix_of` [] => apply prefix_nil_inv in H; rewrite H in *; clear H
  end.

(** The request, and what may follow it. *)
Lemma loop_request e s method auth (tail : list (rpc_env * Message)) :
  ordinary_method method = true → snd <$> tail `prefix_of` [farewell] →
  session_loop as_bytes debug_str expected s auth ((e, Message_RpcRequest (mkRpcRequest 2 method)) :: tail) =
  let '(s', res) := if auth then dispatch_method debug_str e s method else (s, RpcResult_Err (lit "not authenticated")) in
  if reply_ok e then (s', [Message_RpcResponse (mkRpcResponse 2 res)], End_ok) else (s', [], End_error).
Proof.
  intros Hm Ht. cbn [session_loop decide_session_action]. rewrite dispatch_request by done.
  assert (∀ s' a, session_loop as_bytes debug_str expected s' a tail = (s', [], End_ok)) as Hend.
  { intros s' a. destruct tail as [|[e1 m1] tail]; [done|]. csimpl in Ht. by apply prefix_cons_inv_1 in Ht as ->. }
  destruct auth; [destruct (dispatch_method _ _ _ _)|]; destruct (reply_ok e); cbn [negb]; by rewrite ?Hend.
Qed.

Lemma loop_auth e s token (tail : list (rpc_env * Message)) :
  session_loop as_bytes debug_str expected s false ((e, Message_RpcRequest (mkRpcRequest 1 (Rpc_Authenticate token))) :: tail) =
  if reply_ok e then
    let '(s', out, fin) := session_loop as_bytes debug_str expected s (bool_decide (as_bytes token = as_bytes expected)) tail in
    (s', Message_RpcResponse (mkRpcResponse 1 (authenticate (as_bytes token) (as_bytes expected))) :: out, fin)
  else (s, [], End_error).
Proof. cbn [session_loop decide_session_action]. rewrite dispatch_auth. by destruct (reply_ok e). Qed.

Lemma session_hello tls e (tail : list (rpc_env * Message)) :
  handle_session as_bytes debug_str daemon_version sid tls expected st ((e, the_hello) :: tail) =
  if reply_ok e then
    let '(s', out, fin) := session_loop as_bytes debug_str expected st tls tail in
    (s', Message_Welcome (build_welcome daemon_version sid) :: out, fin)
  else (st, [], End_error).
Proof. unfold handle_session, ctl_hello. cbn [check_protocol_version]. by destruct (reply_ok e). Qed.

Lemma request_side (f : nat → rpc_env) method auth ms :
  ordinary_method method = true → ms `prefix_of` [Message_RpcRequest (mkRpcRequest 2 method); farewell] →
  let done := dispatch_method debug_str (f 0%nat) st method in
  let answer := Message_RpcResponse (mkRpcResponse 2 (if auth : bool then done.2 else RpcResult_Err (lit "not authenticated"))) in
  let '(st', out, _) := session_loop as_bytes debug_str expected st auth (imap (λ i m, (f i, m)) ms) in
  out `prefix_of` [answer] ∧ (st' = st ∨ auth = true ∧ st' = done.1) ∧ (out = [answer] → auth = true → st' = done.1).
Proof.
  intros Hm Hp. destruct ms as [|m ms]; [split_and!; [apply prefix_nil|by left|done]|].
  apply prefix_cons_inv_1 in Hp as Hm0. apply prefix_cons_inv_2 in Hp. subst m.
  rewrite imap_cons, loop_request; [|done|].
  2: { destruct ms as [|m ms]; [apply prefix_nil|]. apply prefix_cons_inv_1 in Hp as Hm0. apply prefix_cons_inv_2, prefix_nil_inv in Hp. by subst. }
  cbv zeta. destruct auth.
  - destruct (dispatch_method _ _ _ _) as [s' res]; cbn [fst snd]. destruct (reply_ok _).
    + split_and!; [done|by right|done].
    + split_and!; [apply prefix_nil|by right|done].
  - destruct (reply_ok _); (split_and!; [try done; apply prefix_nil|by left|done]).
Qed.

Lemma daemon_side tls token method ms :
  ordinary_method method = true → ms `prefix_of` ctl_dialogue tls token method ++ [farewell] →
  let '(st', out, _) := the_session tls ms in
  out `prefix_of` the_replies tls token method ∧
  (st' = st ∨ trusted tls token = true ∧ st' = (the_effect tls method).1) ∧
  (out = the_replies tls token method → trusted tls token = true → st' = (the_effect tls method).1).
Proof.
  intros Hm Hp. unfold the_session, the_replies, ctl_replies, the_answer, the_effect, trusted, ctl_dialogue, auth_requests, arriving in *.
  destruct ms as [|m ms]; [split_and!; [apply prefix_nil|by left|done]|].
  cbn [app] in Hp. apply prefix_cons_inv_1 in Hp as Hm0. apply prefix_cons_inv_2 in Hp. subst m.
  rewrite imap_cons, session_hello. destruct (reply_ok (es 0)); [|split_and!; [apply prefix_nil|by left|done]].
  destruct tls; cbn [app orb] in *.
  - pose proof (request_side (λ i, es (S i)) method true ms Hm Hp) as H. cbv zeta in H.
    destruct (session_loop _ _ _ _ _ _) as [[st' out] fin]. destruct H as (Ho & Hs & Hd).
    split_and!; [by apply prefix_cons|done|]. intros [= Heq] _. by apply Hd.
  - destruct ms as [|m ms]; [split_and!; [apply prefix_cons, prefix_nil|by left|done]|].
    apply prefix_cons_inv_1 in Hp as Hm0. apply prefix_cons_inv_2 in Hp. subst m.
    rewrite imap_cons. unfold compose. cbv beta. rewrite loop_auth. destruct (reply_ok _); [|split_and!; [apply prefix_cons, prefix_nil|by left|done]].
    pose proof (request_side (λ i, es (S (S i))) method (bool_decide (as_bytes token = as_bytes expected)) ms Hm Hp) as H. cbv zeta in H.
    destruct (session_loop _ _ _ _ _ _) as [[st' out] fin]. destruct H as (Ho & Hs & Hd).
    split_and!; [by apply prefix_cons, prefix_cons|done|]. intros [= Heq]. by apply Hd.
Qed.

(** C18: whatever breaks between them, a call of a control command changes the daemon at most
    once, and only with the right token or over TLS; when it reports success the daemon has
    done what it asked and the result is the daemon's; when it reports a failure of the
    daemon's, that is the daemon's answer, or the token was refused and nothing was done. What
    breaks may be the connection, anywhere in what the client writes ([d] is what of it
    reaches the daemon) and in what the daemon answers, or the patience of the client: a
    connection, a byte or a write that is late ends the call with an error of its own. *)
Theorem ctl_call_once h tls token method l r c' d bs k :
  load_client_tls h = Ok tls → load_token h = Ok token ∨ tls = true → ordinary_method method = true →
  call version h method l = (r, c') → d `prefix_of` outgoing c' →
  let '(st', out, _) := the_session tls (received d) in
  frames_of out bs → (line_bytes l).*2 = take k (write_prelude ++ bs) →
  let '(after, answer) := the_effect tls method in
  (st' = st ∨ trusted tls token = true ∧ st' = after) ∧
  (∀ ok, r = Ok ok → trusted tls token = true ∧ st' = after ∧ answer = RpcResult_Ok ok) ∧
  (∀ msg, r = Err (Rpc_failed msg) → if trusted tls token then st' = after ∧ answer = RpcResult_Err msg else st' = st).
Proof.
  intros Htls Htok Hm H Hd. unfold call in H.
  destruct (parts_received _ _ _ (connect_line l) _ _ d (parts_exchange _ _ _ method Htls Htok) eq_refl H Hd) as [Hsent _].
  pose proof (daemon_side tls token method _ Hm Hsent) as Hdae. clear Hd.
  destruct (the_session _ _) as [[st' out] fin]. destruct Hdae as (Ho & Hs & Hdone). intros Hbs Hin.
  assert (tls = false → ∀ msg, load_token h ≠ Err (Rpc_failed msg)) as Ht by (intros ->; destruct Htok as [->|]; done).
  destruct (read_within_stops READ_TIMEOUT_MS (line_bytes l)) as (j & rest & Hsrc & Hstop). rewrite Hin, take_take in Hsrc.
  pose proof (exchange_reads _ _ method (connect_line l) _ _ _ rest _ _ _ Htls Ht Hbs Hsrc Hstop Ho) as Hr. unfold ends in Hr. rewrite H in Hr.
  assert (tls = true ∨ rpc_is_ok (authenticate (as_bytes token) (as_bytes expected)) = true ↔ trusted tls token = true) as Htr.
  { rewrite authenticate_ok. unfold trusted. destruct tls; cbn; naive_solver. }
  unfold the_replies, the_answer in *. destruct (the_effect tls method) as [after answer]. cbn [fst snd] in *. split; [done|].
  destruct Hr as [(e & -> & He)|[(-> & msg & Ha & ->)|(Hfull & Htrust%Htr & ->)]].
  - split; [done|]. intros msg [= ->]. by destruct (He msg).
  - split; [done|]. intros msg' [= ->]. destruct (trusted false token) eqn:E; [|by destruct Hs as [|[]]].
    destruct (proj2 Htr eq_refl) as [?|E2]; [done|]. by rewrite Ha in E2.
  - specialize (Hdone Hfull Htrust). rewrite Htrust in *. split.
    + intros ok Hok. destruct answer; [|done]. cbn in Hok. by simplify_eq.
    + intros msg Hmsg. destruct answer; [done|]. cbn in Hmsg. by simplify_eq.
Qed.

Lemma read_at m f re p i o n k :
  encode_frame m = Ok f → recv read_frame (mkConn re p (bytes_of f ++ i) o n k) = (Ok m, mkConn re p i o n k).
Proof. intros Hf. by apply recv_at, encode_read. Qed.

Lemma rpc_at id method i res q a re p inc o n k :
  encode_frame (Message_RpcRequest (mkRpcRequest id method)) = Ok q →
  encode_frame (Message_RpcResponse (mkRpcResponse i res)) = Ok a →
  rpc_round_trip id method (mkConn re p (bytes_of a ++ inc) o (S n) k) = (rpc_outcome res, mkConn re p inc (o ++ q) n k).
Proof.
  intros Hq Ha. unfold rpc_round_trip.
  by rewrite (prog_bind_at _ _ _ _ _ (message_at _ _ _ _ _ _ _ _ Hq)), (prog_bind_at _ _ _ _ _ (read_at _ _ _ _ _ _ _ _ Ha)).
Qed.

(** The whole session, when every reply can be written. *)
Lemma daemon_full tls token method more :
  ordinary_method method = true → trusted tls token = true → (∀ i, reply_ok (es i) = true) → more `prefix_of` [farewell] →
  the_session tls (ctl_dialogue tls token method ++ more) =
  ((the_effect tls method).1, the_replies tls token method, End_ok).
Proof.
  intros Hm Ht Hok Hmore. unfold the_session, the_replies, ctl_replies, the_answer, ctl_dialogue, arriving. rewrite Ht.
  assert (∀ f : nat → Message → rpc_env * Message, (∀ i m, (f i m).2 = m) → snd <$> imap f more `prefix_of` [farewell]) as Htail.
  { intros f Hf. destruct more as [|m more]; [apply prefix_nil|]. pose proof (prefix_cons_inv_1 _ _ _ _ Hmore) as ->.
    apply prefix_cons_inv_2, prefix_nil_inv in Hmore as ->. cbn. by rewrite Hf. }
  unfold trusted, the_effect in *. cbn [app]. rewrite imap_cons, session_hello, Hok. destruct tls; cbn [auth_requests app orb] in *.
  - rewrite imap_cons. unfold compose. cbv beta. rewrite loop_request by (try apply Htail; done). rewrite Hok.
    by destruct (dispatch_method _ _ _ _).
  - rewrite imap_cons. unfold compose. cbv beta. rewrite loop_auth, Hok, Ht, imap_cons. unfold compose. cbv beta.
    rewrite loop_request, Hok by (try apply Htail; done). by destruct (dispatch_method _ _ _ _).
Qed.

Lemma frames_of_app_inv ms1 ms2 b : frames_of (ms1 ++ ms2) b → ∃ b1 b2, frames_of ms1 b1 ∧ frames_of ms2 b2 ∧ b = b1 ++ b2.
Proof.
  intros (frs & H & ->). apply Forall2_app_inv_l in H as (f1 & f2 & H1 & H2 & ->).
  exists (concat f1), (concat f2). rewrite concat_app. split_and!; [by exists f1|by exists f2|done].
Qed.

Lemma frames_of_single m b : frames_of [m] b → encode_frame m = Ok b.
Proof. intros (f & b' & Hf & (frs & H & ->) & ->)%frames_of_cons. inversion H. cbn. by rewrite app_nil_r. Qed.

Lemma auth_at h tls token b re p inc o n k :
  load_token h = Ok token ∨ tls = true → trusted tls token = true → Forall encodable (auth_requests tls token) →
  frames_of (if tls then [] else [Message_RpcResponse (mkRpcResponse 1 (authenticate (as_bytes token) (as_bytes expected)))]) b →
  ∃ q n', frames_of (auth_requests tls token) q ∧ (n ≤ n')%nat ∧
    (if tls then mret tt else authenticate_call h) (mkConn re p (bytes_of b ++ inc) o (S n) k) =
    (Ok tt, mkConn re p inc (o ++ q) n' k).
Proof.
  intros Htok Ht Henc Hb. destruct tls; cbn [auth_requests] in *.
  - destruct Hb as (frs & H & ->). inversion H; subst. exists [], (S n). rewrite app_nil_r. split_and!; [apply frames_of_nil|lia|done].
  - apply frames_of_single in Hb. apply Forall_cons in Henc as [[q Hq]%encodable_frame _].
    destruct Htok as [Htok|]; [|done]. exists q, n. split_and!; [by apply frames_of_one|done|].
    unfold authenticate_call. rewrite Htok, lift_bind. unfold trusted in Ht. cbn [orb] in Ht. rewrite <- authenticate_ok in Ht.
    destruct (authenticate _ _) as [ok|msg]; [|done].
    pose proof (rpc_at 1 (Rpc_Authenticate token) 1 (RpcResult_Ok ok) q b re p inc o n k Hq Hb) as H. by rewrite (prog_bind_at _ _ _ _ _ H).
Qed.

(** The dialogue on a connection that takes every write and yields what the daemon answers. *)
Lemma exchange_at h tls token method p fh fq fe w b1 b2 ans n k :
  load_client_tls h = Ok tls → load_token h = Ok token ∨ tls = true → trusted tls token = true →
  Forall encodable (auth_requests tls token) →
  encode_frame the_hello = Ok fh → encode_frame (Message_RpcRequest (mkRpcRequest 2 method)) = Ok fq →
  encode_frame farewell = Ok fe →
  encode_frame (Message_Welcome (build_welcome daemon_version sid)) = Ok w →
  frames_of (if tls then [] else [Message_RpcResponse (mkRpcResponse 1 (authenticate (as_bytes token) (as_bytes expected)))]) b1 →
  encode_frame (Message_RpcResponse (mkRpcResponse 2 ans)) = Ok b2 →
  ∃ q more fm n2, frames_of (auth_requests tls token) q ∧ (more = [] ∨ more = [farewell]) ∧ frames_of more fm ∧
    exchange version h method (mkConn true p (bytes_of (write_prelude ++ w ++ b1 ++ b2)) [] (5 + n) k) =
    (rpc_outcome ans, mkConn true p [] (write_prelude ++ (fh ++ q ++ fq) ++ fm) n2 k).
Proof.
  intros Htls Htok Ht Hauth Hfh Hfq Hfe Hw Hb1 Hb2.
  destruct (auth_at h tls token b1 true p (bytes_of b2 ++ []) (write_prelude ++ fh) (S (S n)) k Htok Ht Hauth Hb1) as (q & n' & Hq & Hn & Hcall).
  destruct n' as [|[|n']]; [lia..|]. exists q. cbn [plus].
  unfold exchange. rewrite Htls, lift_bind, !bytes_of_app. erewrite (prog_bind_at connect) by reflexivity.
  rewrite (prog_bind_at _ _ _ _ _ (send_at _ _ _ _ _ _ _)). rewrite (prog_bind_at _ _ _ _ _ (recv_at _ _ _ _ _ _ _ _ _ (prelude_read _))).
  rewrite (prog_bind_at _ _ _ _ _ (message_at _ _ _ _ _ _ _ _ Hfh)).
  erewrite (prog_bind_at await_welcome); [|unfold await_welcome; by rewrite (prog_bind_at _ _ _ _ _ (read_at _ _ _ _ _ _ _ _ Hw))].
  rewrite <- (app_nil_r (bytes_of b2)). rewrite (prog_bind_at _ _ _ _ _ Hcall).
  pose proof (rpc_at 2 method 2 ans fq b2 true p [] ((write_prelude ++ fh) ++ q) (S n') k Hfq Hb2) as Hrpc.
  destruct ans as [ok|msg]; cbn [rpc_outcome] in *.
  - rewrite (prog_bind_at _ _ _ _ _ Hrpc). exists [farewell], fe, n'. split_and!; [done|by right|by apply frames_of_one|].
    unfold ignore. erewrite prog_bind_at; [|by rewrite (message_at _ _ _ _ _ _ _ _ Hfe)]. cbn. by rewrite <- !app_assoc.
  - exists [], [], (S n'). split_and!; [done|by left|apply frames_of_nil|].
    unfold mbind at 1, prog_bind at 1. rewrite Hrpc. by rewrite app_nil_r, <- !app_assoc.
Qed.

Lemma read_in_time limit bytes : Forall (λ p, p.1 < limit) bytes → read_within limit bytes = bytes_of bytes.*2.
Proof.
  induction 1 as [|[wait b] bytes H _ IH]; [done|]. unfold read_within in *. cbn [mbind list_bind fmap list_fmap snd].
  cbn in H. rewrite (proj2 (Z.ltb_lt _ _)) by done. by rewrite IH.
Qed.

Lemma writes_in_time limit stalls n :
  (n ≤ length stalls)%nat → Forall (λ w, w < limit) (take n stalls) → (n ≤ writes_within limit stalls)%nat.
Proof.
  revert n. induction stalls as [|w stalls IH]; intros [|n] Hn Hall; cbn in *; [lia..|].
  apply Forall_cons in Hall as [Hw Hall]. rewrite (proj2 (Z.ltb_lt _ _)) by done. specialize (IH n ltac:(lia) Hall). lia.
Qed.

(** C19: a call comes to its end when nobody is late: the connection is made within five
    seconds, each of the client's five writes is taken within ten, each byte of the daemon's
    answers comes within sixty seconds of being waited for, all that is written arrives, and
    every message can be framed. Then, with a token the daemon accepts or over TLS, the call
    reports the daemon's answer, the request has been run once, and the session ends in
    order. *)
Theorem ctl_call_completes h tls token method l wait bs :
  load_client_tls h = Ok tls → load_token h = Ok token ∨ tls = true → ordinary_method method = true →
  trusted tls token = true → (∀ i, reply_ok (es i) = true) →
  Forall encodable (ctl_dialogue tls token method ++ [farewell]) →
  line_connect l = Some wait → wait < 5000 →
  (5 ≤ length (line_stalls l))%nat → Forall (λ t, t < 10000) (take 5 (line_stalls l)) →
  frames_of (the_session tls (ctl_dialogue tls token method ++ [farewell])).1.2 bs →
  (line_bytes l).*2 = write_prelude ++ bs → Forall (λ p, p.1 < 60000) (line_bytes l) →
  ∃ c', call version h method l = (rpc_outcome (the_effect tls method).2, c') ∧
    the_session tls (received (outgoing c')) = ((the_effect tls method).1, the_replies tls token method, End_ok).
Proof.
  intros Htls Htok Hm Ht Hok Henc Hconn Hwait Hst Hstalls Hbs Hin Hlate.
  rewrite daemon_full in Hbs by done. cbn [fst snd] in Hbs. unfold the_replies, ctl_replies, the_answer in Hbs. rewrite Ht in Hbs.
  unfold ctl_dialogue in Henc. cbn [app] in Henc. apply Forall_cons in Henc as [[fh Hfh]%encodable_frame Henc].
  apply Forall_app in Henc as [Henc1 [[fe Hfe]%encodable_frame _]%Forall_cons].
  apply Forall_app in Henc1 as [Hauth [[fq Hfq]%encodable_frame _]%Forall_cons].
  apply frames_of_cons in Hbs as (w & b & Hw & Hb & ->). apply frames_of_app_inv in Hb as (b1 & b2 & Hb1 & Hb2%frames_of_single & ->).
  pose proof (writes_in_time WRITE_TIMEOUT_MS _ _ Hst Hstalls) as Hn.
  unfold call, connect_line. rewrite Hconn, (read_in_time READ_TIMEOUT_MS) by done. rewrite Hin.
  unfold CONNECT_TIMEOUT_MS. rewrite (proj2 (Z.ltb_lt _ _)) by done.
  replace (writes_within _ _) with (5 + (writes_within WRITE_TIMEOUT_MS (line_stalls l) - 5))%nat by lia.
  destruct (exchange_at h tls token method (line_cert l) fh fq fe w b1 b2 _
    (writes_within WRITE_TIMEOUT_MS (line_stalls l) - 5) (line_part l) Htls Htok Ht Hauth Hfh Hfq Hfe Hw Hb1 Hb2)
    as (q & more & fm & n2 & Hq & Hmore & Hfm & ->).
  eexists. split; [reflexivity|]. cbn [outgoing]. rewrite (received_frames (ctl_dialogue tls token method ++ more)).
  - apply daemon_full; [done..|]. destruct Hmore as [->| ->]; [apply prefix_nil|done].
  - apply frames_of_app; [|done]. apply (frames_of_app [_]); [by apply frames_of_one|].
    apply frames_of_app; [done|by apply frames_of_one].
Qed.
End meeting.

(** ** The token's two ends *)

Lemma hex_token_plain bytes : plain is_whitespace (random_hex_token bytes).
Proof.
  intros c (b & Hc & _)%list_elem_of_bind. cbv beta in Hc.
  destruct (byte_digits b) as [H1 H2].
  assert (∀ n, 0 ≤ n < 16 → is_whitespace (hex_char n) = false) as Hh.
  { intros n Hn. unfold is_whitespace, hex_char. destruct (Z.ltb_spec n 10); lia. }
  apply elem_of_cons in Hc as [->|[->|[]%elem_of_nil]%elem_of_cons]; by apply Hh.
Qed.

Lemma trim_plain s : plain is_whitespace s → trim s = s.
Proof.
  intros H. apply trim_matches_id.
  - destruct s as [|c s]; [done|]. apply H. left.
  - destruct (reverse s) as [|c l] eqn:E; [done|]. apply H. rewrite <- elem_of_reverse, E. left.
Qed.

Lemma new_token_ok e file token file' :
  (∀ bytes, urandom e = Some bytes → length bytes = 32%nat) → new_token e file = (Ok token, file') →
  file' = Token_text token 384 ∧ trim token = token ∧ token ≠ [].
Proof.
  intros Hrand. unfold new_token. destruct (urandom e) as [bytes|]; [|done]. specialize (Hrand bytes eq_refl).
  destruct (write_ok e), (chmod_ok e); cbn [negb]; try done. intros [= <- <-].
  split_and!; [done|apply trim_plain, hex_token_plain|]. destruct bytes; [done|by cbn].
Qed.

(** The daemon and a caller that has a copy of its token file agree on the token, whatever
    was in the file before; and the daemon keeps it when it starts again. *)
Theorem token_agreed e e' file token file' h path :
  (∀ bytes, urandom e = Some bytes → length bytes = 32%nat) →
  ensure_token e file = (Ok token, file') → mkdir_ok e' = true →
  env_var h (lit "VBOX_CONTROL_TOKEN") = None → env_var h (lit "VBOX_CONTROL_TOKEN_FILE") = Some path →
  read_file h path = copy_of file' path →
  load_token h = Ok token ∧ ensure_token e' file' = (Ok token, file') ∧ token ≠ [].
Proof.
  intros Hrand H Hdir He Hf Hr.
  assert (∃ s m, file' = Token_text s m ∧ trim s = token ∧ token ≠ []) as (s & m & -> & Ht & Hne).
  { unfold ensure_token in H. destruct (mkdir_ok e); cbn [negb] in H; [|done].
    assert (new_token e file = (Ok token, file') → ∃ s m, file' = Token_text s m ∧ trim s = token ∧ token ≠ []) as Hnew.
    { intros (-> & Ht & Hne)%new_token_ok; [by exists token, 384|done]. }
    destruct file as [| |s m]; [by apply Hnew|done|]. destruct (trim s) as [|x t] eqn:Ht; [by apply Hnew|].
    injection H as <- <-. by exists s, m. }
  unfold load_token, resolve_token. rewrite He, Hf. cbn [fmap option_fmap option_map copy_of] in *. rewrite Hr.
  unfold ensure_token. rewrite Hdir. cbn [negb]. unfold mbind, result_bind. rewrite Ht. by destruct token.
Qed.

(** ** Witnesses *)

#[local] Existing Instances ToyDialogue.codec ToyDialogue.laws Bits.codec Bits.laws.

(** A host with the token in its environment, and no TLS. *)
Definition plain_host : ctl_host :=
  mkCtlHost (λ v, if bool_decide (v = lit "VBOX_CONTROL_TOKEN") then Some (lit " s ") else None)
    (λ _, Err (Local_error [])) (λ _ _, Ok tt).

Definition all_sunny : nat → rpc_env := λ _, sunny.
Definition stop_session (ms : list Message) : DaemonState * list Message * session_end :=
  the_session bytes_of_string id (lit "1") 7 (lit "s") all_sunny one_running false ms.

Definition stop_dialogue : list Message := ctl_dialogue (lit "1") false (lit "s") (Rpc_StopInstance (lit "a")) ++ [farewell].
Definition stop_replies : list byte := concat (frame <$> (stop_session stop_dialogue).1.2).
(** Connecting takes a second; each byte is waited for 30 seconds, and each write 9. *)
Definition stop_line : ctl_line :=
  mkLine (Some 1000) [] (pair 30000 <$> (write_prelude ++ stop_replies)) (replicate 5 9000) 0.

Lemma stop_frames : frames_of (stop_session stop_dialogue).1.2 stop_replies.
Proof.
  exists (frame <$> (stop_session stop_dialogue).1.2). split; [|done].
  assert ((stop_session stop_dialogue).1.2 = [Message_Welcome (build_welcome (lit "1") 7);
    Message_RpcResponse (mkRpcResponse 1 (RpcResult_Ok RpcOk_Authenticated));
    Message_RpcResponse (mkRpcResponse 2 (RpcResult_Ok RpcOk_InstanceStopped))]) as -> by by vm_compute.
  repeat constructor.
Qed.

Lemma ctl_call_completes_witness :
  ∃ c', call (lit "1") plain_host (Rpc_StopInstance (lit "a")) stop_line = (Ok RpcOk_InstanceStopped, c') ∧
    (stop_session (received (outgoing c'))).1.2 = (stop_session stop_dialogue).1.2.
Proof.
  destruct (ctl_call_completes (lit "1") bytes_of_string id (lit "1") 7 (lit "s") all_sunny one_running
    plain_host false (lit "s") (Rpc_StopInstance (lit "a")) stop_line 1000 stop_replies) as (c' & Hc & Hs);
    [by vm_compute|left; by vm_compute|done|by vm_compute|done| |done|done|cbn; lia|by repeat constructor|apply stop_frames
    |by vm_compute|by apply Forall_fmap, Forall_true|].
  { repeat constructor; by vm_compute. }
  exists c'. split; [by rewrite Hc|]. unfold stop_session. rewrite Hs. by vm_compute.
Defined.

(** The answer that comes a minute late: the daemon has stopped the instance, the call fails. *)
Example late_answer :
  let late := mkLine (Some 0) [] ((pair 0 <$> take 511 (write_prelude ++ stop_replies)) ++ (pair 60000 <$> drop 511 (write_prelude ++ stop_replies)))
                (replicate 5 0) 0 in
  let '(r, c') := call (lit "1") plain_host (Rpc_StopInstance (lit "a")) late in
  is_ok r = false ∧ (stop_session (received (outgoing c'))).1.1 = (stop_session stop_dialogue).1.1.
Proof. by vm_compute. Qed.

Lemma ctl_call_once_witness :
  let '(r, c') := call (lit "1") plain_host (Rpc_StopInstance (lit "a")) stop_line in
  r = Ok RpcOk_InstanceStopped ∧ (stop_session (received (outgoing c'))).1.1 =
    (the_effect id all_sunny one_running false (Rpc_StopInstance (lit "a"))).1.
Proof.
  destruct (call (lit "1") plain_host (Rpc_StopInstance (lit "a")) stop_line) as [r c'] eqn:H.
  assert (r = Ok RpcOk_InstanceStopped ∧ (stop_session (received (outgoing c'))).1.2 = (stop_session stop_dialogue).1.2) as [Hr Hout].
  { vm_compute in H. injection H as <- <-. split; by vm_compute. }
  split; [done|]. pose proof (ctl_call_once (lit "1") bytes_of_string id (lit "1") 7 (lit "s") all_sunny one_running
    plain_host false (lit "s") (Rpc_StopInstance (lit "a")) stop_line r c' (outgoing c') stop_replies 1000
    ltac:(by vm_compute) ltac:(left; by vm_compute) eq_refl H (reflexivity _)) as Honce.
  change (the_session _ _ _ _ _ _ _ _ _) with (stop_session (received (outgoing c'))) in Honce.
  destruct (stop_session (received (outgoing c'))) as [[st' out] fin]. cbn [fst snd] in *. subst out r.
  specialize (Honce stop_frames ltac:(by vm_compute)). destruct (the_effect _ _ _ _ _) as [after answer].
  destruct Honce as (_ & Hok & _). by destruct (Hok _ eq_refl) as (_ & -> & _).
Defined.

(** A file that holds a token already, with a line end. *)
Lemma token_agreed_witness :
  let file := Token_text (lit "s" ++ [10]) 420 in
  let e := mkTokenEnv true true true None 420 in
  let h := mkCtlHost (λ v, if bool_decide (v = lit "VBOX_CONTROL_TOKEN_FILE") then Some (lit "t") else None) (copy_of file) (λ _ _, Ok tt) in
  load_token h = Ok (lit "s") ∧ ensure_token e file = (Ok (lit "s"), file) ∧ lit "s" ≠ [].
Proof.
  apply (token_agreed (mkTokenEnv true true true None 420) (mkTokenEnv true true true None 420) (Token_text (lit "s" ++ [10]) 420) (lit "s")
    (Token_text (lit "s" ++ [10]) 420) _ (lit "t")); done.
Defined.
