(* ===== verification/Capture.v ===== *)
(** * From a client's shared-memory buffer to a tile (crates/server/src/wayland_session/surface_capture.rs)

    The clipping of a surface against its window, the pixel formats, and the copy loop.
    A slice index out of range is a panic: [None]. *)

From S2P Require Import Prelude Wire.

(** ** Clipping *)

Record SurfaceBounds := mkSurfaceBounds { sb_width : Z; sb_height : Z }.

Record CopyRect := mkCopyRect {
  skip_x : Z; skip_y : Z; dst_x : Z; dst_y : Z; cr_width : Z; cr_height : Z
}.

Definition surface_copy_rect_with_bounds (width height offset_x offset_y : Z)
    (bounds : option SurfaceBounds) : option CopyRect :=
  let skip_x := if offset_x <? 0 then Z.abs offset_x else 0 in
  let skip_y := if offset_y <? 0 then Z.abs offset_y else 0 in
  if (width <=? skip_x) || (height <=? skip_y) then None else
  let dst_x := Z.max offset_x 0 in
  let dst_y := Z.max offset_y 0 in
  let copy_width := width - skip_x in
  let copy_height := height - skip_y in
  match bounds with
  | Some b =>
      if (sb_width b =? 0) || (sb_height b =? 0) then None else
      if (sb_width b <=? dst_x) || (sb_height b <=? dst_y) then None else
      let copy_width := Z.min copy_width (sb_width b - dst_x) in
      let copy_height := Z.min copy_height (sb_height b - dst_y) in
      if (copy_width =? 0) || (copy_height =? 0) then None else
      Some (mkCopyRect skip_x skip_y dst_x dst_y copy_width copy_height)
  | None => Some (mkCopyRect skip_x skip_y dst_x dst_y copy_width copy_height)
  end.

(** ** Pixels *)

Inductive shm_format := Argb8888 | Xrgb8888 | Abgr8888 | Xbgr8888 | Other_format (code : Z).

(** [None]: the slice is shorter than four bytes (a panic); [Some None]: a format the
    server does not know. *)
Definition convert_shm_pixel (format : shm_format) (px : list byte) : option (option (list byte)) :=
  match px with
  | [p0; p1; p2; p3] =>
      Some match format with
           | Argb8888 => Some [p2; p1; p0; p3]
           | Xrgb8888 => Some [p2; p1; p0; Byte.xff]
           | Abgr8888 => Some [p0; p1; p2; p3]
           | Xbgr8888 => Some [p0; p1; p2; Byte.xff]
           | Other_format _ => None
           end
  | _ => None
  end.

(** ** The copy *)

(** What the shared-memory pool says of a buffer (i32 fields), and the pool's bytes. *)
Record shm_buffer := mkShmBuffer {
  shm_offset : Z;
  shm_width : Z;
  shm_height : Z;
  shm_stride : Z;
  shm_fmt : shm_format;
  shm_pool : list byte
}.

Inductive capture_error :=
  | Invalid_buffer_data
  | Destination_stride_overflow
  | Source_stride_overflow
  | Source_length_overflow
  | Buffer_too_short
  | Unsupported_format
  | Buffer_inaccessible.

(** [&src[i..i + n]]. *)
Definition sub_slice (i n : nat) (src : list byte) : option (list byte) :=
  if decide (i + n ≤ length src)%nat then Some (take n (drop i src)) else None.

(** [dst[i..i + 4].copy_from_slice(&rgba)]. *)
Definition store_pixel (i : nat) (rgba dst : list byte) : option (list byte) :=
  if decide (i + 4 ≤ length dst)%nat then Some (take i dst ++ rgba ++ drop (i + 4) dst) else None.

(** One iteration of the inner loop, on the bytes so far or the error that ended it. *)
Definition copy_pixel (buf : shm_buffer) (r : CopyRect) (y x : nat)
    (st : result capture_error (list byte)) : option (result capture_error (list byte)) :=
  match st with
  | Err e => Some (Err e)
  | Ok bytes =>
      let src_y := (Z.to_nat (skip_y r) + y)%nat in
      let src_row := (Z.to_nat (shm_offset buf) + src_y * Z.to_nat (shm_stride buf))%nat in
      let dst_row := (y * Z.to_nat (cr_width r * 4))%nat in
      let src_x := (Z.to_nat (skip_x r) + x)%nat in
      let src_px := (src_row + src_x * 4)%nat in
      let dst_px := (dst_row + x * 4)%nat in
      px ← sub_slice src_px 4 (shm_pool buf);
      converted ← convert_shm_pixel (shm_fmt buf) px;
      match converted with
      | None => Some (Err Unsupported_format)
      | Some rgba => bytes ← store_pixel dst_px rgba bytes; Some (Ok bytes)
      end
  end.

Definition copy_rows (buf : shm_buffer) (r : CopyRect) : option (result capture_error (list byte)) :=
  for_range (Z.to_nat (cr_height r)) (λ y, for_range (Z.to_nat (cr_width r)) (copy_pixel buf r y))
    (Ok (replicate (Z.to_nat (cr_width r * 4) * Z.to_nat (cr_height r)) Byte.x00)).

(** [copy_shm_buffer_with_bounds]; [copy_shm_buffer] and [copy_shm_buffer_clipped] pass
    [None] and [Some bounds]. The pool may have gone ([buffer = None]). *)
Definition copy_shm_buffer_with_bounds (buffer : option shm_buffer) (id offset_x offset_y : Z)
    (bounds : option SurfaceBounds) : option (result capture_error (option FrameTile)) :=
  match buffer with
  | None => Some (Err Buffer_inaccessible)
  | Some data =>
      if (shm_offset data <? 0) || (shm_width data <=? 0) || (shm_height data <=? 0)
         || (shm_stride data <=? 0)
      then Some (Err Invalid_buffer_data) else
      match surface_copy_rect_with_bounds (shm_width data) (shm_height data) offset_x offset_y bounds with
      | None => Some (Ok None)
      | Some r =>
          match checked u32_max (cr_width r * 4) with
          | None => Some (Err Destination_stride_overflow)
          | Some dst_stride =>
              match checked u64_max (shm_stride data * shm_height data) with
              | None => Some (Err Source_stride_overflow)
              | Some extent =>
                  match checked u64_max (shm_offset data + extent) with
                  | None => Some (Err Source_length_overflow)
                  | Some min_len =>
                      if Z.of_nat (length (shm_pool data)) <? min_len
                      then Some (Err Buffer_too_short) else
                      match copy_rows data r with
                      | None => None
                      | Some (Err e) => Some (Err e)
                      | Some (Ok bytes) =>
                          Some (Ok (Some (mkFrameTile id (dst_x r) (dst_y r) (cr_width r)
                                            (cr_height r) dst_stride RawRgba bytes)))
                      end
                  end
              end
          end
      end
  end.

Definition copy_shm_buffer (buffer : option shm_buffer) (id offset_x offset_y : Z) :=
  copy_shm_buffer_with_bounds buffer id offset_x offset_y None.

Definition copy_shm_buffer_clipped (buffer : option shm_buffer) (id offset_x offset_y : Z)
    (bounds : SurfaceBounds) :=
  copy_shm_buffer_with_bounds buffer id offset_x offset_y (Some bounds).

(** ** Specification *)

(** The point [p] of the window lies on the surface placed at [o] of size [n], in the
    quadrant, and within the bound [b]. *)
Definition covered (n o : Z) (b : option Z) (p : Z) : Prop :=
  o ≤ p < o + n ∧ 0 ≤ p ∧ match b with Some b => p < b | None => True end.

(** The declared buffer fits its pool, with rows as wide as its pixels. *)
Record buffer_ok (buf : shm_buffer) : Prop := {
  ok_offset : 0 ≤ shm_offset buf ≤ i32_max;
  ok_width : 0 < shm_width buf < 1073741824;
  ok_height : 0 < shm_height buf ≤ i32_max;
  ok_stride : 4 * shm_width buf ≤ shm_stride buf ≤ i32_max;
  ok_pool : shm_offset buf + shm_stride buf * shm_height buf ≤ Z.of_nat (length (shm_pool buf))
}.

(** The RGBA bytes of the buffer's pixel [(sx, sy)]. *)
Definition source_pixel (buf : shm_buffer) (sx sy : Z) : option (list byte) :=
  px ← sub_slice (Z.to_nat (shm_offset buf + sy * shm_stride buf + 4 * sx)) 4 (shm_pool buf);
  mjoin (convert_shm_pixel (shm_fmt buf) px).

(** ** Lemmas *)

Lemma surface_copy_rect_spec width height ox oy bounds :
  0 < width → 0 < height →
  (∀ b, bounds = Some b → 0 ≤ sb_width b ∧ 0 ≤ sb_height b) →
  match surface_copy_rect_with_bounds width height ox oy bounds with
  | Some r =>
      0 < cr_width r ∧ 0 < cr_height r ∧
      skip_x r = dst_x r - ox ∧ skip_y r = dst_y r - oy ∧
      0 ≤ skip_x r ∧ 0 ≤ skip_y r ∧
      skip_x r + cr_width r ≤ width ∧ skip_y r + cr_height r ≤ height ∧
      (∀ p, covered width ox (sb_width <$> bounds) p ↔ dst_x r ≤ p < dst_x r + cr_width r) ∧
      (∀ p, covered height oy (sb_height <$> bounds) p ↔ dst_y r ≤ p < dst_y r + cr_height r)
  | None => ∀ px py, ¬ (covered width ox (sb_width <$> bounds) px
                        ∧ covered height oy (sb_height <$> bounds) py)
  end.
Proof.
  intros Hw Hh Hb. unfold surface_copy_rect_with_bounds, covered.
  destruct bounds as [[bw bh]|]; [specialize (Hb _ eq_refl); cbn in Hb|clear Hb]; cbn;
    repeat match goal with
           | |- context [?a <? ?b] => destruct (Z.ltb_spec a b)
           | |- context [?a <=? ?b] => destruct (Z.leb_spec a b)
           | |- context [?a =? ?b] => destruct (Z.eqb_spec a b)
           end; cbn; try lia; split_and!; intros; lia.
Qed.

Lemma sub_slice_some i n src : (i + n ≤ length src)%nat → sub_slice i n src = Some (take n (drop i src)).
Proof. intros. unfold sub_slice. by rewrite decide_True. Qed.

Lemma list_of_four {A} (l : list A) : length l = 4%nat → ∃ a b c d, l = [a; b; c; d].
Proof. destruct l as [|a [|b [|c [|d []]]]]; try done. eauto. Qed.

Lemma convert_length format px rgba : convert_shm_pixel format px = Some (Some rgba) → length rgba = 4%nat.
Proof.
  unfold convert_shm_pixel. destruct px as [|? [|? [|? [|? []]]]]; try done.
  destruct format; intros; by simplify_eq.
Qed.

(** The first [k] pixels of the tile are in place, the rest still zero. *)
Definition filled (pix : nat → list byte) (n k : nat) (st : result capture_error (list byte)) : Prop :=
  st = Ok (concat (pix <$> seq 0 k) ++ replicate (4 * (n - k)) Byte.x00).

Lemma concat_pixels_length (pix : nat → list byte) k :
  (∀ j, (j < k)%nat → length (pix j) = 4%nat) → length (concat (pix <$> seq 0 k)) = (4 * k)%nat.
Proof.
  intros H. induction k as [|k IH]; [done|].
  rewrite seq_S, fmap_app, concat_app, length_app, IH by auto with lia. cbn.
  rewrite app_nil_r, H by lia. lia.
Qed.

Lemma concat_pixels_lookup (pix : nat → list byte) n k :
  (∀ j, (j < n)%nat → length (pix j) = 4%nat) → (k < n)%nat →
  take 4 (drop (4 * k) (concat (pix <$> seq 0 n))) = pix k.
Proof.
  intros H Hk. replace n with (k + S (n - k - 1))%nat by lia.
  rewrite seq_app, fmap_app, concat_app. cbn [seq]. rewrite fmap_cons. cbn [concat].
  rewrite drop_app_length' by (symmetry; apply concat_pixels_length; auto with lia).
  by rewrite take_app_length' by (symmetry; by apply H).
Qed.

Lemma store_next (pix : nat → list byte) n k rgba :
  (∀ j, (j < n)%nat → length (pix j) = 4%nat) → (k < n)%nat → rgba = pix k →
  store_pixel (4 * k) rgba (concat (pix <$> seq 0 k) ++ replicate (4 * (n - k)) Byte.x00)
  = Some (concat (pix <$> seq 0 (S k)) ++ replicate (4 * (n - S k)) Byte.x00).
Proof.
  intros H Hk ->. unfold store_pixel.
  pose proof (concat_pixels_length pix k) as Hlen. rewrite decide_True.
  2: { rewrite length_app, length_replicate, Hlen by auto with lia. lia. }
  rewrite take_app_length' by (symmetry; apply Hlen; auto with lia).
  rewrite seq_S, fmap_app, concat_app. cbn [concat fmap list_fmap Nat.add].
  rewrite app_nil_r, <- app_assoc. do 3 f_equal.
  rewrite drop_app_ge by (rewrite Hlen; auto with lia).
  rewrite drop_replicate. f_equal. rewrite Hlen by auto with lia. lia.
Qed.

(** The copy of a buffer that fits, for a rectangle inside it. *)
Section copy.
Context (buf : shm_buffer) (r : CopyRect).
Hypothesis Hok : buffer_ok buf.
Hypothesis Hformat : ∀ c, shm_fmt buf ≠ Other_format c.
Hypothesis Hw : 0 < cr_width r ∧ 0 ≤ skip_x r ∧ skip_x r + cr_width r ≤ shm_width buf.
Hypothesis Hh : 0 < cr_height r ∧ 0 ≤ skip_y r ∧ skip_y r + cr_height r ≤ shm_height buf.

Lemma source_pixel_some sx sy :
  0 ≤ sx < shm_width buf → 0 ≤ sy < shm_height buf →
  ∃ px rgba, sub_slice (Z.to_nat (shm_offset buf + sy * shm_stride buf + 4 * sx)) 4 (shm_pool buf)
             = Some px
    ∧ convert_shm_pixel (shm_fmt buf) px = Some (Some rgba) ∧ length rgba = 4%nat
    ∧ source_pixel buf sx sy = Some rgba.
Proof using Hok Hformat.
  clear Hw Hh.
  intros Hx Hy. destruct Hok as [Ho Hbw Hbh Hs Hp].
  assert (shm_offset buf + sy * shm_stride buf + 4 * sx + 4 ≤ Z.of_nat (length (shm_pool buf)))
    as Hin by nia.
  unfold source_pixel. rewrite sub_slice_some by nia. cbn.
  destruct (list_of_four (take 4 (drop (Z.to_nat (shm_offset buf + sy * shm_stride buf + 4 * sx))
              (shm_pool buf)))) as (a & b & c & d & E); [rewrite length_take, length_drop; nia|].
  rewrite E. destruct (shm_fmt buf) as [| | | |code] eqn:Ef; cbn; try by eauto 10.
  by destruct (Hformat code).
Qed.

(** The bytes of the tile's [k]-th pixel, in row-major order. *)
Definition pixel_of (k : nat) : list byte :=
  let w := Z.to_nat (cr_width r) in
  default (replicate 4 Byte.x00)
    (source_pixel buf (skip_x r + Z.of_nat (k mod w)%nat) (skip_y r + Z.of_nat (k / w)%nat)).

Lemma pixel_of_length k : (k < Z.to_nat (cr_height r) * Z.to_nat (cr_width r))%nat →
  length (pixel_of k) = 4%nat.
Proof.
  intros Hk. unfold pixel_of.
  pose proof (Nat.mod_upper_bound k (Z.to_nat (cr_width r))).
  pose proof (Nat.Div0.div_lt_upper_bound k (Z.to_nat (cr_width r)) (Z.to_nat (cr_height r))).
  destruct (source_pixel_some (skip_x r + Z.of_nat (k mod Z.to_nat (cr_width r)))
             (skip_y r + Z.of_nat (k / Z.to_nat (cr_width r)))) as (? & ? & _ & _ & ? & ->); [lia..|done].
Qed.

Lemma copy_pixel_step y x st :
  let w := Z.to_nat (cr_width r) in let h := Z.to_nat (cr_height r) in
  (y < h)%nat → (x < w)%nat → filled pixel_of (h * w) (y * w + x) st →
  ∃ st', copy_pixel buf r y x st = Some st' ∧ filled pixel_of (h * w) (S (y * w + x)) st'.
Proof.
  intros w h Hy Hx ->. unfold copy_pixel. destruct Hok as [Ho Hbw Hbh Hs Hp].
  destruct (source_pixel_some (skip_x r + Z.of_nat x) (skip_y r + Z.of_nat y))
    as (px & rgba & Hpx & Hconv & Hlen & Hsrc); [lia..|].
  replace (Z.to_nat (shm_offset buf) + (Z.to_nat (skip_y r) + y) * Z.to_nat (shm_stride buf)
           + (Z.to_nat (skip_x r) + x) * 4)%nat
    with (Z.to_nat (shm_offset buf + (skip_y r + Z.of_nat y) * shm_stride buf
                    + 4 * (skip_x r + Z.of_nat x))) by nia.
  rewrite Hpx. cbn [mbind option_bind]. rewrite Hconv. cbn [mbind option_bind].
  replace (y * Z.to_nat (cr_width r * 4) + x * 4)%nat with (4 * (y * w + x))%nat by (unfold w; nia).
  rewrite (store_next pixel_of); [by eexists|apply pixel_of_length|unfold w, h in *; nia|].
  unfold pixel_of. cbv zeta. fold w.
  rewrite Nat.div_add_l, (Nat.div_small x w), Nat.add_0_r by lia.
  rewrite Nat.add_comm, Nat.Div0.mod_add, Nat.mod_small by lia. by rewrite Hsrc.
Qed.

Lemma copy_capture_rows_spec :
  let n := (Z.to_nat (cr_height r) * Z.to_nat (cr_width r))%nat in
  copy_rows buf r = Some (Ok (concat (pixel_of <$> seq 0 n))).
Proof.
  set (w := Z.to_nat (cr_width r)). set (h := Z.to_nat (cr_height r)). intros n. unfold copy_rows.
  destruct (for_range_inv (λ y st, filled pixel_of (h * w) (y * w) st) h
              (λ y, for_range w (copy_pixel buf r y))
              (Ok (replicate (Z.to_nat (cr_width r * 4) * h) Byte.x00))) as (st & E & Hst).
  - unfold filled. cbn. do 2 f_equal. unfold w, h. nia.
  - intros y st Hy Hst.
    destruct (for_range_inv (λ x st, filled pixel_of (h * w) (y * w + x) st) w
                (copy_pixel buf r y) st) as (st' & E & Hst').
    + by rewrite Nat.add_0_r.
    + intros x st1 Hx Hst1. rewrite Nat.add_succ_r. by apply copy_pixel_step.
    + exists st'. split; [done|]. by rewrite Nat.add_comm in Hst'.
  - fold h w. rewrite E, Hst. by rewrite Nat.sub_diag, Nat.mul_0_r, app_nil_r.
Qed.
End copy.

(** A loop that ends has gone through each of its iterations. *)
Lemma for_range_keeps {S} n body (s s' : S) (P : S → Prop) :
  P s → (∀ i s s', P s → body i s = Some s' → P s') → for_range n body s = Some s' → P s'.
Proof.
  intros Hs Hstep. revert s'. induction n as [|n IH]; cbn; intros s' Hrun; [by injection Hrun as <-|].
  destruct (for_range n body s) as [s1|] eqn:E; [|done]. by eapply Hstep, Hrun; apply IH.
Qed.

Lemma for_range_through {S} n body (s s' : S) (P : S → Prop) i :
  P s → (∀ i s s', P s → body i s = Some s' → P s') →
  for_range n body s = Some s' → (i < n)%nat → ∃ si si', P si ∧ body i si = Some si'.
Proof.
  intros Hs Hstep. revert s'. induction n as [|n IH]; intros s' Hrun Hi; [lia|].
  cbn [for_range] in Hrun.
  destruct (for_range n body s) as [s1|] eqn:E; [|done]. cbn in Hrun.
  pose proof (for_range_keeps n body s s1 P Hs Hstep E).
  destruct (decide (i = n)) as [->|Hne]; [by exists s1, s'|]. apply (IH s1); [done|lia].
Qed.

Definition known_format (buf : shm_buffer) : Prop :=
  match shm_fmt buf with Other_format _ => False | _ => True end.

Lemma copy_pixel_ok buf r y x bytes st' :
  known_format buf → copy_pixel buf r y x (Ok bytes) = Some st' →
  is_ok st' = true ∧ sub_slice ((Z.to_nat (shm_offset buf)
      + (Z.to_nat (skip_y r) + y) * Z.to_nat (shm_stride buf)) + (Z.to_nat (skip_x r) + x) * 4)
      4 (shm_pool buf) ≠ None.
Proof.
  intros Hknown. unfold copy_pixel. destruct (sub_slice _ _ _) as [px|]; [|done].
  cbn [mbind option_bind]. unfold known_format in Hknown.
  destruct (convert_shm_pixel _ px) as [[rgba|]|] eqn:Ec; cbn [mbind option_bind].
  - destruct (store_pixel _ _ _); [|done]. by intros [= <-].
  - unfold convert_shm_pixel in Ec. destruct px as [|? [|? [|? [|? []]]]]; try done.
    by destruct (shm_fmt buf).
  - done.
Qed.

Lemma copy_rows_reads buf r st y x :
  known_format buf → copy_rows buf r = Some st →
  (y < Z.to_nat (cr_height r))%nat → (x < Z.to_nat (cr_width r))%nat →
  (Z.to_nat (shm_offset buf) + (Z.to_nat (skip_y r) + y) * Z.to_nat (shm_stride buf)
   + (Z.to_nat (skip_x r) + x) * 4 + 4 ≤ length (shm_pool buf))%nat.
Proof.
  intros Hknown Hrun Hy Hx. unfold copy_rows in Hrun.
  assert (∀ y i s s', is_ok s = true → copy_pixel buf r y i s = Some s' → is_ok s' = true) as Hpix.
  { intros y' i [bytes|e] s' Hok; [|done]. by intros []%copy_pixel_ok. }
  eapply (for_range_through _ _ _ _ (λ st, is_ok st = true) y) in Hrun as (s1 & s2 & Hs1 & Hrow);
    [|done| |done].
  - eapply (for_range_through _ _ _ _ (λ st, is_ok st = true) x) in Hrow as (s3 & s4 & Hs3 & Hpx);
      [|done|apply Hpix|done].
    destruct s3 as [bytes|]; [|done]. apply copy_pixel_ok in Hpx as [_ Hsub]; [|done].
    unfold sub_slice in Hsub. by case_decide.
  - intros i s s' Hs Hrow'.
    by eapply (for_range_keeps _ _ _ _ (λ st, is_ok st = true)) in Hrow'; [|done|apply Hpix].
Qed.

(** Rows as wide as the pixels: no panic, whatever the format, and a tile no larger than
    the buffer. *)
Section total.
Context (buf : shm_buffer) (r : CopyRect).
Hypothesis Hpos : 0 ≤ shm_offset buf ∧ 4 * shm_width buf ≤ shm_stride buf.
Hypothesis Hpool : shm_offset buf + shm_stride buf * shm_height buf ≤ Z.of_nat (length (shm_pool buf)).
Hypothesis Hw : 0 < cr_width r ∧ 0 ≤ skip_x r ∧ skip_x r + cr_width r ≤ shm_width buf.
Hypothesis Hh : 0 < cr_height r ∧ 0 ≤ skip_y r ∧ skip_y r + cr_height r ≤ shm_height buf.

Let tile_len := (Z.to_nat (cr_width r * 4) * Z.to_nat (cr_height r))%nat.

Definition sized (n : nat) (st : result capture_error (list byte)) : Prop :=
  match st with Ok bytes => length bytes = n | Err _ => True end.

Lemma copy_pixel_total y x st :
  (y < Z.to_nat (cr_height r))%nat → (x < Z.to_nat (cr_width r))%nat → sized tile_len st →
  ∃ st', copy_pixel buf r y x st = Some st' ∧ sized tile_len st'.
Proof.
  intros Hy Hx Hst. destruct st as [bytes|e]; [|by eexists]. cbn in Hst. unfold copy_pixel.
  rewrite sub_slice_some by nia. cbn [mbind option_bind].
  match goal with |- context [take 4 ?l] =>
    destruct (list_of_four (take 4 l)) as (a & b & c & d & ->) end.
  { rewrite length_take, length_drop. nia. }
  assert ((y * Z.to_nat (cr_width r * 4) + x * 4) + 4 ≤ length bytes)%nat as Hfit
    by (unfold tile_len in Hst; nia).
  destruct (shm_fmt buf); cbn [convert_shm_pixel mbind option_bind]; [..|by eexists];
    unfold store_pixel; rewrite decide_True by done; cbn [mbind option_bind]; eexists;
    (split; [done|]); cbn [sized]; rewrite !length_app, length_take, length_drop;
    cbn [length]; lia.
Qed.

Lemma copy_rows_total : ∃ st, copy_rows buf r = Some st.
Proof.
  unfold copy_rows. destruct (for_range_inv (λ _ st, sized tile_len st) (Z.to_nat (cr_height r))
    (λ y, for_range (Z.to_nat (cr_width r)) (copy_pixel buf r y))
    (Ok (replicate tile_len Byte.x00))) as (st & E & _).
  - cbn. by rewrite length_replicate.
  - intros y st Hy Hst.
    destruct (for_range_inv (λ _ st, sized tile_len st) (Z.to_nat (cr_width r))
      (copy_pixel buf r y) st) as (st' & E & Hst'); [done| |eauto].
    intros x st1 Hx. by apply copy_pixel_total.
  - eauto.
Qed.
End total.

Lemma copy_shm_buffer_total buf id ox oy bounds :
  4 * shm_width buf ≤ shm_stride buf →
  (∀ b, bounds = Some b → 0 ≤ sb_width b ∧ 0 ≤ sb_height b) →
  ∃ res, copy_shm_buffer_with_bounds (Some buf) id ox oy bounds = Some res ∧
    ∀ tile, res = Ok (Some tile) →
      0 < tile_w tile ≤ shm_width buf ∧ 0 < tile_h tile ≤ shm_height buf.
Proof.
  intros Hs Hb. unfold copy_shm_buffer_with_bounds.
  destruct (Z.ltb_spec (shm_offset buf) 0), (Z.leb_spec (shm_width buf) 0),
    (Z.leb_spec (shm_height buf) 0), (Z.leb_spec (shm_stride buf) 0); cbn [orb]; try by eexists.
  pose proof (surface_copy_rect_spec (shm_width buf) (shm_height buf) ox oy bounds) as Hrect.
  destruct (surface_copy_rect_with_bounds _ _ _ _ _) as [r|]; [|by eexists].
  destruct Hrect as (? & ? & _ & _ & ? & ? & ? & ? & _); [lia..|done|].
  unfold checked.
  destruct (Z.leb_spec (cr_width r * 4) u32_max); [|by eexists].
  destruct (Z.leb_spec (shm_stride buf * shm_height buf) u64_max); [|by eexists].
  destruct (Z.leb_spec (shm_offset buf + shm_stride buf * shm_height buf) u64_max); [|by eexists].
  destruct (Z.ltb_spec (Z.of_nat (length (shm_pool buf)))
    (shm_offset buf + shm_stride buf * shm_height buf)); [by eexists|].
  destruct (copy_rows_total buf r) as [[bytes|e] ->]; try lia; eexists; (split; [done|]); [|done].
  intros tile [= <-]. cbn. lia.
Qed.

(** A tile is never larger than its buffer. *)
Lemma copy_shm_buffer_size buf id ox oy bounds tile :
  (∀ b, bounds = Some b → 0 ≤ sb_width b ∧ 0 ≤ sb_height b) →
  copy_shm_buffer_with_bounds (Some buf) id ox oy bounds = Some (Ok (Some tile)) →
  0 < tile_w tile ≤ shm_width buf ∧ 0 < tile_h tile ≤ shm_height buf.
Proof.
  intros Hb. unfold copy_shm_buffer_with_bounds.
  destruct (Z.ltb_spec (shm_offset buf) 0), (Z.leb_spec (shm_width buf) 0),
    (Z.leb_spec (shm_height buf) 0), (Z.leb_spec (shm_stride buf) 0); cbn [orb]; try done.
  pose proof (surface_copy_rect_spec (shm_width buf) (shm_height buf) ox oy bounds) as Hrect.
  destruct (surface_copy_rect_with_bounds _ _ _ _ _) as [r|]; [|done].
  destruct Hrect as (? & ? & _ & _ & ? & ? & ? & ? & _); [lia..|done|].
  repeat (case_match; try done). intros [= <-]. cbn. lia.
Qed.

(** The copy of a buffer that fits, point by point. *)
Lemma copy_shm_buffer_correct buf id ox oy bounds :
  buffer_ok buf → known_format buf →
  (∀ b, bounds = Some b → 0 ≤ sb_width b ∧ 0 ≤ sb_height b) →
  let on_tile px py := covered (shm_width buf) ox (sb_width <$> bounds) px
                       ∧ covered (shm_height buf) oy (sb_height <$> bounds) py in
  match copy_shm_buffer_with_bounds (Some buf) id ox oy bounds with
  | Some (Ok None) => ∀ px py, ¬ on_tile px py
  | Some (Ok (Some tile)) =>
      tile_id tile = id ∧ tile_encoding tile = RawRgba ∧ tile_stride tile = 4 * tile_w tile ∧
      Z.of_nat (length (tile_bytes tile)) = tile_stride tile * tile_h tile ∧
      (∀ px py, on_tile px py ↔
         tile_x tile ≤ px < tile_x tile + tile_w tile ∧ tile_y tile ≤ py < tile_y tile + tile_h tile) ∧
      (∀ px py, on_tile px py →
         ∃ rgba, source_pixel buf (px - ox) (py - oy) = Some rgba ∧
           take 4 (drop (Z.to_nat ((py - tile_y tile) * tile_stride tile + 4 * (px - tile_x tile)))
                     (tile_bytes tile)) = rgba)
  | _ => False
  end.
Proof.
  intros Hok Hknown Hb on_tile. pose proof Hok as [Ho Hw Hh Hs Hp].
  assert (∀ c, shm_fmt buf ≠ Other_format c) as Hf.
  { intros c E. unfold known_format in Hknown. by rewrite E in Hknown. }
  unfold i32_max in *. unfold copy_shm_buffer_with_bounds.
  rewrite (proj2 (Z.ltb_ge _ _)), !(proj2 (Z.leb_gt _ _)) by lia. cbn [orb].
  pose proof (surface_copy_rect_spec (shm_width buf) (shm_height buf) ox oy bounds) as Hrect.
  destruct (surface_copy_rect_with_bounds _ _ _ _ _) as [r|]; [|by apply Hrect; [lia..|]].
  destruct Hrect as (Hrw & Hrh & Hskx & Hsky & H1 & H2 & H3 & H4 & Hcx & Hcy); [lia..|done|].
  unfold checked. unfold u32_max, u64_max.
  rewrite !(proj2 (Z.leb_le _ _)) by nia. rewrite (proj2 (Z.ltb_ge _ _)) by nia.
  rewrite copy_capture_rows_spec by auto with lia. cbn.
  assert (∀ k, (k < Z.to_nat (cr_height r) * Z.to_nat (cr_width r))%nat →
            length (pixel_of buf r k) = 4%nat) as Hpix by (intros; apply pixel_of_length; auto with lia).
  split_and!; [done|done|lia| | |].
  - rewrite concat_pixels_length by done. lia.
  - intros px py. unfold on_tile. by rewrite Hcx, Hcy.
  - intros px py [Hpx Hpy]. pose proof (proj1 (Hcx px) Hpx). pose proof (proj1 (Hcy py) Hpy).
    destruct (source_pixel_some buf Hok Hf (px - ox) (py - oy)) as (pxs & rgba & _ & _ & _ & Hsrc);
      [lia..|]. clear pxs.
    exists rgba. split; [done|].
    set (x := Z.to_nat (px - dst_x r)). set (y := Z.to_nat (py - dst_y r)).
    replace (Z.to_nat ((py - dst_y r) * (cr_width r * 4) + 4 * (px - dst_x r)))
      with (4 * (y * Z.to_nat (cr_width r) + x))%nat by (unfold x, y; nia).
    rewrite concat_pixels_lookup by (done || (unfold x, y; nia)).
    unfold pixel_of. cbv zeta.
    rewrite Nat.div_add_l, (Nat.div_small x), Nat.add_0_r by lia.
    rewrite Nat.add_comm, Nat.Div0.mod_add, Nat.mod_small by lia.
    replace (skip_x r + Z.of_nat x) with (px - ox) by lia.
    replace (skip_y r + Z.of_nat y) with (py - oy) by lia. by rewrite Hsrc.
Qed.

(** A root surface gives a tile of the whole buffer. *)
Lemma copy_root buf id :
  buffer_ok buf → known_format buf →
  ∃ tile, copy_shm_buffer_with_bounds (Some buf) id 0 0 None = Some (Ok (Some tile)) ∧
    tile_id tile = id ∧ tile_x tile = 0 ∧ tile_y tile = 0 ∧
    tile_w tile = shm_width buf ∧ tile_h tile = shm_height buf ∧
    ∀ px py, 0 ≤ px < shm_width buf → 0 ≤ py < shm_height buf →
      source_pixel buf px py
        = Some (take 4 (drop (Z.to_nat (py * (4 * shm_width buf) + 4 * px)) (tile_bytes tile))).
Proof.
  intros Hok Hf. pose proof (copy_shm_buffer_correct buf id 0 0 None Hok Hf) as H.
  destruct Hok as [_ Hw Hh _ _]. destruct (copy_shm_buffer_with_bounds _ _ _ _ _) as [[[tile|]|]|];
    try by destruct H.
  - destruct H as (Hid & _ & Hst & _ & Hin & Hpix); [done|]. exists tile.
    unfold covered in Hin, Hpix. cbn in Hin, Hpix.
    pose proof (Hin 0 0). pose proof (Hin (-1) 0). pose proof (Hin 0 (-1)).
    pose proof (Hin (shm_width buf) 0). pose proof (Hin (shm_width buf - 1) 0).
    pose proof (Hin 0 (shm_height buf)). pose proof (Hin 0 (shm_height buf - 1)).
    assert (tile_x tile = 0 ∧ tile_y tile = 0 ∧ tile_w tile = shm_width buf
            ∧ tile_h tile = shm_height buf) as (Ex & Ey & Ew & Eh) by (split_and!; lia).
    split_and!; try done. intros px py Hpx Hpy. destruct (Hpix px py) as (rgba & Hsrc & <-); [lia|].
    by rewrite Hst, Ex, Ey, Ew, !Z.sub_0_r in *.
  - exfalso. apply (H ltac:(done) 0 0). unfold covered. cbn. lia.
Qed.

(** ** Theorems *)

(** C9: for a buffer that fits its pool and has rows at least as wide as its pixels, the
    copy neither panics nor fails: the tile covers exactly the points of the window on
    which the surface lies (all of them, for a root surface; those inside the window, for a
    child), each with its four bytes the converted pixel of the surface at that point; and
    there is no tile exactly when no such point exists. *)
Theorem copy_shm_buffer_spec buf id ox oy bounds :
  buffer_ok buf → known_format buf →
  (∀ b, bounds = Some b → 0 ≤ sb_width b ∧ 0 ≤ sb_height b) →
  let on_tile px py := covered (shm_width buf) ox (sb_width <$> bounds) px
                       ∧ covered (shm_height buf) oy (sb_height <$> bounds) py in
  match copy_shm_buffer_with_bounds (Some buf) id ox oy bounds with
  | Some (Ok None) => ∀ px py, ¬ on_tile px py
  | Some (Ok (Some tile)) =>
      tile_id tile = id ∧ tile_encoding tile = RawRgba ∧ tile_stride tile = 4 * tile_w tile ∧
      Z.of_nat (length (tile_bytes tile)) = tile_stride tile * tile_h tile ∧
      (∀ px py, on_tile px py ↔
         tile_x tile ≤ px < tile_x tile + tile_w tile ∧ tile_y tile ≤ py < tile_y tile + tile_h tile) ∧
      (∀ px py, on_tile px py →
         ∃ rgba, source_pixel buf (px - ox) (py - oy) = Some rgba ∧
           take 4 (drop (Z.to_nat ((py - tile_y tile) * tile_stride tile + 4 * (px - tile_x tile)))
                     (tile_bytes tile)) = rgba)
  | _ => False
  end.
Proof. apply copy_shm_buffer_correct. Qed.



(** A 2 × 2 buffer whose rows carry four bytes of padding, after four bytes of offset. *)
Definition sample_shm : shm_buffer :=
  mkShmBuffer 4 2 2 12 Argb8888 (map byte_of_Z (seqZ 0 28)).

Lemma copy_shm_buffer_spec_witness :
  let on_tile px py := covered 2 (-1) (Some 5) px ∧ covered 2 3 (Some 4) py in
  match copy_shm_buffer_with_bounds (Some sample_shm) 7 (-1) 3 (Some (mkSurfaceBounds 5 4)) with
  | Some (Ok None) => ∀ px py, ¬ on_tile px py
  | Some (Ok (Some tile)) =>
      tile_id tile = 7 ∧ tile_encoding tile = RawRgba ∧ tile_stride tile = 4 * tile_w tile ∧
      Z.of_nat (length (tile_bytes tile)) = tile_stride tile * tile_h tile ∧
      (∀ px py, on_tile px py ↔
         tile_x tile ≤ px < tile_x tile + tile_w tile ∧ tile_y tile ≤ py < tile_y tile + tile_h tile) ∧
      (∀ px py, on_tile px py →
         ∃ rgba, source_pixel sample_shm (px - (-1)) (py - 3) = Some rgba ∧
           take 4 (drop (Z.to_nat ((py - tile_y tile) * tile_stride tile + 4 * (px - tile_x tile)))
                     (tile_bytes tile)) = rgba)
  | _ => False
  end.
Proof.
  apply (copy_shm_buffer_spec sample_shm 7 (-1) 3 (Some (mkSurfaceBounds 5 4))); [|done|].
  - split; vm_compute; intuition discriminate.
  - intros b [= <-]. done.
Defined.

Example sample_tile_bytes :
  copy_shm_buffer_with_bounds (Some sample_shm) 7 (-1) 3 (Some (mkSurfaceBounds 5 4))
  = Some (Ok (Some (mkFrameTile 7 0 3 1 1 4 RawRgba (map byte_of_Z [10; 9; 8; 11])))).
Proof. vm_compute. reflexivity. Qed.

(** Nothing in the copy compares the declared stride with the width: a pool that holds
    exactly the declared bytes passes every check, and if its rows are declared shorter
    than its pixels the copy indexes past the pool and the compositor's thread panics. *)
Theorem short_stride_panics buf id bounds :
  0 ≤ shm_offset buf → 0 < shm_stride buf < 4 * shm_width buf →
  shm_width buf < 1073741824 → 0 < shm_height buf ≤ i32_max → shm_offset buf ≤ i32_max →
  known_format buf →
  (∀ b, bounds = Some b → shm_width buf ≤ sb_width b ∧ shm_height buf ≤ sb_height b) →
  Z.of_nat (length (shm_pool buf)) = shm_offset buf + shm_stride buf * shm_height buf →
  copy_shm_buffer_with_bounds (Some buf) id 0 0 bounds = None.
Proof.
  intros Ho Hs Hw Hh Ho' Hknown Hb Hlen. unfold i32_max in *. unfold copy_shm_buffer_with_bounds.
  rewrite (proj2 (Z.ltb_ge _ _)), !(proj2 (Z.leb_gt _ _)) by lia. cbn [orb].
  assert (surface_copy_rect_with_bounds (shm_width buf) (shm_height buf) 0 0 bounds
          = Some (mkCopyRect 0 0 0 0 (shm_width buf) (shm_height buf))) as ->.
  { unfold surface_copy_rect_with_bounds. cbn. rewrite !(proj2 (Z.leb_gt _ _)) by lia.
    cbn [orb]. rewrite !Z.sub_0_r. destruct bounds as [[bw bh]|]; [|done].
    specialize (Hb _ eq_refl). cbn in *. rewrite !Z.sub_0_r, !Z.min_l by lia.
    rewrite !(proj2 (Z.leb_gt _ _)), !(proj2 (Z.eqb_neq _ _)) by lia. done. }
  unfold checked, u32_max, u64_max. cbn [cr_width cr_height].
  rewrite !(proj2 (Z.leb_le _ _)) by nia. rewrite (proj2 (Z.ltb_ge _ _)) by nia.
  destruct (copy_rows _ _) as [st|] eqn:Hrun; [|done]. exfalso.
  apply (copy_rows_reads buf _ _ (Z.to_nat (shm_height buf) - 1) (Z.to_nat (shm_width buf) - 1))
    in Hrun; cbn in *; [|done|lia..]. nia.
Qed.

Lemma short_stride_panics_witness :
  copy_shm_buffer_with_bounds (Some (mkShmBuffer 0 2 1 2 Xrgb8888 [Byte.x01; Byte.x02])) 1 0 0 None
  = None.
Proof. apply short_stride_panics; unfold i32_max; cbn; try done; lia. Defined.
