(* ===== verification/Compositor.v ===== *)
(** * The nested compositor (crates/server/src/wayland_session/mod.rs, output.rs, host_clipboard.rs)

    [App] and its handlers: window modes and their configures, focus, pointer routing, keys,
    text input, the host clipboard, popups, and the commits that become tiles. What the
    Wayland library answers during an event is the event's [world]; what the handlers do to
    the clients and to the viewer is appended to [log]. [None] is a panic. *)

From S2P Require Import Prelude Wire Capture.

(** ** output.rs *)

Definition nonzero_size (size : Z * Z) : Z * Z := (Z.max size.1 1, Z.max size.2 1).

Definition default_restore_size (output_size : Z * Z) : Z * Z :=
  let output_size := nonzero_size output_size in
  let width := Z.min (Z.max (output_size.1 * 7 / 10) 1) output_size.1 in
  let height := Z.min (Z.max (output_size.2 * 7 / 10) 1) output_size.2 in
  nonzero_size (width, height).

Definition restore_size_for_mode_entry (current_size output_size : Z * Z) : Z * Z :=
  let current_size := nonzero_size current_size in
  let output_size := nonzero_size output_size in
  if (current_size.1 <=? 32) || (current_size.2 <=? 32) then default_restore_size output_size
  else (Z.min current_size.1 output_size.1, Z.min current_size.2 output_size.2).

(** ** Windows *)

Inductive WindowMode :=
  | Normal
  | Maximized (restore_size : Z * Z)
  | Fullscreen (restore_size : Z * Z).

#[export] Instance WindowMode_eq_dec : EqDecision WindowMode.
Proof. solve_decision. Defined.

Definition is_maximized (m : WindowMode) : bool :=
  match m with Maximized _ => true | _ => false end.

Definition is_fullscreen (m : WindowMode) : bool :=
  match m with Fullscreen _ => true | _ => false end.

Definition enter_maximized (restore_size : Z * Z) (m : WindowMode) : WindowMode :=
  if is_maximized m then m else Maximized (nonzero_size restore_size).

Definition enter_fullscreen (restore_size : Z * Z) (m : WindowMode) : WindowMode :=
  if is_fullscreen m then m else Fullscreen (nonzero_size restore_size).

Definition leave_maximized (m : WindowMode) : option (WindowMode * (Z * Z)) :=
  match m with Maximized restore_size => Some (Normal, nonzero_size restore_size) | _ => None end.

Definition leave_fullscreen (m : WindowMode) : option (WindowMode * (Z * Z)) :=
  match m with Fullscreen restore_size => Some (Normal, nonzero_size restore_size) | _ => None end.

(** The pending state of an [xdg_toplevel], which [send_configure] sends. *)
Record toplevel := mkToplevel {
  tl_size : option (Z * Z);
  tl_maximized : bool;
  tl_fullscreen : bool;
  tl_activated : bool
}.

Record RemoteWindow := mkRemoteWindow {
  win_surface : Z;
  win_toplevel : toplevel;
  win_size : Z * Z;
  win_mode : WindowMode;
  last_move_request_at : option Z
}.

Record PopupRoute := mkPopupRoute {
  route_window_id : Z; route_x : Z; route_y : Z; route_width : Z; route_height : Z
}.

(** ** Text inputs *)

Record VBoxTextInput := mkTextInput {
  ti_resource : Z;
  ti_serial : Z;
  ti_enabled : bool;
  ti_pending_enabled : option bool;
  focused_surface : option Z
}.

Inductive TextInputDelivery := Sent | WaitingForEnable | Unavailable.

Definition PENDING_TEXT_INPUT_LIMIT : nat := 32.
(** 600 ms, on a clock in nanoseconds. *)
Definition MOVE_UNMAXIMIZE_SUPPRESS_GRACE : Z := 600000000.

(** ** What the handlers do to the outside *)

Inductive effect :=
  | Send (m : Message)
  | Configure (surface : Z) (state : toplevel)
  | Send_close (surface : Z)
  | Keyboard_focus (surface : option Z)
  | Clipboard_focus (client : option Z)
  | Text_enter (resource surface : Z)
  | Text_leave (resource surface : Z)
  | Text_commit (resource : Z) (text : rstring) (serial : Z)
  | Text_preedit (resource : Z) (text : option rstring) (cursor_begin cursor_end serial : Z)
  | Pointer_motion (surface : Z) (origin location : Z * Z)
  | Pointer_button (button : Z) (state : InputButtonState)
  | Pointer_axis (delta_x_millis delta_y_millis : Z)
  | Key (keycode : Z) (state : InputKeyState)
  | Output_mode (size : Z * Z)
  | Install_selection
  | Write_selection (text : rstring)
  | Request_selection (mime : rstring) (serial : Z)
  | Popup_geometry (surface : Z) (geometry : Z * Z * Z * Z)
  | Popup_configure (surface : Z)
  | Popup_repositioned (surface token : Z)
  | Release_buffer (buffer : Z)
  | Frame_done (surface : Z).

Record App := mkApp {
  max_output_size : Z * Z;
  output_size : Z * Z;
  host_text : option rstring;
  host_last_serial : Z;
  guest_clipboard_serial : Z;
  windows : gmap Z RemoteWindow;
  surface_to_window : gmap Z Z;
  popup_routes : gmap Z PopupRoute;
  popup_order : list Z;
  child_surface_window : gmap Z Z;
  child_surfaces : gset Z;
  child_surface_last_rect : gmap Z (Z * Z * Z * Z);
  next_window_id : Z;
  active_window_id : option Z;
  text_inputs : list VBoxTextInput;
  pending_text_input : list InputEvent;
  commit_count : Z;
  frame_count : Z;
  current_buffers : gmap Z Z;
  log : list effect
}.

Definition with_output_size (v : Z * Z) (a : App) : App :=
  mkApp (max_output_size a) v (host_text a) (host_last_serial a) (guest_clipboard_serial a)
    (windows a) (surface_to_window a) (popup_routes a) (popup_order a) (child_surface_window a)
    (child_surfaces a) (child_surface_last_rect a) (next_window_id a) (active_window_id a)
    (text_inputs a) (pending_text_input a) (commit_count a) (frame_count a) (current_buffers a)
    (log a).
Definition with_host_text (v : option rstring) (a : App) : App :=
  mkApp (max_output_size a) (output_size a) v (host_last_serial a) (guest_clipboard_serial a)
    (windows a) (surface_to_window a) (popup_routes a) (popup_order a) (child_surface_window a)
    (child_surfaces a) (child_surface_last_rect a) (next_window_id a) (active_window_id a)
    (text_inputs a) (pending_text_input a) (commit_count a) (frame_count a) (current_buffers a)
    (log a).
Definition with_host_last_serial (v : Z) (a : App) : App :=
  mkApp (max_output_size a) (output_size a) (host_text a) v (guest_clipboard_serial a)
    (windows a) (surface_to_window a) (popup_routes a) (popup_order a) (child_surface_window a)
    (child_surfaces a) (child_surface_last_rect a) (next_window_id a) (active_window_id a)
    (text_inputs a) (pending_text_input a) (commit_count a) (frame_count a) (current_buffers a)
    (log a).
Definition with_guest_clipboard_serial (v : Z) (a : App) : App :=
  mkApp (max_output_size a) (output_size a) (host_text a) (host_last_serial a) v (windows a)
    (surface_to_window a) (popup_routes a) (popup_order a) (child_surface_window a)
    (child_surfaces a) (child_surface_last_rect a) (next_window_id a) (active_window_id a)
    (text_inputs a) (pending_text_input a) (commit_count a) (frame_count a) (current_buffers a)
    (log a).
Definition with_windows (v : gmap Z RemoteWindow) (a : App) : App :=
  mkApp (max_output_size a) (output_size a) (host_text a) (host_last_serial a)
    (guest_clipboard_serial a) v (surface_to_window a) (popup_routes a) (popup_order a)
    (child_surface_window a) (child_surfaces a) (child_surface_last_rect a) (next_window_id a)
    (active_window_id a) (text_inputs a) (pending_text_input a) (commit_count a) (frame_count a)
    (current_buffers a) (log a).
Definition with_surface_to_window (v : gmap Z Z) (a : App) : App :=
  mkApp (max_output_size a) (output_size a) (host_text a) (host_last_serial a)
    (guest_clipboard_serial a) (windows a) v (popup_routes a) (popup_order a)
    (child_surface_window a) (child_surfaces a) (child_surface_last_rect a) (next_window_id a)
    (active_window_id a) (text_inputs a) (pending_text_input a) (commit_count a) (frame_count a)
    (current_buffers a) (log a).
Definition with_popup_routes (v : gmap Z PopupRoute) (a : App) : App :=
  mkApp (max_output_size a) (output_size a) (host_text a) (host_last_serial a)
    (guest_clipboard_serial a) (windows a) (surface_to_window a) v (popup_order a)
    (child_surface_window a) (child_surfaces a) (child_surface_last_rect a) (next_window_id a)
    (active_window_id a) (text_inputs a) (pending_text_input a) (commit_count a) (frame_count a)
    (current_buffers a) (log a).
Definition with_popup_order (v : list Z) (a : App) : App :=
  mkApp (max_output_size a) (output_size a) (host_text a) (host_last_serial a)
    (guest_clipboard_serial a) (windows a) (surface_to_window a) (popup_routes a) v
    (child_surface_window a) (child_surfaces a) (child_surface_last_rect a) (next_window_id a)
    (active_window_id a) (text_inputs a) (pending_text_input a) (commit_count a) (frame_count a)
    (current_buffers a) (log a).
Definition with_child_surface_window (v : gmap Z Z) (a : App) : App :=
  mkApp (max_output_size a) (output_size a) (host_text a) (host_last_serial a)
    (guest_clipboard_serial a) (windows a) (surface_to_window a) (popup_routes a)
    (popup_order a) v (child_surfaces a) (child_surface_last_rect a) (next_window_id a)
    (active_window_id a) (text_inputs a) (pending_text_input a) (commit_count a) (frame_count a)
    (current_buffers a) (log a).
Definition with_child_surfaces (v : gset Z) (a : App) : App :=
  mkApp (max_output_size a) (output_size a) (host_text a) (host_last_serial a)
    (guest_clipboard_serial a) (windows a) (surface_to_window a) (popup_routes a)
    (popup_order a) (child_surface_window a) v (child_surface_last_rect a) (next_window_id a)
    (active_window_id a) (text_inputs a) (pending_text_input a) (commit_count a) (frame_count a)
    (current_buffers a) (log a).
Definition with_child_surface_last_rect (v : gmap Z (Z * Z * Z * Z)) (a : App) : App :=
  mkApp (max_output_size a) (output_size a) (host_text a) (host_last_serial a)
    (guest_clipboard_serial a) (windows a) (surface_to_window a) (popup_routes a)
    (popup_order a) (child_surface_window a) (child_surfaces a) v (next_window_id a)
    (active_window_id a) (text_inputs a) (pending_text_input a) (commit_count a) (frame_count a)
    (current_buffers a) (log a).
Definition with_next_window_id (v : Z) (a : App) : App :=
  mkApp (max_output_size a) (output_size a) (host_text a) (host_last_serial a)
    (guest_clipboard_serial a) (windows a) (surface_to_window a) (popup_routes a)
    (popup_order a) (child_surface_window a) (child_surfaces a) (child_surface_last_rect a) v
    (active_window_id a) (text_inputs a) (pending_text_input a) (commit_count a) (frame_count a)
    (current_buffers a) (log a).
Definition with_active_window_id (v : option Z) (a : App) : App :=
  mkApp (max_output_size a) (output_size a) (host_text a) (host_last_serial a)
    (guest_clipboard_serial a) (windows a) (surface_to_window a) (popup_routes a)
    (popup_order a) (child_surface_window a) (child_surfaces a) (child_surface_last_rect a)
    (next_window_id a) v (text_inputs a) (pending_text_input a) (commit_count a) (frame_count a)
    (current_buffers a) (log a).
Definition with_text_inputs (v : list VBoxTextInput) (a : App) : App :=
  mkApp (max_output_size a) (output_size a) (host_text a) (host_last_serial a)
    (guest_clipboard_serial a) (windows a) (surface_to_window a) (popup_routes a)
    (popup_order a) (child_surface_window a) (child_surfaces a) (child_surface_last_rect a)
    (next_window_id a) (active_window_id a) v (pending_text_input a) (commit_count a)
    (frame_count a) (current_buffers a) (log a).
Definition with_pending_text_input (v : list InputEvent) (a : App) : App :=
  mkApp (max_output_size a) (output_size a) (host_text a) (host_last_serial a)
    (guest_clipboard_serial a) (windows a) (surface_to_window a) (popup_routes a)
    (popup_order a) (child_surface_window a) (child_surfaces a) (child_surface_last_rect a)
    (next_window_id a) (active_window_id a) (text_inputs a) v (commit_count a) (frame_count a)
    (current_buffers a) (log a).
Definition with_commit_count (v : Z) (a : App) : App :=
  mkApp (max_output_size a) (output_size a) (host_text a) (host_last_serial a)
    (guest_clipboard_serial a) (windows a) (surface_to_window a) (popup_routes a)
    (popup_order a) (child_surface_window a) (child_surfaces a) (child_surface_last_rect a)
    (next_window_id a) (active_window_id a) (text_inputs a) (pending_text_input a) v
    (frame_count a) (current_buffers a) (log a).
Definition with_frame_count (v : Z) (a : App) : App :=
  mkApp (max_output_size a) (output_size a) (host_text a) (host_last_serial a)
    (guest_clipboard_serial a) (windows a) (surface_to_window a) (popup_routes a)
    (popup_order a) (child_surface_window a) (child_surfaces a) (child_surface_last_rect a)
    (next_window_id a) (active_window_id a) (text_inputs a) (pending_text_input a)
    (commit_count a) v (current_buffers a) (log a).
Definition with_current_buffers (v : gmap Z Z) (a : App) : App :=
  mkApp (max_output_size a) (output_size a) (host_text a) (host_last_serial a)
    (guest_clipboard_serial a) (windows a) (surface_to_window a) (popup_routes a)
    (popup_order a) (child_surface_window a) (child_surfaces a) (child_surface_last_rect a)
    (next_window_id a) (active_window_id a) (text_inputs a) (pending_text_input a)
    (commit_count a) (frame_count a) v (log a).
Definition with_log (v : list effect) (a : App) : App :=
  mkApp (max_output_size a) (output_size a) (host_text a) (host_last_serial a)
    (guest_clipboard_serial a) (windows a) (surface_to_window a) (popup_routes a)
    (popup_order a) (child_surface_window a) (child_surfaces a) (child_surface_last_rect a)
    (next_window_id a) (active_window_id a) (text_inputs a) (pending_text_input a)
    (commit_count a) (frame_count a) (current_buffers a) v.

(** Appends to the log. *)
Definition emit (es : list effect) (a : App) : App := with_log (log a ++ es) a.
Definition enqueue_message (m : Message) (a : App) : App := emit [Send m] a.

Definition set_window (id : Z) (win : RemoteWindow) (a : App) : App :=
  with_windows (<[id := win]> (windows a)) a.

(** The state [run] starts from, for a requested size. *)
Definition App_new (width height : Z) : App :=
  let size := (Z.max width 1, Z.max height 1) in
  mkApp size size None 0 0 ∅ ∅ ∅ [] ∅ ∅ ∅ 1 None [] [] 0 0 ∅ [].

(** What the Wayland library and the clock say during one event: the surface tree, who owns
    an object, which text inputs still live, the order a hash map is walked in, the pools
    behind the buffers, the role data, and the environment switch for GTK's requests. *)
Record world := mkWorld {
  now : Z;
  client_of : Z → Z;
  is_alive : Z → bool;
  hash_order : gset Z → list Z;
  parent_of : gmap Z Z;
  location : Z → Z * Z;
  buffer_contents : Z → option shm_buffer;
  title_for : Z → rstring;
  app_id_for : Z → rstring;
  gtk_wm_requests_enabled : bool
}.

(** A positioner: its own geometry, and the one smithay computes inside a target. *)
Record PositionerState := mkPositioner {
  get_geometry : Z * Z * Z * Z;
  get_unconstrained_geometry : Z * Z * Z * Z → Z * Z * Z * Z
}.

Inductive CommitBuffer := Buffer_New (buffer : Z) | Buffer_Removed | Buffer_None.

Inductive text_input_request := Ti_Enable | Ti_Disable | Ti_Other | Ti_Commit | Ti_Destroy.

Section handlers.
Context (w : world).

Definition window_geom (win : RemoteWindow) : WindowGeometry :=
  mkWindowGeometry 0 0 (win_size win).1 (win_size win).2.

Definition window_surface (a : App) (id : Z) : option Z := win_surface <$> windows a !! id.

Definition active_surface (a : App) : option Z := id ← active_window_id a; window_surface a id.

(** *** The surface tree *)

(** [surface_window_offset]: one step per surface on the way up. *)
Fixpoint surface_window_offset_loop (fuel : nat) (a : App) (current x y : Z) : option (Z * Z * Z) :=
  match fuel with
  | O => None
  | S fuel =>
      match surface_to_window a !! current with
      | Some id => Some (id, x, y)
      | None =>
          match popup_routes a !! current with
          | Some route =>
              Some (route_window_id route, sat_i32 (x + route_x route), sat_i32 (y + route_y route))
          | None =>
              let loc := location w current in
              p ← parent_of w !! current;
              surface_window_offset_loop fuel a p (sat_i32 (x + loc.1)) (sat_i32 (y + loc.2))
          end
      end
  end.

(** A walk goes through every child at most once. *)
Definition surface_window_offset (a : App) (surface : Z) : option (Z * Z * Z) :=
  surface_window_offset_loop (S (size (parent_of w))) a surface 0 0.

Definition u32_to_i32_saturating (v : Z) : Z := Z.min v i32_max.

Definition popup_constraint_target (window_size : Z * Z) (parent_x parent_y : Z) : Z * Z * Z * Z :=
  (sat_i32 (- parent_x), sat_i32 (- parent_y),
   u32_to_i32_saturating window_size.1, u32_to_i32_saturating window_size.2).

Definition popup_geometry_for_window (positioner : PositionerState) (window_size : option (Z * Z))
    (parent_x parent_y : Z) : Z * Z * Z * Z :=
  match window_size with
  | Some size => get_unconstrained_geometry positioner (popup_constraint_target size parent_x parent_y)
  | None => get_geometry positioner
  end.

Definition route_popup (surface : Z) (parent : option Z) (positioner : PositionerState) (a : App) : App :=
  match parent with
  | None => a
  | Some parent =>
      match surface_window_offset a parent with
      | None => a
      | Some (window_id, parent_x, parent_y) =>
          let window_size := win_size <$> windows a !! window_id in
          let '(gx, gy, gw, gh) := popup_geometry_for_window positioner window_size parent_x parent_y in
          let a := emit [Popup_geometry surface (gx, gy, gw, gh)] a in
          let route := mkPopupRoute window_id (sat_i32 (parent_x + gx)) (sat_i32 (parent_y + gy))
                         (Z.max gw 1) (Z.max gh 1) in
          let a := with_popup_routes (<[surface := route]> (popup_routes a)) a in
          with_popup_order (filter (λ known, known ≠ surface) (popup_order a) ++ [surface]) a
      end
  end.

Definition update_popup_size (surface width height : Z) (a : App) : App :=
  match popup_routes a !! surface with
  | Some route =>
      with_popup_routes (<[surface := mkPopupRoute (route_window_id route) (route_x route) (route_y route)
                                       (Z.max width 1) (Z.max height 1)]> (popup_routes a)) a
  | None => a
  end.

Definition remove_popup_route_for_surface (key : Z) (a : App) : App * option Z :=
  match popup_routes a !! key with
  | Some route =>
      (with_popup_order (filter (λ known, known ≠ key) (popup_order a))
         (with_popup_routes (delete key (popup_routes a)) a), Some (route_window_id route))
  | None => (a, None)
  end.

Definition clear_child_surface_tracking (key : Z) (a : App) : App :=
  with_child_surface_last_rect (delete key (child_surface_last_rect a))
    (with_child_surfaces (child_surfaces a ∖ {[key]})
       (with_child_surface_window (delete key (child_surface_window a))
          (with_current_buffers (delete key (current_buffers a)) a))).

(** *** Pointer routing *)

Definition popup_route_is_pointer_candidate (has_live_buffer : bool)
    (route_window_id target_window_id : Z) : bool :=
  has_live_buffer && (route_window_id =? target_window_id).

(** The route at [key] takes the point. *)
Definition popup_takes (a : App) (id x y key : Z) : bool :=
  match popup_routes a !! key with
  | None => false
  | Some route =>
      popup_route_is_pointer_candidate (bool_decide (is_Some (current_buffers a !! key)))
        (route_window_id route) id
      && (route_x route <=? x) && (x <? sat_i32 (route_x route + as_i32 (route_width route)))
      && (route_y route <=? y) && (y <? sat_i32 (route_y route + as_i32 (route_height route)))
  end.

(** [i32::clamp], which panics when the bounds are crossed. *)
Definition clamp_i32 (v lo hi : Z) : option Z :=
  if lo <=? hi then Some (Z.max lo (Z.min v hi)) else None.

Inductive pointer_target :=
  | No_target
  | Target (surface origin_x origin_y x y : Z).

Definition pointer_target_at (a : App) (id x y : Z) : option pointer_target :=
  match find (popup_takes a id x y) (reverse (popup_order a)) with
  | Some key =>
      match popup_routes a !! key with
      | Some route => Some (Target key (route_x route) (route_y route) x y)
      | None => Some No_target
      end
  | None =>
      match windows a !! id with
      | None => Some No_target
      | Some win =>
          root_x ← clamp_i32 x 0 (as_i32 (sat_sub (win_size win).1 1));
          root_y ← clamp_i32 y 0 (as_i32 (sat_sub (win_size win).2 1));
          Some (Target (win_surface win) 0 0 root_x root_y)
      end
  end.

(** *** Focus *)

Definition with_activation (active : bool) (win : RemoteWindow) : RemoteWindow :=
  let t := win_toplevel win in
  mkRemoteWindow (win_surface win)
    (mkToplevel (tl_size t) (tl_maximized t) (tl_fullscreen t) active)
    (win_size win) (win_mode win) (last_move_request_at win).

Definition activate_window (active_id : option Z) (a : App) (id : Z) : App :=
  match windows a !! id with
  | Some win =>
      let win := with_activation (bool_decide (Some id = active_id)) win in
      emit [Configure (win_surface win) (win_toplevel win)] (set_window id win a)
  | None => a
  end.

Definition set_toplevel_activation (active_id : option Z) (a : App) : App :=
  foldl (activate_window active_id) a (hash_order w (dom (windows a))).

(** [VBoxTextInput::leave]. *)
Definition leave (input : VBoxTextInput) : VBoxTextInput * list effect :=
  match focused_surface input with
  | Some surface =>
      (mkTextInput (ti_resource input) (ti_serial input) (ti_enabled input)
         (ti_pending_enabled input) None, [Text_leave (ti_resource input) surface])
  | None => (input, [])
  end.

Definition with_focus (surface : Z) (input : VBoxTextInput) : VBoxTextInput :=
  mkTextInput (ti_resource input) (ti_serial input) (ti_enabled input)
    (ti_pending_enabled input) (Some surface).

Definition focus_text_input (surface : Z) (input : VBoxTextInput) : VBoxTextInput * list effect :=
  if negb (is_alive w (ti_resource input)) then (input, [])
  else if negb (client_of w (ti_resource input) =? client_of w surface) then leave input
  else if bool_decide (focused_surface input = Some surface) then (input, [])
  else let '(input, es) := leave input in
       (with_focus surface input, es ++ [Text_enter (ti_resource input) surface]).

(** A loop over the text inputs that updates each one. *)
Definition for_text_inputs (f : VBoxTextInput → VBoxTextInput * list effect) (a : App) : App :=
  let visited := f <$> text_inputs a in
  emit (concat (snd <$> visited)) (with_text_inputs (fst <$> visited) a).

Definition set_text_input_focus (a : App) : App :=
  match active_surface a with
  | None => a
  | Some surface => for_text_inputs (focus_text_input surface) a
  end.

Definition clear_text_input_focus (a : App) : App := for_text_inputs leave a.

Definition sync_clipboard_focus_to_surface (surface : option Z) (a : App) : App :=
  emit [Clipboard_focus (client_of w <$> surface)] a.

Definition focus_window (id : Z) (a : App) : App :=
  match window_surface a id with
  | None => a
  | Some surface =>
      let changed := negb (bool_decide (active_window_id a = Some id)) in
      let a := with_active_window_id (Some id) a in
      let a := if changed then set_toplevel_activation (Some id) a else a in
      let a := emit [Keyboard_focus (Some surface)] a in
      let a := sync_clipboard_focus_to_surface (Some surface) a in
      set_text_input_focus a
  end.

Definition clear_focus (a : App) : App :=
  let had := bool_decide (is_Some (active_window_id a)) in
  let a := with_active_window_id None a in
  let a := if had then set_toplevel_activation None a else a in
  let a := emit [Keyboard_focus None] a in
  let a := sync_clipboard_focus_to_surface None a in
  clear_text_input_focus a.

Definition clear_window_focus (id : Z) (a : App) : App :=
  if bool_decide (active_window_id a = Some id) then clear_focus a else a.

(** *** Window requests *)

Definition set_output_size (size : Z * Z) (a : App) : App :=
  let size := nonzero_size size in
  if bool_decide (output_size a = size) then a
  else emit [Output_mode (as_i32 size.1, as_i32 size.2)] (with_output_size size a).

(** [with_pending_state] and [send_configure] after a change of mode. *)
Definition reconfigure (id : Z) (win : RemoteWindow) (mode : WindowMode) (size : Z * Z)
    (maximized fullscreen : bool) (a : App) : App :=
  let state := mkToplevel (Some (as_i32 size.1, as_i32 size.2)) maximized fullscreen
                 (tl_activated (win_toplevel win)) in
  emit [Configure (win_surface win) state]
    (set_window id (mkRemoteWindow (win_surface win) state (win_size win) mode
                      (last_move_request_at win)) a).

Definition fullscreen_changed (id : Z) (fullscreen : bool) : Message :=
  Message_WindowEvent (WE_FullscreenChanged id fullscreen).

Definition request_window_close (id : Z) (a : App) : App :=
  match windows a !! id with
  | None => a
  | Some win => emit [Send_close (win_surface win)] a
  end.

Definition request_window_resize (id width height : Z) (a : App) : App :=
  match windows a !! id with
  | None => a
  | Some win =>
      let requested_size := nonzero_size (width, height) in
      let was_maximized := is_maximized (win_mode win) in
      let was_fullscreen := is_fullscreen (win_mode win) in
      if bool_decide (win_size win = requested_size) && negb was_maximized && negb was_fullscreen then a
      else
        let a := set_output_size requested_size a in
        let a := reconfigure id win Normal requested_size false false a in
        if was_fullscreen then enqueue_message (fullscreen_changed id false) a else a
  end.

Definition request_window_maximize_by_id (id : Z) (a : App) : App :=
  let target := nonzero_size (max_output_size a) in
  match windows a !! id with
  | None => a
  | Some win =>
      if is_maximized (win_mode win) && bool_decide (win_size win = target) then a else
      let restore_size := match win_mode win with
                          | Maximized restore_size => restore_size
                          | _ => restore_size_for_mode_entry (win_size win) (max_output_size a)
                          end in
      reconfigure id win (enter_maximized restore_size (win_mode win)) target true false a
  end.

(** The last move request is at most the grace period old. *)
Definition in_grace (win : RemoteWindow) : bool :=
  match last_move_request_at win with
  | Some at_ => now w - at_ <=? MOVE_UNMAXIMIZE_SUPPRESS_GRACE
  | None => false
  end.

Definition forget_move (id : Z) (win : RemoteWindow) (a : App) : App :=
  set_window id (mkRemoteWindow (win_surface win) (win_toplevel win) (win_size win) (win_mode win) None) a.

Definition request_window_unmaximize_by_id (id : Z) (suppress_recent_move : bool) (a : App) : App :=
  match windows a !! id with
  | None => a
  | Some win =>
      if suppress_recent_move && in_grace win then forget_move id win a
      else match leave_maximized (win_mode win) with
           | None => a
           | Some (mode, target) =>
               reconfigure id win mode target false (tl_fullscreen (win_toplevel win)) a
           end
  end.

Definition toggle_window_maximize (id : Z) (a : App) : App :=
  match windows a !! id with
  | None => a
  | Some win =>
      if is_maximized (win_mode win) then request_window_unmaximize_by_id id false a
      else request_window_maximize_by_id id a
  end.

Definition request_window_fullscreen_by_id (id : Z) (a : App) : App :=
  let target := nonzero_size (max_output_size a) in
  match windows a !! id with
  | None => a
  | Some win =>
      let restore_size := match win_mode win with
                          | Fullscreen restore_size => restore_size
                          | _ => restore_size_for_mode_entry (win_size win) (max_output_size a)
                          end in
      let already_aligned := is_fullscreen (win_mode win) && bool_decide (win_size win = target) in
      let a := if already_aligned then a
               else reconfigure id win (enter_fullscreen restore_size (win_mode win)) target false true a in
      enqueue_message (fullscreen_changed id true) a
  end.

Definition request_window_unfullscreen_by_id (id : Z) (suppress_recent_move : bool) (a : App) : App :=
  match windows a !! id with
  | None => a
  | Some win =>
      if suppress_recent_move && in_grace win then forget_move id win a
      else
        let a := match leave_fullscreen (win_mode win) with
                 | None => a
                 | Some (mode, target) =>
                     reconfigure id win mode target (tl_maximized (win_toplevel win)) false a
                 end in
        enqueue_message (fullscreen_changed id false) a
  end.

Definition set_window_fullscreen (id : Z) (fullscreen : bool) (a : App) : App :=
  if fullscreen then request_window_fullscreen_by_id id a
  else request_window_unfullscreen_by_id id false a.

(** A guest's request about the window of a surface. *)
Definition for_surface (surface : Z) (f : Z → App → App) (a : App) : App :=
  match surface_to_window a !! surface with Some id => f id a | None => a end.

Definition maximize_request (surface : Z) (a : App) : App :=
  if gtk_wm_requests_enabled w then for_surface surface request_window_maximize_by_id a else a.

Definition unmaximize_request (surface : Z) (a : App) : App :=
  if gtk_wm_requests_enabled w
  then for_surface surface (λ id, request_window_unmaximize_by_id id true) a else a.

Definition fullscreen_request (surface : Z) : App → App :=
  for_surface surface request_window_fullscreen_by_id.

Definition unfullscreen_request (surface : Z) : App → App :=
  for_surface surface (λ id, request_window_unfullscreen_by_id id true).

Definition request_window_minimize (surface : Z) : App → App :=
  for_surface surface (λ id, enqueue_message (Message_WindowEvent (WE_Minimized id))).

Definition request_window_move (surface : Z) : App → App :=
  for_surface surface (λ id a,
    let a := match windows a !! id with
             | Some win => set_window id (mkRemoteWindow (win_surface win) (win_toplevel win)
                                            (win_size win) (win_mode win) (Some (now w))) a
             | None => a
             end in
    enqueue_message (Message_WindowEvent (WE_MoveRequested id)) a).

Definition title_changed (surface : Z) : App → App :=
  for_surface surface (λ id,
    enqueue_message (Message_WindowEvent (WE_TitleChanged id (title_for w surface)))).

(** *** Input *)

Definition pointer_motion (id x y : Z) (a : App) : option App :=
  target ← pointer_target_at a id x y;
  match target with
  | No_target => Some a
  | Target surface ox oy x y => Some (emit [Pointer_motion surface (ox, oy) (x, y)] a)
  end.

Definition pointer_button (id button : Z) (state : InputButtonState) (a : App) : App :=
  emit [Pointer_button button state] (focus_window id a).

(** The axis values are f64 quotients of these; they are not computed here. *)
Definition pointer_scroll (id delta_x_millis delta_y_millis : Z) (a : App) : App :=
  emit [Pointer_axis delta_x_millis delta_y_millis] (focus_window id a).

(** [keycode + 8] on u32, as a release build computes it. *)
Definition xkb_keycode (keycode : Z) : Z := (keycode + 8) mod 4294967296.

Definition keyboard_key (id keycode : Z) (state : InputKeyState) (a : App) : App :=
  emit [Key (xkb_keycode keycode) state] (focus_window id a).

(** The keys of a US layout, by character: key code and whether Shift is held. *)
Definition keycode_table : list (Z * (Z * bool)) :=
  [(49, (2, false)); (50, (3, false)); (51, (4, false)); (52, (5, false)); (53, (6, false));
   (54, (7, false)); (55, (8, false)); (56, (9, false)); (57, (10, false)); (48, (11, false));
   (33, (2, true)); (64, (3, true)); (35, (4, true)); (36, (5, true)); (37, (6, true));
   (94, (7, true)); (38, (8, true)); (42, (9, true)); (40, (10, true)); (41, (11, true));
   (45, (12, false)); (95, (12, true)); (61, (13, false)); (43, (13, true)); (9, (15, false));
   (113, (16, false)); (81, (16, true)); (119, (17, false)); (87, (17, true));
   (101, (18, false)); (69, (18, true)); (114, (19, false)); (82, (19, true));
   (116, (20, false)); (84, (20, true)); (121, (21, false)); (89, (21, true));
   (117, (22, false)); (85, (22, true)); (105, (23, false)); (73, (23, true));
   (111, (24, false)); (79, (24, true)); (112, (25, false)); (80, (25, true));
   (91, (26, false)); (123, (26, true)); (93, (27, false)); (125, (27, true));
   (10, (28, false)); (13, (28, false)); (97, (30, false)); (65, (30, true));
   (115, (31, false)); (83, (31, true)); (100, (32, false)); (68, (32, true));
   (102, (33, false)); (70, (33, true)); (103, (34, false)); (71, (34, true));
   (104, (35, false)); (72, (35, true)); (106, (36, false)); (74, (36, true));
   (107, (37, false)); (75, (37, true)); (108, (38, false)); (76, (38, true));
   (59, (39, false)); (58, (39, true)); (39, (40, false)); (34, (40, true));
   (96, (41, false)); (126, (41, true)); (92, (43, false)); (124, (43, true));
   (122, (44, false)); (90, (44, true)); (120, (45, false)); (88, (45, true));
   (99, (46, false)); (67, (46, true)); (118, (47, false)); (86, (47, true));
   (98, (48, false)); (66, (48, true)); (110, (49, false)); (78, (49, true));
   (109, (50, false)); (77, (50, true)); (44, (51, false)); (60, (51, true));
   (46, (52, false)); (62, (52, true)); (47, (53, false)); (63, (53, true)); (32, (57, false))].

Definition ascii_keycode (ch : char) : option (Z * bool) :=
  snd <$> find (λ row, row.1 =? ch) keycode_table.

(** *** Text *)

Definition commit_text_input (text : rstring) (a : App) : App * TextInputDelivery :=
  if bool_decide (text = []) then (a, Sent) else
  match active_surface a with
  | None => (a, Unavailable)
  | Some surface =>
      let same := filter (λ i, client_of w (ti_resource i) = client_of w surface) (text_inputs a) in
      let enabled := filter (λ i, ti_enabled i = true) same in
      let a := emit ((λ i, Text_commit (ti_resource i) text (ti_serial i)) <$> enabled) a in
      (a, match enabled, same with
          | _ :: _, _ => Sent
          | [], _ :: _ => WaitingForEnable
          | [], [] => Unavailable
          end)
  end.

Definition queue_pending_text_input (event : InputEvent) (a : App) : App :=
  if (PENDING_TEXT_INPUT_LIMIT <=? length (pending_text_input a))%nat then a
  else with_pending_text_input (pending_text_input a ++ [event]) a.

Definition type_char (id : Z) (a : App) (ch : char) : App :=
  match ascii_keycode ch with
  | None => a
  | Some (keycode, shifted) =>
      let a := if shifted : bool then keyboard_key id 42 Key_Pressed a else a in
      let a := keyboard_key id keycode Key_Pressed a in
      let a := keyboard_key id keycode Key_Released a in
      if shifted then keyboard_key id 42 Key_Released a else a
  end.

(** [synthesize_ascii_text]: the state, and whether any key was sent. *)
Definition synthesize_ascii_text (id : Z) (text : rstring) (a : App) : App * bool :=
  (foldl (type_char id) a text, existsb (λ ch, bool_decide (is_Some (ascii_keycode ch))) text).

Definition inject_text (id : Z) (text : rstring) (a : App) : App :=
  let a := focus_window id a in
  let '(a, delivery) := commit_text_input text a in
  match delivery with
  | Sent => a
  | WaitingForEnable =>
      let '(a', sent_any) := synthesize_ascii_text id text a in
      if sent_any then a' else queue_pending_text_input (IE_Text id text) a'
  | Unavailable => (synthesize_ascii_text id text a).1
  end.

Definition preedit_text_input (id : Z) (text : rstring) (cursor_begin cursor_end : Z) (a : App) : App :=
  let a := focus_window id a in
  match active_surface a with
  | None => a
  | Some surface =>
      let same := filter (λ i, client_of w (ti_resource i) = client_of w surface) (text_inputs a) in
      let enabled := filter (λ i, ti_enabled i = true) same in
      let preedit := if bool_decide (text = []) then None else Some text in
      let a := emit ((λ i, Text_preedit (ti_resource i) preedit cursor_begin cursor_end (ti_serial i))
                       <$> enabled) a in
      match enabled, same with
      | [], _ :: _ => queue_pending_text_input (IE_Preedit id text cursor_begin cursor_end) a
      | _, _ => a
      end
  end.

Definition handle_input_event (event : InputEvent) (a : App) : option App :=
  match event with
  | IE_PointerMotion id x y => pointer_motion id x y a
  | IE_PointerButton id button state => Some (pointer_button id button state a)
  | IE_PointerScroll id dx dy => Some (pointer_scroll id dx dy a)
  | IE_Key id keycode state => Some (keyboard_key id keycode state a)
  | IE_Text id text => Some (inject_text id text a)
  | IE_Focus id focused => Some (if focused then focus_window id a else clear_window_focus id a)
  | IE_Resize id width height => Some (request_window_resize id width height a)
  | IE_ToggleMaximize id => Some (toggle_window_maximize id a)
  | IE_SetFullscreen id fullscreen => Some (set_window_fullscreen id fullscreen a)
  | IE_Close id => Some (request_window_close id a)
  | IE_Preedit id text cursor_begin cursor_end =>
      Some (preedit_text_input id text cursor_begin cursor_end a)
  end.

Fixpoint handle_input_events (events : list InputEvent) (a : App) : option App :=
  match events with
  | [] => Some a
  | event :: events => a ← handle_input_event event a; handle_input_events events a
  end.

(** [flush_pending_text_input]: the queue is taken before its events are handled. *)
Definition flush_pending_text_input (a : App) : option App :=
  handle_input_events (pending_text_input a) (with_pending_text_input [] a).

Definition register_text_input (resource : Z) (a : App) : App :=
  let input := mkTextInput resource 0 false None None in
  match active_surface a with
  | Some surface =>
      if client_of w resource =? client_of w surface
      then with_text_inputs (text_inputs a ++ [with_focus surface input])
             (emit [Text_enter resource surface] a)
      else with_text_inputs (text_inputs a ++ [input]) a
  | None => with_text_inputs (text_inputs a ++ [input]) a
  end.

(** What a request does to its text input, and whether the queue is to be flushed. *)
Definition apply_text_input_request (request : text_input_request) (input : VBoxTextInput) :
    VBoxTextInput * bool :=
  let '(mkTextInput resource serial enabled pending focused) := input in
  match request with
  | Ti_Enable => (mkTextInput resource serial enabled (Some true) focused, false)
  | Ti_Disable => (mkTextInput resource serial enabled (Some false) focused, false)
  | Ti_Other | Ti_Destroy => (input, false)
  | Ti_Commit =>
      let serial := sat_add u32_max serial 1 in
      match pending with
      | Some enabled => (mkTextInput resource serial enabled None focused, enabled)
      | None => (mkTextInput resource serial enabled None focused, false)
      end
  end.

(** [Dispatch<ZwpTextInputV3>::request]. *)
Definition text_input_request_handler (resource : Z) (request : text_input_request) (a : App) : option App :=
  match list_find (λ input, ti_resource input = resource) (text_inputs a) with
  | None => Some a
  | Some (i, input) =>
      let '(input, flush_pending) := apply_text_input_request request input in
      let a := with_text_inputs (<[i := input]> (text_inputs a)) a in
      if flush_pending then flush_pending_text_input a else Some a
  end.

Definition text_input_destroyed (resource : Z) (a : App) : App :=
  with_text_inputs (filter (λ input, ti_resource input ≠ resource) (text_inputs a)) a.

(** *** The clipboard *)

Definition apply_host_clipboard (payload : Clipboard) (a : App) : App :=
  match clip_origin payload with
  | Origin_Guest => a
  | Origin_Host =>
      if MAX_CLIPBOARD_TEXT_BYTES <? str_len (clip_text payload) then a
      else if (clip_serial payload <=? host_last_serial a) && bool_decide (is_Some (host_text a)) then a
      else emit [Install_selection]
             (with_host_text (Some (clip_text payload)) (with_host_last_serial (clip_serial payload) a))
  end.

Definition is_text_mime (mime : rstring) : bool :=
  let lower := ascii_lower <$> mime in
  bool_decide (lower = lit "text/plain") || bool_decide (lit "text/plain;" `prefix_of` lower)
  || bool_decide (mime = lit "UTF8_STRING") || bool_decide (mime = lit "STRING").

(** [new_selection] for the clipboard target; [accepted]: the pipe was made and the client
    took the request. *)
Definition new_selection (source : option (list rstring)) (accepted : bool) (a : App) : App :=
  match source ≫= find is_text_mime with
  | None => a
  | Some mime =>
      if accepted then
        let serial := sat_add u64_max (guest_clipboard_serial a) 1 in
        emit [Request_selection mime serial] (with_guest_clipboard_serial serial a)
      else a
  end.

Definition send_selection (clipboard_target : bool) (mime : rstring) (a : App) : App :=
  if negb clipboard_target then a
  else if negb (is_text_mime mime) then a
  else match host_text a with None => a | Some text => emit [Write_selection text] a end.

(** *** Commits *)

Definition is_root_surface_for_window (a : App) (surface id : Z) : bool :=
  bool_decide (surface_to_window a !! surface = Some id).

(** The committed surface is its window's root, at no offset. *)
Definition is_root_commit (a : App) (surface id offset_x offset_y : Z) : bool :=
  (offset_x =? 0) && (offset_y =? 0) && is_root_surface_for_window a surface id.

Definition resize_root_window (id width height : Z) (a : App) : App * option WindowGeometry :=
  match windows a !! id with
  | None => (a, None)
  | Some win =>
      let new_size := nonzero_size (width, height) in
      if bool_decide (win_size win = new_size) then (a, None)
      else let win := mkRemoteWindow (win_surface win) (win_toplevel win) new_size (win_mode win)
                        (last_move_request_at win) in
           (set_window id win a, Some (window_geom win))
  end.

Definition repaint_window_from_cached_buffer (id : Z) (a : App) : option App :=
  match win ← windows a !! id; current_buffers a !! win_surface win with
  | None => Some a
  | Some buffer =>
      copied ← copy_shm_buffer (buffer_contents w buffer) id 0 0;
      match copied with
      | Ok (Some tile) => Some (enqueue_message (Message_FrameTile tile) a)
      | _ => Some a
      end
  end.

(** One candidate of [repaint_moved_child_surfaces]: the state, the tiles to send, whether
    the parent must be repainted. *)
Definition visit_child (window_id : Z) (bounds : SurfaceBounds)
    (st : App * list FrameTile * bool) (key : Z) : option (App * list FrameTile * bool) :=
  let '(a, changed_tiles, parent_repaint_needed) := st in
  match surface_window_offset a key with
  | None => Some st
  | Some (resolved, offset_x, offset_y) =>
      if negb (resolved =? window_id) then Some st else
      match current_buffers a !! key with
      | None => Some (with_child_surface_last_rect (delete key (child_surface_last_rect a)) a,
                      changed_tiles, parent_repaint_needed)
      | Some buffer =>
          copied ← copy_shm_buffer_clipped (buffer_contents w buffer) window_id offset_x offset_y bounds;
          match copied with
          | Err _ => Some st
          | Ok tile =>
              let new_rect := match tile with
                              | Some tile => (offset_x, offset_y, tile_w tile, tile_h tile)
                              | None => (offset_x, offset_y, 0, 0)
                              end in
              match child_surface_last_rect a !! key with
              | Some prev =>
                  if bool_decide (prev = new_rect) then Some st
                  else Some (with_child_surface_last_rect (<[key := new_rect]> (child_surface_last_rect a)) a,
                             changed_tiles ++ option_list tile, true)
              | None => Some st
              end
          end
      end
  end.

Fixpoint visit_children (window_id : Z) (bounds : SurfaceBounds) (keys : list Z)
    (st : App * list FrameTile * bool) : option (App * list FrameTile * bool) :=
  match keys with
  | [] => Some st
  | key :: keys => st ← visit_child window_id bounds st key; visit_children window_id bounds keys st
  end.

(** The child surfaces of a window that are still held, in the map's order. *)
Definition child_candidates (window_id : Z) (a : App) : list Z :=
  filter (λ key, child_surface_window a !! key = Some window_id ∧ key ∈ child_surfaces a)
    (hash_order w (dom (child_surface_window a))).

Definition repaint_moved_child_surfaces (window_id : Z) (repaint_parent_first : bool) (a : App) : option App :=
  match windows a !! window_id with
  | None => Some a
  | Some win =>
      let bounds := mkSurfaceBounds (win_size win).1 (win_size win).2 in
      '(a, changed_tiles, parent_repaint_needed) ←
        visit_children window_id bounds (child_candidates window_id a) (a, [], false);
      a ← (if parent_repaint_needed && repaint_parent_first
           then repaint_window_from_cached_buffer window_id a else Some a);
      Some (emit ((λ tile, Send (Message_FrameTile tile)) <$> changed_tiles) a)
  end.

(** [copy_committed_shm_buffer]. *)
Definition copy_committed_shm_buffer (surface : Z) (buffer : CommitBuffer) (damage_count id : Z)
    (offset_x offset_y : Z) (a : App) : option (App * result capture_error (option FrameTile)) :=
  let '(a, source, reused) :=
    match buffer with
    | Buffer_New b => (with_current_buffers (<[surface := b]> (current_buffers a)) a, Some b, false)
    | Buffer_Removed => (with_current_buffers (delete surface (current_buffers a)) a, None, false)
    | Buffer_None => (a, if 0 <? damage_count then current_buffers a !! surface else None, true)
    end in
  match source with
  | None => Some (a, Ok None)
  | Some b =>
      let bounds := if is_root_surface_for_window a surface id then None
                    else (λ win, mkSurfaceBounds (win_size win).1 (win_size win).2) <$> windows a !! id in
      copied ← copy_shm_buffer_with_bounds (buffer_contents w b) id offset_x offset_y bounds;
      match copied with
      | Err e => Some (a, Err e)
      | Ok tile => Some (if reused : bool then a else emit [Release_buffer b] a, Ok tile)
      end
  end.

Definition track_child (surface window_id : Z) (a : App) : App :=
  with_child_surfaces ({[surface]} ∪ child_surfaces a)
    (with_child_surface_window (<[surface := window_id]> (child_surface_window a)) a).

(** A child's new rectangle: remembered, and the parent repainted if it changed. *)
Definition note_child_rect (surface window_id : Z) (prev : option (Z * Z * Z * Z))
    (new_rect : Z * Z * Z * Z) (a : App) : option App :=
  let a := with_child_surface_last_rect (<[surface := new_rect]> (child_surface_last_rect a)) a in
  match prev with
  | Some prev => if bool_decide (prev = new_rect) then Some a
                 else repaint_window_from_cached_buffer window_id a
  | None => Some a
  end.

(** The commit of a tile. *)
Definition commit_tile (surface window_id offset_x offset_y : Z) (prev : option (Z * Z * Z * Z))
    (tile : FrameTile) (a : App) : option App :=
  let is_root := is_root_commit a surface window_id offset_x offset_y in
  let a := update_popup_size surface (tile_w tile) (tile_h tile) a in
  a ← (if is_root then Some a
       else note_child_rect surface window_id prev (offset_x, offset_y, tile_w tile, tile_h tile) a);
  let '(a, configured_geom) :=
    if is_root then resize_root_window window_id (tile_w tile) (tile_h tile) a else (a, None) in
  let a := with_frame_count (sat_add u64_max (frame_count a) 1) a in
  let a := match configured_geom with
           | Some geom => enqueue_message (Message_WindowEvent (WE_Configured window_id geom)) a
           | None => a
           end in
  let a := enqueue_message (Message_FrameTile tile) a in
  if is_root then repaint_moved_child_surfaces window_id false a else Some a.

(** [CompositorHandler::commit]. *)
Definition commit (surface : Z) (buffer : CommitBuffer) (damage_count : Z) (a : App) : option App :=
  let a := with_commit_count (sat_add u64_max (commit_count a) 1) a in
  match surface_window_offset a surface with
  | None =>
      let a := match buffer with Buffer_New b => emit [Release_buffer b] a | _ => a end in
      Some (emit [Frame_done surface] a)
  | Some (window_id, offset_x, offset_y) =>
      let is_root := is_root_commit a surface window_id offset_x offset_y in
      let a := if is_root then a else track_child surface window_id a in
      let prev_child_rect := if is_root then None else child_surface_last_rect a !! surface in
      '(a, copied) ← copy_committed_shm_buffer surface buffer damage_count window_id offset_x offset_y a;
      a ← match copied with
          | Ok (Some tile) => commit_tile surface window_id offset_x offset_y prev_child_rect tile a
          | Ok None => if is_root then repaint_moved_child_surfaces window_id true a else Some a
          | Err _ => Some a
          end;
      a ← match buffer with
          | Buffer_Removed =>
              if is_root then Some a
              else repaint_window_from_cached_buffer window_id
                     (clear_child_surface_tracking surface
                        (remove_popup_route_for_surface surface a).1)
          | _ => Some a
          end;
      Some (emit [Frame_done surface] a)
  end.

(** [CompositorHandler::destroyed]. *)
Definition surface_destroyed (surface : Z) (a : App) : option App :=
  let '(a, popup_parent_window_id) := remove_popup_route_for_surface surface a in
  let a := clear_child_surface_tracking surface a in
  match popup_parent_window_id with
  | Some window_id => repaint_window_from_cached_buffer window_id a
  | None => Some a
  end.

Definition buffer_destroyed (buffer : Z) (a : App) : App :=
  with_current_buffers (filter (λ kv, kv.2 ≠ buffer) (current_buffers a)) a.

(** *** Toplevels and popups *)

Definition new_toplevel (surface : Z) (a : App) : App :=
  let id := next_window_id a in
  let a := with_next_window_id (sat_add u64_max id 1) a in
  let geom := mkWindowGeometry 0 0 1 1 in
  let state := mkToplevel (Some (0, 0)) false false false in
  let a := with_surface_to_window (<[surface := id]> (surface_to_window a)) a in
  let a := set_window id (mkRemoteWindow surface state (1, 1) Normal None) a in
  let a := focus_window id a in
  enqueue_message (Message_WindowEvent (WE_Created id geom (title_for w surface) (app_id_for w surface))) a.

Definition toplevel_destroyed (surface : Z) (a : App) : App :=
  match surface_to_window a !! surface with
  | None => a
  | Some id =>
      let a := with_surface_to_window (delete surface (surface_to_window a)) a in
      let a := with_windows (delete id (windows a)) a in
      let a := with_current_buffers (delete surface (current_buffers a)) a in
      let a := with_popup_routes (filter (λ kv, route_window_id kv.2 ≠ id) (popup_routes a)) a in
      let a := with_popup_order (filter (λ key, is_Some (popup_routes a !! key)) (popup_order a)) a in
      let a := with_child_surface_window (filter (λ kv, kv.2 ≠ id) (child_surface_window a)) a in
      let a := with_child_surfaces
                 (filter (λ key, is_Some (child_surface_window a !! key)) (child_surfaces a)) a in
      let a := with_child_surface_last_rect
                 (filter (λ kv, is_Some (child_surface_window a !! kv.1)) (child_surface_last_rect a)) a in
      let a := if bool_decide (active_window_id a = Some id)
               then match hash_order w (dom (windows a)) with
                    | next_id :: _ => focus_window next_id a
                    | [] => clear_focus a
                    end
               else a in
      enqueue_message (Message_WindowEvent (WE_Destroyed id)) a
  end.

Definition new_popup (surface : Z) (parent : option Z) (positioner : PositionerState) (a : App) : App :=
  emit [Popup_configure surface] (route_popup surface parent positioner a).

Definition reposition_request (surface : Z) (parent : option Z) (positioner : PositionerState)
    (token : Z) (a : App) : App :=
  let a := emit [Popup_geometry surface (get_geometry positioner)] a in
  emit [Popup_repositioned surface token] (route_popup surface parent positioner a).

Definition popup_destroyed (surface : Z) (a : App) : option App :=
  let '(a, parent_window_id) := remove_popup_route_for_surface surface a in
  let a := clear_child_surface_tracking surface a in
  match parent_window_id with
  | Some window_id => repaint_window_from_cached_buffer window_id a
  | None => Some a
  end.

End handlers.

(** ** Runs *)

(** What reaches [App]: the viewer's messages and the clients' requests. *)
Inductive app_event :=
  | Ev_input (event : InputEvent)
  | Ev_clipboard (payload : Clipboard)
  | Ev_new_selection (source : option (list rstring)) (accepted : bool)
  | Ev_send_selection (clipboard_target : bool) (mime : rstring)
  | Ev_commit (surface : Z) (buffer : CommitBuffer) (damage_count : Z)
  | Ev_surface_destroyed (surface : Z)
  | Ev_buffer_destroyed (buffer : Z)
  | Ev_new_toplevel (surface : Z)
  | Ev_toplevel_destroyed (surface : Z)
  | Ev_new_popup (surface : Z) (parent : option Z) (positioner : PositionerState)
  | Ev_reposition (surface : Z) (parent : option Z) (positioner : PositionerState) (token : Z)
  | Ev_popup_destroyed (surface : Z)
  | Ev_move (surface : Z)
  | Ev_maximize (surface : Z)
  | Ev_unmaximize (surface : Z)
  | Ev_fullscreen (surface : Z)
  | Ev_unfullscreen (surface : Z)
  | Ev_minimize (surface : Z)
  | Ev_title (surface : Z)
  | Ev_get_text_input (resource : Z)
  | Ev_text_input (resource : Z) (request : text_input_request)
  | Ev_text_input_destroyed (resource : Z).

Definition app_step (w : world) (event : app_event) (a : App) : option App :=
  match event with
  | Ev_input event => handle_input_event w event a
  | Ev_clipboard payload => Some (apply_host_clipboard payload a)
  | Ev_new_selection source accepted => Some (new_selection source accepted a)
  | Ev_send_selection target mime => Some (send_selection target mime a)
  | Ev_commit surface buffer damage_count => commit w surface buffer damage_count a
  | Ev_surface_destroyed surface => surface_destroyed w surface a
  | Ev_buffer_destroyed buffer => Some (buffer_destroyed buffer a)
  | Ev_new_toplevel surface => Some (new_toplevel w surface a)
  | Ev_toplevel_destroyed surface => Some (toplevel_destroyed w surface a)
  | Ev_new_popup surface parent positioner => Some (new_popup w surface parent positioner a)
  | Ev_reposition surface parent positioner token =>
      Some (reposition_request w surface parent positioner token a)
  | Ev_popup_destroyed surface => popup_destroyed w surface a
  | Ev_move surface => Some (request_window_move w surface a)
  | Ev_maximize surface => Some (maximize_request w surface a)
  | Ev_unmaximize surface => Some (unmaximize_request w surface a)
  | Ev_fullscreen surface => Some (fullscreen_request surface a)
  | Ev_unfullscreen surface => Some (unfullscreen_request w surface a)
  | Ev_minimize surface => Some (request_window_minimize surface a)
  | Ev_title surface => Some (title_changed w surface a)
  | Ev_get_text_input resource => Some (register_text_input w resource a)
  | Ev_text_input resource request => text_input_request_handler w resource request a
  | Ev_text_input_destroyed resource => Some (text_input_destroyed resource a)
  end.

Fixpoint app_run (events : list (world * app_event)) (a : App) : option App :=
  match events with
  | [] => Some a
  | (w, event) :: events => a ← app_step w event a; app_run events a
  end.
