(* ===== verification/CompositorProofs.v ===== *)
(** * What the compositor guarantees

    The invariant of [App], that every event keeps it and that none panics; where keys,
    text and clips go; window modes and what the viewer is told of them; and the tiles a
    commit sends. *)

From S2P Require Import Prelude Wire Capture Compositor.

(** ** Reading the log *)

(** The keyboard focus the clients were last given. *)
Definition focus_of (e : effect) : option (option Z) :=
  match e with Keyboard_focus s => Some s | _ => None end.

Definition last_focus (es : list effect) : option Z := mjoin (last (omap focus_of es)).

(** What the viewer was last told about the fullscreen state of a window. *)
Definition fullscreen_of (e : effect) : option (Z * bool) :=
  match e with
  | Send (Message_WindowEvent (WE_FullscreenChanged id fullscreen)) => Some (id, fullscreen)
  | _ => None
  end.

Definition told_fullscreen (es : list effect) (id : Z) : bool :=
  default false (snd <$> last (filter (λ p, p.1 = id) (omap fullscreen_of es))).

(** An effect that neither moves the focus nor speaks of fullscreen. *)
Definition neutral (e : effect) : Prop := focus_of e = None ∧ fullscreen_of e = None.

(** ** The invariant *)

Definition size_ok (size : Z * Z) : Prop := 1 ≤ size.1 ≤ i32_max ∧ 1 ≤ size.2 ≤ i32_max.

(** The pending [xdg_toplevel] state says what the mode is. *)
Record window_ok (active : bool) (win : RemoteWindow) : Prop := {
  wok_size : size_ok (win_size win);
  wok_maximized : tl_maximized (win_toplevel win) = is_maximized (win_mode win);
  wok_fullscreen : tl_fullscreen (win_toplevel win) = is_fullscreen (win_mode win);
  wok_activated : tl_activated (win_toplevel win) = active
}.

Record windows_ok (wins : gmap Z RemoteWindow) (surfaces : gmap Z Z) (next : Z) (active : option Z) : Prop := {
  windows_surfaces s id :
    surfaces !! s = Some id ↔ ∃ win, wins !! id = Some win ∧ win_surface win = s;
  windows_each id win :
    wins !! id = Some win → id < next ∧ window_ok (bool_decide (active = Some id)) win;
  windows_active id : active = Some id → is_Some (wins !! id)
}.

Record popups_ok (routes : gmap Z PopupRoute) (order : list Z) (ids : gset Z) : Prop := {
  popups_nodup : NoDup order;
  popups_order k : k ∈ order ↔ is_Some (routes !! k);
  popups_window k route : routes !! k = Some route → route_window_id route ∈ ids
}.

Record children_ok (owners : gmap Z Z) (held : gset Z) (rects : gmap Z (Z * Z * Z * Z)) (ids : gset Z) : Prop := {
  children_held : held = dom owners;
  children_rects : dom rects ⊆ dom owners;
  children_window k id : owners !! k = Some id → id ∈ ids
}.

Definition is_text_event (e : InputEvent) : bool :=
  match e with IE_Text _ _ | IE_Preedit _ _ _ _ => true | _ => false end.

Definition queue_ok (q : list InputEvent) : Prop :=
  (length q ≤ PENDING_TEXT_INPUT_LIMIT)%nat ∧ Forall is_text_event q.

(** The keyboard focus is the active window's surface, and the viewer has been told of
    every fullscreen window. *)
Definition views_ok (wins : gmap Z RemoteWindow) (active : option Z) (focus : option Z)
    (told : Z → bool) : Prop :=
  focus = (id ← active; win_surface <$> wins !! id) ∧
  ∀ id win, wins !! id = Some win → is_fullscreen (win_mode win) = true → told id = true.

Record App_ok (a : App) : Prop := {
  app_windows : windows_ok (windows a) (surface_to_window a) (next_window_id a) (active_window_id a);
  app_popups : popups_ok (popup_routes a) (popup_order a) (dom (windows a));
  app_children : children_ok (child_surface_window a) (child_surfaces a) (child_surface_last_rect a)
                   (dom (windows a));
  app_queue : queue_ok (pending_text_input a);
  app_views : views_ok (windows a) (active_window_id a) (last_focus (log a)) (told_fullscreen (log a))
}.

(** What the library promises: it walks a map through all its keys, and what a client says of
    a buffer comes in i32 fields. *)
Record world_ok (w : world) : Prop := {
  world_order X : hash_order w X ≡ₚ elements X;
  world_buffers b buf : buffer_contents w b = Some buf →
    shm_offset buf ≤ i32_max ∧ shm_width buf ≤ i32_max ∧ shm_height buf ≤ i32_max ∧ shm_stride buf ≤ i32_max
}.

(** A client has declared a buffer with rows shorter than its pixels, which the library lets
    through. *)
Definition short_rows (w : world) : Prop :=
  ∃ b buf, buffer_contents w b = Some buf ∧ shm_stride buf < 4 * shm_width buf.

(** A step that ends in [Q], or panics on such a buffer. *)
Definition or_short (w : world) {A} (m : option A) (Q : A → Prop) : Prop :=
  match m with Some a => Q a | None => short_rows w end.

Lemma or_short_bind w {A B} (m : option A) (f : A → option B) (P : A → Prop) (Q : B → Prop) :
  or_short w m P → (∀ a, P a → or_short w (f a) Q) → or_short w (m ≫= f) Q.
Proof. destruct m; cbn; eauto. Qed.

Lemma or_short_weaken w {A} (m : option A) (P Q : A → Prop) :
  (∀ a, P a → Q a) → or_short w m P → or_short w m Q.
Proof. destruct m; cbn; eauto. Qed.

Lemma or_short_some w {A} (m : option A) (Q : A → Prop) : (∃ a, m = Some a ∧ Q a) → or_short w m Q.
Proof. by intros (a & -> & Ha). Qed.

(** ** The log *)

Lemma last_focus_app es es' :
  last_focus (es ++ es') = match last (omap focus_of es') with Some f => f | None => last_focus es end.
Proof.
  unfold last_focus. rewrite omap_app, last_app. by destruct (last (omap focus_of es')).
Qed.

Lemma told_fullscreen_app es es' id :
  told_fullscreen (es ++ es') id =
    match last (filter (λ p, p.1 = id) (omap fullscreen_of es')) with
    | Some p => p.2 | None => told_fullscreen es id end.
Proof.
  unfold told_fullscreen. rewrite omap_app, filter_app, last_app.
  by destruct (last (filter _ (omap fullscreen_of es'))).
Qed.

Lemma neutral_views es :
  Forall neutral es → omap focus_of es = [] ∧ omap fullscreen_of es = [].
Proof. induction 1 as [|e es [H1 H2] _ [IH1 IH2]]; [done|]. cbn. by rewrite H1, H2. Qed.

Lemma neutral_last_focus es es' : Forall neutral es' → last_focus (es ++ es') = last_focus es.
Proof. intros [H _]%neutral_views. by rewrite last_focus_app, H. Qed.

Lemma neutral_told es es' id : Forall neutral es' → told_fullscreen (es ++ es') id = told_fullscreen es id.
Proof. intros [_ H]%neutral_views. by rewrite told_fullscreen_app, H. Qed.

(** ** Framing: what the invariant does not look at *)

Lemma App_ok_frame a a' :
  App_ok a →
  windows a' = windows a → surface_to_window a' = surface_to_window a →
  next_window_id a' = next_window_id a → active_window_id a' = active_window_id a →
  popup_routes a' = popup_routes a → popup_order a' = popup_order a →
  child_surface_window a' = child_surface_window a → child_surfaces a' = child_surfaces a →
  child_surface_last_rect a' = child_surface_last_rect a →
  queue_ok (pending_text_input a') →
  (∃ es, log a' = log a ++ es ∧ Forall neutral es) → App_ok a'.
Proof.
  intros [Hw Hp Hc Hq [Hf Ht]] E1 E2 E3 E4 E5 E6 E7 E8 E9 Hq' (es & El & Hes).
  split; rewrite ?E1, ?E2, ?E3, ?E4, ?E5, ?E6, ?E7, ?E8, ?E9; try done.
  split.
  - by rewrite El, neutral_last_focus.
  - intros id win H1 H2. rewrite El, neutral_told by done. by eapply Ht.
Qed.

Lemma emit_ok es a : Forall neutral es → App_ok a → App_ok (emit es a).
Proof. intros Hes Ha. eapply App_ok_frame; [exact Ha|try done..|by exists es]. apply Ha. Qed.

Ltac neutral_tac := repeat first [constructor | done | by split].

(** A handler that only touches what the invariant does not see. *)
Ltac frame_ok Ha :=
  eapply App_ok_frame; [exact Ha|done..|apply Ha|first [by exists []; rewrite app_nil_r |
    eexists; split; [reflexivity|neutral_tac]]].

(** ** Windows *)

Lemma dom_update (wins : gmap Z RemoteWindow) id win win' :
  wins !! id = Some win → dom (<[id := win']> wins) = dom wins.
Proof. intros H. apply dom_insert_lookup_L. by eexists. Qed.

(** Replacing a window by another state of the same surface; [es] is what is sent. *)
Lemma update_window_ok id win win' es a :
  App_ok a → windows a !! id = Some win → win_surface win' = win_surface win →
  window_ok (bool_decide (active_window_id a = Some id)) win' →
  omap focus_of es = [] →
  (∀ j, last (filter (λ p, p.1 = j) (omap fullscreen_of es)) = None
        ∨ j = id ∧ last (filter (λ p, p.1 = j) (omap fullscreen_of es))
                   = Some (id, is_fullscreen (win_mode win'))) →
  (is_fullscreen (win_mode win') = true → told_fullscreen (log a ++ es) id = true) →
  App_ok (emit es (set_window id win' a)).
Proof.
  intros [[Hws Hwe Hwa] Hp Hc Hq [Hf Ht]] Hid Hs Hok Hfoc Hother Htold. split; cbn.
  - split.
    + intros s j. rewrite Hws. split; intros (v & Hv & Hvs).
      * destruct (decide (j = id)) as [->|Hne].
        -- exists win'. rewrite lookup_insert_eq. split; [done|congruence].
        -- exists v. by rewrite lookup_insert_ne.
      * destruct (decide (j = id)) as [->|Hne].
        -- rewrite lookup_insert_eq in Hv. injection Hv as <-. exists win. by rewrite <- Hs.
        -- rewrite lookup_insert_ne in Hv by done. by exists v.
    + intros j v. destruct (decide (j = id)) as [->|Hne].
      * rewrite lookup_insert_eq. intros [= <-]. split; [by eapply Hwe|done].
      * rewrite lookup_insert_ne by done. apply Hwe.
    + intros j Hj. rewrite lookup_insert_is_Some'. right. by apply Hwa.
  - by erewrite dom_update.
  - by erewrite dom_update.
  - done.
  - split.
    + rewrite last_focus_app, Hfoc. cbn. rewrite Hf. destruct (active_window_id a) as [j|]; [|done]. cbn.
      destruct (decide (j = id)) as [->|Hne].
      * rewrite lookup_insert_eq, Hid. cbn. by rewrite Hs.
      * by rewrite lookup_insert_ne.
    + intros j v. destruct (decide (j = id)) as [->|Hne].
      * rewrite lookup_insert_eq. by intros [= <-].
      * rewrite lookup_insert_ne by done. intros Hv Hm. rewrite told_fullscreen_app.
        destruct (Hother j) as [->|[-> _]]; [by eapply Ht|done].
Qed.

(** The common case: nothing is said of fullscreen, and the window did not become so. *)
Lemma update_window_neutral id win win' es a :
  App_ok a → windows a !! id = Some win → win_surface win' = win_surface win →
  window_ok (bool_decide (active_window_id a = Some id)) win' →
  (is_fullscreen (win_mode win') = true → is_fullscreen (win_mode win) = true) →
  Forall neutral es → App_ok (emit es (set_window id win' a)).
Proof.
  intros Ha Hid Hs Hok Hm Hes. pose proof (neutral_views es Hes) as [H1 H2].
  eapply update_window_ok; [done..| |].
  - intros j. rewrite H2. by left.
  - intros H. rewrite neutral_told by done. destruct Ha as [_ _ _ _ [_ Ht]]. eapply Ht; eauto.
Qed.

Lemma window_of_ok a id win :
  App_ok a → windows a !! id = Some win →
  id < next_window_id a ∧ window_ok (bool_decide (active_window_id a = Some id)) win.
Proof. intros [[_ Hwe _] _ _ _ _]. apply Hwe. Qed.

Lemma reconfigure_ok id win mode size maximized fullscreen a :
  App_ok a → windows a !! id = Some win →
  maximized = is_maximized mode → fullscreen = is_fullscreen mode →
  (is_fullscreen mode = true → told_fullscreen (log a) id = true) →
  App_ok (reconfigure id win mode size maximized fullscreen a).
Proof.
  intros Ha Hid -> -> Hm. destruct (window_of_ok _ _ _ Ha Hid) as [_ [Hsz _ _ Hact]].
  unfold reconfigure. eapply update_window_ok; [done..|by split|done|by left|].
  intros. rewrite neutral_told by neutral_tac. by apply Hm.
Qed.

Lemma set_output_size_ok size a : App_ok a → App_ok (set_output_size size a).
Proof.
  intros Ha. unfold set_output_size. case_bool_decide; [done|]. frame_ok Ha.
Qed.

Lemma set_output_size_windows size a : windows (set_output_size size a) = windows a.
Proof. unfold set_output_size. by case_bool_decide. Qed.

(** The echo of a window's fullscreen state. *)
Lemma tell_fullscreen_ok id win fullscreen a :
  App_ok a → windows a !! id = Some win → is_fullscreen (win_mode win) = fullscreen →
  App_ok (enqueue_message (fullscreen_changed id fullscreen) a).
Proof.
  intros [Hw Hp Hc Hq [Hf Ht]] Hid Hm. split; try done. split; cbn [log windows active_window_id enqueue_message emit with_log].
  - by rewrite last_focus_app.
  - intros j v Hv Hmv. rewrite told_fullscreen_app. cbn.
    destruct (decide (id = j)) as [->|Hne]; cbn; [|by eapply Ht]. congruence.
Qed.

Lemma emit_emit es es' a : emit es' (emit es a) = emit (es ++ es') a.
Proof. unfold emit, with_log. cbn. by rewrite app_assoc. Qed.

Lemma emit_nil a : emit [] a = a.
Proof. destruct a. unfold emit, with_log. cbn. by rewrite app_nil_r. Qed.

Lemma enter_maximized_mode size m : is_maximized (enter_maximized size m) = true ∧
  is_fullscreen (enter_maximized size m) = false.
Proof. by destruct m. Qed.

Lemma enter_fullscreen_mode size m : is_fullscreen (enter_fullscreen size m) = true ∧
  is_maximized (enter_fullscreen size m) = false.
Proof. by destruct m. Qed.

Lemma leave_maximized_mode m m' size : leave_maximized m = Some (m', size) →
  m' = Normal ∧ is_fullscreen m = false.
Proof. destruct m; naive_solver. Qed.

Lemma leave_fullscreen_mode m m' size : leave_fullscreen m = Some (m', size) →
  m' = Normal ∧ is_maximized m = false.
Proof. destruct m; naive_solver. Qed.

Section requests.
Context (w : world).

Lemma request_window_resize_ok id width height a :
  App_ok a → App_ok (request_window_resize id width height a).
Proof.
  intros Ha. unfold request_window_resize. destruct (windows a !! id) as [win|] eqn:Hid; [|done].
  cbv zeta. destruct (_ && _ && _); [done|].
  pose proof (set_output_size_ok (nonzero_size (width, height)) _ Ha) as Hb.
  rewrite <- (set_output_size_windows (nonzero_size (width, height)) a) in Hid.
  revert Hb Hid. generalize (set_output_size (nonzero_size (width, height)) a). intros b Hb Hid.
  assert (App_ok (reconfigure id win Normal (nonzero_size (width, height)) false false b)) as Hc
    by by eapply reconfigure_ok.
  destruct (is_fullscreen (win_mode win)); [|done].
  eapply tell_fullscreen_ok; [done|apply lookup_insert_eq|done].
Qed.

Lemma request_window_maximize_by_id_ok id a : App_ok a → App_ok (request_window_maximize_by_id id a).
Proof.
  intros Ha. unfold request_window_maximize_by_id. destruct (windows a !! id) as [win|] eqn:Hid; [|done].
  destruct (_ && _); [done|].
  match goal with |- context [enter_maximized ?r ?m] =>
    destruct (enter_maximized_mode r m) as [H1 H2] end.
  eapply reconfigure_ok; [done..| | |]; by rewrite ?H1, ?H2.
Qed.

Lemma forget_move_ok id win a : App_ok a → windows a !! id = Some win → App_ok (forget_move id win a).
Proof.
  intros Ha Hid. destruct (window_of_ok _ _ _ Ha Hid) as [_ [????]].
  rewrite <- (emit_nil (forget_move id win a)). by eapply update_window_neutral.
Qed.

Lemma request_window_unmaximize_by_id_ok id suppress a :
  App_ok a → App_ok (request_window_unmaximize_by_id w id suppress a).
Proof.
  intros Ha. unfold request_window_unmaximize_by_id. destruct (windows a !! id) as [win|] eqn:Hid; [|done].
  destruct (_ && _); [by apply forget_move_ok|].
  destruct (leave_maximized (win_mode win)) as [[m size]|] eqn:Hm; [|done].
  apply leave_maximized_mode in Hm as [-> Hm].
  destruct (window_of_ok _ _ _ Ha Hid) as [_ [_ _ Hfs _]].
  eapply reconfigure_ok; try done. by rewrite Hfs.
Qed.

Lemma request_window_fullscreen_by_id_ok id a : App_ok a → App_ok (request_window_fullscreen_by_id id a).
Proof.
  intros Ha. unfold request_window_fullscreen_by_id. destruct (windows a !! id) as [win|] eqn:Hid; [|done].
  destruct (is_fullscreen (win_mode win) && _) eqn:Hal.
  { apply andb_true_iff in Hal as [Hal _]. by eapply tell_fullscreen_ok. }
  match goal with |- context [enter_fullscreen ?r ?m] =>
    destruct (enter_fullscreen_mode r m) as [H1 H2] end.
  destruct (window_of_ok _ _ _ Ha Hid) as [_ [? _ _ ?]].
  unfold enqueue_message, reconfigure. rewrite emit_emit.
  eapply update_window_ok; [done..|by split| | |]; cbn.
  - done.
  - intros j. rewrite H1. cbn. destruct (decide (id = j)) as [<-|Hne]; cbn; auto.
  - intros _. rewrite told_fullscreen_app. cbn. by rewrite decide_True.
Qed.

Lemma request_window_unfullscreen_by_id_ok id suppress a :
  App_ok a → App_ok (request_window_unfullscreen_by_id w id suppress a).
Proof.
  intros Ha. unfold request_window_unfullscreen_by_id. destruct (windows a !! id) as [win|] eqn:Hid; [|done].
  destruct (_ && _); [by apply forget_move_ok|].
  destruct (leave_fullscreen (win_mode win)) as [[m size]|] eqn:Hm.
  - apply leave_fullscreen_mode in Hm as [-> Hm].
    destruct (window_of_ok _ _ _ Ha Hid) as [_ [_ Hmx _ _]].
    eapply tell_fullscreen_ok; [|apply lookup_insert_eq|done].
    eapply reconfigure_ok; try done. by rewrite Hmx.
  - eapply tell_fullscreen_ok; [done..|]. by destruct (win_mode win).
Qed.

Lemma toggle_window_maximize_ok id a : App_ok a → App_ok (toggle_window_maximize w id a).
Proof.
  intros Ha. unfold toggle_window_maximize. destruct (windows a !! id); [|done].
  destruct (is_maximized _); auto using request_window_unmaximize_by_id_ok,
    request_window_maximize_by_id_ok.
Qed.

Lemma for_surface_ok surface f a :
  (∀ id, App_ok a → App_ok (f id a)) → App_ok a → App_ok (for_surface surface f a).
Proof. intros Hf Ha. unfold for_surface. destruct (surface_to_window a !! surface); auto. Qed.

Lemma request_window_move_ok surface a : App_ok a → App_ok (request_window_move w surface a).
Proof.
  apply for_surface_ok. intros id Ha. apply emit_ok; [by neutral_tac|].
  destruct (windows a !! id) as [win|] eqn:Hid; [|done].
  destruct (window_of_ok _ _ _ Ha Hid) as [_ [????]].
  match goal with |- App_ok ?b => rewrite <- (emit_nil b) end. by eapply update_window_neutral.
Qed.
End requests.

(** ** Focus *)

(** The invariant but for who is active: what a change of focus starts from. *)
Record App_unfocused (a : App) : Prop := {
  unf_surfaces s id : surface_to_window a !! s = Some id ↔
    ∃ win, windows a !! id = Some win ∧ win_surface win = s;
  unf_each id win : windows a !! id = Some win →
    id < next_window_id a ∧ ∃ active, window_ok active win;
  unf_popups : popups_ok (popup_routes a) (popup_order a) (dom (windows a));
  unf_children : children_ok (child_surface_window a) (child_surfaces a) (child_surface_last_rect a)
                   (dom (windows a));
  unf_queue : queue_ok (pending_text_input a);
  unf_told id win : windows a !! id = Some win → is_fullscreen (win_mode win) = true →
    told_fullscreen (log a) id = true
}.

Lemma App_ok_unfocused a : App_ok a → App_unfocused a.
Proof.
  intros [[Hs He Ha] Hp Hc Hq [Hf Ht]]. split; try done.
  intros id win Hid. destruct (He _ _ Hid). eauto.
Qed.

(** [a'] is [a] but for the windows, the active one and the text inputs, with more said. *)
Record refocused (a a' : App) : Prop := {
  ref_surfaces : surface_to_window a' = surface_to_window a;
  ref_next : next_window_id a' = next_window_id a;
  ref_routes : popup_routes a' = popup_routes a;
  ref_order : popup_order a' = popup_order a;
  ref_owners : child_surface_window a' = child_surface_window a;
  ref_held : child_surfaces a' = child_surfaces a;
  ref_rects : child_surface_last_rect a' = child_surface_last_rect a;
  ref_queue : pending_text_input a' = pending_text_input a;
  ref_told id : told_fullscreen (log a') id = told_fullscreen (log a) id
}.

Lemma refocused_refl a : refocused a a.
Proof. by split. Qed.

Lemma refocused_trans a b c : refocused a b → refocused b c → refocused a c.
Proof. intros [] []. split; intros; etrans; eauto. Qed.

Lemma emit_refocused es a : omap fullscreen_of es = [] → refocused a (emit es a).
Proof. intros H. split; try done. intros id. cbn. by rewrite told_fullscreen_app, H. Qed.

Lemma refocus_ok a a' :
  App_unfocused a → refocused a a' →
  (∀ id, active_window_id a' = Some id → is_Some (windows a !! id)) →
  (∀ id, windows a' !! id
         = with_activation (bool_decide (active_window_id a' = Some id)) <$> windows a !! id) →
  last_focus (log a') = (id ← active_window_id a'; win_surface <$> windows a !! id) →
  App_ok a'.
Proof.
  intros [Hs He Hp Hc Hq Ht] [Es En Er Eo Eow Eh Erc Eq Et] Hact Hwin Hfoc.
  assert (dom (windows a') = dom (windows a)) as Hdom.
  { apply set_eq. intros id. rewrite !elem_of_dom, Hwin. by rewrite fmap_is_Some. }
  split; rewrite ?Es, ?En, ?Er, ?Eo, ?Eow, ?Eh, ?Erc, ?Eq, ?Hdom; try done.
  - split.
    + intros s id. rewrite Hs. split.
      * intros (win & Hid & Hsf). eexists. by rewrite Hwin, Hid.
      * intros (win' & Hid & Hsf). rewrite Hwin in Hid.
        apply fmap_Some in Hid as (win & Hid & ->). by exists win.
    + intros id win' Hid. rewrite Hwin in Hid. apply fmap_Some in Hid as (win & Hid & ->).
      destruct (He _ _ Hid) as [Hlt [active [????]]]. split; [done|]. by split.
    + intros id Hid. rewrite Hwin, fmap_is_Some. by apply Hact.
  - split.
    + rewrite Hfoc. destruct (active_window_id a') as [id|]; [|done]. cbn. rewrite Hwin.
      by destruct (windows a !! id).
    + intros id win' Hid Hm. rewrite Hwin in Hid. apply fmap_Some in Hid as (win & Hid & ->).
      rewrite Et. by eapply Ht.
Qed.

Lemma activate_window_refocused act a id : refocused a (activate_window act a id) ∧
  last_focus (log (activate_window act a id)) = last_focus (log a) ∧
  active_window_id (activate_window act a id) = active_window_id a ∧
  text_inputs (activate_window act a id) = text_inputs a.
Proof.
  unfold activate_window. destruct (windows a !! id) as [win|] eqn:Hid; [|done].
  split_and!; [|by cbn; rewrite last_focus_app|done|done].
  eapply (refocused_trans _ (with_windows _ a)); [|by apply emit_refocused]. by split.
Qed.

Lemma activate_window_lookup act a id j :
  windows (activate_window act a id) !! j =
    if decide (j = id) then with_activation (bool_decide (act = Some j)) <$> windows a !! j
    else windows a !! j.
Proof.
  unfold activate_window. rewrite (bool_decide_ext (Some id = act) (act = Some id)) by naive_solver.
  destruct (windows a !! id) as [win|] eqn:Hid; case_decide as E; try subst j.
  - cbn. by rewrite lookup_insert_eq, Hid.
  - cbn. by rewrite lookup_insert_ne.
  - by rewrite Hid.
  - done.
Qed.

Lemma with_activation_twice b win : with_activation b (with_activation b win) = with_activation b win.
Proof. done. Qed.

Lemma activation_spec act ids a :
  let a' := foldl (activate_window act) a ids in
  refocused a a' ∧ last_focus (log a') = last_focus (log a) ∧ active_window_id a' = active_window_id a ∧
  text_inputs a' = text_inputs a ∧
  ∀ j, windows a' !! j = if decide (j ∈ ids)
                         then with_activation (bool_decide (act = Some j)) <$> windows a !! j
                         else windows a !! j.
Proof.
  revert a. induction ids as [|id ids IH]; intros a; cbn.
  - split_and!; [apply refocused_refl|done..].
  - destruct (IH (activate_window act a id)) as (H1 & H2 & H3 & H4 & H5).
    destruct (activate_window_refocused act a id) as (G1 & G2 & G3 & G4).
    split_and!; [by eapply refocused_trans|congruence..|].
    intros j. rewrite H5, activate_window_lookup.
    destruct (decide (j = id)) as [->|Hne].
    + rewrite (decide_True (P := id ∈ id :: ids)) by set_solver.
      case_decide; [|done]. by destruct (windows a !! id).
    + case_decide; [rewrite decide_True by set_solver|rewrite decide_False by set_solver]; done.
Qed.

(** The only effects a loop over the text inputs has. *)
Definition text_focus (e : effect) : Prop :=
  match e with Text_enter _ _ | Text_leave _ _ => True | _ => False end.

Lemma text_focus_neutral es : Forall text_focus es → Forall neutral es.
Proof. intros H. eapply Forall_impl; [exact H|]. by intros []. Qed.

Lemma leave_effects input : Forall text_focus (leave input).2.
Proof. unfold leave. destruct (focused_surface input); by repeat constructor. Qed.

Lemma focus_text_input_effects w surface input : Forall text_focus (focus_text_input w surface input).2.
Proof.
  unfold focus_text_input. pose proof (leave_effects input) as Hl.
  destruct (negb _); [constructor|]. destruct (negb _); [done|]. case_bool_decide; [constructor|].
  destruct (leave input) as [i es]. cbn in *. apply Forall_app. by repeat constructor.
Qed.

Lemma for_text_inputs_effects f a :
  (∀ input, Forall text_focus (f input).2) →
  ∃ es, for_text_inputs f a = emit es (with_text_inputs (fst <$> (f <$> text_inputs a)) a)
        ∧ Forall text_focus es.
Proof.
  intros Hf. eexists. split; [done|].
  induction (text_inputs a) as [|i l IH]; cbn; [constructor|]. apply Forall_app. by split.
Qed.

Lemma for_text_inputs_ok f a :
  (∀ input, Forall text_focus (f input).2) → App_ok a → App_ok (for_text_inputs f a).
Proof.
  intros Hf Ha. destruct (for_text_inputs_effects f a Hf) as (es & -> & Hes).
  eapply App_ok_frame; [exact Ha|done..|apply Ha|].
  exists es. split; [done|by apply text_focus_neutral].
Qed.

Section focus.
Context (w : world) (Hw : world_ok w).

Lemma set_text_input_focus_ok a : App_ok a → App_ok (set_text_input_focus w a).
Proof.
  intros Ha. unfold set_text_input_focus. destruct (active_surface a); [|done].
  apply for_text_inputs_ok; [|done]. intros. apply focus_text_input_effects.
Qed.

Lemma set_toplevel_activation_spec act a :
  let a' := set_toplevel_activation w act a in
  refocused a a' ∧ last_focus (log a') = last_focus (log a) ∧ active_window_id a' = active_window_id a ∧
  text_inputs a' = text_inputs a ∧
  ∀ j, windows a' !! j = with_activation (bool_decide (act = Some j)) <$> windows a !! j.
Proof.
  destruct (activation_spec act (hash_order w (dom (windows a))) a) as (H1 & H2 & H3 & H4 & H5).
  split_and!; [done..|]. intros j. unfold set_toplevel_activation. rewrite H5.
  destruct (windows a !! j) eqn:Hj; [|by case_decide].
  rewrite decide_True; [done|]. rewrite (world_order w Hw), elem_of_elements, elem_of_dom. by eexists.
Qed.

Lemma window_surface_some a id s :
  window_surface a id = Some s ↔ ∃ win, windows a !! id = Some win ∧ win_surface win = s.
Proof. unfold window_surface. rewrite fmap_Some. naive_solver. Qed.

(** A new active window, or none. *)
Lemma refocus_window_ok act a :
  App_unfocused a → (∀ id, act = Some id → is_Some (windows a !! id)) →
  App_ok (emit [Keyboard_focus (act ≫= window_surface a)]
            (set_toplevel_activation w act (with_active_window_id act a))).
Proof.
  intros Hu Hact.
  destruct (set_toplevel_activation_spec act (with_active_window_id act a)) as (H1 & H2 & H3 & _ & H5).
  assert (active_window_id (emit [Keyboard_focus (act ≫= window_surface a)]
            (set_toplevel_activation w act (with_active_window_id act a))) = act) as Hact'.
  { cbn. by rewrite H3. }
  eapply (refocus_ok a); [done| | | |]; rewrite ?Hact'.
  - eapply refocused_trans; [|by apply emit_refocused].
    eapply refocused_trans; [|exact H1]. by split.
  - done.
  - intros id. cbn. by rewrite H5.
  - cbn [emit log with_log]. by rewrite last_focus_app.
Qed.

Lemma refocus_active_ok id a :
  App_ok a → active_window_id a = Some id → App_ok (emit [Keyboard_focus (window_surface a id)] a).
Proof.
  intros [Hws Hp Hc Hq [Hf Ht]] Hid. split; try done. split; cbn.
  - rewrite last_focus_app. by rewrite Hid.
  - intros j win Hj Hm. rewrite told_fullscreen_app. by eapply Ht.
Qed.

Lemma sync_clipboard_focus_ok s a : App_ok a → App_ok (sync_clipboard_focus_to_surface w s a).
Proof. apply emit_ok. by neutral_tac. Qed.

Lemma focus_window_unfocused_ok id a :
  App_unfocused a → active_window_id a ≠ Some id → is_Some (windows a !! id) →
  App_ok (focus_window w id a).
Proof.
  intros Hu Hne [win Hid]. unfold focus_window.
  assert (window_surface a id = Some (win_surface win)) as Hs by (unfold window_surface; by rewrite Hid).
  rewrite Hs, bool_decide_false by done. cbn [negb].
  apply set_text_input_focus_ok, sync_clipboard_focus_ok.
  rewrite <- Hs. change (window_surface a id) with (Some id ≫= window_surface a).
  apply refocus_window_ok; [done|]. intros ? [= <-]. by eexists.
Qed.

Lemma with_active_same a id : active_window_id a = Some id → with_active_window_id (Some id) a = a.
Proof. destruct a. cbn. by intros ->. Qed.

Lemma focus_window_ok id a : App_ok a → App_ok (focus_window w id a).
Proof.
  intros Ha. destruct (windows a !! id) as [win|] eqn:Hid.
  2: { unfold focus_window, window_surface. by rewrite Hid. }
  destruct (decide (active_window_id a = Some id)) as [Hact|Hne].
  2: { apply focus_window_unfocused_ok; [by apply App_ok_unfocused|done|by eexists]. }
  unfold focus_window.
  assert (window_surface a id = Some (win_surface win)) as Hs by (unfold window_surface; by rewrite Hid).
  rewrite Hs, bool_decide_true by done. cbn [negb].
  apply set_text_input_focus_ok, sync_clipboard_focus_ok.
  rewrite <- Hs, with_active_same by done. by apply refocus_active_ok.
Qed.

Lemma clear_focus_unfocused_ok a :
  App_unfocused a → is_Some (active_window_id a) → App_ok (clear_focus w a).
Proof.
  intros Hu Hsome. unfold clear_focus. rewrite bool_decide_true by done.
  apply for_text_inputs_ok; [apply leave_effects|]. apply sync_clipboard_focus_ok.
  by apply (refocus_window_ok None).
Qed.

Lemma clear_window_focus_ok id a : App_ok a → App_ok (clear_window_focus w id a).
Proof.
  intros Ha. unfold clear_window_focus. case_bool_decide; [|done].
  apply clear_focus_unfocused_ok; [by apply App_ok_unfocused|by eexists].
Qed.
End focus.

(** ** Input *)

Section input.
Context (w : world) (Hw : world_ok w).

Lemma active_window_some a id : App_ok a → active_window_id a = Some id → is_Some (windows a !! id).
Proof. intros [[_ _ Hwa] _ _ _ _]. apply Hwa. Qed.

Lemma pointer_motion_ok id x y a :
  App_ok a → ∃ a', pointer_motion id x y a = Some a' ∧ App_ok a'.
Proof.
  intros Ha. unfold pointer_motion.
  assert (∃ t, pointer_target_at a id x y = Some t) as [t ->].
  { unfold pointer_target_at. destruct (find _ _) as [key|].
    { destruct (popup_routes a !! key); eauto. }
    destruct (windows a !! id) as [win|] eqn:Hid; [|eauto].
    destruct (window_of_ok _ _ _ Ha Hid) as [_ [[H1 H2] _ _ _]].
    unfold i32_max in *. unfold clamp_i32, as_i32, sat_sub, i32_max.
    rewrite !Z.max_r, !Z.mod_small by lia. rewrite !(proj2 (Z.leb_le _ 2147483647)) by lia.
    rewrite !(proj2 (Z.leb_le 0 _)) by lia. cbn. eauto. }
  cbn. destruct t; eexists; (split; [done|]); [done|]. apply emit_ok; [by neutral_tac|done].
Qed.

Lemma keyboard_key_ok id keycode state a : App_ok a → App_ok (keyboard_key w id keycode state a).
Proof. intros Ha. apply emit_ok; [by neutral_tac|]. by apply focus_window_ok. Qed.

Lemma type_char_ok id a ch : App_ok a → App_ok (type_char w id a ch).
Proof.
  intros Ha. unfold type_char. destruct (ascii_keycode ch) as [[keycode []]|]; [| |done];
    auto using keyboard_key_ok.
Qed.

Lemma synthesize_ascii_text_ok id text a : App_ok a → App_ok (synthesize_ascii_text w id text a).1.
Proof.
  cbn. revert a. induction text as [|ch text IH]; intros a Ha; cbn; [done|]. by apply IH, type_char_ok.
Qed.

Lemma queue_pending_text_input_ok event a :
  is_text_event event = true → App_ok a → App_ok (queue_pending_text_input event a).
Proof.
  intros He Ha. unfold queue_pending_text_input. destruct (Nat.leb_spec PENDING_TEXT_INPUT_LIMIT
    (length (pending_text_input a))) as [|Hlt]; [done|].
  destruct Ha as [? ? ? [Hlen Hq] ?] eqn:E. clear E.
  eapply App_ok_frame; [exact Ha|done..| |exists []; by rewrite app_nil_r].
  split; cbn; [rewrite length_app; cbn; lia|]. apply Forall_app. split; [done|]. constructor; [|done]. by rewrite He.
Qed.

Lemma neutral_fmap {A} (f : A → effect) (l : list A) : (∀ x, neutral (f x)) → Forall neutral (f <$> l).
Proof. intros H. induction l; cbn; auto. Qed.

Lemma commit_text_input_ok text a : App_ok a → App_ok (commit_text_input w text a).1.
Proof.
  intros Ha. unfold commit_text_input. case_bool_decide; [done|].
  destruct (active_surface a); [|done]. apply emit_ok; [|done]. by apply neutral_fmap.
Qed.

Lemma inject_text_ok id text a : App_ok a → App_ok (inject_text w id text a).
Proof.
  intros Ha. unfold inject_text. pose proof (focus_window_ok w Hw id _ Ha) as Hb.
  pose proof (commit_text_input_ok text _ Hb) as Hc.
  destruct (commit_text_input w text _) as [c []]; [done| |]; cbn in Hc.
  - pose proof (synthesize_ascii_text_ok id text _ Hc) as Hd.
    destruct (synthesize_ascii_text w id text c) as [d []]; [done|].
    by apply queue_pending_text_input_ok.
  - by apply synthesize_ascii_text_ok.
Qed.

Lemma preedit_text_input_ok id text b e a : App_ok a → App_ok (preedit_text_input w id text b e a).
Proof.
  intros Ha. unfold preedit_text_input. pose proof (focus_window_ok w Hw id _ Ha) as Hb.
  destruct (active_surface _); [|done]. cbv zeta.
  set (enabled := filter (λ i, ti_enabled i = true) _).
  match goal with |- context [emit ?es ?b] => assert (App_ok (emit es b)) as Hc end.
  { apply emit_ok; [|done]. by apply neutral_fmap. }
  destruct enabled; [|done]. destruct (filter _ _); [done|]. by apply queue_pending_text_input_ok.
Qed.

Lemma handle_input_event_ok event a :
  App_ok a → ∃ a', handle_input_event w event a = Some a' ∧ App_ok a'.
Proof.
  intros Ha. destruct event; cbn [handle_input_event];
    [by apply pointer_motion_ok|eexists; (split; [done|])..].
  - apply emit_ok; [by neutral_tac|]. by apply focus_window_ok.
  - apply emit_ok; [by neutral_tac|]. by apply focus_window_ok.
  - by apply keyboard_key_ok.
  - by apply inject_text_ok.
  - destruct focused; [by apply focus_window_ok|by apply clear_window_focus_ok].
  - by apply request_window_resize_ok.
  - by apply toggle_window_maximize_ok.
  - destruct fullscreen; [by apply request_window_fullscreen_by_id_ok
                         |by apply request_window_unfullscreen_by_id_ok].
  - unfold request_window_close. destruct (windows a !! id); [|done].
    apply emit_ok; [by neutral_tac|done].
  - by apply preedit_text_input_ok.
Qed.

Lemma handle_input_events_ok events a :
  App_ok a → ∃ a', handle_input_events w events a = Some a' ∧ App_ok a'.
Proof.
  revert a. induction events as [|event events IH]; intros a Ha; [by exists a|]. cbn.
  destruct (handle_input_event_ok event a Ha) as (b & -> & Hb). by apply IH.
Qed.

Lemma with_text_inputs_ok inputs a : App_ok a → App_ok (with_text_inputs inputs a).
Proof. intros Ha. frame_ok Ha. Qed.

Lemma register_text_input_ok resource a : App_ok a → App_ok (register_text_input w resource a).
Proof.
  intros Ha. unfold register_text_input. destruct (active_surface a); [|by apply with_text_inputs_ok].
  destruct (_ =? _); [|by apply with_text_inputs_ok]. apply with_text_inputs_ok.
  apply emit_ok; [by neutral_tac|done].
Qed.

Lemma text_input_request_handler_ok resource request a :
  App_ok a → ∃ a', text_input_request_handler w resource request a = Some a' ∧ App_ok a'.
Proof.
  intros Ha. unfold text_input_request_handler. destruct (list_find _ _) as [[i input]|]; [|eauto].
  destruct (apply_text_input_request request input) as [input' []].
  - apply handle_input_events_ok.
    eapply App_ok_frame; [exact Ha|done..| |exists []; by rewrite app_nil_r].
    split; cbn; [lia|constructor].
  - eexists. split; [done|]. by apply with_text_inputs_ok.
Qed.

Lemma apply_host_clipboard_ok payload a : App_ok a → App_ok (apply_host_clipboard payload a).
Proof.
  intros Ha. unfold apply_host_clipboard. destruct (clip_origin payload); [|done].
  destruct (_ <? _); [done|]. destruct (_ && _); [done|]. frame_ok Ha.
Qed.

Lemma new_selection_ok source accepted a : App_ok a → App_ok (new_selection source accepted a).
Proof.
  intros Ha. unfold new_selection. destruct (source ≫= _); [|done]. destruct accepted; [|done]. frame_ok Ha.
Qed.

Lemma send_selection_ok target mime a : App_ok a → App_ok (send_selection target mime a).
Proof.
  intros Ha. unfold send_selection. destruct (negb _); [done|]. destruct (negb _); [done|].
  destruct (host_text a); [|done]. apply emit_ok; [by neutral_tac|done].
Qed.
End input.

(** ** Surfaces *)

Lemma with_popups_ok routes order a :
  App_ok a → popups_ok routes order (dom (windows a)) →
  App_ok (with_popup_order order (with_popup_routes routes a)).
Proof. intros [] Hp. by split. Qed.

Lemma with_children_ok owners held rects a :
  App_ok a → children_ok owners held rects (dom (windows a)) →
  App_ok (with_child_surface_last_rect rects (with_child_surfaces held (with_child_surface_window owners a))).
Proof. intros [] Hp. by split. Qed.

Lemma with_rects_ok rects a :
  App_ok a → dom rects ⊆ dom (child_surface_window a) → App_ok (with_child_surface_last_rect rects a).
Proof. intros [? ? [] ? ?] Hp. by split. Qed.

Lemma with_current_buffers_ok buffers a : App_ok a → App_ok (with_current_buffers buffers a).
Proof. intros []. by split. Qed.

Lemma NoDup_move (k : Z) l : NoDup l → NoDup (filter (λ j, j ≠ k) l ++ [k]).
Proof.
  intros H. apply NoDup_app. split_and!; [by apply NoDup_filter| |apply NoDup_singleton].
  intros j [Hj _]%list_elem_of_filter. set_solver.
Qed.

Lemma popups_insert routes order ids key route :
  popups_ok routes order ids → route_window_id route ∈ ids →
  popups_ok (<[key := route]> routes) (filter (λ j, j ≠ key) order ++ [key]) ids.
Proof.
  intros [Hn Ho Hwin] Hr. split.
  - by apply NoDup_move.
  - intros k. rewrite elem_of_app, list_elem_of_filter, list_elem_of_singleton, Ho.
    rewrite lookup_insert_is_Some. destruct (decide (key = k)); naive_solver.
  - intros k v. destruct (decide (k = key)) as [->|Hne].
    + rewrite lookup_insert_eq. by intros [= <-].
    + rewrite lookup_insert_ne by done. apply Hwin.
Qed.

Lemma popups_delete routes order ids key :
  popups_ok routes order ids → popups_ok (delete key routes) (filter (λ j, j ≠ key) order) ids.
Proof.
  intros [Hn Ho Hwin]. split.
  - by apply NoDup_filter.
  - intros k. rewrite list_elem_of_filter, Ho, lookup_delete_is_Some. naive_solver.
  - intros k v [_ Hk]%lookup_delete_Some. by eapply Hwin.
Qed.

Lemma update_popup_size_ok surface width height a : App_ok a → App_ok (update_popup_size surface width height a).
Proof.
  intros Ha. unfold update_popup_size. destruct (popup_routes a !! surface) as [route|] eqn:Hr; [|done].
  destruct Ha as [? [Hn Ho Hwin] ? ? ?]. split; try done. split; cbn; [done| |].
  - intros k. rewrite Ho, lookup_insert_is_Some. destruct (decide (surface = k)) as [<-|]; naive_solver.
  - intros k v. destruct (decide (k = surface)) as [->|Hne].
    + rewrite lookup_insert_eq. intros [= <-]. exact (Hwin surface route Hr).
    + rewrite lookup_insert_ne by done. apply Hwin.
Qed.

Lemma remove_popup_route_ok key a : App_ok a → App_ok (remove_popup_route_for_surface key a).1.
Proof.
  intros Ha. unfold remove_popup_route_for_surface. destruct (popup_routes a !! key); [|done].
  apply with_popups_ok; [done|]. apply popups_delete, Ha.
Qed.

Lemma clear_child_surface_tracking_ok key a : App_ok a → App_ok (clear_child_surface_tracking key a).
Proof.
  intros Ha. unfold clear_child_surface_tracking.
  apply with_children_ok; [by apply with_current_buffers_ok|]. cbn.
  destruct Ha as [_ _ [Hh Hr Hc] _ _]. split.
  - rewrite Hh. set_solver.
  - set_solver.
  - intros k id [_ Hk]%lookup_delete_Some. by eapply Hc.
Qed.

Section surfaces.
Context (w : world) (Hw : world_ok w).

(** A walk up the tree ends at a known window. *)
Lemma surface_window_offset_window fuel a s x y id x' y' :
  App_unfocused a → surface_window_offset_loop w fuel a s x y = Some (id, x', y') →
  is_Some (windows a !! id).
Proof.
  intros Hu. revert s x y. induction fuel as [|fuel IH]; intros s x y; [done|]. cbn.
  destruct (surface_to_window a !! s) as [j|] eqn:Hs.
  { intros [= -> _ _]. apply (unf_surfaces _ Hu) in Hs as (win & Hid & _). by eexists. }
  destruct (popup_routes a !! s) as [route|] eqn:Hr.
  { intros [= <- _ _]. apply (popups_window _ _ _ (unf_popups _ Hu)) in Hr. by apply elem_of_dom. }
  destruct (parent_of w !! s); [|done]. apply IH.
Qed.

Lemma route_popup_ok surface parent positioner a :
  App_ok a → App_ok (route_popup w surface parent positioner a).
Proof.
  intros Ha. unfold route_popup. destruct parent as [p|]; [|done].
  destruct (surface_window_offset w a p) as [[[id px] py]|] eqn:Hoff; [|done].
  apply surface_window_offset_window in Hoff; [|by apply App_ok_unfocused].
  destruct (popup_geometry_for_window _ _ _ _) as [[[gx gy] gw] gh].
  cbv zeta.
  match goal with |- context [emit ?es a] => assert (App_ok (emit es a)) as Hb by
    (apply emit_ok; [by neutral_tac|done]) end.
  apply with_popups_ok; [done|]. apply popups_insert; [apply Hb|]. by apply elem_of_dom.
Qed.

Lemma copy_ok b id ox oy bounds :
  (∀ c, bounds = Some c → 0 ≤ sb_width c ∧ 0 ≤ sb_height c) →
  or_short w (copy_shm_buffer_with_bounds (buffer_contents w b) id ox oy bounds)
    (λ res, ∀ tile, res = Ok (Some tile) → size_ok (tile_w tile, tile_h tile)).
Proof.
  intros Hbounds. destruct (buffer_contents w b) as [buf|] eqn:Hb; [|done].
  destruct (world_buffers w Hw b buf Hb) as (H2 & H3 & H4 & H5).
  destruct (copy_shm_buffer_with_bounds _ _ _ _ _) as [res|] eqn:Hcopy.
  - intros tile ->. apply copy_shm_buffer_size in Hcopy; [|done]. split; cbn; lia.
  - exists b, buf. split; [done|]. apply Z.nle_gt. intros Hwide.
    destruct (copy_shm_buffer_total buf id ox oy bounds) as (res & Hres & _); [done..|]. congruence.
Qed.

Lemma repaint_ok id a : App_ok a → or_short w (repaint_window_from_cached_buffer w id a) App_ok.
Proof.
  intros Ha. unfold repaint_window_from_cached_buffer. destruct (_ ≫= _) as [b|]; [|done].
  eapply or_short_bind; [by apply (copy_ok b id 0 0 None)|]. intros [[tile|]|e] _; cbn; try done.
  apply emit_ok; [by neutral_tac|done].
Qed.

(** The bounds of a window. *)
Lemma bounds_nonneg a id win :
  App_ok a → windows a !! id = Some win → 0 ≤ (win_size win).1 ∧ 0 ≤ (win_size win).2.
Proof. intros Ha Hid. destruct (window_of_ok _ _ _ Ha Hid) as [_ [[] _ _ _]]. lia. Qed.

(** What visiting the children may change. *)
Lemma visit_child_ok id bounds a tiles b key :
  App_ok a → 0 ≤ sb_width bounds ∧ 0 ≤ sb_height bounds →
  or_short w (visit_child w id bounds (a, tiles, b) key) (λ st, App_ok st.1.1 ∧ windows st.1.1 = windows a).
Proof.
  intros Ha Hb. unfold visit_child.
  destruct (surface_window_offset w a key) as [[[j ox] oy]|]; [|done].
  destruct (negb _); [done|]. destruct (current_buffers a !! key) as [buffer|].
  2: { split; [|done]. apply with_rects_ok; [done|]. destruct Ha as [_ _ [_ Hr _] _ _]. set_solver. }
  eapply or_short_bind; [by apply (copy_ok buffer id ox oy (Some bounds)); intros ? [= <-]|]. intros [tile|e] _; [|done].
  destruct (child_surface_last_rect a !! key) as [prev|] eqn:Hprev; [|done].
  case_bool_decide; [done|]. split; [|done]. apply with_rects_ok; [done|].
  destruct Ha as [_ _ [_ Hr _] _ _].
  assert (key ∈ dom (child_surface_last_rect a)) by (apply elem_of_dom; by eexists). set_solver.
Qed.

Lemma visit_children_ok id bounds keys a tiles b :
  App_ok a → 0 ≤ sb_width bounds ∧ 0 ≤ sb_height bounds →
  or_short w (visit_children w id bounds keys (a, tiles, b)) (λ st, App_ok st.1.1).
Proof.
  revert a tiles b. induction keys as [|key keys IH]; intros a tiles b Ha Hb; cbn [visit_children]; [done|].
  eapply or_short_bind; [by apply visit_child_ok|]. intros [[a' tiles'] b'] [Ha' _]. by apply IH.
Qed.

Lemma repaint_moved_ok id first a : App_ok a → or_short w (repaint_moved_child_surfaces w id first a) App_ok.
Proof.
  intros Ha. unfold repaint_moved_child_surfaces. destruct (windows a !! id) as [win|] eqn:Hid; [|done].
  eapply or_short_bind; [apply visit_children_ok; [done|by eapply bounds_nonneg]|]. intros [[b tiles] moved] Hb.
  eapply (or_short_bind _ _ _ App_ok); [destruct (moved && first); [by apply repaint_ok|done]|].
  intros c Hc. apply emit_ok; [|done]. by apply neutral_fmap.
Qed.
End surfaces.

(** ** Commits and toplevels *)

Section commits.
Context (w : world) (Hw : world_ok w).

Lemma resize_root_window_ok id width height a :
  App_ok a → size_ok (width, height) → App_ok (resize_root_window id width height a).1.
Proof.
  intros Ha Hsz. unfold resize_root_window. destruct (windows a !! id) as [win|] eqn:Hid; [|done].
  cbv zeta. case_bool_decide; [done|]. cbn [fst].
  destruct (window_of_ok _ _ _ Ha Hid) as [_ [? ? ? ?]].
  match goal with |- App_ok ?b => rewrite <- (emit_nil b) end.
  eapply update_window_neutral; [done..| |done|done]. split; try done.
  destruct Hsz as [H1 H2]. cbn in H1, H2. unfold nonzero_size. cbn.
  rewrite !Z.max_l by lia. done.
Qed.

Lemma track_child_ok surface id a :
  App_ok a → is_Some (windows a !! id) → App_ok (track_child surface id a).
Proof.
  intros [? ? [Hh Hr Hc] ? ?] Hid. split; try done. split; cbn.
  - by rewrite Hh, dom_insert_L.
  - set_solver.
  - intros k j. destruct (decide (k = surface)) as [->|Hne].
    + rewrite lookup_insert_eq. intros [= <-]. by apply elem_of_dom.
    + rewrite lookup_insert_ne by done. apply Hc.
Qed.

Lemma copy_committed_ok surface buffer damage id ox oy a :
  App_ok a →
  or_short w (copy_committed_shm_buffer w surface buffer damage id ox oy a) (λ st,
    App_ok st.1 ∧ windows st.1 = windows a ∧ surface_to_window st.1 = surface_to_window a
    ∧ child_surface_window st.1 = child_surface_window a
    ∧ (∀ tile, st.2 = Ok (Some tile) → size_ok (tile_w tile, tile_h tile))).
Proof.
  intros Ha. unfold copy_committed_shm_buffer.
  destruct (match buffer with Buffer_New b => _ | Buffer_Removed => _ | Buffer_None => _ end)
    as [[b source] reused] eqn:E.
  assert (App_ok b ∧ windows b = windows a ∧ surface_to_window b = surface_to_window a
          ∧ child_surface_window b = child_surface_window a) as (Hb & Hvb & Hwb & Hcb).
  { destruct buffer; injection E as <- <- <-; auto using with_current_buffers_ok. }
  clear E. destruct source as [buf|]; [|by split_and!].
  assert (∀ c, (if is_root_surface_for_window b surface id then None
    else (λ win, mkSurfaceBounds (win_size win).1 (win_size win).2) <$> windows b !! id) = Some c →
    0 ≤ sb_width c ∧ 0 ≤ sb_height c) as Hbounds.
  { intros c Hc. destruct (is_root_surface_for_window _ _ _); [done|].
    apply fmap_Some in Hc as (win & Hid & ->). by eapply bounds_nonneg. }
  eapply or_short_bind; [by apply (copy_ok w Hw buf id ox oy _ Hbounds)|]. intros [tile|e] Hsz; [|by split_and!].
  cbn. split_and!; [|by destruct reused..|intros t [= ->]; by apply Hsz].
  destruct reused; [done|]. apply emit_ok; [by neutral_tac|done].
Qed.

Lemma note_child_rect_ok surface id prev rect a :
  App_ok a → is_Some (child_surface_window a !! surface) →
  or_short w (note_child_rect w surface id prev rect a) App_ok.
Proof.
  intros Ha Hs. unfold note_child_rect. cbv zeta.
  match goal with |- context [repaint_window_from_cached_buffer w id ?b] => assert (App_ok b) as Hb end.
  { apply with_rects_ok; [done|]. destruct Ha as [_ _ [_ Hr _] _ _].
    apply elem_of_dom in Hs. set_solver. }
  destruct prev; [|done]. case_bool_decide; [done|]. by apply repaint_ok.
Qed.

Lemma update_popup_size_owners surface width height a :
  child_surface_window (update_popup_size surface width height a) = child_surface_window a.
Proof. unfold update_popup_size. by destruct (popup_routes a !! surface). Qed.

Lemma commit_tile_ok surface id ox oy prev tile a :
  App_ok a → size_ok (tile_w tile, tile_h tile) →
  (is_root_commit a surface id ox oy = false → is_Some (child_surface_window a !! surface)) →
  or_short w (commit_tile w surface id ox oy prev tile a) App_ok.
Proof.
  intros Ha Hsz Hchild. unfold commit_tile. destruct (is_root_commit a surface id ox oy).
  - cbn [mbind option_bind].
    pose proof (resize_root_window_ok id (tile_w tile) (tile_h tile) _
                  (update_popup_size_ok surface (tile_w tile) (tile_h tile) _ Ha) Hsz) as Hb.
    destruct (resize_root_window _ _ _ _) as [b geom]. cbn in Hb.
    apply repaint_moved_ok; [done|]. apply emit_ok; [by neutral_tac|].
    assert (App_ok (with_frame_count (sat_add u64_max (frame_count b) 1) b)) by frame_ok Hb.
    destruct geom; [|done]. apply emit_ok; [by neutral_tac|done].
  - eapply or_short_bind.
    { apply note_child_rect_ok; [by apply update_popup_size_ok|].
      rewrite update_popup_size_owners. by apply Hchild. }
    intros b Hb. apply emit_ok; [by neutral_tac|]. frame_ok Hb.
Qed.

(** The three outcomes of the copy. *)
Lemma commit_copied_ok surface id ox oy prev (root : bool) (res : result capture_error (option FrameTile)) a :
  App_ok a → (∀ tile, res = Ok (Some tile) → size_ok (tile_w tile, tile_h tile)) →
  (is_root_commit a surface id ox oy = false → is_Some (child_surface_window a !! surface)) →
  or_short w (match res with
              | Ok (Some tile) => commit_tile w surface id ox oy prev tile a
              | Ok None => if root then repaint_moved_child_surfaces w id true a else Some a
              | Err _ => Some a
              end) App_ok.
Proof.
  intros Ha Hsz Hchild. destruct res as [[tile|]|e]; [| |done].
  - apply commit_tile_ok; [done|by apply Hsz|done].
  - destruct root; [by apply repaint_moved_ok|done].
Qed.

Lemma commit_ok surface buffer damage a :
  App_ok a → or_short w (commit w surface buffer damage a) App_ok.
Proof.
  intros Ha0. unfold commit. cbv zeta.
  assert (App_ok (with_commit_count (sat_add u64_max (commit_count a) 1) a)) as Ha by frame_ok Ha0.
  revert Ha. generalize (with_commit_count (sat_add u64_max (commit_count a) 1) a). clear a Ha0. intros a Ha.
  destruct (surface_window_offset w a surface) as [[[id ox] oy]|] eqn:Hoff.
  2: { apply emit_ok; [by neutral_tac|].
       destruct buffer; try done. apply emit_ok; [by neutral_tac|done]. }
  apply surface_window_offset_window in Hoff; [|by apply App_ok_unfocused].
  set (root := is_root_commit a surface id ox oy).
  set (b := if root then a else track_child surface id a).
  assert (App_ok b ∧ windows b = windows a ∧ surface_to_window b = surface_to_window a ∧
    (root = false → is_Some (child_surface_window b !! surface))) as (Hb & Hwb & Hsb & Hcb).
  { unfold b. destruct root; [done|]. split_and!; [by apply track_child_ok|done..|].
    intros _. cbn. by rewrite lookup_insert_eq. }
  eapply or_short_bind; [by apply copy_committed_ok|]. intros [c res] (Hc & Hvc & Hwc & Hcc & Hsz).
  cbn [fst snd] in *. eapply or_short_bind.
  { apply commit_copied_ok; [done|done|]. intros Hroot. rewrite Hcc. apply Hcb.
    unfold root. rewrite <- Hroot. unfold is_root_commit, is_root_surface_for_window.
    by rewrite Hwc, Hsb. }
  intros d Hd. eapply (or_short_bind _ _ _ App_ok).
  { destruct buffer; try done. destruct root; [done|]. apply repaint_ok; [done|].
    by apply clear_child_surface_tracking_ok, remove_popup_route_ok. }
  intros e He. apply emit_ok; [by neutral_tac|done].
Qed.

Lemma popup_destroyed_ok surface a :
  App_ok a → or_short w (popup_destroyed w surface a) App_ok.
Proof.
  intros Ha. unfold popup_destroyed. pose proof (remove_popup_route_ok surface a Ha) as Hb.
  destruct (remove_popup_route_for_surface surface a) as [b [id|]]; cbn in Hb;
    apply (clear_child_surface_tracking_ok surface) in Hb; [by apply repaint_ok|done].
Qed.

Lemma new_toplevel_ok surface a :
  App_ok a → surface_to_window a !! surface = None → next_window_id a < u64_max →
  App_ok (new_toplevel w surface a).
Proof.
  intros Ha Hfresh Hnext. unfold new_toplevel. cbv zeta.
  apply emit_ok; [by neutral_tac|].
  assert (windows a !! next_window_id a = None) as Hnone.
  { destruct (windows a !! next_window_id a) as [win|] eqn:Hid; [|done].
    destruct (window_of_ok _ _ _ Ha Hid). lia. }
  destruct Ha as [[Hs He Hact] Hp Hc Hq [Hf Ht]].
  apply focus_window_unfocused_ok; [done| | |].
  - split; cbn.
    + intros s id. destruct (decide (s = surface)) as [->|Hne].
      * rewrite lookup_insert_eq. split.
        -- intros [= <-]. eexists. by rewrite lookup_insert_eq.
        -- intros (win & Hid & Hsf). destruct (decide (id = next_window_id a)) as [->|Hne]; [done|].
           rewrite lookup_insert_ne in Hid by done. exfalso.
           assert (surface_to_window a !! surface = Some id) by (apply Hs; eauto). congruence.
      * rewrite lookup_insert_ne, Hs by done. split; intros (win & Hid & Hsf).
        -- exists win. rewrite lookup_insert_ne; [done|]. congruence.
        -- destruct (decide (id = next_window_id a)) as [->|Hne'].
           ++ rewrite lookup_insert_eq in Hid. injection Hid as <-. done.
           ++ rewrite lookup_insert_ne in Hid by done. by exists win.
    + intros id win. unfold sat_add. rewrite Z.min_l by lia.
      destruct (decide (id = next_window_id a)) as [->|Hne].
      * rewrite lookup_insert_eq. intros [= <-]. split; [lia|]. exists false. by split.
      * rewrite lookup_insert_ne by done. intros Hid. destruct (He _ _ Hid). split; [lia|eauto].
    + destruct Hp as [Hn Ho Hwin]. split; [done..|]. intros k r Hr. rewrite dom_insert_L. set_solver.
    + destruct Hc as [Hh Hr Hcw]. split; [done..|]. intros k j Hj. rewrite dom_insert_L. set_solver.
    + done.
    + intros id win. destruct (decide (id = next_window_id a)) as [->|Hne].
      * rewrite lookup_insert_eq. by intros [= <-].
      * rewrite lookup_insert_ne by done. apply Ht.
  - cbn. intros Heq. apply Hact in Heq as [? ?]. congruence.
  - cbn. rewrite lookup_insert_eq. by eexists.
Qed.

Lemma toplevel_destroyed_ok surface a : App_ok a → App_ok (toplevel_destroyed w surface a).
Proof.
  intros Ha. unfold toplevel_destroyed. destruct (surface_to_window a !! surface) as [id|] eqn:Hsid; [|done].
  cbv zeta. apply emit_ok; [by neutral_tac|].
  match goal with |- App_ok (if bool_decide (active_window_id ?x = _) then _ else _) => set (b := x) end.
  destruct Ha as [[Hs He Hact] [Hn Ho Hwin] [Hh Hr Hcw] Hq [Hf Ht]].
  apply Hs in Hsid as (win & Hid & Hsf).
  assert (windows b = delete id (windows a)) as Ewb by done.
  assert (App_unfocused b) as Hb.
  { split; unfold b; cbn.
    - intros s j. rewrite lookup_delete_Some, Hs. split.
      + intros [Hne (v & Hj & Hv)]. exists v. rewrite lookup_delete_ne; [done|]. congruence.
      + intros (v & Hj & Hv). apply lookup_delete_Some in Hj as [Hne Hj]. split; [|eauto].
        intros ->. assert (surface_to_window a !! s = Some id) by (apply Hs; eauto).
        assert (surface_to_window a !! s = Some j) by (apply Hs; eauto). congruence.
    - intros j v [Hne Hj]%lookup_delete_Some. destruct (He _ _ Hj). eauto.
    - split.
      + by apply NoDup_filter.
      + intros k. rewrite list_elem_of_filter, Ho. split; [naive_solver|]. intros Hk. split; [done|].
        destruct Hk as [r [? _]%map_lookup_filter_Some]. by eexists.
      + intros k r [Hk Hne]%map_lookup_filter_Some. cbn in Hne. rewrite dom_delete_L.
        apply Hwin in Hk. set_solver.
    - split.
      + apply set_eq. intros k. rewrite elem_of_filter, Hh, !elem_of_dom. split; [naive_solver|].
        intros Hk. split; [done|]. destruct Hk as [r [? _]%map_lookup_filter_Some]. by eexists.
      + intros k. rewrite !elem_of_dom. intros [r [_ Hk]%map_lookup_filter_Some]. done.
      + intros k j [Hk Hne]%map_lookup_filter_Some. cbn in Hne. rewrite dom_delete_L.
        apply Hcw in Hk. set_solver.
    - done.
    - intros j v [Hne Hj]%lookup_delete_Some. by eapply Ht. }
  case_bool_decide as Hactive.
  - destruct (hash_order w (dom (windows b))) as [|next rest] eqn:Hord.
    + apply clear_focus_unfocused_ok; [done..|]. rewrite Hactive. by eexists.
    + assert (next ∈ dom (windows b)) as Hnext.
      { rewrite <- elem_of_elements, <- (world_order w Hw), Hord. by left. }
      apply elem_of_dom in Hnext. apply focus_window_unfocused_ok; [done..| |done].
      rewrite Hactive. intros [= <-]. rewrite Ewb, lookup_delete_eq in Hnext. by destruct Hnext.
  - destruct Hb as [Hs' He' Hp' Hc' Hq' Ht']. split; [split| | | |split]; try done.
    + intros j v Hj. split; [by eapply He'|]. rewrite Ewb in Hj. apply lookup_delete_Some in Hj as [_ Hj]. by apply He.
    + intros j Hj. rewrite Ewb, lookup_delete_ne; [by apply Hact|]. intros ->. by apply Hactive.
    + change (log b) with (log a). rewrite Hf. change (active_window_id b) with (active_window_id a).
      change (active_window_id b) with (active_window_id a) in Hactive.
      destruct (active_window_id a) as [j|]; [|done]. cbn. rewrite lookup_delete_ne; [done|]. congruence.
Qed.
End commits.

(** ** Runs *)

(** A fresh window id, for a surface that is not a toplevel yet. *)
Definition event_ok (a : App) (event : app_event) : Prop :=
  match event with
  | Ev_new_toplevel surface => surface_to_window a !! surface = None ∧ next_window_id a < u64_max
  | _ => True
  end.

(** The states a session goes through. *)
Inductive reachable : App → Prop :=
  | Reach_start width height : reachable (App_new width height)
  | Reach_step a w event a' :
      reachable a → world_ok w → event_ok a event → app_step w event a = Some a' → reachable a'.

Lemma App_new_ok width height : App_ok (App_new width height).
Proof.
  unfold App_new. split; cbn.
  - split; [|done|done]. intros s id. rewrite lookup_empty. split; [done|]. by intros (? & ? & _).
  - split; [constructor| |done]. intros k. rewrite lookup_empty. split; [set_solver|by intros []].
  - split; [by rewrite dom_empty_L|by rewrite dom_empty_L|done].
  - split; cbn; [lia|constructor].
  - done.
Qed.

Lemma buffer_destroyed_ok buffer a : App_ok a → App_ok (buffer_destroyed buffer a).
Proof. intros []. by split. Qed.

Lemma from_some w (m : option App) : (∃ b, m = Some b ∧ App_ok b) → or_short w m App_ok.
Proof. apply or_short_some. Qed.

Lemma app_step_ok w event a :
  world_ok w → event_ok a event → App_ok a → or_short w (app_step w event a) App_ok.
Proof.
  intros Hw Hev Ha. destruct event; cbn [app_step];
    try (cbn [or_short]; first
      [ by apply apply_host_clipboard_ok | by apply new_selection_ok | by apply send_selection_ok
      | by apply buffer_destroyed_ok | by apply toplevel_destroyed_ok
      | by apply request_window_move_ok | by apply register_text_input_ok
      | by apply with_text_inputs_ok ]).
  - by apply from_some, handle_input_event_ok.
  - by apply commit_ok.
  - by apply popup_destroyed_ok.
  - destruct Hev. by apply new_toplevel_ok.
  - apply emit_ok; [by neutral_tac|]. by apply route_popup_ok.
  - apply emit_ok; [by neutral_tac|]. apply route_popup_ok. apply emit_ok; [by neutral_tac|done].
  - by apply popup_destroyed_ok.
  - cbn. unfold maximize_request. destruct (gtk_wm_requests_enabled w); [|done].
    apply for_surface_ok; auto using request_window_maximize_by_id_ok.
  - cbn. unfold unmaximize_request. destruct (gtk_wm_requests_enabled w); [|done].
    apply for_surface_ok; auto using request_window_unmaximize_by_id_ok.
  - apply for_surface_ok; auto using request_window_fullscreen_by_id_ok.
  - apply for_surface_ok; auto using request_window_unfullscreen_by_id_ok.
  - apply for_surface_ok; [|done]. intros. apply emit_ok; [by neutral_tac|done].
  - apply for_surface_ok; [|done]. intros. apply emit_ok; [by neutral_tac|done].
  - by apply from_some, text_input_request_handler_ok.
Qed.

Lemma reachable_ok a : reachable a → App_ok a.
Proof.
  induction 1 as [width height|a w event a' _ IH Hw Hev Hstep]; [apply App_new_ok|].
  pose proof (app_step_ok w event a Hw Hev IH) as Hok. by rewrite Hstep in Hok.
Qed.

(** ** Theorems *)

(** C1: every event of the viewer and of the clients keeps the compositor's state coherent, and
    it panics for one reason only: a client has declared a shared-memory buffer whose rows are
    shorter than its pixels (stride below four times the width), which nothing in the code
    refuses; with no such buffer it never panics. Coherent means: surfaces and windows
    correspond one to one; the active window exists, holds the keyboard focus and is the only
    one activated; each window's pending [xdg_toplevel] state says what its mode is; popups and
    child surfaces belong to live windows and their indexes agree; at most 32 text events wait;
    and the viewer has been told of every window that is fullscreen. A new toplevel is assumed
    to be a surface not yet in use, and fewer than 2^64 windows to be opened. *)
Theorem compositor_safe a w event :
  reachable a → world_ok w → event_ok a event →
  App_ok a
  ∧ match app_step w event a with
    | Some a' => App_ok a'
    | None => ∃ b buf, buffer_contents w b = Some buf ∧ shm_stride buf < 4 * shm_width buf
    end.
Proof. intros Ha Hw Hev. apply reachable_ok in Ha. split; [done|by apply app_step_ok]. Qed.

(** A quiet world: no surface has a parent, maps are walked in key order. *)
Definition plain_world (t : Z) : world :=
  mkWorld t (λ _, 0) (λ _, true) elements ∅ (λ _, (0, 0)) (λ _, None) (λ _, []) (λ _, []) true.

Lemma plain_world_ok t : world_ok (plain_world t).
Proof. by split. Qed.

Lemma compositor_safe_witness :
  let a := new_toplevel (plain_world 0) 7 (App_new 800 600) in
  App_ok a ∧ match app_step (plain_world 0) (Ev_input (IE_PointerMotion 1 (-5) 9)) a with
             | Some a' => App_ok a'
             | None => ∃ b buf, buffer_contents (plain_world 0) b = Some buf
                                ∧ shm_stride buf < 4 * shm_width buf
             end.
Proof.
  apply compositor_safe; [|apply plain_world_ok|done].
  eapply (Reach_step _ (plain_world 0) (Ev_new_toplevel 7)); [apply (Reach_start 800 600)| |done|done].
  apply plain_world_ok.
Defined.

(** *** Keys and typing *)

Definition focus_noise (e : effect) : Prop :=
  match e with
  | Configure _ _ | Keyboard_focus _ | Clipboard_focus _ | Text_enter _ _ | Text_leave _ _ => True
  | _ => False
  end.

(** [a'] says only focus noise after [a]. *)
Definition noisy (P : effect → Prop) (a a' : App) : Prop := ∃ es, log a' = log a ++ es ∧ Forall P es.

Lemma noisy_refl P a : noisy P a a.
Proof. exists []. by rewrite app_nil_r. Qed.

Lemma noisy_trans P a b c : noisy P a b → noisy P b c → noisy P a c.
Proof.
  intros (es & E & H) (es' & E' & H'). exists (es ++ es'). rewrite E', E, app_assoc.
  split; [done|]. by apply Forall_app.
Qed.

Lemma noisy_emit (P : effect → Prop) es a : Forall P es → noisy P a (emit es a).
Proof. intros H. by exists es. Qed.

Lemma noisy_for_text_inputs f a :
  (∀ input, Forall text_focus (f input).2) → noisy focus_noise a (for_text_inputs f a).
Proof.
  intros Hf. destruct (for_text_inputs_effects f a Hf) as (es & -> & Hes).
  exists es. split; [done|]. eapply Forall_impl; [exact Hes|]. by intros [].
Qed.

Lemma noisy_activation act ids a : noisy focus_noise a (foldl (activate_window act) a ids).
Proof.
  revert a. induction ids as [|id ids IH]; intros a; cbn; [apply noisy_refl|].
  eapply noisy_trans; [|apply IH]. unfold activate_window. destruct (windows a !! id); [|apply noisy_refl].
  eexists. split; [done|]. by repeat constructor.
Qed.

Lemma focus_window_noisy w id a : noisy focus_noise a (focus_window w id a).
Proof.
  unfold focus_window. destruct (window_surface a id) as [s|]; [|apply noisy_refl].
  unfold set_text_input_focus.
  match goal with |- context [active_surface ?b] => set (c := b) end.
  assert (noisy focus_noise a c) as Hc.
  { unfold c, sync_clipboard_focus_to_surface. eapply noisy_trans; [|apply noisy_emit; by repeat constructor].
    eapply noisy_trans; [|apply noisy_emit; by repeat constructor].
    eapply (noisy_trans _ _ (with_active_window_id (Some id) a)); [by exists []; rewrite app_nil_r|].
    destruct (negb _); [apply noisy_activation|apply noisy_refl]. }
  destruct (active_surface c); [|done]. eapply noisy_trans; [done|].
  apply noisy_for_text_inputs. intros. apply focus_text_input_effects.
Qed.

Lemma active_surface_focus a : App_ok a → last_focus (log a) = active_surface a.
Proof. intros [_ _ _ _ [Hf _]]. exact Hf. Qed.

Lemma set_text_input_focus_surface w a : active_surface (set_text_input_focus w a) = active_surface a.
Proof. unfold set_text_input_focus. destruct (active_surface a) eqn:E; [|done]. exact E. Qed.

Lemma focus_window_surface w id a :
  world_ok w →
  active_surface (focus_window w id a)
  = match window_surface a id with Some s => Some s | None => active_surface a end.
Proof.
  intros Hw. unfold focus_window. destruct (window_surface a id) as [s|] eqn:Hs; [|done].
  rewrite set_text_input_focus_surface. apply window_surface_some in Hs as (win & Hid & <-).
  unfold active_surface, sync_clipboard_focus_to_surface, window_surface. cbn.
  destruct (negb _); cbn; [|by rewrite Hid].
  destruct (set_toplevel_activation_spec w Hw (Some id) (with_active_window_id (Some id) a))
    as (_ & _ & -> & _ & Hwin).
  cbn. rewrite Hwin. cbn. by rewrite Hid.
Qed.

(** A key for a window that exists reaches that window's surface, focused first if need
    be. A key for a window that is gone is not dropped: it goes to the surface that has the
    focus, which is the window activated when the other one closed. *)
Theorem key_delivery w a id keycode state :
  world_ok w → reachable a →
  ∃ es a', handle_input_event w (IE_Key id keycode state) a = Some a' ∧
    log a' = log a ++ es ++ [Key (xkb_keycode keycode) state] ∧ Forall focus_noise es ∧
    last_focus (log a ++ es)
    = match window_surface a id with Some s => Some s | None => active_surface a end.
Proof.
  intros Hw Ha%reachable_ok. destruct (focus_window_noisy w id a) as (es & Hes & Hn).
  exists es. eexists. split; [done|]. cbn. rewrite Hes, app_assoc. split_and!; [done..|].
  rewrite <- Hes, <- (focus_window_surface w) by done. by apply active_surface_focus, focus_window_ok.
Qed.

Lemma two_windows_reachable :
  reachable (new_toplevel (plain_world 0) 8 (new_toplevel (plain_world 0) 7 (App_new 800 600))).
Proof.
  apply (Reach_step (new_toplevel (plain_world 0) 7 (App_new 800 600)) (plain_world 0) (Ev_new_toplevel 8));
    [|apply plain_world_ok|split; vm_compute; reflexivity|reflexivity].
  apply (Reach_step (App_new 800 600) (plain_world 0) (Ev_new_toplevel 7));
    [constructor|apply plain_world_ok|done|done].
Qed.

Lemma key_delivery_witness :
  let a := new_toplevel (plain_world 0) 8 (new_toplevel (plain_world 0) 7 (App_new 800 600)) in
  ∃ es a', handle_input_event (plain_world 0) (IE_Key 99 30 Key_Pressed) a = Some a' ∧
    log a' = log a ++ es ++ [Key (xkb_keycode 30) Key_Pressed] ∧ Forall focus_noise es ∧
    last_focus (log a ++ es)
    = match window_surface a 99 with Some s => Some s | None => active_surface a end.
Proof. apply key_delivery; [apply plain_world_ok|apply two_windows_reachable]. Defined.

(** A US keyboard: evdev codes of the rows, unshifted and shifted. *)
Definition key_rows : list (Z * rstring * rstring) :=
  [(2, lit "1234567890-=", lit "!@#$%^&*()_+");
   (16, lit "qwertyuiop[]", lit "QWERTYUIOP{}");
   (30, lit "asdfghjkl;'", lit "ASDFGHJKL:" ++ [34]);
   (41, lit "`", lit "~");
   (43, lit "\zxcvbnm,./", lit "|ZXCVBNM<>?");
   (15, [9], [9]); (28, [10], [10]); (57, [32], [32])].

Definition key_char (code : Z) (shifted : bool) : option char :=
  head (omap (λ row, if code <? row.1.1 then None
                     else (if shifted then row.2 else row.1.2) !! Z.to_nat (code - row.1.1)) key_rows).

(** What a US keyboard's user spells with the keys of a log: Shift is key 42, and keys count
    when pressed. X keycodes are evdev codes plus eight. *)
Fixpoint spelled (shifted : bool) (es : list effect) : rstring :=
  match es with
  | [] => []
  | Key code state :: es =>
      if code =? 42 + 8 then spelled (match state with Key_Pressed => true | Key_Released => false end) es
      else match state, key_char (code - 8) shifted with
           | Key_Pressed, Some c => c :: spelled shifted es
           | _, _ => spelled shifted es
           end
  | _ :: es => spelled shifted es
  end.

(** The characters a US keyboard has a key for; a carriage return is typed as Enter. *)
Definition typed (ch : char) : option char :=
  if ch =? 13 then Some 10
  else if (ch =? 9) || (ch =? 10) || ((32 <=? ch) && (ch <=? 126)) then Some ch else None.

Definition ascii_agrees (ch : char) : bool :=
  match ascii_keycode ch with
  | Some (code, shifted) =>
      bool_decide (typed ch = key_char code shifted) && (0 <=? code) && (code <? 200)
      && negb (code =? 42) && bool_decide (is_Some (typed ch))
  | None => bool_decide (typed ch = None)
  end.

Lemma ascii_keycode_agrees ch : ascii_agrees ch = true.
Proof.
  destruct (decide (0 ≤ ch < 128)) as [Hin|Hout].
  - assert (Forall (λ c, ascii_agrees c = true) (seqZ 0 128)) as Hall.
    { apply (bool_decide_unpack _). vm_compute. exact I. }
    rewrite Forall_forall in Hall. apply Hall, elem_of_seqZ. lia.
  - unfold ascii_agrees. assert (ascii_keycode ch = None) as ->.
    { unfold ascii_keycode. destruct (find _ _) as [row|] eqn:Hf; [|done].
      apply find_some in Hf as [Hin Heq]. apply Z.eqb_eq in Heq. exfalso. apply Hout. rewrite <- Heq.
      assert (Forall (λ row : Z * (Z * bool), 0 ≤ row.1 < 128) keycode_table) as Hall.
      { apply (bool_decide_unpack _). vm_compute. exact I. }
      rewrite Forall_forall in Hall. by apply Hall, list_elem_of_In. }
    apply bool_decide_true. unfold typed.
    destruct (Z.eqb_spec ch 13), (Z.eqb_spec ch 9), (Z.eqb_spec ch 10), (Z.leb_spec 32 ch),
      (Z.leb_spec ch 126); cbn; try done; lia.
Qed.

Lemma spelled_noise b es es' : Forall focus_noise es → spelled b (es ++ es') = spelled b es'.
Proof. induction 1 as [|e es He _ IH]; [done|]. by destruct e. Qed.

Lemma keyboard_key_log w id code state a :
  0 ≤ code < 200 →
  ∃ es, log (keyboard_key w id code state a) = log a ++ es ++ [Key (code + 8) state] ∧ Forall focus_noise es.
Proof.
  intros Hcode. destruct (focus_window_noisy w id a) as (es & Hes & Hn). exists es. split; [|done].
  cbn. rewrite Hes, app_assoc. unfold xkb_keycode. by rewrite Z.mod_small by lia.
Qed.

(** The text inputs that get a text committed. *)
Definition commit_of (e : effect) : option (Z * rstring * Z) :=
  match e with Text_commit resource text serial => Some (resource, text, serial) | _ => None end.

Lemma noise_commits es : Forall focus_noise es → omap commit_of es = [].
Proof. induction 1 as [|e es He _ IH]; [done|]. by destruct e. Qed.

(** [spells out a a']: what [a'] says after [a] spells [out], starting and ending with Shift
    up, and commits nothing. *)
Definition spells (out : rstring) (a a' : App) : Prop :=
  ∃ es, log a' = log a ++ es ∧ omap commit_of es = [] ∧
    ∀ es', spelled false (es ++ es') = out ++ spelled false es'.

Lemma type_char_spells w id a ch : spells (option_list (typed ch)) a (type_char w id a ch).
Proof.
  pose proof (ascii_keycode_agrees ch) as Hag. unfold ascii_agrees in Hag. unfold type_char.
  destruct (ascii_keycode ch) as [[code shifted]|].
  2: { apply bool_decide_eq_true in Hag. rewrite Hag. exists []. by rewrite app_nil_r. }
  rewrite !andb_true_iff, negb_true_iff, Z.leb_le, Z.ltb_lt, Z.eqb_neq, !bool_decide_eq_true in Hag.
  destruct Hag as [[[[Hkey H0] H200] H42] [c Hc]]. rewrite Hc in Hkey. rewrite Hc. cbn [option_list].
  assert (∀ b es', spelled b (Key (code + 8) Key_Released :: es') = spelled b es') as Hrel.
  { intros. cbn [spelled]. by rewrite (proj2 (Z.eqb_neq _ _)) by lia. }
  assert (∀ es', spelled shifted (Key (code + 8) Key_Pressed :: es') = c :: spelled shifted es') as Hpress.
  { intros. cbn [spelled]. rewrite (proj2 (Z.eqb_neq _ _)) by lia.
    replace (code + 8 - 8) with code by lia. by rewrite <- Hkey. }
  set (a1 := if shifted : bool then keyboard_key w id 42 Key_Pressed a else a).
  destruct (keyboard_key_log w id code Key_Pressed a1) as (e2 & E2 & N2); [done|].
  destruct (keyboard_key_log w id code Key_Released (keyboard_key w id code Key_Pressed a1))
    as (e3 & E3 & N3); [done|].
  destruct shifted; unfold a1 in *.
  - destruct (keyboard_key_log w id 42 Key_Pressed a) as (e1 & E1 & N1); [done|].
    destruct (keyboard_key_log w id 42 Key_Released (keyboard_key w id code Key_Released
       (keyboard_key w id code Key_Pressed (keyboard_key w id 42 Key_Pressed a)))) as (e4 & E4 & N4); [done|].
    eexists. split; [rewrite E4, E3, E2, E1, <- !app_assoc; reflexivity|].
    split; [by rewrite !omap_app, (noise_commits e1), (noise_commits e2), (noise_commits e3),
              (noise_commits e4) by done|]. intros es'.
    rewrite <- !app_assoc, !spelled_noise by done. cbn [app]. cbn [spelled].
    rewrite Z.eqb_refl. rewrite !spelled_noise by done. rewrite Hpress.
    rewrite !spelled_noise by done. rewrite Hrel, !spelled_noise by done. cbn. by rewrite ?Z.eqb_refl.
  - eexists. split; [rewrite E3, E2, <- !app_assoc; reflexivity|].
    split; [by rewrite !omap_app, (noise_commits e2), (noise_commits e3) by done|]. intros es'.
    rewrite <- !app_assoc, spelled_noise by done. cbn [app]. rewrite Hpress.
    rewrite spelled_noise by done. cbn [app]. by rewrite Hrel.
Qed.

Lemma synthesize_spells w id text a : spells (omap typed text) a (synthesize_ascii_text w id text a).1.
Proof.
  cbn. revert a. induction text as [|ch text IH]; intros a; cbn.
  { exists []. by rewrite app_nil_r. }
  destruct (type_char_spells w id a ch) as (es & Hes & Hc & Hs).
  destruct (IH (type_char w id a ch)) as (es' & Hes' & Hc' & Hs'). exists (es ++ es').
  split; [by rewrite Hes', Hes, app_assoc|]. split; [by rewrite omap_app, Hc, Hc'|]. intros es''. rewrite <- app_assoc, Hs, Hs'.
  by destruct (typed ch).
Qed.

Lemma existsb_typed text :
  existsb (λ ch, bool_decide (is_Some (ascii_keycode ch))) text = true ↔ omap typed text ≠ [].
Proof.
  induction text as [|ch text IH]; [naive_solver|]. cbn [existsb].
  rewrite orb_true_iff, bool_decide_eq_true, IH. cbn [omap list_omap].
  pose proof (ascii_keycode_agrees ch) as Hag. unfold ascii_agrees in Hag.
  destruct (ascii_keycode ch) as [[code shifted]|].
  - rewrite !andb_true_iff, !bool_decide_eq_true in Hag. destruct Hag as [_ [c ->]].
    split; [done|]. intros _. left. by eexists.
  - apply bool_decide_eq_true in Hag. rewrite Hag. split; [|by right]. by intros [[? [=]]|].
Qed.

(** *** Text *)

(** The live text inputs of the client that owns a surface. *)
Definition text_inputs_of (w : world) (surface : Z) (a : App) : list VBoxTextInput :=
  filter (λ i, client_of w (ti_resource i) = client_of w surface) (text_inputs a).

(** Focus changes who a text input is told about, nothing else. *)
Definition same_but_focus (i j : VBoxTextInput) : Prop :=
  ti_resource i = ti_resource j ∧ ti_serial i = ti_serial j ∧ ti_enabled i = ti_enabled j
  ∧ ti_pending_enabled i = ti_pending_enabled j.

Lemma focus_text_input_same w s i : same_but_focus i (focus_text_input w s i).1.
Proof.
  unfold focus_text_input, leave. destruct (negb _); [by split_and!|].
  destruct (negb _); [destruct (focused_surface i); by split_and!|].
  case_bool_decide; [by split_and!|]. destruct (focused_surface i); by split_and!.
Qed.

Lemma set_text_input_focus_inputs w a :
  Forall2 same_but_focus (text_inputs a) (text_inputs (set_text_input_focus w a)).
Proof.
  unfold set_text_input_focus. destruct (active_surface a) as [z|]; cbn;
    generalize (text_inputs a); intros l; induction l as [|i l IH]; cbn; constructor; try done.
  apply focus_text_input_same.
Qed.

Lemma focus_window_inputs w id a :
  Forall2 same_but_focus (text_inputs a) (text_inputs (focus_window w id a)).
Proof.
  unfold focus_window. destruct (window_surface a id) as [s|].
  2: { generalize (text_inputs a). intros l. induction l; by constructor. }
  match goal with |- context [set_text_input_focus w ?b] => assert (text_inputs b = text_inputs a) as <- end.
  2: apply set_text_input_focus_inputs.
  cbn. destruct (negb _); [|done]. unfold set_toplevel_activation.
  destruct (activation_spec (Some id) (hash_order w (dom (windows (with_active_window_id (Some id) a))))
    (with_active_window_id (Some id) a)) as (_ & _ & _ & -> & _). done.
Qed.

Lemma focus_window_pending w id a :
  pending_text_input (focus_window w id a) = pending_text_input a.
Proof.
  unfold focus_window. destruct (window_surface a id) as [s|]; [|done].
  assert (∀ b, pending_text_input (set_text_input_focus w b) = pending_text_input b) as ->.
  { intros b. unfold set_text_input_focus. by destruct (active_surface b). }
  cbn. destruct (negb _); [|done]. unfold set_toplevel_activation.
  by destruct (activation_spec (Some id) (hash_order w (dom (windows (with_active_window_id (Some id) a))))
    (with_active_window_id (Some id) a)) as (H & _); rewrite (ref_queue _ _ H).
Qed.

(** Who gets a text: the text inputs of the surface's client that are enabled. *)
Definition recipients (w : world) (surface : Z) (a : App) : list (Z * Z) :=
  (λ i, (ti_resource i, ti_serial i)) <$> filter (λ i, ti_enabled i = true) (text_inputs_of w surface a).

Lemma same_inputs_recipients w s a b :
  Forall2 same_but_focus (text_inputs a) (text_inputs b) →
  recipients w s b = recipients w s a ∧ (text_inputs_of w s b = [] ↔ text_inputs_of w s a = []).
Proof.
  intros H. unfold recipients, text_inputs_of.
  induction H as [|i j l k (E1 & E2 & E3 & _) _ [IH1 IH2]]; [done|].
  rewrite !(filter_cons _ i l), !(filter_cons _ j k), !E1.
  case_decide; [|done]. rewrite !(filter_cons _ i), !(filter_cons _ j), !E3.
  split; [|done]. case_decide; cbn; [|done]. by rewrite IH1, E1, E2.
Qed.

(** What [commit_text_input] does for a focused surface. *)
Lemma commit_text_input_spec w s text a :
  active_surface a = Some s → text ≠ [] →
  let '(a', delivery) := commit_text_input w text a in
  log a' = log a ++ ((λ p, Text_commit p.1 text p.2) <$> recipients w s a) ∧
  pending_text_input a' = pending_text_input a ∧ text_inputs a' = text_inputs a ∧
  active_surface a' = active_surface a ∧
  delivery = match recipients w s a, text_inputs_of w s a with
             | _ :: _, _ => Sent | [], _ :: _ => WaitingForEnable | [], [] => Unavailable end.
Proof.
  intros Hs Ht. unfold commit_text_input. rewrite bool_decide_false, Hs by done. cbn.
  unfold recipients. fold (text_inputs_of w s a).
  split_and!; try done.
  - f_equal. by rewrite <- list_fmap_compose.
  - by destruct (filter _ (text_inputs_of w s a)).
Qed.

Lemma type_char_pending w id a ch : pending_text_input (type_char w id a ch) = pending_text_input a.
Proof.
  assert (∀ k st b, pending_text_input (keyboard_key w id k st b) = pending_text_input b) as Hk.
  { intros. apply focus_window_pending. }
  unfold type_char. destruct (ascii_keycode ch) as [[code []]|]; [| |done]; by rewrite !Hk.
Qed.

Lemma synthesize_pending w id text a :
  pending_text_input (synthesize_ascii_text w id text a).1 = pending_text_input a.
Proof.
  cbn. revert a. induction text as [|ch text IH]; intros a; cbn; [done|]. by rewrite IH, type_char_pending.
Qed.

(** Appends to the queue unless it is full. *)
Definition queued (q : list InputEvent) (event : InputEvent) : list InputEvent :=
  if decide (length q < PENDING_TEXT_INPUT_LIMIT)%nat then q ++ [event] else q.

Lemma queue_pending_spec event a :
  pending_text_input (queue_pending_text_input event a) = queued (pending_text_input a) event
  ∧ log (queue_pending_text_input event a) = log a.
Proof.
  unfold queue_pending_text_input, queued.
  destruct (Nat.leb_spec PENDING_TEXT_INPUT_LIMIT (length (pending_text_input a)));
    [rewrite decide_False by lia|rewrite decide_True by lia]; done.
Qed.

Definition commits_for (text : rstring) (rs : list (Z * Z)) : list (Z * rstring * Z) :=
  (λ p, (p.1, text, p.2)) <$> rs.

Lemma commits_of_fmap text rs :
  omap commit_of ((λ p, Text_commit p.1 text p.2) <$> rs) = commits_for text rs.
Proof. induction rs as [|p rs IH]; cbn; [done|]. by rewrite IH. Qed.

Lemma spelled_commits b text rs es :
  spelled b (((λ p, Text_commit p.1 text p.2) <$> rs) ++ es) = spelled b es.
Proof. by induction rs. Qed.

Lemma spelled_spells es out : (∀ es', spelled false (es ++ es') = out ++ spelled false es') →
  spelled false es = out.
Proof. intros H. specialize (H []). cbn in H. by rewrite !app_nil_r in H. Qed.

(** What [inject_text] does once the window is focused. *)
Lemma inject_text_spec w id s text a :
  world_ok w → window_surface a id = Some s → text ≠ [] →
  let a' := inject_text w id text a in
  ∃ es, log a' = log a ++ es ∧
    match recipients w s a, text_inputs_of w s a with
    | _ :: _, _ => omap commit_of es = commits_for text (recipients w s a)
                   ∧ (∀ es', spelled false (es ++ es') = spelled false es')
                   ∧ pending_text_input a' = pending_text_input a
    | [], [] => omap commit_of es = [] ∧ spelled false es = omap typed text
                ∧ pending_text_input a' = pending_text_input a
    | [], _ :: _ => omap commit_of es = [] ∧ spelled false es = omap typed text ∧
        pending_text_input a' = (if decide (omap typed text = [])
          then queued (pending_text_input a) (IE_Text id text) else pending_text_input a)
    end.
Proof.
  intros Hw Hs Ht. cbv zeta. unfold inject_text.
  destruct (focus_window_noisy w id a) as (e0 & E0 & N0).
  pose proof (focus_window_inputs w id a) as Hin. pose proof (focus_window_surface w id a Hw) as Hact.
  rewrite Hs in Hact. pose proof (focus_window_pending w id a) as Hp.
  set (b := focus_window w id a) in *. clearbody b.
  destruct (same_inputs_recipients w s a b Hin) as [Hr Ho].
  pose proof (commit_text_input_spec w s text b Hact Ht) as Hc. rewrite Hr in Hc.
  destruct (commit_text_input w text b) as [c d]. destruct Hc as (Ec & Hpc & _ & _ & ->).
  rewrite E0 in Ec.
  destruct (recipients w s a) as [|p rs] eqn:Er.
  - rewrite app_nil_r in Ec.
    destruct (synthesize_spells w id text c) as (e1 & E1 & C1 & S1).
    pose proof (synthesize_pending w id text c) as Hps.
    assert (text_inputs_of w s b = [] ∧ text_inputs_of w s a = [] ∨
            ∃ i l j k, text_inputs_of w s b = i :: l ∧ text_inputs_of w s a = j :: k) as [[-> ->]|(i & l & j & k & -> & ->)].
    { destruct (text_inputs_of w s b), (text_inputs_of w s a); naive_solver. }
    + exists (e0 ++ e1). split; [by rewrite E1, Ec, app_assoc|].
      rewrite omap_app, C1, noise_commits, spelled_noise by done. split_and!; [done|by apply spelled_spells|].
      by rewrite Hps, Hpc.
    + exists (e0 ++ e1). pose proof (existsb_typed text) as Hex.
      destruct (synthesize_ascii_text w id text c) as [c' sent] eqn:Esyn.
      assert (sent = existsb (λ ch, bool_decide (is_Some (ascii_keycode ch))) text) as ->
        by (unfold synthesize_ascii_text in Esyn; congruence).
      cbn in E1, Hps. rewrite omap_app, C1, noise_commits, spelled_noise by done.
      assert (spelled false e1 = omap typed text) as -> by by apply spelled_spells.
      destruct (existsb _ text).
      * split; [by rewrite E1, Ec, app_assoc|]. rewrite decide_False by naive_solver.
        split_and!; [done..|]. by rewrite Hps, Hpc.
      * destruct (queue_pending_spec (IE_Text id text) c') as [-> ->].
        split; [by rewrite E1, Ec, app_assoc|].
        rewrite decide_True by (destruct (omap typed text); naive_solver).
        split_and!; [done..|]. by rewrite Hps, Hpc, Hp.
  - exists (e0 ++ ((λ p, Text_commit p.1 text p.2) <$> p :: rs)).
    split; [by rewrite Ec, app_assoc|]. rewrite omap_app, commits_of_fmap, noise_commits by done.
    split_and!; [done| |by rewrite Hpc]. intros es'. rewrite <- app_assoc, spelled_noise by done.
    apply (spelled_commits _ text (p :: rs)).
Qed.

(** C14: a text for a window goes, whole and once, to each enabled text input of the window's
    client. When the client has none at all, the characters a US keyboard has are typed as
    keys and the others are dropped. When its text inputs are all disabled, a text without
    any such character waits in the queue (if it has room); but a text that mixes both is
    typed without its other characters, which are neither committed nor kept. *)
Theorem text_delivery w a id s text :
  world_ok w → window_surface a id = Some s → text ≠ [] →
  ∃ a' es, handle_input_event w (IE_Text id text) a = Some a' ∧ log a' = log a ++ es ∧
    match recipients w s a, text_inputs_of w s a with
    | _ :: _, _ => omap commit_of es = commits_for text (recipients w s a)
                   ∧ spelled false es = [] ∧ pending_text_input a' = pending_text_input a
    | [], [] => omap commit_of es = [] ∧ spelled false es = omap typed text
                ∧ pending_text_input a' = pending_text_input a
    | [], _ :: _ => omap commit_of es = [] ∧ spelled false es = omap typed text ∧
        pending_text_input a' = (if decide (omap typed text = [])
          then queued (pending_text_input a) (IE_Text id text) else pending_text_input a)
    end.
Proof.
  intros Hw Hs Ht. destruct (inject_text_spec w id s text a Hw Hs Ht) as (es & Hes & Hspec).
  exists (inject_text w id text a), es. split_and!; [done..|].
  destruct (recipients w s a); [done|]. destruct Hspec as (? & Hsp & ?). split_and!; [done| |done].
  apply (spelled_spells es []). exact Hsp.
Qed.

(** "a" and "한" for a client whose text input is not enabled yet. *)
Lemma text_delivery_witness :
  let w := plain_world 0 in
  let a := register_text_input w 40 (new_toplevel w 7 (App_new 800 600)) in
  let text := [97; 0xD55C] in
  ∃ a' es, handle_input_event w (IE_Text 1 text) a = Some a' ∧ log a' = log a ++ es ∧
    match recipients w 7 a, text_inputs_of w 7 a with
    | _ :: _, _ => omap commit_of es = commits_for text (recipients w 7 a)
                   ∧ spelled false es = [] ∧ pending_text_input a' = pending_text_input a
    | [], [] => omap commit_of es = [] ∧ spelled false es = omap typed text
                ∧ pending_text_input a' = pending_text_input a
    | [], _ :: _ => omap commit_of es = [] ∧ spelled false es = omap typed text ∧
        pending_text_input a' = (if decide (omap typed text = [])
          then queued (pending_text_input a) (IE_Text 1 text) else pending_text_input a)
    end.
Proof.
  apply text_delivery; [apply plain_world_ok|done|done].
Defined.

Example mixed_text_loses :
  let w := plain_world 0 in
  let a := register_text_input w 40 (new_toplevel w 7 (App_new 800 600)) in
  let a' := inject_text w 1 [97; 0xD55C] a in
  pending_text_input a' = [] ∧ omap commit_of (log a') = [] ∧ spelled false (log a') = [97].
Proof. vm_compute. done. Qed.

Lemma focus_window_keeps w id a j :
  world_ok w → window_surface (focus_window w id a) j = window_surface a j.
Proof.
  intros Hw. unfold focus_window. destruct (window_surface a id) as [s|]; [|done].
  assert (∀ b, window_surface (set_text_input_focus w b) j = window_surface b j) as ->.
  { intros b. unfold set_text_input_focus. by destruct (active_surface b). }
  unfold sync_clipboard_focus_to_surface, window_surface. cbn. destruct (negb _); [|done].
  destruct (set_toplevel_activation_spec w Hw (Some id) (with_active_window_id (Some id) a))
    as (_ & _ & _ & _ & ->). cbn. by destruct (windows a !! j).
Qed.

Lemma inject_text_keeps w id s text a :
  world_ok w → window_surface a id = Some s → text ≠ [] → recipients w s a ≠ [] →
  window_surface (inject_text w id text a) id = Some s ∧
  recipients w s (inject_text w id text a) = recipients w s a.
Proof.
  intros Hw Hs Ht Hr. unfold inject_text.
  pose proof (focus_window_surface w id a Hw) as Hact. rewrite Hs in Hact.
  pose proof (focus_window_keeps w id a id Hw) as Hk. rewrite Hs in Hk.
  destruct (same_inputs_recipients w s _ _ (focus_window_inputs w id a)) as [Hrr _].
  set (b := focus_window w id a) in *. clearbody b.
  unfold commit_text_input. rewrite bool_decide_false, Hact by done.
  fold (text_inputs_of w s b). unfold recipients in Hrr, Hr |- *. rewrite <- Hrr in Hr |- *.
  destruct (filter _ (text_inputs_of w s b)) as [|i l] eqn:E; [done|].
  split; [exact Hk|]. by rewrite <- E.
Qed.

(** When a text input of the window's client is enabled, the texts that waited for it
    are committed to every enabled text input of that client in the order they were sent,
    each once; nothing is typed and the queue is empty. *)
Theorem queue_flushes_in_order w a id s texts :
  world_ok w → window_surface a id = Some s → recipients w s a ≠ [] →
  Forall (λ text, text ≠ []) texts → pending_text_input a = map (IE_Text id) texts →
  ∃ a' es, flush_pending_text_input w a = Some a' ∧ log a' = log a ++ es ∧
    omap commit_of es = concat (map (λ text, commits_for text (recipients w s a)) texts) ∧
    spelled false es = [] ∧ pending_text_input a' = [].
Proof.
  intros Hw Hs Hr Hts Hp. unfold flush_pending_text_input. rewrite Hp. clear Hp.
  change (window_surface (with_pending_text_input [] a) id = Some s) in Hs.
  change (log a) with (log (with_pending_text_input [] a)).
  change (recipients w s a) with (recipients w s (with_pending_text_input [] a)) in *.
  assert (pending_text_input (with_pending_text_input [] a) = []) as Hp by done.
  revert Hs Hr Hp. generalize (with_pending_text_input [] a). clear a. intros a Hs Hr Hp.
  revert a Hs Hr Hp. induction Hts as [|text texts Ht Hts IH]; intros a Hs Hr Hp; cbn [map handle_input_events].
  { exists a, []. by rewrite app_nil_r. }
  cbn [handle_input_event mbind option_bind].
  destruct (inject_text_spec w id s text a Hw Hs Ht) as (es & Hes & Hspec).
  destruct (inject_text_keeps w id s text a Hw Hs Ht Hr) as [Hs' Hr'].
  destruct (recipients w s a) as [|p rs] eqn:Er; [done|]. destruct Hspec as (Hc & Hsp & Hq).
  destruct (IH (inject_text w id text a)) as (a' & es' & Hrun & Hes' & Hc' & Hsp' & Hq');
    [done|by rewrite Hr'|by rewrite Hq|].
  exists a', (es ++ es'). split_and!; [done|by rewrite Hes', Hes, app_assoc| | |done].
  - rewrite omap_app, Hc, Hc'. cbn [concat]. by rewrite Hr'.
  - by rewrite Hsp.
Qed.

Lemma queue_flushes_in_order_witness :
  let w := plain_world 0 in
  let a := inject_text w 1 [0xAE00] (inject_text w 1 [0xD55C]
             (register_text_input w 40 (new_toplevel w 7 (App_new 800 600)))) in
  let a := with_text_inputs [mkTextInput 40 1 true None (Some 7)] a in
  ∃ a' es, flush_pending_text_input w a = Some a' ∧ log a' = log a ++ es ∧
    omap commit_of es = concat (map (λ text, commits_for text (recipients w 7 a)) [[0xD55C]; [0xAE00]]) ∧
    spelled false es = [] ∧ pending_text_input a' = [].
Proof.
  apply (queue_flushes_in_order _ _ 1); [apply plain_world_ok|done|done|by repeat constructor|done].
Defined.

(** *** Window modes *)

#[local] Arguments nonzero_size : simpl never.
#[local] Arguments restore_size_for_mode_entry : simpl never.

(** [leave] brings a window that is in the mode of [entered] back to the size [r]: normal, its
    client configured so, the viewer told [told]. *)
Definition comes_back (leave : App → App) (id : Z) (r : Z * Z) (entered : RemoteWindow)
    (told : list effect) : Prop :=
  ∀ b win', windows b !! id = Some win' → win_mode win' = win_mode entered →
    ∃ left, windows (leave b) !! id = Some left ∧ win_mode left = Normal ∧
      tl_size (win_toplevel left) = Some (as_i32 r.1, as_i32 r.2) ∧
      tl_maximized (win_toplevel left) = tl_maximized (win_toplevel win') && is_fullscreen (win_mode win') ∧
      tl_fullscreen (win_toplevel left) = tl_fullscreen (win_toplevel win') && is_maximized (win_mode win') ∧
      log (leave b) = log b ++ Configure (win_surface win') (win_toplevel left) :: told.

(** Maximizing (or making fullscreen) a normal window remembers a size to come back to:
    the window's own, when it is a real size that fits the output. Whatever happens to the
    window's size meanwhile, leaving the mode configures the client back to that size and
    clears that mode's state and no other, for as long as the mode has not changed. *)
Theorem mode_roundtrip w a id win :
  windows a !! id = Some win → win_mode win = Normal →
  let r := restore_size_for_mode_entry (win_size win) (max_output_size a) in
  (32 < (win_size win).1 ≤ (max_output_size a).1 → 32 < (win_size win).2 ≤ (max_output_size a).2 →
     r = win_size win) ∧
  (∀ entered, windows (request_window_maximize_by_id id a) !! id = Some entered →
     comes_back (request_window_unmaximize_by_id w id false) id r entered []) ∧
  (∀ entered, windows (request_window_fullscreen_by_id id a) !! id = Some entered →
     comes_back (request_window_unfullscreen_by_id w id false) id r entered
       [Send (fullscreen_changed id false)]).
Proof.
  intros Hid Hm r.
  assert (nonzero_size r = r) as Hr.
  { unfold r, restore_size_for_mode_entry, default_restore_size, nonzero_size. cbn.
    destruct (_ || _); cbn; f_equal; lia. }
  split_and!.
  - intros H1 H2. unfold r, restore_size_for_mode_entry, nonzero_size. cbn.
    rewrite !(proj2 (Z.leb_gt _ _)) by lia. cbn. rewrite !Z.max_l, !Z.min_l by lia.
    by destruct (win_size win).
  - unfold request_window_maximize_by_id. rewrite Hid, Hm. cbn. intros entered He b win' Hb Hmode.
    rewrite lookup_insert_eq in He. injection He as <-. cbn in Hmode. fold r in Hmode. rewrite Hr in Hmode.
    unfold request_window_unmaximize_by_id. rewrite Hb, Hmode. cbn. rewrite Hr, andb_false_r, andb_true_r.
    eexists. rewrite lookup_insert_eq. by split_and!.
  - unfold request_window_fullscreen_by_id. rewrite Hid, Hm. cbn. intros entered He b win' Hb Hmode.
    rewrite lookup_insert_eq in He. injection He as <-. cbn in Hmode. fold r in Hmode. rewrite Hr in Hmode.
    unfold request_window_unfullscreen_by_id. rewrite Hb, Hmode. cbn. rewrite Hr, andb_false_r, andb_true_r.
    eexists. rewrite lookup_insert_eq. split_and!; try done. by rewrite <- app_assoc.
Qed.

(** A 640 × 480 window on an 800 × 600 output. *)
Definition sized_window : App :=
  (resize_root_window 1 640 480 (new_toplevel (plain_world 0) 7 (App_new 800 600))).1.

Lemma sized_window_ok : App_ok sized_window.
Proof.
  apply resize_root_window_ok; [|by split].
  apply new_toplevel_ok; [apply plain_world_ok|apply App_new_ok|done|done].
Qed.

Lemma mode_roundtrip_witness :
  ∃ entered left,
    windows (request_window_maximize_by_id 1 sized_window) !! 1 = Some entered ∧
    windows (request_window_unmaximize_by_id (plain_world 0) 1 false
               (request_window_maximize_by_id 1 sized_window)) !! 1 = Some left ∧
    tl_size (win_toplevel left) = Some (640, 480).
Proof.
  destruct (windows sized_window !! 1) as [win|] eqn:Hid; [|vm_compute in Hid; discriminate Hid].
  assert (win_mode win = Normal) as Hm by (vm_compute in Hid; by injection Hid as <-).
  assert (win_size win = (640, 480)) as Hsz by (vm_compute in Hid; by injection Hid as <-).
  destruct (mode_roundtrip (plain_world 0) sized_window 1 win Hid Hm) as (Hr & Hmax & _).
  rewrite Hr in Hmax by (rewrite Hsz; vm_compute; split; congruence).
  destruct (windows (request_window_maximize_by_id 1 sized_window) !! 1) as [entered|] eqn:He;
    [|vm_compute in He; discriminate He].
  destruct (Hmax entered eq_refl _ entered He eq_refl) as (left & Hl & _ & Hts & _).
  exists entered, left. split; [done|]. split; [done|]. by rewrite Hts, Hsz.
Defined.

(** What the viewer is told of fullscreen. A request to enter or leave fullscreen always
    ends with the window in that mode and the viewer told so, and so does a resize of a
    fullscreen window. Maximizing a fullscreen window takes it out of fullscreen, in its
    mode and towards the client, without a word: the viewer still holds it fullscreen. *)
Theorem fullscreen_told w a id win :
  reachable a → windows a !! id = Some win →
  (∀ b, ∃ a' win', handle_input_event w (IE_SetFullscreen id b) a = Some a' ∧
     windows a' !! id = Some win' ∧ is_fullscreen (win_mode win') = b ∧ told_fullscreen (log a') id = b) ∧
  (is_fullscreen (win_mode win) = true → ∀ width height, ∃ a' win',
     handle_input_event w (IE_Resize id width height) a = Some a' ∧ windows a' !! id = Some win' ∧
     win_mode win' = Normal ∧ told_fullscreen (log a') id = false) ∧
  (is_fullscreen (win_mode win) = true → ∃ a' win',
     handle_input_event w (IE_ToggleMaximize id) a = Some a' ∧ windows a' !! id = Some win' ∧
     is_maximized (win_mode win') = true ∧ tl_fullscreen (win_toplevel win') = false ∧
     told_fullscreen (log a') id = true).
Proof.
  intros Ha%reachable_ok Hid. split_and!.
  - intros [].
    + cbn. unfold request_window_fullscreen_by_id. rewrite Hid. destruct (_ && _) eqn:Hal; cbn.
      * apply andb_true_iff in Hal as [Hal _]. do 2 eexists. split_and!; [done..|].
        cbn. rewrite told_fullscreen_app. cbn. by rewrite decide_True.
      * do 2 eexists. split_and!; [done|apply lookup_insert_eq|apply enter_fullscreen_mode|].
        cbn. rewrite told_fullscreen_app. cbn. by rewrite decide_True.
    + cbn. unfold request_window_unfullscreen_by_id. rewrite Hid. cbn.
      destruct (leave_fullscreen (win_mode win)) as [[m size]|] eqn:Hl.
      * apply leave_fullscreen_mode in Hl as [-> _]. do 2 eexists.
        split_and!; [done|apply lookup_insert_eq|done|].
        cbn. rewrite told_fullscreen_app. cbn. by rewrite decide_True.
      * do 2 eexists. split_and!; [done|done|by destruct (win_mode win)|].
        cbn. rewrite told_fullscreen_app. cbn. by rewrite decide_True.
  - intros Hfs width height. cbn. unfold request_window_resize. rewrite Hid, Hfs. cbn.
    rewrite andb_false_r. do 2 eexists. split_and!; [done|apply lookup_insert_eq|done|].
    cbn. rewrite told_fullscreen_app. cbn. by rewrite decide_True.
  - intros Hfs. cbn. unfold toggle_window_maximize. rewrite Hid.
    assert (is_maximized (win_mode win) = false) as Hmx by by destruct (win_mode win).
    rewrite Hmx. unfold request_window_maximize_by_id. rewrite Hid, Hmx. cbn.
    do 2 eexists. split_and!; [done|apply lookup_insert_eq|apply enter_maximized_mode|done|].
    cbn. rewrite neutral_told by neutral_tac. destruct Ha as [_ _ _ _ [_ Ht]]. by eapply Ht.
Qed.

Lemma fullscreen_told_witness :
  let a := request_window_fullscreen_by_id 1 (new_toplevel (plain_world 0) 7 (App_new 800 600)) in
  ∃ a' win', handle_input_event (plain_world 0) (IE_ToggleMaximize 1) a = Some a' ∧
     windows a' !! 1 = Some win' ∧ is_maximized (win_mode win') = true ∧
     tl_fullscreen (win_toplevel win') = false ∧ told_fullscreen (log a') 1 = true.
Proof.
  intros a. destruct (windows a !! 1) as [win|] eqn:Hid; [|vm_compute in Hid; discriminate Hid].
  assert (is_fullscreen (win_mode win) = true) as Hfs by (vm_compute in Hid; by injection Hid as <-).
  apply (fullscreen_told (plain_world 0) a 1 win); [|done|done].
  apply (Reach_step (new_toplevel (plain_world 0) 7 (App_new 800 600)) (plain_world 0)
           (Ev_input (IE_SetFullscreen 1 true))); [|apply plain_world_ok|done|done].
  apply (Reach_step (App_new 800 600) (plain_world 0) (Ev_new_toplevel 7));
    [constructor|apply plain_world_ok|done|done].
Defined.

(** *** The host clipboard *)

(** A clip of the host that fits. *)
Definition acceptable (p : Clipboard) : bool :=
  match clip_origin p with
  | Origin_Host => str_len (clip_text p) <=? MAX_CLIPBOARD_TEXT_BYTES
  | Origin_Guest => false
  end.

Definition receive_clips (payloads : list Clipboard) (a : App) : App :=
  foldl (λ a p, apply_host_clipboard p a) a payloads.

(** The clip installed by [p] is one of [ps], and none of them is newer. *)
Definition newest (ps : list Clipboard) (p : Clipboard) : Prop :=
  p ∈ ps ∧ ∀ q, q ∈ ps → clip_serial q ≤ clip_serial p.

(** Of the clips a session receives, in any order and with any echoes or oversized ones
    among them, the guest holds the newest acceptable one: a clip delivered late or twice
    never replaces a newer one. *)
Theorem newest_clip_wins payloads width height :
  let a := receive_clips payloads (App_new width height) in
  match host_text a with
  | None => filter (λ p, acceptable p = true) payloads = []
  | Some text => ∃ p, newest (filter (λ p, acceptable p = true) payloads) p
                      ∧ text = clip_text p ∧ host_last_serial a = clip_serial p
  end.
Proof.
  cbv zeta. unfold receive_clips. induction payloads as [|q qs IH] using rev_ind; [done|].
  rewrite foldl_snoc, filter_app. cbn.
  set (a := foldl (λ a p, apply_host_clipboard p a) (App_new width height) qs) in *.
  unfold apply_host_clipboard, acceptable. unfold acceptable in IH.
  destruct (clip_origin q) eqn:Ho.
  2: { cbn. by rewrite app_nil_r. }
  destruct (Z.ltb_spec MAX_CLIPBOARD_TEXT_BYTES (str_len (clip_text q))) as [Hbig|Hfit].
  { rewrite decide_False by (rewrite Z.leb_le; lia). by rewrite app_nil_r. }
  rewrite decide_True by (by rewrite Z.leb_le).
  destruct (host_text a) as [text|] eqn:Ht.
  - destruct IH as (p & [Hin Hmax] & -> & Hser). rewrite Hser.
    rewrite (bool_decide_true (is_Some (Some (clip_text p)))), andb_true_r by by eexists.
    destruct (Z.leb_spec (clip_serial q) (clip_serial p)) as [Hle|Hlt].
    + rewrite Ht. exists p. split_and!; [|done|done]. split; [set_solver|].
      intros r [Hr| ->%list_elem_of_singleton]%elem_of_app; [by apply Hmax|done].
    + cbn. exists q. split_and!; [|done|done]. split; [set_solver|].
      intros r [Hr| ->%list_elem_of_singleton]%elem_of_app; [|lia]. specialize (Hmax r Hr). lia.
  - rewrite IH. rewrite (bool_decide_false (is_Some None)), andb_false_r by by intros [].
    cbn. exists q. split_and!; [|done|done]. split; [set_solver|].
    intros r ->%list_elem_of_singleton. lia.
Qed.

(** *** The tiles of a commit *)

Definition message_of (e : effect) : option Message := match e with Send m => Some m | _ => None end.

(** A child surface whose clipped copy still has the rectangle the viewer was last sent. *)
Definition unmoved (w : world) (id : Z) (bounds : SurfaceBounds) (a : App) (key : Z) : Prop :=
  ∃ b tile ox oy, surface_window_offset w a key = Some (id, ox, oy) ∧
    current_buffers a !! key = Some b ∧
    copy_shm_buffer_clipped (buffer_contents w b) id ox oy bounds = Some (Ok (Some tile)) ∧
    child_surface_last_rect a !! key = Some (ox, oy, tile_w tile, tile_h tile).

Lemma visit_unmoved w id bounds a tiles moved key :
  unmoved w id bounds a key → visit_child w id bounds (a, tiles, moved) key = Some (a, tiles, moved).
Proof.
  intros (b & tile & ox & oy & Hoff & Hb & Hcopy & Hrect). unfold visit_child.
  rewrite Hoff, Z.eqb_refl, Hb, Hcopy. cbn. by rewrite Hrect, bool_decide_true.
Qed.

Lemma visit_all_unmoved w id bounds a tiles moved keys :
  Forall (unmoved w id bounds a) keys →
  visit_children w id bounds keys (a, tiles, moved) = Some (a, tiles, moved).
Proof.
  induction 1 as [|key keys Hkey _ IH]; [done|]. cbn [visit_children].
  by rewrite visit_unmoved.
Qed.

Lemma repaint_all_unmoved w id win first a :
  windows a !! id = Some win →
  (∀ key, child_surface_window a !! key = Some id →
     unmoved w id (mkSurfaceBounds (win_size win).1 (win_size win).2) a key) →
  ∃ a', repaint_moved_child_surfaces w id first a = Some a' ∧ log a' = log a.
Proof.
  intros Hid Hall. unfold repaint_moved_child_surfaces. rewrite Hid, visit_all_unmoved.
  - cbn. eexists. split; [done|]. cbn. by rewrite app_nil_r.
  - apply Forall_forall. intros key [[Hkey _] _]%list_elem_of_filter. by apply Hall.
Qed.

(** The root surface of a window resolves to it, with no offset. *)
Lemma root_offset w a s id :
  surface_to_window a !! s = Some id → surface_window_offset w a s = Some (id, 0, 0).
Proof. intros Hs. unfold surface_window_offset. cbn. by rewrite Hs. Qed.

Lemma root_is_root a s id : surface_to_window a !! s = Some id → is_root_commit a s id 0 0 = true.
Proof.
  intros Hs. unfold is_root_commit, is_root_surface_for_window. by rewrite Hs, bool_decide_true.
Qed.

Lemma surface_window_offset_ext w a c key :
  surface_to_window c = surface_to_window a → popup_routes c = popup_routes a →
  surface_window_offset w c key = surface_window_offset w a key.
Proof.
  intros H1 H2. unfold surface_window_offset.
  assert (∀ fuel key x y, surface_window_offset_loop w fuel c key x y
                          = surface_window_offset_loop w fuel a key x y) as ->; [|done].
  clear key. intros fuel. induction fuel as [|fuel IH]; intros key x y; [done|]. cbn.
  rewrite H1, H2. destruct (surface_to_window a !! key), (popup_routes a !! key); try done.
  destruct (parent_of w !! key); [apply IH|done].
Qed.

Lemma unmoved_ext w id bounds a c key :
  unmoved w id bounds a key →
  surface_to_window c = surface_to_window a → popup_routes c = popup_routes a →
  current_buffers c !! key = current_buffers a !! key →
  child_surface_last_rect c = child_surface_last_rect a → unmoved w id bounds c key.
Proof.
  intros (b & tile & ox & oy & H1 & H2 & H3 & H4) E1 E2 E3 E4. exists b, tile, ox, oy.
  by rewrite (surface_window_offset_ext w a), E3, E4.
Qed.

(** C31: one commit of a window's root surface, with a new buffer that lies inside its pool, has rows no shorter than its pixels and
    a format the compositor offers, while no child of the window (subsurface or popup)
    has moved: the child's copy, clipped to the window's new size, still has the rectangle
    the viewer was last sent. Then the commit sends the new geometry if the size changed,
    and exactly one tile, which covers the whole window and whose pixels are the buffer's,
    those under the children included; nothing is sent for the children after it. *)
Theorem root_commit_messages w a s id win b buf damage :
  reachable a → world_ok w → windows a !! id = Some win → win_surface win = s →
  popup_routes a !! s = None → child_surface_window a !! s = None →
  buffer_contents w b = Some buf → buffer_ok buf → known_format buf →
  (∀ key, child_surface_window a !! key = Some id →
     unmoved w id (mkSurfaceBounds (shm_width buf) (shm_height buf)) a key) →
  ∃ a' es tile, commit w s (Buffer_New b) damage a = Some a' ∧ log a' = log a ++ es ∧
    omap message_of es =
      (if decide (win_size win = (shm_width buf, shm_height buf)) then []
       else [Message_WindowEvent (WE_Configured id (mkWindowGeometry 0 0 (shm_width buf) (shm_height buf)))])
      ++ [Message_FrameTile tile] ∧
    tile_id tile = id ∧ tile_x tile = 0 ∧ tile_y tile = 0 ∧
    tile_w tile = shm_width buf ∧ tile_h tile = shm_height buf ∧
    ∀ px py, 0 ≤ px < shm_width buf → 0 ≤ py < shm_height buf →
      source_pixel buf px py
        = Some (take 4 (drop (Z.to_nat (py * (4 * shm_width buf) + 4 * px)) (tile_bytes tile))).
Proof.
  intros Ha%reachable_ok Hw Hid Hs Hpop Hchild Hb Hok Hf Hun.
  assert (surface_to_window a !! s = Some id) as Hsid.
  { apply (windows_surfaces _ _ _ _ (app_windows _ Ha)). eauto. }
  destruct (copy_root buf id Hok Hf) as (tile & Hcopy & Htid & Hx & Hy & Htw & Hth & Hpix).
  unfold commit. cbv zeta.
  set (a1 := with_commit_count _ a).
  rewrite (root_offset w a1 s id) by done. rewrite (root_is_root a1 s id) by done.
  unfold copy_committed_shm_buffer. cbn [is_root_surface_for_window].
  unfold is_root_surface_for_window. cbn [surface_to_window with_current_buffers a1 with_commit_count].
  rewrite Hsid, bool_decide_true, Hb, Hcopy by done. cbn [mbind option_bind].
  unfold commit_tile. rewrite (root_is_root _ s id) by done. unfold update_popup_size.
  cbn [popup_routes emit with_log with_current_buffers a1 with_commit_count]. rewrite Hpop.
  cbn [mbind option_bind]. unfold resize_root_window.
  cbn [windows emit with_log with_current_buffers a1 with_commit_count]. rewrite Hid, Htw, Hth.
  assert (nonzero_size (shm_width buf, shm_height buf) = (shm_width buf, shm_height buf)) as ->.
  { destruct Hok as [_ ? ? _ _]. unfold nonzero_size. cbn. by rewrite !Z.max_l by lia. }
  assert (∀ c win', windows c !! id = Some win' → win_size win' = (shm_width buf, shm_height buf) →
    surface_to_window c = surface_to_window a → popup_routes c = popup_routes a →
    current_buffers c = <[s := b]> (current_buffers a) →
    child_surface_window c = child_surface_window a →
    child_surface_last_rect c = child_surface_last_rect a →
    ∃ d, repaint_moved_child_surfaces w id false c = Some d ∧ log d = log c) as Hrep.
  { intros c win' Hc Hsz E1 E2 E3 E4 E5. eapply repaint_all_unmoved; [done|].
    intros key Hkey. rewrite Hsz. rewrite E4 in Hkey.
    eapply unmoved_ext; [by apply Hun|done..| |done].
    rewrite E3, lookup_insert_ne; [done|]. intros ->. congruence. }
  case_bool_decide as Hsz.
  - edestruct Hrep as (d & -> & Hd); [..|cbn [mbind option_bind]]; [cbn; exact Hid|done..|].
    do 2 eexists. exists tile. split; [done|]. cbn [log emit with_log]. rewrite Hd. cbn.
    rewrite <- !app_assoc. split_and!; [done| |done..]. by rewrite decide_True.
  - edestruct Hrep as (d & -> & Hd); [..|cbn [mbind option_bind]]; [cbn; apply lookup_insert_eq|done..|].
    do 2 eexists. exists tile. split; [done|]. cbn [log emit with_log]. rewrite Hd. cbn.
    rewrite <- !app_assoc. split_and!; [done| |done..]. by rewrite decide_False.
Qed.

(** A 4 × 4 window with a one-pixel subsurface at (1, 1). *)
Definition parent_buffer : shm_buffer := mkShmBuffer 0 4 4 16 Xrgb8888 (replicate 64 Byte.x01).
Definition child_buffer : shm_buffer := mkShmBuffer 0 1 1 4 Xrgb8888 (replicate 4 Byte.x02).

Definition nested_world : world :=
  mkWorld 0 (λ _, 0) (λ _, true) elements {[9 := 7]} (λ s, if s =? 9 then (1, 1) else (0, 0))
    (λ b, if b =? 50 then Some parent_buffer else if b =? 51 then Some child_buffer else None)
    (λ _, []) (λ _, []) true.

Lemma nested_world_ok : world_ok nested_world.
Proof.
  split; [done|]. intros b buf. cbn. destruct (b =? 50), (b =? 51); intros [= <-];
    vm_compute; intuition discriminate.
Qed.

Definition nested : App :=
  default (App_new 0 0)
    (app_run [(nested_world, Ev_new_toplevel 7); (nested_world, Ev_commit 7 (Buffer_New 50) 1);
              (nested_world, Ev_commit 9 (Buffer_New 51) 1)] (App_new 800 600)).

Lemma app_run_reachable events a a' :
  reachable a → app_run events a = Some a' →
  Forall (λ p, world_ok p.1 ∧ ∀ s, p.2 ≠ Ev_new_toplevel s) events → reachable a'.
Proof.
  intros Ha Hrun Hall. revert a Ha Hrun.
  induction Hall as [|[w event] events [Hw Hne] _ IH]; cbn; intros a Ha Hrun; [congruence|].
  destruct (app_step w event a) as [b|] eqn:Hstep; [|done].
  apply (IH b); [|done]. eapply Reach_step; [done..| |done]. destruct event; try done. by destruct (Hne surface).
Qed.

Lemma nested_reachable : reachable nested.
Proof.
  eapply (app_run_reachable [(nested_world, Ev_commit 7 (Buffer_New 50) 1);
              (nested_world, Ev_commit 9 (Buffer_New 51) 1)] (new_toplevel nested_world 7 (App_new 800 600))).
  - apply (Reach_step (App_new 800 600) nested_world (Ev_new_toplevel 7));
      [constructor|apply nested_world_ok|done|done].
  - vm_compute. reflexivity.
  - by repeat (apply Forall_cons; split; [split; [apply nested_world_ok|done]|]).
Qed.

Lemma root_commit_messages_witness :
  ∃ a' es tile, commit nested_world 7 (Buffer_New 50) 1 nested = Some a' ∧ log a' = log nested ++ es ∧
    omap message_of es = [Message_FrameTile tile] ∧
    tile_w tile = 4 ∧ tile_h tile = 4 ∧
    source_pixel parent_buffer 1 1 = Some (take 4 (drop 20 (tile_bytes tile))).
Proof.
  destruct (windows nested !! 1) as [win|] eqn:Hid; [|vm_compute in Hid; discriminate Hid].
  assert (win_surface win = 7) as Hs by (vm_compute in Hid; by injection Hid as <-).
  assert (win_size win = (4, 4)) as Hsz by (vm_compute in Hid; by injection Hid as <-).
  destruct (root_commit_messages nested_world nested 7 1 win 50 parent_buffer 1)
    as (a' & es & tile & H1 & H2 & H3 & _ & _ & _ & H4 & H5 & H6);
    [apply nested_reachable|apply nested_world_ok|done|done|reflexivity|reflexivity|reflexivity| |done| |].
  - split; vm_compute; intuition discriminate.
  - intros key Hkey. destruct (decide (key = 9)) as [->|Hne].
    + eexists 51, _, 1, 1. split_and!; vm_compute; reflexivity.
    + exfalso. assert (child_surface_window nested = {[9 := 1]}) as E by (vm_compute; reflexivity).
      rewrite E, lookup_singleton_ne in Hkey by done. discriminate Hkey.
  - exists a', es, tile. rewrite Hsz, decide_True in H3 by done.
    split; [exact H1|]. split; [exact H2|]. split; [exact H3|]. split; [exact H4|]. split; [exact H5|].
    exact (H6 1 1 ltac:(cbn; lia) ltac:(cbn; lia)).
Defined.
