(* ===== verification/Views.v ===== *)
(** * Views (crates/server/src/wayland_session: mod.rs [run], socket.rs, input_registration.rs,
      clipboard.rs, signal.rs)

    A server process runs a compositor per view. What reaches a view besides its own
    connection goes through two slots that the whole process shares: input and clips of the
    sessions that only send a command. Here is that sharing, the socket a view binds, the loop
    of a view around the handlers of [Compositor], and the thread that reads what a guest
    copied. *)

From S2P Require Import Prelude Text Wire Capture Compositor CompositorProofs.

(** ** The Wayland socket *)

Section socket.
(** [runtime_dir]: from the environment, or of the user. *)
Context (runtime_dir : rstring).

Definition socket_lock_paths (socket_name : rstring) : rstring * rstring :=
  if starts_with (lit "/") socket_name then (socket_name, socket_name ++ lit ".lock")
  else (path_join runtime_dir socket_name, path_join runtime_dir (socket_name ++ lit ".lock")).

Inductive bind_error := In_use | Bind_failed.

(** The retries: what probing the socket and binding it yield each time, and the files that
    were removed. *)
Fixpoint bind_retries (n : nat) (paths : list rstring) (tries : list (bool * bool)) (removed : list rstring) :
    result bind_error unit * list rstring :=
  match n, tries with
  | S n', (active, bound) :: tries' =>
      if active : bool then (Err In_use, removed)
      else if bound : bool then (Ok tt, removed ++ paths)
      else bind_retries n' paths tries' (removed ++ paths)
  | _, _ => (Err Bind_failed, removed)
  end.

Definition bind_wayland_socket (socket_name : rstring) (first : bool) (tries : list (bool * bool)) :
    result bind_error unit * list rstring :=
  if first then (Ok tt, []) else
  let '(socket_path, lock_path) := socket_lock_paths socket_name in
  bind_retries 5 [socket_path; lock_path] tries [].

(** [SocketCleanup]: what a view removes when it ends. *)
Definition cleanup_paths (socket_name : rstring) : list rstring :=
  if contains socket_name (lit "/") && negb (starts_with (lit "/") socket_name) then []
  else let '(socket, lock) := socket_lock_paths socket_name in [socket; lock].
End socket.

(** ** The guest's selection *)

(** [read_guest_text_selection]: what the pipe yields until it is closed, or an error. *)
Definition read_guest_text_selection (pipe : option (list byte)) (serial : Z) : option Message :=
  buf ← take (Z.to_nat (MAX_CLIPBOARD_TEXT_BYTES + 1)) <$> pipe;
  if MAX_CLIPBOARD_TEXT_BYTES <? Z.of_nat (length buf) then None
  else text ← from_utf8 buf; Some (Message_Clipboard (mkClipboard Origin_Guest serial text)).

(** ** One view *)

(** The state of [run] between two iterations: the compositor, what waits in its channels, and
    how many of the messages in the compositor's log were passed on. *)
Record view := mkView {
  view_socket : rstring;
  view_app : App;
  view_input : list InputEvent;
  view_clips : list Clipboard;
  view_inbound : list Message;
  view_disconnected : bool;
  view_flushed : nat
}.

Definition view_new (req : ViewRequest) : view :=
  mkView (vr_socket_name req) (App_new (vr_width req) (vr_height req)) [] [] [] false 0.

(** What one iteration meets: the worlds of the events it handles, by source and position; the
    clients' requests; the selections that were read to their end since the last one; whether
    accepting, dispatching and flushing work, and whether the viewer's channel takes messages. *)
Record tick := mkTick {
  tick_world : nat → nat → world;
  tick_clients : list (world * app_event);
  tick_selections : list (option (list byte) * Z);
  tick_clients_ok : bool;
  tick_io_open : bool
}.

Inductive view_end := View_disconnected | View_goodbye (reason : rstring) | View_failed | View_panicked.

(** The viewer's own messages; a goodbye leaves the rest unread. *)
Fixpoint io_messages (w : nat → world) (msgs : list Message) (a : App) :
    option (App * list VolumeChange * option rstring) :=
  match msgs with
  | [] => Some (a, [], None)
  | Message_InputEvent event :: rest => a ← handle_input_event (w 0%nat) event a; io_messages (λ i, w (S i)) rest a
  | Message_Clipboard payload :: rest => io_messages (λ i, w (S i)) rest (apply_host_clipboard payload a)
  | Message_VolumeChange change :: rest =>
      '(a, changes, bye) ← io_messages (λ i, w (S i)) rest a; Some (a, change :: changes, bye)
  | Message_Goodbye gb :: _ => Some (a, [], Some (goodbye_reason gb))
  | _ :: rest => io_messages (λ i, w (S i)) rest a
  end.

Fixpoint drain_input (w : nat → world) (events : list InputEvent) (a : App) : option App :=
  match events with
  | [] => Some a
  | event :: rest => a ← handle_input_event (w 0%nat) event a; drain_input (λ i, w (S i)) rest a
  end.

Definition drain_clips (clips : list Clipboard) (a : App) : App := foldl (λ a payload, apply_host_clipboard payload a) a clips.

(** The messages of the log, in order. *)
Definition messages (log : list effect) : list Message := omap (λ e, match e with Send m => Some m | _ => None end) log.

(** What an iteration leaves: the view, or why it ended; the one-shot events it handled, the
    volume changes, and the messages passed to the viewer: the compositor's, and those of the
    threads that read selections, which the channel may put between them. *)
Record tick_result := mkTickResult {
  result_view : view + view_end;
  result_handled : list InputEvent;
  result_volume : list VolumeChange;
  result_sent : list Message;
  result_relayed : list Message
}.

Definition ended (e : view_end) : tick_result := mkTickResult (inr e) [] [] [] [].

Definition run_tick (t : tick) (v : view) : tick_result :=
  if view_disconnected v then ended View_disconnected else
  match app_run (tick_clients t) (view_app v) with
  | None => ended View_panicked
  | Some a =>
      if negb (tick_clients_ok t) then ended View_failed else
      match drain_input (tick_world t 0) (view_input v) a with
      | None => ended View_panicked
      | Some a =>
          match io_messages (tick_world t 1) (view_inbound v) (drain_clips (view_clips v) a) with
          | None => ended View_panicked
          | Some (a, changes, Some reason) => mkTickResult (inr (View_goodbye reason)) (view_input v) changes [] []
          | Some (a, changes, None) =>
              let sent := drop (view_flushed v) (messages (log a)) in
              let relayed := omap (λ '(pipe, serial), read_guest_text_selection pipe serial) (tick_selections t) in
              if tick_io_open t || bool_decide (sent ++ relayed = [])
              then mkTickResult (inl (mkView (view_socket v) a [] [] [] (view_disconnected v) (length (messages (log a))))) (view_input v) changes sent relayed
              else mkTickResult (inr View_failed) (view_input v) changes [] []
          end
      end
  end.

(** ** The process *)

Record server := mkServer {
  input_sender : option Z;
  clipboard_sender : option Z;
  dump_request : bool;
  views : gmap Z view;
  next_view : Z
}.

Definition server_new : server := mkServer None None false ∅ 1.

(** [send_input] and [send_clipboard]: a frame goes to the view whose sender is in the slot, if
    that view still has its receiver. *)
Definition send_input (event : InputEvent) (s : server) : bool * server :=
  match input_sender s with
  | None => (false, s)
  | Some id =>
      match views s !! id with
      | None => (false, s)
      | Some v =>
          (true, mkServer (input_sender s) (clipboard_sender s) (dump_request s)
             (<[id := mkView (view_socket v) (view_app v) (view_input v ++ [event]) (view_clips v) (view_inbound v)
                        (view_disconnected v) (view_flushed v)]> (views s)) (next_view s))
      end
  end.

Definition send_clipboard (payload : Clipboard) (s : server) : bool * server :=
  match clipboard_sender s with
  | None => (false, s)
  | Some id =>
      match views s !! id with
      | None => (false, s)
      | Some v =>
          (true, mkServer (input_sender s) (clipboard_sender s) (dump_request s)
             (<[id := mkView (view_socket v) (view_app v) (view_input v) (view_clips v ++ [payload]) (view_inbound v)
                        (view_disconnected v) (view_flushed v)]> (views s)) (next_view s))
      end
  end.

(** [InputRegistration::new] and [ClipboardRegistration::new]; and their [Drop]s, which do not
    look at whose sender the slot holds. *)
Definition register (id : Z) (s : server) : server := mkServer (Some id) (Some id) (dump_request s) (views s) (next_view s).
Definition unregister (s : server) : server := mkServer None None (dump_request s) (views s) (next_view s).

(** [dump_handler] and [take_window_dump_request]. *)
Definition dump_handler (s : server) : server := mkServer (input_sender s) (clipboard_sender s) true (views s) (next_view s).
Definition take_window_dump_request (s : server) : bool * server :=
  (dump_request s, mkServer (input_sender s) (clipboard_sender s) false (views s) (next_view s)).

(** What happens to the process: a session asks for a view (with what binding its socket
    yields), sends a one-shot event or clip; a view's own connection
    yields a message or ends; the operator's signal; an iteration of a view's loop. *)
Inductive server_event :=
  | Sv_view (req : ViewRequest) (first : bool) (tries : list (bool * bool))
  | Sv_input (event : InputEvent)
  | Sv_clipboard (payload : Clipboard)
  | Sv_inbound (id : Z) (m : Message)
  | Sv_lost (id : Z)
  | Sv_signal
  | Sv_tick (id : Z) (t : tick).

(** What can be seen of it. *)
Inductive observation :=
  | Ob_started (id : Z)
  | Ob_refused (id : Z) (e : bind_error)
  | Ob_ended (id : Z) (e : view_end) (removed : list rstring)
  | Ob_input (event : InputEvent) (accepted : bool)
  | Ob_clipboard (payload : Clipboard) (accepted : bool)
  | Ob_handled (id : Z) (event : InputEvent)
  | Ob_volume (change : VolumeChange)
  | Ob_sent (id : Z) (m : Message)
  | Ob_relayed (id : Z) (m : Message)
  | Ob_dump (id : Z).

Section process.
Context (runtime_dir : rstring).

Definition set_view (id : Z) (v : view) (s : server) : server :=
  mkServer (input_sender s) (clipboard_sender s) (dump_request s) (<[id := v]> (views s)) (next_view s).

(** The end of [run]: the registrations and the socket go with the view. *)
Definition end_view (id : Z) (v : view) (e : view_end) (s : server) : server * list observation :=
  (unregister (mkServer (input_sender s) (clipboard_sender s) (dump_request s) (delete id (views s)) (next_view s)),
   [Ob_ended id e (cleanup_paths runtime_dir (view_socket v))]).

Definition tick_view (id : Z) (t : tick) (v : view) (s : server) : server * list observation :=
  if view_disconnected v then end_view id v View_disconnected s else
  let '(dump, s) := take_window_dump_request s in
  let dumped := if dump then [Ob_dump id] else [] in
  let r := run_tick t v in
  let '(s', obs) := match result_view r with
                    | inl v' => (set_view id v' s, [])
                    | inr e => end_view id v e s
                    end in
  (s', dumped ++ (Ob_handled id <$> result_handled r) ++ (Ob_volume <$> result_volume r) ++ (Ob_sent id <$> result_sent r)
        ++ (Ob_relayed id <$> result_relayed r) ++ obs).

Definition server_step (s : server) (event : server_event) : server * list observation :=
  match event with
  | Sv_view req first tries =>
      let id := next_view s in
      let s := mkServer (input_sender s) (clipboard_sender s) (dump_request s) (views s) (id + 1) in
      match (bind_wayland_socket runtime_dir (vr_socket_name req) first tries).1 with
      | Err e => (s, [Ob_refused id e])
      | Ok _ => (register id (set_view id (view_new req) s), [Ob_started id])
      end
  | Sv_input event => let '(accepted, s') := send_input event s in (s', [Ob_input event accepted])
  | Sv_clipboard payload => let '(accepted, s') := send_clipboard payload s in (s', [Ob_clipboard payload accepted])
  | Sv_inbound id m =>
      match views s !! id with
      | None => (s, [])
      | Some v => (set_view id (mkView (view_socket v) (view_app v) (view_input v) (view_clips v) (view_inbound v ++ [m])
                                  (view_disconnected v) (view_flushed v)) s, [])
      end
  | Sv_lost id =>
      match views s !! id with
      | None => (s, [])
      | Some v => (set_view id (mkView (view_socket v) (view_app v) (view_input v) (view_clips v) (view_inbound v)
                                  true (view_flushed v)) s, [])
      end
  | Sv_signal => (dump_handler s, [])
  | Sv_tick id t => match views s !! id with None => (s, []) | Some v => tick_view id t v s end
  end.

Fixpoint server_run (s : server) (events : list server_event) : server * list observation :=
  match events with
  | [] => (s, [])
  | event :: rest =>
      let '(s1, o1) := server_step s event in
      let '(s2, o2) := server_run s1 rest in (s2, o1 ++ o2)
  end.
End process.

(** ** The compositor's log only grows *)

Definition grows (a b : App) : Prop := log a `prefix_of` log b.
Definition ogrows (a : App) (o : option App) : Prop := ∀ b, o = Some b → grows a b.

Lemma grows_refl a : grows a a.
Proof. by unfold grows. Qed.

Lemma grows_trans a b c : grows a b → grows b c → grows a c.
Proof. unfold grows. apply transitivity. Qed.

Create HintDb grows.

Lemma grows_emit es a b : grows a b → grows a (emit es b).
Proof. intros H. unfold grows, emit. cbn. by apply prefix_app_r. Qed.

(** A change of the fields beside the log. *)
Lemma grows_same a b c : log c = log b → grows a b → grows a c.
Proof. unfold grows. by intros ->. Qed.

Lemma grows_if (t : bool) a b c : grows a b → grows a c → grows a (if t then b else c).
Proof. by destruct t. Qed.

Lemma grows_foldl {X} (f : App → X → App) l a b : (∀ c x, grows a c → grows a (f c x)) → grows a b → grows a (foldl f b l).
Proof. intros Hf. revert b. induction l as [|x l IH]; intros b Hb; [done|]. apply IH, Hf, Hb. Qed.

Lemma ogrows_some a b : grows a b → ogrows a (Some b).
Proof. by intros H c [= <-]. Qed.

Lemma ogrows_bind {X} a (m : option X) (f : X → option App) :
  (∀ x, m = Some x → ogrows a (f x)) → ogrows a (m ≫= f).
Proof. intros H b (x & Hx & Hb)%bind_Some. by apply (H x). Qed.

Lemma ogrows_then a m f : ogrows a m → (∀ b, grows a b → ogrows a (f b)) → ogrows a (m ≫= f).
Proof. intros Hm Hf. apply ogrows_bind. intros b Hb. by apply Hf, Hm. Qed.

#[local] Hint Resolve grows_emit grows_if ogrows_some : grows.
(** Each field's update leaves the log alone; so does [set_window]. *)
Ltac step_field :=
  match goal with
  | |- grows _ (_ _ ?b) => apply (grows_same _ b); [reflexivity|]
  | |- grows _ (_ _ _ ?b) => apply (grows_same _ b); [reflexivity|]
  end.
#[local] Hint Extern 4 (grows _ (?f _ _)) =>
  lazymatch f with
  | with_windows => step_field | with_surface_to_window => step_field | with_popup_routes => step_field
  | with_popup_order => step_field | with_child_surface_window => step_field | with_child_surfaces => step_field
  | with_child_surface_last_rect => step_field | with_next_window_id => step_field
  | with_active_window_id => step_field | with_text_inputs => step_field | with_pending_text_input => step_field
  | with_commit_count => step_field | with_frame_count => step_field | with_current_buffers => step_field
  | with_output_size => step_field | with_host_text => step_field | with_host_last_serial => step_field
  | with_guest_clipboard_serial => step_field
  end : grows.
#[local] Hint Extern 4 (grows _ (set_window _ _ _)) => step_field : grows.
#[local] Hint Extern 4 (grows _ (enqueue_message _ _)) => apply grows_emit : grows.

Ltac grow := repeat case_match; simplify_eq/=; eauto 15 with grows.

Section grow.
Context (w : world) (a : App).

Lemma grows_activation act ids b : grows a b → grows a (foldl (activate_window act) b ids).
Proof. apply grows_foldl. intros c id Hc. unfold activate_window. grow. Qed.

#[local] Hint Resolve grows_activation : grows.

Lemma grows_focus id b : grows a b → grows a (focus_window w id b).
Proof.
  intros Hb. unfold focus_window. destruct (window_surface b id); [|done]. unfold set_text_input_focus, for_text_inputs, sync_clipboard_focus_to_surface, set_toplevel_activation.
  grow.
Qed.
#[local] Hint Resolve grows_focus : grows.

Lemma grows_clear_focus b : grows a b → grows a (clear_focus w b).
Proof.
  intros Hb. unfold clear_focus, clear_text_input_focus, for_text_inputs, sync_clipboard_focus_to_surface, set_toplevel_activation.
  grow.
Qed.
#[local] Hint Resolve grows_clear_focus : grows.

Lemma grows_output size b : grows a b → grows a (set_output_size size b).
Proof. intros Hb. unfold set_output_size. grow. Qed.

Lemma grows_reconfigure id win mode size m f b : grows a b → grows a (reconfigure id win mode size m f b).
Proof. intros Hb. unfold reconfigure. grow. Qed.
#[local] Hint Resolve grows_output grows_reconfigure : grows.

Lemma grows_maximize id b : grows a b → grows a (request_window_maximize_by_id id b).
Proof. intros Hb. unfold request_window_maximize_by_id. grow. Qed.

Lemma grows_unmaximize id r b : grows a b → grows a (request_window_unmaximize_by_id w id r b).
Proof. intros Hb. unfold request_window_unmaximize_by_id, forget_move. grow. Qed.

Lemma grows_fullscreen id b : grows a b → grows a (request_window_fullscreen_by_id id b).
Proof. intros Hb. unfold request_window_fullscreen_by_id. grow. Qed.

Lemma grows_unfullscreen id r b : grows a b → grows a (request_window_unfullscreen_by_id w id r b).
Proof. intros Hb. unfold request_window_unfullscreen_by_id, forget_move. grow. Qed.
#[local] Hint Resolve grows_maximize grows_unmaximize grows_fullscreen grows_unfullscreen : grows.

Lemma grows_key id k st b : grows a b → grows a (keyboard_key w id k st b).
Proof. intros Hb. unfold keyboard_key. grow. Qed.
#[local] Hint Resolve grows_key : grows.

Lemma grows_synthesize id text b : grows a b → grows a (foldl (type_char w id) b text).
Proof. apply grows_foldl. intros c ch Hc. unfold type_char. grow. Qed.
#[local] Hint Resolve grows_synthesize : grows.

Lemma grows_queue event b : grows a b → grows a (queue_pending_text_input event b).
Proof. intros Hb. unfold queue_pending_text_input. grow. Qed.
#[local] Hint Resolve grows_queue : grows.

Lemma grows_inject id text b : grows a b → grows a (inject_text w id text b).
Proof. intros Hb. unfold inject_text, commit_text_input, synthesize_ascii_text. grow. Qed.

Lemma grows_preedit id text x y b : grows a b → grows a (preedit_text_input w id text x y b).
Proof. intros Hb. unfold preedit_text_input. grow. Qed.
#[local] Hint Resolve grows_inject grows_preedit : grows.

Lemma grows_input event b : grows a b → ogrows a (handle_input_event w event b).
Proof.
  intros Hb. destruct event; cbn [handle_input_event]; try apply ogrows_some.
  - unfold pointer_motion. apply ogrows_bind. intros [|] _; grow.
  - unfold pointer_button. grow.
  - unfold pointer_scroll. grow.
  - grow.
  - grow.
  - destruct focused; [grow|]. unfold clear_window_focus. grow.
  - unfold request_window_resize. grow.
  - unfold toggle_window_maximize. grow.
  - unfold set_window_fullscreen. grow.
  - unfold request_window_close. grow.
  - grow.
Qed.

Lemma grows_clipboard payload b : grows a b → grows a (apply_host_clipboard payload b).
Proof. intros Hb. unfold apply_host_clipboard. grow. Qed.
#[local] Hint Resolve grows_clipboard : grows.

Lemma grows_inputs events b : grows a b → ogrows a (handle_input_events w events b).
Proof.
  revert b. induction events as [|event events IH]; intros b Hb; [by apply ogrows_some|].
  cbn [handle_input_events]. apply ogrows_then; [by apply grows_input|exact IH].
Qed.

Lemma grows_flush b : grows a b → ogrows a (flush_pending_text_input w b).
Proof. intros Hb. unfold flush_pending_text_input. apply grows_inputs. grow. Qed.
#[local] Hint Resolve grows_flush : grows.

Lemma grows_text_input resource request b : grows a b → ogrows a (text_input_request_handler w resource request b).
Proof. intros Hb. unfold text_input_request_handler. grow. Qed.

Lemma grows_repaint id b : grows a b → ogrows a (repaint_window_from_cached_buffer w id b).
Proof.
  intros Hb. unfold repaint_window_from_cached_buffer. case_match; [|by apply ogrows_some].
  apply ogrows_bind. intros copied _. grow.
Qed.
#[local] Hint Resolve grows_repaint : grows.

Lemma grows_visit id bounds keys st st' :
  grows a st.1.1 → visit_children w id bounds keys st = Some st' → grows a st'.1.1.
Proof.
  revert st. induction keys as [|key keys IH]; intros st Hst; cbn [visit_children]; [by intros [= <-]|].
  intros (st1 & H1 & H)%bind_Some. apply (IH st1); [|done]. clear IH H. destruct st as [[b tiles] r].
  cbn [visit_child fst] in *. repeat (case_match; simplify_eq/=; try done); try (eapply grows_same; [|exact Hst]; done).
  all: apply bind_Some in H1 as (copied & _ & H1); repeat (case_match; simplify_eq/=; try done); grow.
Qed.

Lemma grows_children id first b : grows a b → ogrows a (repaint_moved_child_surfaces w id first b).
Proof.
  intros Hb. unfold repaint_moved_child_surfaces. case_match; [|by apply ogrows_some].
  apply ogrows_bind. intros [[c tiles] repaint] Hc. apply grows_visit in Hc; [|done]. cbn [fst] in Hc.
  apply ogrows_then; [grow|]. intros d Hd. grow.
Qed.
#[local] Hint Resolve grows_children : grows.

Lemma grows_copy surface buffer damage id x y b c copied :
  grows a b → copy_committed_shm_buffer w surface buffer damage id x y b = Some (c, copied) → grows a c.
Proof.
  intros Hb H. unfold copy_committed_shm_buffer in H.
  repeat (case_match; simplify_eq/=; try grow); try (apply bind_Some in H as (r & _ & H); repeat (case_match; simplify_eq/=); grow).
Qed.

Lemma grows_resize id width height b : grows a b → grows a (resize_root_window id width height b).1.
Proof. intros Hb. unfold resize_root_window. grow. Qed.

Lemma grows_tile surface id x y prev tile b : grows a b → ogrows a (commit_tile w surface id x y prev tile b).
Proof.
  intros Hb. unfold commit_tile, note_child_rect. apply ogrows_then.
  { assert (grows a (update_popup_size surface (tile_w tile) (tile_h tile) b)) by (unfold update_popup_size; grow). grow. }
  intros c Hc. pose proof (grows_resize id (tile_w tile) (tile_h tile) c Hc) as Hr.
  destruct (is_root_commit _ _ _ _ _); [destruct (resize_root_window _ _ _ _) as [d g]; cbn [fst] in Hr|]; grow.
Qed.

Lemma grows_commit surface buffer damage b : grows a b → ogrows a (commit w surface buffer damage b).
Proof.
  intros Hb. unfold commit. case_match; [|grow]. case_match. case_match. apply ogrows_bind. intros [c copied] Hc.
  assert (grows a c) as Hgc.
  { eapply grows_copy; [|exact Hc]. unfold track_child. grow. }
  apply ogrows_then.
  - destruct copied as [[tile|]|]; [by apply grows_tile|grow|grow].
  - intros d Hd. apply ogrows_then; [|intros; grow]. unfold remove_popup_route_for_surface, clear_child_surface_tracking. grow.
Qed.

Lemma grows_popup_removed surface b c id : grows a b → remove_popup_route_for_surface surface b = (c, id) → grows a c.
Proof. intros Hb. unfold remove_popup_route_for_surface. destruct (popup_routes b !! surface); intros [= <- _]; grow. Qed.

Lemma grows_route surface parent positioner b : grows a b → grows a (route_popup w surface parent positioner b).
Proof. intros Hb. unfold route_popup. grow. Qed.
#[local] Hint Resolve grows_route : grows.

(** No handler takes back what was said. *)
Lemma grows_step event b : grows a b → ogrows a (app_step w event b).
Proof.
  intros Hb. destruct event; cbn [app_step]; try apply ogrows_some.
  - by apply grows_input.
  - grow.
  - unfold new_selection. grow.
  - unfold send_selection. grow.
  - by apply grows_commit.
  - unfold surface_destroyed, clear_child_surface_tracking. destruct (remove_popup_route_for_surface _ _) eqn:E.
    eapply grows_popup_removed in E; [|done]. grow.
  - unfold buffer_destroyed. grow.
  - unfold new_toplevel. grow.
  - unfold toplevel_destroyed. grow.
  - unfold new_popup. grow.
  - unfold reposition_request. grow.
  - unfold popup_destroyed, clear_child_surface_tracking. destruct (remove_popup_route_for_surface _ _) eqn:E.
    eapply grows_popup_removed in E; [|done]. grow.
  - unfold request_window_move, for_surface. grow.
  - unfold maximize_request, for_surface. grow.
  - unfold unmaximize_request, for_surface. grow.
  - unfold fullscreen_request, for_surface. grow.
  - unfold unfullscreen_request, for_surface. grow.
  - unfold request_window_minimize, for_surface. grow.
  - unfold title_changed, for_surface. grow.
  - unfold register_text_input. grow.
  - by apply grows_text_input.
  - unfold text_input_destroyed. grow.
Qed.
End grow.

(** ** Runs of events that the clients may cause *)

Fixpoint run_ok (events : list (world * app_event)) (a : App) : Prop :=
  match events with
  | [] => True
  | (w, event) :: rest => world_ok w ∧ event_ok a event ∧ ∀ a', app_step w event a = Some a' → run_ok rest a'
  end.

(** A state the compositor can be in, later than [a]. *)
Definition after (a b : App) : Prop := reachable b ∧ grows a b.
Definition later (a : App) (o : option App) : Prop := ∃ b, o = Some b ∧ after a b.

Lemma after_refl a : reachable a → after a a.
Proof. by split; [|apply grows_refl]. Qed.

Lemma after_trans a b c : after a b → after b c → after a c.
Proof. intros [_ Hab] [Hc Hbc]. split; [done|by eapply grows_trans]. Qed.

Lemma after_step w event a b :
  reachable a → world_ok w → event_ok a event → app_step w event a = Some b → after a b.
Proof. intros Ha Hw He Hb. split; [by eapply Reach_step|]. exact (grows_step w a event a (grows_refl a) b Hb). Qed.

Lemma later_bind a o (f : App → option App) : later a o → (∀ b, after a b → later b (f b)) → later a (o ≫= f).
Proof.
  intros (b & -> & Hab) Hf. destruct (Hf b Hab) as (c & Hc & Hbc). exists c. split; [done|]. by eapply after_trans.
Qed.

(** One of the clients has declared a buffer with rows shorter than its pixels. *)
Definition clients_short (events : list (world * app_event)) : Prop := Exists (λ p, short_rows p.1) events.

Lemma later_run events a :
  reachable a → run_ok events a →
  match app_run events a with Some b => after a b | None => clients_short events end.
Proof.
  revert a. induction events as [|[w event] events IH]; intros a Ha Hok; [by apply after_refl|].
  destruct Hok as (Hw & He & Hrest). cbn [app_run].
  pose proof (app_step_ok w event a Hw He (reachable_ok _ Ha)) as Hstep.
  destruct (app_step w event a) as [b|] eqn:Hb; cbn [mbind option_bind]; [|by apply Exists_cons_hd].
  pose proof (after_step _ _ _ _ Ha Hw He Hb) as Hab. specialize (IH b (proj1 Hab) (Hrest _ eq_refl)).
  destruct (app_run events b); [by eapply after_trans|by apply Exists_cons_tl].
Qed.

Lemma later_input w event a : reachable a → world_ok w → later a (handle_input_event w event a).
Proof.
  intros Ha Hw. destruct (handle_input_event_ok w Hw event a (reachable_ok _ Ha)) as (b & Hb & _).
  exists b. split; [done|]. by apply (after_step w (Ev_input event)).
Qed.

Lemma later_drain w events a : reachable a → (∀ i, world_ok (w i)) → later a (drain_input w events a).
Proof.
  revert w a. induction events as [|event events IH]; intros w a Ha Hw; cbn [drain_input]; [by exists a; split; [|apply after_refl]|].
  apply later_bind; [by apply later_input|]. intros b [Hb _]. by apply IH.
Qed.

Lemma after_clip payload a : reachable a → after a (apply_host_clipboard payload a).
Proof. intros Ha. by apply (after_step (plain_world 0) (Ev_clipboard payload)); [|apply plain_world_ok|..]. Qed.

Lemma after_clips clips a : reachable a → after a (drain_clips clips a).
Proof.
  unfold drain_clips. revert a. induction clips as [|c clips IH]; intros a Ha; [by apply after_refl|].
  eapply after_trans; [by apply after_clip|]. by apply IH, after_clip.
Qed.

Lemma later_io w msgs a :
  reachable a → (∀ i, world_ok (w i)) →
  ∃ b changes bye, io_messages w msgs a = Some (b, changes, bye) ∧ after a b.
Proof.
  revert w a. induction msgs as [|m msgs IH]; intros w a Ha Hw; [by exists a, [], None; split; [|apply after_refl]|].
  assert (∀ b, after a b → ∃ c changes bye, io_messages (λ i, w (S i)) msgs b = Some (c, changes, bye) ∧ after a c) as Hrest.
  { intros b Hab. destruct (IH (λ i, w (S i)) b (proj1 Hab)) as (c & ch & bye & H & Hbc); [done|].
    exists c, ch, bye. split; [done|]. by eapply after_trans. }
  destruct m; cbn [io_messages]; try (by apply Hrest, after_refl).
  - eexists a, [], _. split; [done|by apply after_refl].
  - destruct (later_input (w 0%nat) m a Ha (Hw _)) as (b & -> & Hab). by apply Hrest.
  - by apply Hrest, after_clip.
  - destruct (Hrest a (after_refl a Ha)) as (c & ch & bye & -> & Hac). by eexists c, _, bye.
Qed.

(** ** A view between two iterations *)

(** Everything in the compositor's log has been passed on. *)
Definition view_fine (v : view) : Prop :=
  reachable (view_app v) ∧ view_flushed v = length (messages (log (view_app v))).

(** An iteration in which clients and library behave. *)
Definition tick_fine (t : tick) (v : view) : Prop :=
  run_ok (tick_clients t) (view_app v) ∧ ∀ i j, world_ok (tick_world t i j).

Lemma messages_grow a b : grows a b → messages (log b) = messages (log a) ++ drop (length (messages (log a))) (messages (log b)).
Proof. intros [es Hes]. unfold messages. rewrite Hes, omap_app, drop_app_length. done. Qed.

Lemma run_tick_fine t v :
  view_fine v → tick_fine t v →
  match result_view (run_tick t v) with
  | inl v' => view_fine v' ∧ view_input v' = [] ∧ result_handled (run_tick t v) = view_input v ∧
              messages (log (view_app v')) = messages (log (view_app v)) ++ result_sent (run_tick t v)
  | inr e => (e = View_panicked → clients_short (tick_clients t)) ∧ result_sent (run_tick t v) = []
  end ∧ result_handled (run_tick t v) `prefix_of` view_input v.
Proof.
  intros [Hr Hf] [Hc Hw]. unfold run_tick. destruct (view_disconnected v); [by repeat split; [|apply prefix_nil]|].
  pose proof (later_run _ _ Hr Hc) as Hrun.
  destruct (app_run (tick_clients t) (view_app v)) as [a|]; [|by repeat split; [|apply prefix_nil]].
  destruct (tick_clients_ok t); cbn [negb]; [|by repeat split; [|apply prefix_nil]].
  destruct (later_drain (tick_world t 0) (view_input v) a (proj1 Hrun) (Hw 0%nat)) as (b & -> & Hab).
  pose proof (after_clips (view_clips v) b (proj1 Hab)) as Hbc.
  destruct (later_io (tick_world t 1) (view_inbound v) _ (proj1 Hbc) (Hw 1%nat)) as (d & changes & bye & -> & Hcd).
  assert (after (view_app v) d) as [Hd Hg] by eauto using after_trans.
  destruct bye as [reason|]; [done|]. destruct (tick_io_open t || _); [|done]. split; [|done]. split_and!; [by split|done..|].
  cbn. rewrite Hf. by apply messages_grow.
Qed.

(** ** What the process promises *)

(** The view that was started last, unless one has ended since. *)
Definition owner_step (o : option Z) (ob : observation) : option Z :=
  match ob with Ob_started id => Some id | Ob_ended _ _ _ => None | _ => o end.
Definition owner_from (o : option Z) (obs : list observation) : option Z := foldl owner_step o obs.
Definition owner (obs : list observation) : option Z := owner_from None obs.

(** The one-shot events that were sent while [id] was that view. *)
Fixpoint events_for (id : Z) (o : option Z) (obs : list observation) : list InputEvent :=
  match obs with
  | [] => []
  | ob :: rest =>
      match ob with
      | Ob_input event _ => if bool_decide (o = Some id) then [event] else []
      | _ => []
      end ++ events_for id (owner_step o ob) rest
  end.

Definition handled_by (id : Z) (obs : list observation) : list InputEvent :=
  omap (λ ob, match ob with Ob_handled i event => if i =? id then Some event else None | _ => None end) obs.

Definition sent_to (id : Z) (obs : list observation) : list Message :=
  omap (λ ob, match ob with Ob_sent i m => if i =? id then Some m else None | _ => None end) obs.

(** The clients, and the library, behave in every iteration. *)
Fixpoint history_fine (runtime_dir : rstring) (s : server) (events : list server_event) : Prop :=
  match events with
  | [] => True
  | event :: rest =>
      match event with
      | Sv_tick id t => match views s !! id with Some v => tick_fine t v | None => True end
      | _ => True
      end ∧ history_fine runtime_dir (server_step runtime_dir s event).1 rest
  end.

Lemma owner_from_app o a b : owner_from o (a ++ b) = owner_from (owner_from o a) b.
Proof. apply foldl_app. Qed.

Lemma events_for_app id o a b : events_for id o (a ++ b) = events_for id o a ++ events_for id (owner_from o a) b.
Proof.
  revert o. induction a as [|ob a IH]; intros o; [done|]. cbn [events_for app owner_from foldl].
  rewrite IH, <- app_assoc. done.
Qed.

Lemma handled_by_app id a b : handled_by id (a ++ b) = handled_by id a ++ handled_by id b.
Proof. apply omap_app. Qed.
Lemma sent_to_app id a b : sent_to id (a ++ b) = sent_to id a ++ sent_to id b.
Proof. apply omap_app. Qed.

(** Observations that neither start, end nor feed a view. *)
Definition internal (ob : observation) : bool :=
  match ob with Ob_started _ | Ob_ended _ _ _ | Ob_input _ _ => false | _ => true end.

Lemma internal_owner o obs : Forall (λ ob, internal ob = true) obs → owner_from o obs = o ∧ ∀ id, events_for id o obs = [].
Proof.
  revert o. induction 1 as [|ob obs Hob _ [IH1 IH2]]; [done|]. cbn [owner_from foldl events_for].
  assert (owner_step o ob = o) as -> by by destruct ob. fold (owner_from o obs). split; [done|].
  intros id. rewrite IH2. by destruct ob.
Qed.

(** What an iteration shows before it ends, if it does. *)
Definition tick_obs (id : Z) (dump : bool) (r : tick_result) : list observation :=
  (if dump then [Ob_dump id] else []) ++ (Ob_handled id <$> result_handled r) ++ (Ob_volume <$> result_volume r)
  ++ (Ob_sent id <$> result_sent r) ++ (Ob_relayed id <$> result_relayed r).

Lemma tick_obs_internal id dump r : Forall (λ ob, internal ob = true) (tick_obs id dump r).
Proof.
  unfold tick_obs. repeat apply Forall_app_2; try (apply Forall_fmap, Forall_true; done). destruct dump; by repeat constructor.
Qed.

Lemma omap_fmap_none {A B C} (f : B → option C) (g : A → B) (l : list A) : (∀ x, f (g x) = None) → omap f (g <$> l) = [].
Proof. intros H. induction l as [|x l IH]; [done|]. csimpl. by rewrite H. Qed.

Lemma omap_fmap_some {A B} (f : B → option A) (g : A → B) (l : list A) : (∀ x, f (g x) = Some x) → omap f (g <$> l) = l.
Proof. intros H. induction l as [|x l IH]; [done|]. csimpl. by rewrite H, IH. Qed.

Lemma tick_obs_views i id dump r :
  handled_by i (tick_obs id dump r) = (if i =? id then result_handled r else []) ∧
  sent_to i (tick_obs id dump r) = (if i =? id then result_sent r else []).
Proof.
  assert (∀ A (f : observation → option A), f (Ob_dump id) = None → omap f (if dump then [Ob_dump id] else []) = []) as Hd.
  { intros A f Hf. destruct dump; [csimpl; by rewrite Hf|done]. }
  unfold tick_obs. rewrite !handled_by_app, !sent_to_app. unfold handled_by, sent_to. rewrite !Hd by done.
  rewrite !(omap_fmap_none _ Ob_volume), !(omap_fmap_none _ (Ob_relayed id)), !app_nil_r by done. cbn [app]. split.
  - rewrite (omap_fmap_none _ (Ob_sent id)), app_nil_r by done. destruct (Z.eqb_spec i id) as [->|Hne].
    + by rewrite omap_fmap_some by (intros; by rewrite Z.eqb_refl).
    + by rewrite omap_fmap_none by (intros; by rewrite (proj2 (Z.eqb_neq id i))).
  - rewrite (omap_fmap_none _ (Ob_handled id)) by done. cbn [app]. destruct (Z.eqb_spec i id) as [->|Hne].
    + by rewrite omap_fmap_some by (intros; by rewrite Z.eqb_refl).
    + by rewrite omap_fmap_none by (intros; by rewrite (proj2 (Z.eqb_neq id i))).
Qed.

(** [short id]: a client of the view [id] has declared a buffer with rows shorter than its
    pixels. *)
Section invariant.
Context (short : Z → Prop).

Record Server_ok (s : server) (obs : list observation) : Prop := {
  sv_input : input_sender s = owner obs;
  sv_clips : clipboard_sender s = owner obs;
  sv_alive id : owner obs = Some id → is_Some (views s !! id);
  sv_known id : is_Some (views s !! id) → id < next_view s;
  sv_fresh id : next_view s ≤ id → handled_by id obs = [] ∧ events_for id None obs = [] ∧ sent_to id obs = [];
  sv_view id v : views s !! id = Some v →
    view_fine v ∧ handled_by id obs ++ view_input v = events_for id None obs ∧ sent_to id obs = messages (log (view_app v));
  sv_gone id : views s !! id = None → handled_by id obs `prefix_of` events_for id None obs;
  sv_quiet id removed : Ob_ended id View_panicked removed ∈ obs → short id
}.

Lemma server_new_ok : Server_ok server_new [].
Proof.
  split; try done; cbn.
  - intros id. rewrite lookup_empty. by intros [? ?].
  - by intros id removed ?%not_elem_of_nil.
Qed.

(** Steps that feed no view, and leave what the views have. *)
Lemma step_internal s s' obs new :
  Server_ok s obs → Forall (λ ob, internal ob = true) new → (∀ id, handled_by id new = [] ∧ sent_to id new = []) →
  input_sender s' = input_sender s → clipboard_sender s' = clipboard_sender s → next_view s ≤ next_view s' →
  (∀ id, match views s' !! id, views s !! id with
         | Some v', Some v => view_input v' = view_input v ∧ view_app v' = view_app v ∧ view_flushed v' = view_flushed v
         | None, None => True
         | _, _ => False
         end) →
  Server_ok s' (obs ++ new).
Proof.
  intros Hs Hnew Hquiet E1 E2 E3 Hv. destruct (internal_owner (owner obs) new Hnew) as [Ho He].
  assert (owner (obs ++ new) = owner obs) as Eo by by unfold owner; rewrite owner_from_app.
  assert (∀ id, events_for id None (obs ++ new) = events_for id None obs) as Ee
    by by intros id; rewrite events_for_app, He, app_nil_r.
  assert (∀ id, handled_by id (obs ++ new) = handled_by id obs ∧ sent_to id (obs ++ new) = sent_to id obs) as Eh.
  { intros id. destruct (Hquiet id) as [H1 H2]. by rewrite handled_by_app, sent_to_app, H1, H2, !app_nil_r. }
  destruct Hs as [F1 F2 F3 F4 F5 F6 F7 F8]. split; rewrite ?Eo, ?E1, ?E2; try done.
  - intros id Hid. destruct (F3 id Hid) as [v Es]. specialize (Hv id). rewrite Es in Hv. by destruct (views s' !! id).
  - intros id [v' Hid]. specialize (Hv id). rewrite Hid in Hv. destruct (views s !! id) as [v|] eqn:Es; [|done].
    assert (id < next_view s) by (apply F4; by rewrite Es). lia.
  - intros id Hid. rewrite Ee. destruct (Eh id) as [-> ->]. apply F5. lia.
  - intros id v' Hid. specialize (Hv id). rewrite Hid in Hv. destruct (views s !! id) as [v|] eqn:Hs; [|done].
    destruct Hv as (Hi & Ha & Hf). rewrite Ee. destruct (Eh id) as [-> ->]. unfold view_fine. rewrite Hi, Ha, Hf. by apply F6.
  - intros id Hid. specialize (Hv id). rewrite Hid in Hv. destruct (views s !! id) eqn:Hs; [done|]. rewrite Ee. destruct (Eh id) as [-> _]. by apply F7.
  - intros id removed [Hin|Hin]%elem_of_app; [by eapply F8|]. rewrite Forall_forall in Hnew. by specialize (Hnew _ Hin).
Qed.

Lemma step_input s obs event :
  Server_ok s obs → Server_ok (send_input event s).2 (obs ++ [Ob_input event (send_input event s).1]).
Proof.
  intros Hs. pose proof Hs as [F1 F2 F3 F4 F5 F6 F7 F8]. unfold send_input. rewrite F1.
  destruct (owner obs) as [id|] eqn:Eo.
  - destruct (F3 id eq_refl) as [v Hv]. rewrite Hv. cbn [fst snd].
    assert (owner (obs ++ [Ob_input event true]) = Some id) as Eo' by by unfold owner in *; rewrite owner_from_app, Eo.
    assert (∀ i, events_for i None (obs ++ [Ob_input event true]) = events_for i None obs ++ if i =? id then [event] else []) as Ee.
    { intros i. rewrite events_for_app. unfold owner in Eo. rewrite Eo. cbn. rewrite app_nil_r. f_equal.
      destruct (Z.eqb_spec i id) as [->|Hne]; case_bool_decide; congruence. }
    assert (∀ i, handled_by i (obs ++ [Ob_input event true]) = handled_by i obs ∧ sent_to i (obs ++ [Ob_input event true]) = sent_to i obs) as Eh
      by by intros i; rewrite handled_by_app, sent_to_app, !app_nil_r.
    assert (id < next_view s) as Hid by (apply F4; by rewrite Hv).
    split; cbn; rewrite ?Eo'; try congruence.
    + intros i [= <-]. by rewrite lookup_insert_eq.
    + intros i Hi. apply F4. destruct (decide (i = id)) as [->|Hne]; [by rewrite Hv|by rewrite lookup_insert_ne in Hi].
    + intros i Hi. rewrite Ee. destruct (Eh i) as [-> ->]. destruct (F5 i Hi) as (-> & -> & ->). by destruct (Z.eqb_spec i id); [lia|].
    + intros i v' Hi. rewrite Ee. destruct (Eh i) as [-> ->]. destruct (Z.eqb_spec i id) as [->|Hne].
      * rewrite lookup_insert_eq in Hi. injection Hi as <-. destruct (F6 id v Hv) as (Hf & <- & Hl). split_and!; [done|by rewrite <- app_assoc|done].
      * rewrite lookup_insert_ne in Hi by done. rewrite app_nil_r. by apply F6.
    + intros i Hi. rewrite Ee. destruct (Eh i) as [-> _]. destruct (Z.eqb_spec i id) as [->|Hne].
      * by rewrite lookup_insert_eq in Hi.
      * rewrite lookup_insert_ne in Hi by done. rewrite app_nil_r. by apply F7.
    + intros i removed [Hin|Hin]%elem_of_app; [by eapply F8|]. by apply list_elem_of_singleton in Hin.
  - assert (owner (obs ++ [Ob_input event false]) = None) as Eo' by by unfold owner in *; rewrite owner_from_app, Eo.
    assert (∀ i, events_for i None (obs ++ [Ob_input event false]) = events_for i None obs) as Ee.
    { intros i. rewrite events_for_app. unfold owner in Eo. rewrite Eo. cbn. by rewrite app_nil_r. }
    assert (∀ i, handled_by i (obs ++ [Ob_input event false]) = handled_by i obs ∧ sent_to i (obs ++ [Ob_input event false]) = sent_to i obs) as Eh
      by by intros i; rewrite handled_by_app, sent_to_app, !app_nil_r.
    split; cbn [fst snd]; rewrite ?Eo'; try done.
    + intros i Hi. rewrite Ee. destruct (Eh i) as [-> ->]. by apply F5.
    + intros i v Hi. rewrite Ee. destruct (Eh i) as [-> ->]. by apply F6.
    + intros i Hi. rewrite Ee. destruct (Eh i) as [-> _]. by apply F7.
    + intros i removed [Hin|Hin]%elem_of_app; [by eapply F8|]. by apply list_elem_of_singleton in Hin.
Qed.

Lemma step_start s obs req :
  Server_ok s obs →
  Server_ok (register (next_view s) (set_view (next_view s) (view_new req)
    (mkServer (input_sender s) (clipboard_sender s) (dump_request s) (views s) (next_view s + 1)))) (obs ++ [Ob_started (next_view s)]).
Proof.
  intros [F1 F2 F3 F4 F5 F6 F7 F8]. set (id := next_view s).
  assert (owner (obs ++ [Ob_started id]) = Some id) as Eo by by unfold owner in *; rewrite owner_from_app.
  assert (∀ i, events_for i None (obs ++ [Ob_started id]) = events_for i None obs) as Ee
    by by intros i; rewrite events_for_app; cbn; rewrite app_nil_r.
  assert (∀ i, handled_by i (obs ++ [Ob_started id]) = handled_by i obs ∧ sent_to i (obs ++ [Ob_started id]) = sent_to i obs) as Eh
    by by intros i; rewrite handled_by_app, sent_to_app, !app_nil_r.
  split; cbn; rewrite ?Eo; try done.
  - intros i [= <-]. by rewrite lookup_insert_eq.
  - intros i Hi. destruct (decide (i = id)) as [->|Hne]; [lia|]. rewrite lookup_insert_ne in Hi by done. apply F4 in Hi. lia.
  - intros i Hi. rewrite Ee. destruct (Eh i) as [-> ->]. apply F5. lia.
  - intros i v Hi. rewrite Ee. destruct (Eh i) as [-> ->]. destruct (decide (i = id)) as [->|Hne].
    + rewrite lookup_insert_eq in Hi. injection Hi as <-. destruct (F5 id) as (-> & -> & ->); [lia|].
      split_and!; [|done|done]. split; [apply Reach_start|done].
    + rewrite lookup_insert_ne in Hi by done. by apply F6.
  - intros i Hi. rewrite Ee. destruct (Eh i) as [-> _]. apply F7. destruct (decide (i = id)) as [->|Hne].
    + by rewrite lookup_insert_eq in Hi.
    + by rewrite lookup_insert_ne in Hi.
  - intros i removed [Hin|Hin]%elem_of_app; [by eapply F8|]. by apply list_elem_of_singleton in Hin.
Qed.

(** The end of a view, after what its last iteration showed. *)
Lemma step_end s s1 obs new id v e removed :
  Server_ok s obs → views s !! id = Some v → views s1 = views s → next_view s1 = next_view s → (e = View_panicked → short id) →
  Forall (λ ob, internal ob = true) new → handled_by id new `prefix_of` view_input v →
  (∀ i, i ≠ id → handled_by i new = [] ∧ sent_to i new = []) → 
  Server_ok (unregister (mkServer (input_sender s1) (clipboard_sender s1) (dump_request s1) (delete id (views s1)) (next_view s1)))
    (obs ++ new ++ [Ob_ended id e removed]).
Proof.
  intros [F1 F2 F3 F4 F5 F6 F7 F8] Hv Ev En He Hnew Hh Hother. rewrite Ev, En.
  destruct (internal_owner (owner obs) new Hnew) as [Hon Hen].
  assert (owner (obs ++ new ++ [Ob_ended id e removed]) = None) as Eo by by unfold owner; rewrite !owner_from_app.
  assert (∀ i, events_for i None (obs ++ new ++ [Ob_ended id e removed]) = events_for i None obs) as Ee.
  { intros i. rewrite !events_for_app. fold (owner obs). rewrite Hen, Hon. cbn. by rewrite app_nil_r. }
  assert (∀ i, handled_by i (obs ++ new ++ [Ob_ended id e removed]) = handled_by i obs ++ handled_by i new ∧
     sent_to i (obs ++ new ++ [Ob_ended id e removed]) = sent_to i obs ++ sent_to i new) as Eh
    by by intros i; rewrite !handled_by_app, !sent_to_app; cbn; rewrite !app_nil_r.
  assert (id < next_view s) as Hid by (apply F4; by rewrite Hv).
  split; cbn; rewrite ?Eo; try done.
  - intros i Hi. destruct (decide (i = id)) as [->|Hne]; [done|]. rewrite lookup_delete_ne in Hi by done. by apply F4.
  - intros i Hi. rewrite Ee. destruct (Eh i) as [-> ->]. destruct (Hother i) as [-> ->]; [lia|]. rewrite !app_nil_r. by apply F5.
  - intros i v' Hi. destruct (decide (i = id)) as [->|Hne]; [by rewrite lookup_delete_eq in Hi|]. rewrite lookup_delete_ne in Hi by done.
    rewrite Ee. destruct (Eh i) as [-> ->]. destruct (Hother i Hne) as [-> ->]. rewrite !app_nil_r. by apply F6.
  - intros i Hi. rewrite Ee. destruct (Eh i) as [-> _]. destruct (decide (i = id)) as [->|Hne].
    + destruct (F6 id v Hv) as (_ & <- & _). by apply prefix_app.
    + rewrite lookup_delete_ne in Hi by done. destruct (Hother i Hne) as [-> _]. rewrite app_nil_r. by apply F7.
  - intros i r [Hin|[Hin|Hin]%elem_of_app]%elem_of_app; [by eapply F8| |].
    + rewrite Forall_forall in Hnew. by specialize (Hnew _ Hin).
    + apply list_elem_of_singleton in Hin. simplify_eq. by apply He.
Qed.

Lemma step_running s obs id v v' t :
  Server_ok s obs → views s !! id = Some v → view_fine v' → view_input v' = [] →
  result_handled (run_tick t v) = view_input v →
  messages (log (view_app v')) = messages (log (view_app v)) ++ result_sent (run_tick t v) →
  Server_ok (set_view id v' (take_window_dump_request s).2) (obs ++ tick_obs id (dump_request s) (run_tick t v)).
Proof.
  intros [F1 F2 F3 F4 F5 F6 F7 F8] Hv Hf' Hi' Hh Hm. set (r := run_tick t v) in *.
  pose proof (tick_obs_internal id (dump_request s) r) as Hnew. destruct (internal_owner (owner obs) _ Hnew) as [Hon Hen].
  assert (owner (obs ++ tick_obs id (dump_request s) r) = owner obs) as Eo by by unfold owner; rewrite owner_from_app.
  assert (∀ i, events_for i None (obs ++ tick_obs id (dump_request s) r) = events_for i None obs) as Ee.
  { intros i. rewrite events_for_app. fold (owner obs). by rewrite Hen, app_nil_r. }
  assert (id < next_view s) as Hid by (apply F4; by rewrite Hv).
  assert (∀ i, handled_by i (obs ++ tick_obs id (dump_request s) r) = handled_by i obs ++ (if i =? id then result_handled r else []) ∧
     sent_to i (obs ++ tick_obs id (dump_request s) r) = sent_to i obs ++ (if i =? id then result_sent r else [])) as Eh.
  { intros i. rewrite handled_by_app, sent_to_app. by destruct (tick_obs_views i id (dump_request s) r) as [-> ->]. }
  split; cbn; rewrite ?Eo; try done.
  - intros i Hi. destruct (decide (i = id)) as [->|Hne]; [by rewrite lookup_insert_eq|rewrite lookup_insert_ne by done; by apply F3].
  - intros i Hi. destruct (decide (i = id)) as [->|Hne]; [done|]. rewrite lookup_insert_ne in Hi by done. by apply F4.
  - intros i Hi. rewrite Ee. destruct (Eh i) as [-> ->]. destruct (Z.eqb_spec i id); [lia|]. rewrite !app_nil_r. by apply F5.
  - intros i u Hi. rewrite Ee. destruct (Eh i) as [-> ->]. destruct (Z.eqb_spec i id) as [->|Hne].
    + rewrite lookup_insert_eq in Hi. injection Hi as <-. destruct (F6 id v Hv) as (_ & <- & ->).
      rewrite Hi', Hh, Hm, !app_nil_r. done.
    + rewrite lookup_insert_ne in Hi by done. rewrite !app_nil_r. by apply F6.
  - intros i Hi. rewrite Ee. destruct (Eh i) as [-> _]. destruct (Z.eqb_spec i id) as [->|Hne].
    + by rewrite lookup_insert_eq in Hi.
    + rewrite lookup_insert_ne in Hi by done. rewrite app_nil_r. by apply F7.
  - intros i removed [Hin|Hin]%elem_of_app; [by eapply F8|]. rewrite Forall_forall in Hnew. by specialize (Hnew _ Hin).
Qed.

(** A view whose queue of one-shot events is left alone. *)
Lemma step_set s obs id v v' new :
  Server_ok s obs → views s !! id = Some v → view_input v' = view_input v → view_app v' = view_app v → view_flushed v' = view_flushed v →
  Forall (λ ob, internal ob = true) new → (∀ id, handled_by id new = [] ∧ sent_to id new = []) →
  Server_ok (set_view id v' s) (obs ++ new).
Proof.
  intros Hs Hv Hi Ha Hf Hnew Hq. eapply step_internal; [done|done|done|done|done|cbn; lia|]. cbn. intros i. destruct (decide (i = id)) as [->|Hne].
  - by rewrite lookup_insert_eq, Hv.
  - rewrite lookup_insert_ne by done. by destruct (views s !! i).
Qed.

Lemma step_same s s' obs new :
  Server_ok s obs → input_sender s' = input_sender s → clipboard_sender s' = clipboard_sender s → next_view s' = next_view s →
  views s' = views s → Forall (λ ob, internal ob = true) new → (∀ id, handled_by id new = [] ∧ sent_to id new = []) →
  Server_ok s' (obs ++ new).
Proof.
  intros Hs E1 E2 E3 E4 Hnew Hq. eapply step_internal; [done|done|done|done|done|lia|]. intros id. rewrite E4. by destruct (views s !! id).
Qed.

Lemma step_tick runtime_dir s obs id v t :
  Server_ok s obs → views s !! id = Some v → tick_fine t v → (clients_short (tick_clients t) → short id) →
  Server_ok (tick_view runtime_dir id t v s).1 (obs ++ (tick_view runtime_dir id t v s).2).
Proof.
  intros Hs Hv Ht Hsh. destruct (sv_view _ _ Hs id v Hv) as (Hf & _ & _). unfold tick_view, end_view.
  destruct (view_disconnected v).
  { apply (step_end s s obs [] id v View_disconnected); try done. apply prefix_nil. }
  cbn [take_window_dump_request fst snd]. pose proof (run_tick_fine t v Hf Ht) as [Hr Hp].
  pose proof (tick_obs_internal id (dump_request s) (run_tick t v)) as Hint.
  destruct (result_view (run_tick t v)) as [v'|e]; cbn [fst snd].
  - destruct Hr as (Hf' & Hi' & Hh & Hm). rewrite app_nil_r. by apply step_running.
  - destruct Hr as [He _].
    match goal with |- Server_ok _ (obs ++ ?new) => replace new with (tick_obs id (dump_request s) (run_tick t v) ++
      [Ob_ended id e (cleanup_paths runtime_dir (view_socket v))]) by by unfold tick_obs; rewrite <- !app_assoc end.
    apply (step_end s (take_window_dump_request s).2 obs _ id v e); try done; [by intros ->; auto|..].
    + destruct (tick_obs_views id id (dump_request s) (run_tick t v)) as [-> _]. by rewrite Z.eqb_refl.
    + intros i Hne. destruct (tick_obs_views i id (dump_request s) (run_tick t v)) as [-> ->]. by rewrite (proj2 (Z.eqb_neq i id)).
Qed.

Lemma server_step_ok runtime_dir s obs event :
  Server_ok s obs →
  match event with Sv_tick id t => match views s !! id with Some v => tick_fine t v | None => True end | _ => True end →
  (∀ id t, event = Sv_tick id t → clients_short (tick_clients t) → short id) →
  Server_ok (server_step runtime_dir s event).1 (obs ++ (server_step runtime_dir s event).2).
Proof.
  intros Hs Hfine Hsh. destruct event as [req first tries|event|payload|id m|id| |id t]; cbn [server_step].
  - destruct (bind_wayland_socket _ _ _ _).1 as [u|e]; cbn [fst snd]; [by apply step_start|].
    eapply step_internal; [done|by repeat constructor|done|done|done|cbn; lia|]. cbn. intros id. by destruct (views s !! id).
  - pose proof (step_input s obs event Hs) as H. by destruct (send_input event s).
  - unfold send_clipboard. destruct (clipboard_sender s) as [id|] eqn:Ec; [rewrite <- Ec; destruct (views s !! id) as [v|] eqn:Hv|]; cbn [fst snd].
    + refine (step_set s obs id v _ _ Hs Hv _ _ _ _ _); try done. by repeat constructor.
    + eapply step_same; try done. by repeat constructor.
    + eapply step_same; try done. by repeat constructor.
  - destruct (views s !! id) as [v|] eqn:Hv; cbn [fst snd]; [by refine (step_set s obs id v _ _ Hs Hv _ _ _ _ _)|by eapply step_same].
  - destruct (views s !! id) as [v|] eqn:Hv; cbn [fst snd]; [by refine (step_set s obs id v _ _ Hs Hv _ _ _ _ _)|by eapply step_same].
  - by eapply step_same.
  - destruct (views s !! id) as [v|] eqn:Hv; [by apply step_tick; [..|by apply Hsh]|by eapply step_same].
Qed.

Lemma server_run_ok runtime_dir s obs events :
  Server_ok s obs → history_fine runtime_dir s events →
  (∀ id t, Sv_tick id t ∈ events → clients_short (tick_clients t) → short id) →
  Server_ok (server_run runtime_dir s events).1 (obs ++ (server_run runtime_dir s events).2).
Proof.
  revert s obs. induction events as [|event events IH]; intros s obs Hs Hf Hsh; cbn [server_run].
  { cbn. by rewrite app_nil_r. }
  destruct Hf as [He Hf].
  assert (Server_ok (server_step runtime_dir s event).1 (obs ++ (server_step runtime_dir s event).2)) as Hs1.
  { apply server_step_ok; [done|done|]. intros id t ->. apply Hsh. by apply list_elem_of_here. }
  destruct (server_step runtime_dir s event) as [s1 o1]. cbn [fst snd] in *.
  assert (Server_ok (server_run runtime_dir s1 events).1 ((obs ++ o1) ++ (server_run runtime_dir s1 events).2)) as H.
  { apply IH; [done|done|]. intros id t Hin. by apply Hsh, list_elem_of_further. }
  destruct (server_run runtime_dir s1 events) as [s2 o2]. cbn [fst snd] in *. by rewrite app_assoc.
Qed.

End invariant.

(** The clients of the view [id] that declared such a buffer, in a history. *)
Definition short_in (events : list server_event) (id : Z) : Prop :=
  ∃ t, Sv_tick id t ∈ events ∧ clients_short (tick_clients t).

Lemma history_ok runtime_dir events :
  history_fine runtime_dir server_new events →
  Server_ok (short_in events) (server_run runtime_dir server_new events).1 (server_run runtime_dir server_new events).2.
Proof.
  intros Hf. apply (server_run_ok _ runtime_dir server_new []); [apply server_new_ok|done|].
  intros id t Hin Hsh. by exists t.
Qed.

(** C25: a one-shot input event is taken exactly when the view that was started last has not been
    followed by the end of one; and each view is given the events that were sent while it was
    that view, each once and in order, those it has not handled yet waiting in its queue. *)
Theorem one_shot_events runtime_dir events :
  history_fine runtime_dir server_new events →
  let '(s, obs) := server_run runtime_dir server_new events in
  (∀ event, (send_input event s).1 = bool_decide (is_Some (owner obs))) ∧
  (∀ id, match views s !! id with
         | Some v => handled_by id obs ++ view_input v = events_for id None obs
         | None => handled_by id obs `prefix_of` events_for id None obs
         end).
Proof.
  intros Hf. pose proof (history_ok runtime_dir events Hf) as [F1 _ F3 _ _ F6 F7 _].
  destruct (server_run runtime_dir server_new events) as [s obs]. cbn [fst snd app] in *. split.
  - intros event. unfold send_input. rewrite F1. destruct (owner obs) as [id|]; [|done]. by destruct (F3 id eq_refl) as [v ->].
  - intros id. destruct (views s !! id) as [v|] eqn:Hv; [by apply F6|by apply F7].
Qed.

(** C24: whatever happens to the process, the compositor of each view is in a state of its own
    runs, and between two iterations its viewer has been sent exactly the messages of its log,
    each once and in order; and an iteration of a view panics for one reason only: one of that
    view's clients has declared a shared-memory buffer whose rows are shorter than its pixels.
    New toplevels are assumed to be surfaces not yet in use, and fewer than 2^64 windows to be
    opened. *)
Theorem views_serve runtime_dir events :
  history_fine runtime_dir server_new events →
  let '(s, obs) := server_run runtime_dir server_new events in
  (∀ id v, views s !! id = Some v → reachable (view_app v) ∧ sent_to id obs = messages (log (view_app v))) ∧
  (∀ id removed, Ob_ended id View_panicked removed ∈ obs →
     ∃ t w event b buf, Sv_tick id t ∈ events ∧ (w, event) ∈ tick_clients t ∧
       buffer_contents w b = Some buf ∧ shm_stride buf < 4 * shm_width buf).
Proof.
  intros Hf. pose proof (history_ok runtime_dir events Hf) as [_ _ _ _ _ F6 _ F8].
  destruct (server_run runtime_dir server_new events) as [s obs]. cbn [fst snd app] in *. split.
  - intros id v Hv. destruct (F6 id v Hv) as ([Hr _] & _ & Hs). done.
  - intros id removed Hin. destruct (F8 id removed Hin) as (t & Ht & ([w event] & Hwe & b & buf & Hb & Hs)%Exists_exists).
    by exists t, w, event, b, buf.
Qed.

(** When a view ends while another one lives, the one-shot events of every session are
    dropped from then on: the end of a view empties the slot, whoever's sender it holds. *)
Theorem ended_view_mutes runtime_dir s a u b v t :
  views s !! a = Some u → view_disconnected u = true → views s !! b = Some v → a ≠ b →
  let s' := (server_step runtime_dir s (Sv_tick a t)).1 in
  views s' !! b = Some v ∧ (∀ event, (send_input event s').1 = false) ∧ (∀ payload, (send_clipboard payload s').1 = false).
Proof.
  intros Ha Hu Hb Hne. cbn [server_step]. rewrite Ha. unfold tick_view. rewrite Hu. cbn.
  by rewrite lookup_delete_ne.
Qed.

(** Binding a socket removes files only in tries in which no listener answered and stops at
    the first in which one does; it succeeds with the first bind that does, within five tries. *)
Theorem bind_outcome runtime_dir name tries :
  (5 ≤ length tries)%nat →
  let '(socket, lock) := socket_lock_paths runtime_dir name in
  bind_wayland_socket runtime_dir name false tries =
  match list_find (λ t, t.1 || t.2 = true) (take 5 tries) with
  | Some (i, (true, _)) => (Err In_use, concat (replicate i [socket; lock]))
  | Some (i, (false, _)) => (Ok tt, concat (replicate (S i) [socket; lock]))
  | None => (Err Bind_failed, concat (replicate 5 [socket; lock]))
  end.
Proof.
  unfold bind_wayland_socket. destruct (socket_lock_paths runtime_dir name) as [socket lock].
  do 5 (destruct tries as [|[[] []] tries]; [cbn; lia|..]; try done).
Qed.

(** What a guest copies is relayed to the host exactly when it is text, the text itself, of
    at most the size both sides allow. *)
Theorem guest_selection_relayed pipe serial m :
  read_guest_text_selection pipe serial = Some m ↔
  ∃ text, pipe = Some (as_bytes text) ∧ Forall (λ c, is_scalar c = true) text ∧
    str_len text ≤ MAX_CLIPBOARD_TEXT_BYTES ∧ m = Message_Clipboard (mkClipboard Origin_Guest serial text).
Proof.
  unfold read_guest_text_selection. assert (0 ≤ MAX_CLIPBOARD_TEXT_BYTES) by done. revert H.
  generalize MAX_CLIPBOARD_TEXT_BYTES. intros cap Hcap. split.
  - intros (buf & (bs & -> & ->)%fmap_Some & H)%bind_Some. destruct (Z.ltb_spec cap (Z.of_nat (length (take (Z.to_nat (cap + 1)) bs)))) as [|Hle]; [done|].
    rewrite length_take in Hle. rewrite take_ge in H by lia.
    apply bind_Some in H as (text & [-> Hs]%from_utf8_iff & [= <-]). exists text. rewrite <- as_bytes_length. split_and!; [done..|lia|done].
  - intros (text & -> & Hs & Hle & ->). rewrite <- as_bytes_length in Hle. cbn [fmap option_fmap option_map mbind option_bind].
    rewrite take_ge by lia. rewrite (proj2 (Z.ltb_ge _ _)) by done. by rewrite from_as_bytes.
Qed.

(** ** Witnesses *)

Definition ask_view (name : rstring) : ViewRequest := mkViewRequest name 800 600.
Definition press (k : Z) : InputEvent := IE_Key 1 k Key_Pressed.

(** A client makes a window; nothing fails. *)
Definition calm : tick := mkTick (λ _ _, plain_world 0) [(plain_world 0, Ev_new_toplevel 7)] [] true true.
Definition idle_tick : tick := mkTick (λ _ _, plain_world 0) [] [] true true.

(** Two views; the first one's viewer goes away while the second lives. *)
Definition two_views : list server_event :=
  [Sv_view (ask_view (lit "a")) true []; Sv_input (press 30); Sv_tick 1 calm; Sv_input (press 31);
   Sv_view (ask_view (lit "b")) true []; Sv_input (press 32); Sv_lost 1; Sv_tick 1 idle_tick; Sv_input (press 33)].

Lemma calm_fine v : surface_to_window (view_app v) = ∅ → next_window_id (view_app v) = 1 → tick_fine calm v.
Proof.
  intros Hs Hn. split; [|intros; apply plain_world_ok]. cbn. split_and!; [apply plain_world_ok|by rewrite Hs|by rewrite Hn|done].
Qed.

Lemma idle_fine v : tick_fine idle_tick v.
Proof. split; [done|]. intros. apply plain_world_ok. Qed.

Lemma first_tick_fine :
  history_fine (lit "/run") (server_run (lit "/run") server_new (take 2 two_views)).1 [Sv_tick 1 calm].
Proof.
  cbn [history_fine]. split; [|done].
  assert (∃ v, views (server_run (lit "/run") server_new (take 2 two_views)).1 !! 1 = Some v ∧
    surface_to_window (view_app v) = ∅ ∧ next_window_id (view_app v) = 1) as (v & -> & H1 & H2)
    by by eexists; split_and!; vm_compute.
  by apply calm_fine.
Qed.

Lemma history_fine_app dir s a b :
  history_fine dir s a → history_fine dir (server_run dir s a).1 b → history_fine dir s (a ++ b).
Proof.
  revert s. induction a as [|event a IH]; intros s Ha Hb; [done|]. destruct Ha as [He Ha]. cbn [app history_fine server_run] in *.
  split; [done|]. apply IH; [done|]. destruct (server_step dir s event) as [s1 o1]. cbn [fst] in *. by destruct (server_run dir s1 a).
Qed.

(** Events that need no assumption. *)
Lemma easy_fine dir events s :
  Forall (λ e, match e with Sv_tick _ t => t = idle_tick | _ => True end) events → history_fine dir s events.
Proof.
  intros H. revert s. induction H as [|e events He _ IH]; intros s; [done|]. split; [|apply IH].
  destruct e; try done. subst t. case_match; [apply idle_fine|done].
Qed.

Lemma two_views_fine : history_fine (lit "/run") server_new two_views.
Proof.
  apply (history_fine_app _ _ (take 2 two_views) (drop 2 two_views)); [apply easy_fine; by repeat constructor|].
  apply (history_fine_app _ _ [Sv_tick 1 calm] (drop 3 two_views)); [apply first_tick_fine|apply easy_fine; by repeat constructor].
Qed.

Lemma one_shot_events_witness :
  let '(s, obs) := server_run (lit "/run") server_new two_views in
  (send_input (press 34) s).1 = bool_decide (is_Some (owner obs)) ∧
  match views s !! 2 with Some v => handled_by 2 obs ++ view_input v = events_for 2 None obs | None => False end.
Proof.
  pose proof (one_shot_events (lit "/run") two_views two_views_fine) as H.
  assert (is_Some (views (server_run (lit "/run") server_new two_views).1 !! 2)) as H2 by by vm_compute; eexists.
  destruct (server_run (lit "/run") server_new two_views) as [s obs]. destruct H as [Ha Hb]. split; [apply Ha|].
  specialize (Hb 2). cbn [fst] in H2. destruct (views s !! 2); [done|by destruct H2].
Defined.

(** The event sent to the second view waits there; the one after the end of the first is lost. *)
Example two_views_events :
  let '(s, obs) := server_run (lit "/run") server_new two_views in
  events_for 1 None obs = [press 30; press 31] ∧ handled_by 1 obs = [press 30] ∧
  events_for 2 None obs = [press 32] ∧ (send_input (press 34) s).1 = false.
Proof. by vm_compute. Qed.

Lemma views_serve_witness :
  let '(s, obs) := server_run (lit "/run") server_new (take 3 two_views) in
  (∀ id v, views s !! id = Some v → reachable (view_app v) ∧ sent_to id obs = messages (log (view_app v))) ∧
  (∀ id removed, Ob_ended id View_panicked removed ∈ obs →
     ∃ t w event b buf, Sv_tick id t ∈ take 3 two_views ∧ (w, event) ∈ tick_clients t ∧
       buffer_contents w b = Some buf ∧ shm_stride buf < 4 * shm_width buf).
Proof.
  apply (views_serve (lit "/run")), (history_fine_app _ _ (take 2 two_views) [Sv_tick 1 calm]); [apply easy_fine; by repeat constructor|].
  apply first_tick_fine.
Defined.

Lemma ended_view_mutes_witness :
  let s := (server_run (lit "/run") server_new (take 7 two_views)).1 in
  let s' := (server_step (lit "/run") s (Sv_tick 1 idle_tick)).1 in
  is_Some (views s' !! 2) ∧ ∀ event, (send_input event s').1 = false.
Proof.
  intros s. assert (∃ u v, views s !! 1 = Some u ∧ view_disconnected u = true ∧ views s !! 2 = Some v) as (u & v & Hu & Hd & Hv)
    by by eexists _, _; split_and!; vm_compute.
  destruct (ended_view_mutes (lit "/run") s 1 u 2 v idle_tick Hu Hd Hv) as (H1 & H2 & _); [done|].
  split; [by rewrite H1|exact H2].
Defined.

Lemma bind_outcome_witness :
  bind_wayland_socket (lit "/run") (lit "w") false [(false, false); (true, true); (false, true); (false, true); (false, true)] =
  (Err In_use, [lit "/run/w"; lit "/run/w.lock"]).
Proof.
  exact (bind_outcome (lit "/run") (lit "w") [(false, false); (true, true); (false, true); (false, true); (false, true)] ltac:(cbn; lia)).
Defined.
