(* ===== verification/Guest.v ===== *)
(** * What the daemon gives the processes it starts (crates/controld/src: state.rs, main.rs,
      dbus_session.rs; crates/server/src/main.rs)

    The environment and the command line of an application, the files of its private D-Bus
    session, the command line of a server, and the start of the two daemons. The last part
    puts the pieces together: where the server binds, the daemon looks and the application
    connects. *)

From S2P Require Import Prelude Text Wire Framing Daemon Control Wait Views Files Certs.

(** ** The environment of an application *)

Abbreviation environment := (gmap rstring rstring) (only parsing).

Record GuestEnvInputs := mkGuestEnvInputs {
  socket : rstring;
  use_dbus_isolation : bool;
  xdg_runtime : option rstring;
  home : option rstring;
  check_path : rstring → bool
}.

Record GuestEnvPlan := mkGuestEnvPlan { plan_set : list (rstring * rstring); plan_unset : list rstring }.

Definition base_vars (socket : rstring) : list (rstring * rstring) :=
  [(lit "WAYLAND_DISPLAY", socket); (lit "GDK_BACKEND", lit "wayland"); (lit "GSK_RENDERER", lit "cairo");
   (lit "G_APPLICATION_NON_UNIQUE", lit "1"); (lit "LIBGL_ALWAYS_SOFTWARE", lit "1");
   (lit "QT_QPA_PLATFORM", lit "wayland"); (lit "XDG_SESSION_TYPE", lit "wayland");
   (lit "XDG_CURRENT_DESKTOP", lit "GNOME"); (lit "DESKTOP_SESSION", lit "gnome");
   (lit "GNOME_DESKTOP_SESSION_ID", lit "vbox"); (lit "GTK_USE_PORTAL", lit "0")].

(** The variables that point at the host's audio service, where it is. *)
Definition audio_vars (inputs : GuestEnvInputs) (runtime : rstring) : list (rstring * rstring) :=
  let pipewire_sock := path_join runtime (lit "pipewire-0") in
  let pulse_sock := path_join (path_join runtime (lit "pulse")) (lit "native") in
  (if check_path inputs pipewire_sock then [(lit "PIPEWIRE_REMOTE", pipewire_sock)] else [])
  ++ (if check_path inputs pulse_sock then [(lit "PULSE_SERVER", lit "unix:" ++ pulse_sock)] else [])
  ++ match home inputs with
     | Some home =>
         let cookie := path_join (path_join (path_join home (lit ".config")) (lit "pulse")) (lit "cookie") in
         if check_path inputs cookie then [(lit "PULSE_COOKIE", cookie)] else []
     | None => []
     end
  ++ [(lit "XDG_RUNTIME_DIR", runtime)].

Definition guest_env_plan (inputs : GuestEnvInputs) : GuestEnvPlan :=
  mkGuestEnvPlan
    (base_vars (socket inputs) ++ match xdg_runtime inputs with Some runtime => audio_vars inputs runtime | None => [] end)
    (if use_dbus_isolation inputs then [lit "DBUS_SESSION_BUS_ADDRESS"] else []).

(** [Command::env] and [Command::env_remove], on what the process inherits. *)
Definition set_vars (vars : list (rstring * rstring)) (e : environment) : environment :=
  foldl (λ e '(k, v), <[k := v]> e) e vars.
Definition remove_vars (names : list rstring) (e : environment) : environment := foldl (λ e k, delete k e) e names.

(** [apply_guest_env]: the environment of the application, from the daemon's own. *)
Definition apply_guest_env (check_path : rstring → bool) (own : environment) (socket : rstring) (use_dbus_isolation : bool) : environment :=
  let plan := guest_env_plan (mkGuestEnvInputs socket use_dbus_isolation (own !! lit "XDG_RUNTIME_DIR") (own !! lit "HOME") check_path) in
  remove_vars (plan_unset plan) (set_vars (plan_set plan) own).

(** ** Command lines *)

Definition dbus_session_conf (work_dir : rstring) : rstring := path_join work_dir (lit "dbus-session.conf").

(** What [launch_app] runs. *)
Definition launch_command (work_dir : rstring) (use_dbus_isolation : bool) (argv : list rstring) : list rstring :=
  if use_dbus_isolation then
    [lit "dbus-run-session"; lit "--config-file"; dbus_session_conf work_dir; lit "--"] ++ argv
  else argv.

Definition server_spawn_env (debug : bool) : list (rstring * rstring) :=
  (if debug then [(lit "VBOX_DEBUG", lit "1")] else []) ++ [(lit "RUST_BACKTRACE", lit "1")].

(** ** The private D-Bus session *)

(** Lines of text; a tilde stands for a double quote. *)
Definition text_lines (ls : list rstring) : rstring := ls ≫= λ l, ((λ c, if c =? 126 then 34 else c) <$> l) ++ [10].

Definition services_dir (work_dir : rstring) : rstring := path_join work_dir (lit "dbus-services").
Definition stub_script (work_dir : rstring) : rstring := path_join work_dir (lit "dbus-stub-mutter-service-channel.py").
Definition service_file (work_dir : rstring) : rstring :=
  path_join (services_dir work_dir) (lit "org.gnome.Mutter.ServiceChannel.service").

Definition session_conf_body (services_dir : rstring) : rstring :=
  text_lines
    [lit "<!DOCTYPE busconfig PUBLIC"; lit " ~-//freedesktop//DTD D-Bus Bus Configuration 1.0//EN~";
     lit " ~http://www.freedesktop.org/standards/dbus/1.0/busconfig.dtd~>"; lit "<busconfig>"; lit "  <type>session</type>";
     lit "  <listen>unix:tmpdir=/tmp</listen>"; lit "  <auth>EXTERNAL</auth>"]
  ++ lit "  <servicedir>" ++ services_dir ++
  text_lines
    [lit "</servicedir>"; lit "  <policy context=~default~>"; lit "    <allow send_destination=~*~ eavesdrop=~false~/>";
     lit "    <allow eavesdrop=~false~/>"; lit "    <allow own=~*~/>"; lit "  </policy>"; lit "</busconfig>"].

Definition stub_body : rstring :=
  text_lines
    [lit "#!/usr/bin/env python3";
     lit "~~~Own org.gnome.Mutter.ServiceChannel on a vbox ephemeral session bus."; [];
     lit "Nautilus uses dbus_proxy_new_*() with G_DBUS_PROXY_FLAGS_DO_NOT_AUTO_START to";
     lit "ask Mutter for a display-server connection; if the name has no owner, the";
     lit "proxy check fails and Nautilus aborts startup with ~Failed to initialize";
     lit "display server connection~. We don't actually expose Mutter's interface "
       ++ [8212] ++ lit " we";
     lit "just claim the name so the proxy presence check succeeds. Nautilus's";
     lit "subsequent method call returns NoReply / UnknownMethod, which it tolerates.";
     lit "~~~"; lit "import sys"; []; lit "try:"; lit "    import dbus"; lit "    from dbus.mainloop.glib import DBusGMainLoop";
     lit "    from gi.repository import GLib"; lit "except ImportError as exc:";
     lit "    sys.stderr.write(f~vbox dbus stub: missing python3-dbus / gi: {exc}\n~)";
     lit "    sys.exit(0)  # exit cleanly; lack of stub is non-fatal for non-Nautilus apps"; [];
     lit "DBusGMainLoop(set_as_default=True)"; lit "bus = dbus.SessionBus()";
     lit "result = bus.request_name(~org.gnome.Mutter.ServiceChannel~)";
     lit "sys.stderr.write(f~vbox dbus stub: requested Mutter.ServiceChannel -> {result}\n~)"; lit "GLib.MainLoop().run()"].

Definition service_body (script : rstring) : rstring :=
  text_lines [lit "[D-BUS Service]"; lit "Name=org.gnome.Mutter.ServiceChannel"] ++ lit "Exec=" ++ script ++ [10].

Definition write_dbus_session_conf (work_dir : rstring) : io unit :=
  let path := dbus_session_conf work_dir in
  context (lit "write " ++ path) (write path (session_conf_body (services_dir work_dir))).

Definition write_dbus_stub_assets (work_dir : rstring) : io unit :=
  let services := services_dir work_dir in
  let script := stub_script work_dir in
  let service := service_file work_dir in
  context (lit "create " ++ services) (create_dir_all services);;
  context (lit "write " ++ script) (write script stub_body);;
  context (lit "chmod " ++ script) (set_mode script 493);;
  context (lit "write " ++ service) (write service (service_body script)).

(** [DaemonState::new], up to the snapshot. *)
Definition prepare_work_dir (work_dir : rstring) : io unit :=
  context (lit "create " ++ work_dir) (create_dir_all work_dir);;
  write_dbus_stub_assets work_dir;;
  write_dbus_session_conf work_dir.

(** ** The start of the daemon *)

Inductive TlsListenMode := Listen_Mtls (cert ca : rstring) | Listen_Plain.
Inductive TlsFlagsOutcome := Flags_Mtls (cert key ca : rstring) | Flags_Plain | Flags_PartiallySet.

Definition classify_tls_flags (cert key ca : option rstring) : TlsFlagsOutcome :=
  match cert, key, ca with
  | Some cert, Some key, Some ca => Flags_Mtls cert key ca
  | None, None, None => Flags_Plain
  | _, _, _ => Flags_PartiallySet
  end.

Definition resolve_token_path (explicit : option rstring) (work_dir : rstring) : rstring :=
  default (path_join work_dir (lit "token")) explicit.

Section start.
(** [Display] of addresses and [Debug] of a string. *)
Context (show_ip : IpAddr → rstring) (show_addr : SocketAddr → rstring) (debug_str : rstring → rstring).

Definition format_listening_banner (addr : SocketAddr) (mode : TlsListenMode) : rstring :=
  lit "vbox-controld listening on " ++ show_addr addr ++
  match mode with
  | Listen_Mtls cert ca => lit " (mTLS: cert=" ++ cert ++ lit ", client-ca=" ++ ca ++ lit ")"
  | Listen_Plain => lit " (plain TCP + shared-secret)"
  end.

Definition rpc_failure_label (method : RpcMethod) : rstring :=
  match method with
  | Rpc_Authenticate _ => lit "authenticate"
  | Rpc_Status => lit "status"
  | Rpc_StartInstance instance port _ _ _ _ => lit "start_instance(instance=" ++ instance ++ lit ", port=" ++ dec port ++ lit ")"
  | Rpc_StopInstance instance => lit "stop_instance(instance=" ++ instance ++ lit ")"
  | Rpc_LaunchApp instance socket argv wait_ready_ms =>
      lit "launch_app(instance=" ++ instance ++ lit ", socket=" ++ socket ++ lit ", argv0="
      ++ debug_str (default [] (head argv)) ++ lit ", wait_ready_ms=" ++ dec wait_ready_ms ++ lit ")"
  | Rpc_WaitSocket socket timeout_ms => lit "wait_socket(socket=" ++ socket ++ lit ", timeout_ms=" ++ dec timeout_ms ++ lit ")"
  | Rpc_PrepareDataPlane _ tcp_addr _ _ => lit "prepare_data_plane(tcp_addr=" ++ show_addr tcp_addr ++ lit ")"
  end.

(** What [start_instance] runs: the program, its arguments and the variables it adds. *)
Definition server_command (server_bin : rstring) (port : Z) (debug : bool) (quic : option (QuicInstanceConfig * QuicCertMaterial)) :
    list rstring * list (rstring * rstring) :=
  ([server_bin; lit "--port"; dec port] ++
   match quic with
   | Some (q, cert) =>
       [lit "--quic-bind"; show_ip (qic_bind q); lit "--quic-port"; dec (default port (qic_port q)); lit "--quic-token"; qic_token q;
        lit "--quic-cert"; cert_path cert; lit "--quic-key"; key_path cert]
   | None => []
   end, server_spawn_env debug).

(** ** The start of a server *)

Record ServerArgs := mkServerArgs {
  arg_bind : IpAddr; arg_port : Z; arg_max_clients : Z;
  arg_quic_bind : option IpAddr; arg_quic_port : option Z; arg_quic_token : option rstring;
  arg_quic_cert : option rstring; arg_quic_key : option rstring
}.

Record QuicListenerConfig := mkQuicListenerConfig {
  cfg_addr : SocketAddr; cfg_token : rstring; cfg_cert_path : option rstring; cfg_key_path : option rstring
}.

(** The listener that [main] spawns, if any. *)
Definition listener_config (args : ServerArgs) : result chain (option QuicListenerConfig) :=
  match arg_quic_bind args with
  | None => Ok None
  | Some bind =>
      match arg_quic_token args with
      | None => Err [lit "--quic-token is required when --quic-bind is set"]
      | Some token => Ok (Some (mkQuicListenerConfig (mkSocketAddr bind (default (arg_port args) (arg_quic_port args))) token
                                  (arg_quic_cert args) (arg_quic_key args)))
      end
  end.

(** The name of a server: the release of the system, from the file that says it. *)
Fixpoint first_pretty_name (ls : list rstring) : option rstring :=
  match ls with
  | [] => None
  | line :: rest =>
      match strip_prefix (lit "PRETTY_NAME=") line with
      | Some name => Some (trim_matches (Z.eqb 34) name)
      | None => first_pretty_name rest
      end
  end.

Definition parse_os_release_pretty_name (body : rstring) : option rstring := first_pretty_name (lines body).

Definition uname_release (os_release : option rstring) : option rstring := os_release ≫= parse_os_release_pretty_name.

Definition format_session_accept_line (session_id : Z) (client_name : rstring) (proto : Z) : rstring :=
  lit "session " ++ dec session_id ++ lit ": client='" ++ client_name ++ lit "' (proto v" ++ dec proto ++ lit ")".

Definition format_startup_debug (bind : IpAddr) (port max_clients : Z) : rstring :=
  lit "debug: bind=" ++ show_ip bind ++ lit " port=" ++ dec port ++ lit " max_clients=" ++ dec max_clients.

Definition format_server_banner (addr : SocketAddr) : rstring := lit "vbox-server listening on " ++ show_addr addr.
End start.


(** ** The environment *)

Lemma set_vars_app a b e : set_vars (a ++ b) e = set_vars b (set_vars a e).
Proof. apply foldl_app. Qed.

Lemma set_vars_cons k v vars e : set_vars ((k, v) :: vars) e = set_vars vars (<[k := v]> e).
Proof. done. Qed.

Lemma set_vars_other vars e k : k ∉ vars.*1 → set_vars vars e !! k = e !! k.
Proof.
  revert e. induction vars as [|[k' v] vars IH]; intros e Hk; [done|].
  rewrite fmap_cons in Hk. apply not_elem_of_cons in Hk as [Hk Hr]. rewrite set_vars_cons, IH by done. by rewrite lookup_insert_ne.
Qed.

Lemma set_vars_in vars e k v : NoDup vars.*1 → (k, v) ∈ vars → set_vars vars e !! k = Some v.
Proof.
  revert e. induction vars as [|[k' v'] vars IH]; intros e Hn Hin; [set_solver|].
  rewrite fmap_cons in Hn. rewrite set_vars_cons. apply NoDup_cons in Hn as [Hk' Hn].
  apply elem_of_cons in Hin as [[= -> ->]|Hin]; [|by apply IH]. rewrite set_vars_other by done. apply lookup_insert_eq.
Qed.

(** A list of at most one binding. *)
Lemma set_vars_if (b : bool) k x e v : set_vars (if b then [(k, x)] else []) e !! v = if b && bool_decide (v = k) then Some x else e !! v.
Proof.
  destruct b; [|done]. cbn. case_bool_decide as E; subst; cbn; [apply lookup_insert_eq|by rewrite lookup_insert_ne].
Qed.

(** The variables that a plan may set. *)
Definition managed : list rstring :=
  (base_vars []).*1 ++ [lit "PIPEWIRE_REMOTE"; lit "PULSE_SERVER"; lit "PULSE_COOKIE"; lit "XDG_RUNTIME_DIR"].

Lemma audio_keys inputs runtime k : k ∈ (audio_vars inputs runtime).*1 →
  k ∈ [lit "PIPEWIRE_REMOTE"; lit "PULSE_SERVER"; lit "PULSE_COOKIE"; lit "XDG_RUNTIME_DIR"].
Proof.
  unfold audio_vars. rewrite !fmap_app, !elem_of_app.
  destruct (check_path inputs _), (check_path inputs _), (home inputs) as [h|]; [destruct (check_path inputs _)| |destruct (check_path inputs _)| |
    destruct (check_path inputs _)| |destruct (check_path inputs _)|]; cbn [fmap list_fmap fst]; rewrite ?elem_of_cons, ?elem_of_nil; tauto.
Qed.

Abbreviation inputs_of check own socket iso :=
  (mkGuestEnvInputs socket iso (own !! lit "XDG_RUNTIME_DIR") (own !! lit "HOME") check).

(** The variables set, in order: the fixed ones, and those of the audio service. *)
Lemma applied check own socket iso v : v ≠ lit "DBUS_SESSION_BUS_ADDRESS" →
  apply_guest_env check own socket iso !! v =
  match own !! lit "XDG_RUNTIME_DIR" with
  | Some runtime => set_vars (audio_vars (inputs_of check own socket iso) runtime) (set_vars (base_vars socket) own) !! v
  | None => set_vars (base_vars socket) own !! v
  end.
Proof.
  intros Hv. unfold apply_guest_env. cbn [guest_env_plan plan_set plan_unset xdg_runtime use_dbus_isolation Guest.socket].
  rewrite set_vars_app. destruct iso; cbn [remove_vars foldl]; rewrite ?lookup_delete_ne by done; by destruct (own !! lit "XDG_RUNTIME_DIR").
Qed.

Lemma base_nodup socket : NoDup (base_vars socket).*1.
Proof. change ((base_vars socket).*1) with ((base_vars []).*1). by compute_done. Qed.

Lemma base_other k : k ∉ (base_vars []).*1 → ∀ socket e, set_vars (base_vars socket) e !! k = e !! k.
Proof. intros Hk socket e. by apply set_vars_other. Qed.

(** What the audio variables do to one of them, or to another. *)
Lemma audio_applied inputs runtime e v :
  set_vars (audio_vars inputs runtime) e !! v =
  if bool_decide (v = lit "XDG_RUNTIME_DIR") then Some runtime
  else if bool_decide (v = lit "PULSE_COOKIE") then
    match home inputs with
    | Some home => let cookie := path_join (path_join (path_join home (lit ".config")) (lit "pulse")) (lit "cookie") in
                   if check_path inputs cookie then Some cookie else e !! v
    | None => e !! v
    end
  else if bool_decide (v = lit "PULSE_SERVER") then
    let sock := path_join (path_join runtime (lit "pulse")) (lit "native") in
    if check_path inputs sock then Some (lit "unix:" ++ sock) else e !! v
  else if bool_decide (v = lit "PIPEWIRE_REMOTE") then
    let sock := path_join runtime (lit "pipewire-0") in if check_path inputs sock then Some sock else e !! v
  else e !! v.
Proof.
  unfold audio_vars. rewrite !set_vars_app. cbn [set_vars foldl]. case_bool_decide as E1; [subst; apply lookup_insert_eq|].
  rewrite lookup_insert_ne by done. destruct (home inputs) as [h|].
  - rewrite !set_vars_if. repeat case_bool_decide; subst; rewrite ?andb_true_r, ?andb_false_r; by repeat case_match.
  - cbn [set_vars foldl]. rewrite !set_vars_if. repeat case_bool_decide; subst; rewrite ?andb_true_r, ?andb_false_r; by repeat case_match.
Qed.

(** An application runs on the display it was launched for and with the fixed settings;
    on a bus of its own it never sees the daemon's; a variable that the plan does not manage
    is the daemon's; the files that the audio variables newly name exist. *)
Theorem guest_environment check own socket iso :
  let e := apply_guest_env check own socket iso in
  e !! lit "DBUS_SESSION_BUS_ADDRESS" = (if iso then None else own !! lit "DBUS_SESSION_BUS_ADDRESS") ∧
  (∀ v x, (v, x) ∈ base_vars socket → e !! v = Some x) ∧
  (∀ v, v ∉ lit "DBUS_SESSION_BUS_ADDRESS" :: managed → e !! v = own !! v) ∧
  (∀ v x, v ∈ [lit "PIPEWIRE_REMOTE"; lit "PULSE_COOKIE"] → e !! v = Some x → own !! v = Some x ∨ check x = true) ∧
  (∀ x, e !! lit "PULSE_SERVER" = Some x → own !! lit "PULSE_SERVER" = Some x ∨ ∃ sock, x = lit "unix:" ++ sock ∧ check sock = true).
Proof.
  intros e. assert (∀ v x, (v, x) ∈ base_vars socket → v ∈ (base_vars []).*1) as Hbase.
  { intros v x Hin. change ((base_vars []).*1) with ((base_vars socket).*1). apply list_elem_of_fmap. by exists (v, x). }
  split_and!.
  - unfold e, apply_guest_env. cbn [guest_env_plan plan_set plan_unset xdg_runtime use_dbus_isolation Guest.socket].
    destruct iso; cbn [remove_vars foldl]; [apply lookup_delete_eq|]. rewrite set_vars_app.
    destruct (own !! lit "XDG_RUNTIME_DIR"); [|by apply base_other; compute_done].
    rewrite audio_applied, base_other by (by compute_done). by repeat (rewrite bool_decide_false by (by compute_done)).
  - intros v x Hin. unfold e. pose proof (Hbase v x Hin) as Hv.
    assert (v ∉ [lit "DBUS_SESSION_BUS_ADDRESS"; lit "XDG_RUNTIME_DIR"; lit "PULSE_COOKIE"; lit "PULSE_SERVER"; lit "PIPEWIRE_REMOTE"]) as Hne.
    { clear Hin. revert v Hv. apply Forall_forall. by compute_done. }
    rewrite !not_elem_of_cons in Hne. destruct Hne as (N1 & N2 & N3 & N4 & N5 & _). rewrite applied by done.
    destruct (own !! lit "XDG_RUNTIME_DIR"); rewrite ?audio_applied, ?bool_decide_false by done; by apply set_vars_in; [apply base_nodup|].
  - intros v Hv. unfold e. unfold managed in Hv. rewrite not_elem_of_cons, not_elem_of_app, !not_elem_of_cons in Hv.
    destruct Hv as (N1 & Nb & N2 & N3 & N4 & N5 & _). rewrite applied by done.
    destruct (own !! lit "XDG_RUNTIME_DIR"); rewrite ?audio_applied, ?bool_decide_false by done; by apply base_other.
  - intros v x Hv. unfold e. assert (v ∉ lit "DBUS_SESSION_BUS_ADDRESS" :: lit "XDG_RUNTIME_DIR" :: lit "PULSE_SERVER" :: (base_vars []).*1) as Hne.
    { revert v Hv. apply Forall_forall. by compute_done. }
    rewrite !not_elem_of_cons in Hne. destruct Hne as (N1 & N2 & N3 & N4). rewrite applied by done.
    destruct (own !! lit "XDG_RUNTIME_DIR"); [|rewrite base_other by done; by left].
    rewrite audio_applied, (bool_decide_false (v = lit "XDG_RUNTIME_DIR")), (bool_decide_false (v = lit "PULSE_SERVER")), base_other by done.
    cbn [home check_path]. repeat case_match; intros; simplify_eq; auto.
  - intros x. unfold e. rewrite applied by done. destruct (own !! lit "XDG_RUNTIME_DIR"); [|rewrite base_other by (by compute_done); by left].
    rewrite audio_applied, base_other by (by compute_done). do 2 (rewrite bool_decide_false by (by compute_done)).
    rewrite bool_decide_true by done. cbn [check_path]. case_match; [|by left]. intros [= <-]. right. eauto.
Qed.

(** ** Sockets *)







(** ** The D-Bus files *)

Section dbus.
Context (work_dir : rstring).
Abbreviation root := (dir_prefix work_dir).

Lemma conf_path : dbus_session_conf work_dir = root ++ lit "dbus-session.conf".
Proof. by apply path_join_prefix. Qed.
Lemma services_path : services_dir work_dir = root ++ lit "dbus-services".
Proof. by apply path_join_prefix. Qed.
Lemma script_path : stub_script work_dir = root ++ lit "dbus-stub-mutter-service-channel.py".
Proof. by apply path_join_prefix. Qed.
Lemma service_path : service_file work_dir = root ++ lit "dbus-services/org.gnome.Mutter.ServiceChannel.service".
Proof.
  unfold service_file. rewrite path_join_prefix, services_path, dir_prefix_name by (done || by compute_done).
  by rewrite <- !app_assoc.
Qed.

(** A daemon that starts finds the files of the private bus in place: the configuration
    that an application's bus is started with, whose only services are those of the daemon's
    own directory; the service there; and the executable script that it names. *)
Theorem dbus_files_in_place argv s s' : no_links s → prepare_work_dir work_dir s = (Ok tt, s') →
  (∃ conf mode, launch_command work_dir true argv = [lit "dbus-run-session"; lit "--config-file"; conf; lit "--"] ++ argv ∧
     nodes s' !! conf = Some (File (session_conf_body (services_dir work_dir)) mode)) ∧
  nodes s' !! services_dir work_dir = Some Dir ∧
  (∃ mode, nodes s' !! service_file work_dir = Some (File (service_body (stub_script work_dir)) mode)) ∧
  nodes s' !! stub_script work_dir = Some (File stub_body 493).
Proof.
  intros Hs (u1 & s1 & H1 & (u2 & s2 & (u3 & s3 & H3 & (u4 & s4 & H4 & (u5 & s5 & H5 & H2)%io_bind_ok)%io_bind_ok)%io_bind_ok & H6)%io_bind_ok)%io_bind_ok.
  apply context_ok in H1, H3, H4, H5, H2. unfold write_dbus_session_conf in H6. apply context_ok in H6.
  assert (no_links s1) as L1 by (eapply (no_links_after (λ _, True)); [by apply only_create_dir|exact Hs|exact H1]).
  assert (no_links s3) as L3 by (eapply (no_links_after (λ _, True)); [by apply only_create_dir|exact L1|exact H3]).
  assert (no_links s4) as L4 by (eapply (no_links_after (λ _, True)); [by apply only_write|exact L3|exact H4]).
  assert (no_links s5) as L5 by (eapply (no_links_after (λ _, True)); [by apply only_set_mode|exact L4|exact H5]).
  assert (no_links s2) as L2 by (eapply (no_links_after (λ _, True)); [by apply only_write|exact L5|exact H2]).
  apply create_dir_ok in H3 as E3; [|done]. apply write_ok in H4 as (E4 & _); [|done]. apply set_mode_ok in H5 as (n & Hn & E5); [|done].
  apply write_ok in H2 as (E2 & _); [|done]. apply write_ok in H6 as (E6 & _); [|done].
  rewrite E4, lookup_insert_eq in Hn. injection Hn as <-. rewrite E4, insert_insert_eq, E3 in E5.
  assert (∀ a b : rstring, a ≠ b → root ++ a ≠ root ++ b) as Hne by (intros a b Hab H; by apply Hab, (app_inv_head root)).
  rewrite conf_path, services_path, script_path, service_path in *. split_and!.
  - eexists _, _. split; [unfold launch_command; by rewrite conf_path|]. rewrite E6. apply lookup_insert_eq.
  - rewrite E6, lookup_insert_ne, E2, lookup_insert_ne, E5, lookup_insert_ne by (apply Hne; by compute_done). apply lookup_insert_eq.
  - eexists. rewrite E6, lookup_insert_ne, E2 by (apply Hne; by compute_done). apply lookup_insert_eq.
  - rewrite E6, lookup_insert_ne, E2, lookup_insert_ne, E5 by (apply Hne; by compute_done). apply lookup_insert_eq.
Qed.
End dbus.

(** ** Messages *)

Lemma rpc_result_err {A} label (ok : A → RpcOk) r msg : rpc_result label ok r = RpcResult_Err msg → label `prefix_of` msg.
Proof. destruct r as [a|e]; [done|]. intros [= <-]. by eexists. Qed.

(** An error that the daemon answers with begins by naming the request, with the label
    that the documentation of the daemon's messages gives it. *)
Theorem error_names_request `{Codec (list InstanceSnapshot)} show_addr debug_str e st m st' msg :
  dispatch_method debug_str e st m = (st', RpcResult_Err msg) → (∀ token, m ≠ Rpc_Authenticate token) →
  rpc_failure_label show_addr debug_str m `prefix_of` msg.
Proof.
  intros Hd Ha. destruct m as [token| |instance port debug quic_bind quic_port quic_token|instance|instance socket argv wait|socket timeout|];
    unfold dispatch_method in Hd.
  - by destruct (Ha token).
  - by destruct (summaries _ _) in Hd.
  - destruct (start_instance _ _ _ _ _ _) as [s r]. injection Hd as _ Hd. exact (rpc_result_err _ _ _ _ Hd).
  - destruct (stop_instance _ _ _) as [s r]. injection Hd as _ Hd. exact (rpc_result_err _ _ _ _ Hd).
  - destruct (launch_app _ _ _ _ _ _) as [s r]. injection Hd as _ Hd. exact (rpc_result_err _ _ _ _ Hd).
  - injection Hd as _ Hd. exact (rpc_result_err _ _ _ _ Hd).
  - done.
Qed.

Lemma trim_quoted name : 34 ∉ name → trim_matches (Z.eqb 34) (34 :: name ++ [34]) = name.
Proof.
  intros Hn. unfold trim_matches, trim_end_matches. cbn [drop_while Z.eqb Pos.eqb].
  destruct name as [|c name]; [done|]. assert (34 ≠ c) as Hc by set_solver.
  rewrite (drop_while_id _ ((c :: name) ++ [34])) by (cbn [app]; by apply Z.eqb_neq).
  rewrite reverse_app, reverse_singleton. cbn [app drop_while Z.eqb Pos.eqb].
  rewrite drop_while_id; [apply reverse_involutive|]. destruct (reverse (c :: name)) as [|d r] eqn:E; [done|].
  apply Z.eqb_neq. intros <-. apply Hn. rewrite <- elem_of_reverse, E. by left.
Qed.

(** The release's name is the first that the file says, without its quotes. *)
Theorem pretty_name_read before name rest :
  (∀ l, l ∈ before → 10 ∉ l ∧ last l ≠ Some 13 ∧ ¬ lit "PRETTY_NAME=" `prefix_of` l) → 34 ∉ name → 10 ∉ name →
  parse_os_release_pretty_name ((before ≫= λ l, l ++ [10]) ++ lit "PRETTY_NAME=" ++ 34 :: name ++ 34 :: 10 :: rest) = Some name.
Proof.
  intros Hb Hq Hl. unfold parse_os_release_pretty_name. induction before as [|l before IH].
  - change (([] : list rstring) ≫= _) with ([] : rstring). cbn [app].
    replace (lit "PRETTY_NAME=" ++ 34 :: name ++ 34 :: 10 :: rest) with ((lit "PRETTY_NAME=" ++ 34 :: name ++ [34]) ++ 10 :: rest)
      by (rewrite <- app_assoc; cbn [app]; by rewrite <- app_assoc).
    rewrite lines_cons; [|rewrite elem_of_app, elem_of_cons, elem_of_app, list_elem_of_singleton; intros [H|[H|[H|H]]]; [apply (bool_decide_pack _) in H; by vm_compute in H|done..]|
      by rewrite app_comm_cons, app_assoc, last_snoc].
    cbn [first_pretty_name]. unfold strip_prefix, starts_with. rewrite bool_decide_true by (by eexists).
    rewrite drop_app_length. f_equal. by apply trim_quoted.
  - rewrite bind_cons, <- !app_assoc. cbn [app]. destruct (Hb l) as (H1 & H2 & H3); [by left|]. rewrite lines_cons by done.
    cbn [first_pretty_name]. unfold strip_prefix at 1, starts_with at 1. rewrite bool_decide_false by done. apply IH. intros l' Hl'. apply Hb. by right.
Qed.

(** ** Witnesses *)

Definition demo_env : gmap rstring rstring :=
  list_to_map [(lit "XDG_RUNTIME_DIR", lit "/run/user/1000"); (lit "HOME", lit "/home/a"); (lit "DBUS_SESSION_BUS_ADDRESS", lit "bus")].

Lemma dbus_files_in_place_witness :
  nodes (prepare_work_dir (lit "/w") (mkFiles ∅ 420 [])).2 !! lit "/w/dbus-services" = Some Dir.
Proof.
  refine (proj1 (proj2 (dbus_files_in_place (lit "/w") [] (mkFiles ∅ 420 []) _ (empty_no_links []) _))).
  refine (run_at (prepare_work_dir (lit "/w")) (mkFiles ∅ 420 []) tt _). by vm_compute.
Defined.

#[local] Existing Instances Bits.codec Bits.laws.

Lemma error_names_request_witness :
  lit "stop_instance(instance=a)" `prefix_of` lit "stop_instance(instance=a)" ++ [10] ++ lit "  caused by: no such instance: a".
Proof.
  refine (error_names_request (λ _, []) id sunny (mkDaemonState ∅ None []) (Rpc_StopInstance (lit "a")) _ _ _ ltac:(done)).
  by vm_compute.
Defined.
