(* ===== verification/Tls.v ===== *)
(** * Mutual TLS between the control client and the daemon (crates/controld/src/tls.rs, main.rs; crates/client/src/ctl/tls.rs)

    Both ends load PEM files into the configuration rustls is given: the daemon its
    certificate, its key and the authority it asks of clients; the client the authority it
    asks of the daemon, its own certificate and key, and the name it expects. Composed with
    the helper that mints the files. *)

From S2P Require Import Prelude Text Wire Framing ClientNet Ctl Daemon Files Certs Guest.

(** ** Configurations *)

Record ServerTls := mkServerTls { server_chain : list (list byte); server_key : list byte; client_roots : list (list byte) }.
Record ClientTls := mkClientTls {
  server_roots : list (list byte); client_chain : list (list byte); client_key : list byte; server_name : rstring
}.

Section tls.
(** rustls_pemfile and rustls: what of a text is PEM, which certificates may be roots, what
    makes a verifier of clients, which chain and key fit, and which names are names. *)
Context (pem_certs : rstring → list (option (list byte))) (pem_key : rstring → option (option (list byte)))
  (adds_root : list byte → bool) (builds_verifier : list (list byte) → bool)
  (installs : list (list byte) → list byte → bool) (name_valid : rstring → bool).

Definition tls_load_certs (path : rstring) : io (list (list byte)) :=
  text ← Files.context (lit "open " ++ path) (read_to_string path);
  Files.lift (ok_or [lit "parse certs " ++ path; lit "pem"] (mapM id (pem_certs text))).

Definition tls_load_private_key (path : rstring) : io (list byte) :=
  text ← Files.context (lit "open " ++ path) (read_to_string path);
  Files.lift match pem_key text with
             | Some (Some key) => Ok key
             | Some None => Err [lit "no private key in " ++ path]
             | None => Err [lit "parse private key " ++ path; lit "pem"]
             end.

Fixpoint add_roots (path : rstring) (certs : list (list byte)) : io unit :=
  match certs with
  | [] => mret tt
  | c :: certs => if adds_root c then add_roots path certs else Files.lift (Err [lit "add cert from " ++ path; lit "rustls"])
  end.

(** [ServerTls::load] *)
Definition server_tls_load (cert_path key_path client_ca_path : rstring) : io ServerTls :=
  certs ← Files.context (lit "load server cert " ++ cert_path) (tls_load_certs cert_path);
  key ← Files.context (lit "load server key " ++ key_path) (tls_load_private_key key_path);
  client_ca_certs ← Files.context (lit "load client CA " ++ client_ca_path) (tls_load_certs client_ca_path);
  add_roots client_ca_path client_ca_certs;;
  (if builds_verifier client_ca_certs then mret tt else Files.lift (Err [lit "build client verifier"; lit "rustls"]));;
  if installs certs key then mret (mkServerTls certs key client_ca_certs)
  else Files.lift (Err [lit "install server cert+key"; lit "rustls"]).

(** The choice [main] makes of the daemon's flags. *)
Definition daemon_tls (cert key ca : option rstring) : io (option ServerTls) :=
  match classify_tls_flags cert key ca with
  | Flags_Mtls cert key ca => tls ← Files.context (lit "load TLS server config") (server_tls_load cert key ca); mret (Some tls)
  | Flags_Plain => mret None
  | Flags_PartiallySet => bail (lit "--tls-cert, --tls-key, --tls-client-ca must all be set or all unset")
  end.

(** [load_client_tls], once the three variables are known to be set. *)
Definition client_tls_load (ca cert key name : rstring) : io ClientTls :=
  ca_certs ← Files.context (lit "load CA " ++ ca) (tls_load_certs ca);
  add_roots ca ca_certs;;
  client_certs ← Files.context (lit "load client cert " ++ cert) (tls_load_certs cert);
  client_key ← Files.context (lit "load client key " ++ key) (tls_load_private_key key);
  (if installs client_certs client_key then mret tt else Files.lift (Err [lit "install client cert+key"; lit "rustls"]));;
  if name_valid name then mret (mkClientTls ca_certs client_certs client_key name)
  else Files.lift (Err [lit "invalid VBOX_TLS_SERVER_NAME=" ++ name ++ lit ": rustls"]).

Definition load_client_tls (env_var : rstring → option rstring) : io (option ClientTls) :=
  match validate_tls_env_triple (env_var (lit "VBOX_TLS_CA")) (env_var (lit "VBOX_TLS_CERT")) (env_var (lit "VBOX_TLS_KEY")) with
  | Err _ => bail (lit "VBOX_TLS_CA, VBOX_TLS_CERT, VBOX_TLS_KEY must all be set or all unset")
  | Ok None => mret None
  | Ok (Some (ca, cert, key)) =>
      tls ← client_tls_load ca cert key (resolve_tls_server_name (env_var (lit "VBOX_TLS_SERVER_NAME"))); mret (Some tls)
  end.

(** ** Lemmas *)

(** The single certificate, or the key, of a file. *)
Lemma load_certs_fine s path text mode certs : no_links s → faults s = [] → nodes s !! path = Some (File text mode) →
  pem_certs text = Some <$> certs → tls_load_certs path s = (Ok certs, s).
Proof.
  intros Hs Hf Hn Hp. unfold tls_load_certs. rewrite (bind_run _ _ _ text s).
  - unfold Files.lift. rewrite Hp. enough (mapM id (Some <$> certs) = Some certs) as -> by done.
    clear. induction certs as [|c certs IH]; [done|]. cbn. by rewrite IH.
  - apply context_ok. by apply read_fine with mode.
Qed.

Lemma load_key_fine s path text mode key : no_links s → faults s = [] → nodes s !! path = Some (File text mode) →
  pem_key text = Some (Some key) → tls_load_private_key path s = (Ok key, s).
Proof.
  intros Hs Hf Hn Hp. unfold tls_load_private_key. rewrite (bind_run _ _ _ text s).
  - unfold Files.lift. by rewrite Hp.
  - apply context_ok. by apply read_fine with mode.
Qed.

Lemma add_roots_fine path certs s : Forall (λ c, adds_root c = true) certs → add_roots path certs s = (Ok tt, s).
Proof. induction 1 as [|c certs Hc _ IH]; [done|]. cbn. by rewrite Hc. Qed.

Lemma server_load_fine s cert key ca chain k roots t1 m1 t2 m2 t3 m3 : no_links s → faults s = [] →
  nodes s !! cert = Some (File t1 m1) → pem_certs t1 = Some <$> chain →
  nodes s !! key = Some (File t2 m2) → pem_key t2 = Some (Some k) →
  nodes s !! ca = Some (File t3 m3) → pem_certs t3 = Some <$> roots →
  Forall (λ c, adds_root c = true) roots → builds_verifier roots = true → installs chain k = true →
  server_tls_load cert key ca s = (Ok (mkServerTls chain k roots), s).
Proof.
  intros Hs Hf N1 P1 N2 P2 N3 P3 Hr Hb Hi. unfold server_tls_load.
  rewrite (bind_run _ _ _ chain s) by (apply context_ok; by eapply load_certs_fine).
  rewrite (bind_run _ _ _ k s) by (apply context_ok; by eapply load_key_fine).
  rewrite (bind_run _ _ _ roots s) by (apply context_ok; by eapply load_certs_fine).
  rewrite (bind_run _ _ _ tt s) by (by apply add_roots_fine). rewrite Hb, (bind_run _ _ _ tt s) by done. by rewrite Hi.
Qed.

Lemma client_load_fine s cert key ca name chain k roots t1 m1 t2 m2 t3 m3 : no_links s → faults s = [] →
  nodes s !! cert = Some (File t1 m1) → pem_certs t1 = Some <$> chain →
  nodes s !! key = Some (File t2 m2) → pem_key t2 = Some (Some k) →
  nodes s !! ca = Some (File t3 m3) → pem_certs t3 = Some <$> roots →
  Forall (λ c, adds_root c = true) roots → installs chain k = true → name_valid name = true →
  client_tls_load ca cert key name s = (Ok (mkClientTls roots chain k name), s).
Proof.
  intros Hs Hf N1 P1 N2 P2 N3 P3 Hr Hi Hv. unfold client_tls_load.
  rewrite (bind_run _ _ _ roots s) by (apply context_ok; by eapply load_certs_fine).
  rewrite (bind_run _ _ _ tt s) by (by apply add_roots_fine).
  rewrite (bind_run _ _ _ chain s) by (apply context_ok; by eapply load_certs_fine).
  rewrite (bind_run _ _ _ k s) by (apply context_ok; by eapply load_key_fine).
  rewrite Hi, (bind_run _ _ _ tt s) by done. by rewrite Hv.
Qed.

(** ** The two ends meet *)

(** The files of a directory, and of a copy of some of them. *)
Definition contents (s : files) (path : rstring) : option rstring :=
  match nodes s !! path with Some (File text _) => Some text | _ => None end.

Definition copied (names : list rstring) (from_dir to_dir : rstring) (s t : files) : Prop :=
  ∀ name, name ∈ names → contents t (path_join to_dir name) = contents s (path_join from_dir name).

Lemma copied_file names from to s t name text mode : copied names from to s t → name ∈ names →
  nodes s !! path_join from name = Some (File text mode) → ∃ m, nodes t !! path_join to name = Some (File text m).
Proof.
  intros Hc Hn H. specialize (Hc _ Hn). unfold contents in Hc. rewrite H in Hc. repeat case_match; simplify_eq; eauto.
Qed.

(** webpki: a chain that ends in one of the roots, whose leaf is for a purpose; a leaf for a name. *)
Context (anchored : list (list byte) → list (list byte) → Prop) (allows : ExtendedKeyUsagePurpose → list byte → Prop)
  (covers : list byte → rstring → Prop).

(** What each end makes of the other's chain. *)
Definition client_accepts (c : ClientTls) (chain : list (list byte)) : Prop :=
  anchored (server_roots c) chain ∧ ∃ leaf rest, chain = leaf :: rest ∧ allows ServerAuth leaf ∧ covers leaf (server_name c).
Definition server_accepts (s : ServerTls) (chain : list (list byte)) : Prop :=
  anchored (client_roots s) chain ∧ ∃ leaf rest, chain = leaf :: rest ∧ allows ClientAuth leaf.

Context {KeyPair Certificate : Type} (names_ok : list rstring → bool)
  (self_signed : CertificateParams → KeyPair → option Certificate)
  (signed_by : CertificateParams → KeyPair → Certificate → KeyPair → option Certificate)
  (cert_pem : Certificate → rstring) (key_pem : KeyPair → rstring)
  (key_from_pem : rstring → option KeyPair) (from_ca_cert_pem : rstring → option CertificateParams)
  (cert_der : Certificate → list byte) (key_der : KeyPair → list byte) (chains : rstring → rstring → Prop).

Abbreviation bootstrap := (tls_bootstrap names_ok self_signed signed_by cert_pem key_pem key_from_pem from_ca_cert_pem).

(** rcgen, as in [runs_trust_each_other]. *)
Hypothesis key_reads : ∀ k, key_from_pem (key_pem k) = Some k.
Hypothesis issued_chains : ∀ params k c ca leaf cak, self_signed params cak = Some ca →
  signed_by c k ca cak = Some leaf → chains (cert_pem ca) (cert_pem leaf).
Hypothesis rebuilt_chains : ∀ p0 p k c c' leaf, self_signed p0 k = Some c → from_ca_cert_pem (cert_pem c) = Some p →
  self_signed p k = Some c' → chains (cert_pem c') leaf → chains (cert_pem c) leaf.
(** What a reader finds in what it wrote. *)
Hypothesis reads_cert : ∀ c, pem_certs (cert_pem c) = [Some (cert_der c)].
Hypothesis reads_key : ∀ k, pem_key (key_pem k) = Some (Some (key_der k)).
(** rustls takes a certificate with its key, and an authority. *)
Hypothesis takes_leaf : ∀ p k ca cak c, signed_by p k ca cak = Some c → installs [cert_der c] (key_der k) = true.
Hypothesis takes_root : ∀ p k c, self_signed p k = Some c → adds_root (cert_der c) = true ∧ builds_verifier [cert_der c] = true.
(** webpki: what the authority signed is anchored in it, and is for what its parameters say. *)
Hypothesis anchors : ∀ ca c, chains (cert_pem ca) (cert_pem c) → anchored [cert_der ca] [cert_der c].
Hypothesis purposes : ∀ p k ca cak c u, signed_by p k ca cak = Some c → u ∈ extended_key_usages p → allows u (cert_der c).
Hypothesis names : ∀ p k ca cak c name, signed_by p k ca cak = Some c → name ∈ alt_names p → covers (cert_der c) name.

(** C21: the certificates of a run of the helper make the two ends of the control channel take
    each other: with the server's three files copied to the guest, and the client's variables
    at the files of the output directory, the daemon's flags and the client's environment
    load, and each end accepts the chain the other presents, for the name the client expects
    among those the server's certificate was made for. *)
Theorem mutual_tls_works sans out dir g1 g2 g3 s s1 host guest env cert key ca :
  no_links s → (some_ca out s → ∃ c, has_ca self_signed cert_pem key_pem out c s) →
  bootstrap sans out g1 g2 g3 s = (Ok tt, s1) →
  nodes host = nodes s1 → faults host = [] → no_links guest → faults guest = [] →
  copied [lit "server.pem"; lit "server.key.pem"; lit "ca.pem"] out dir s1 guest →
  cert = path_join dir (lit "server.pem") → key = path_join dir (lit "server.key.pem") → ca = path_join dir (lit "ca.pem") →
  env (lit "VBOX_TLS_CA") = Some (path_join out (lit "ca.pem")) →
  env (lit "VBOX_TLS_CERT") = Some (path_join out (lit "client.pem")) →
  env (lit "VBOX_TLS_KEY") = Some (path_join out (lit "client.key.pem")) →
  let name := resolve_tls_server_name (env (lit "VBOX_TLS_SERVER_NAME")) in
  name ∈ sans → name_valid name = true →
  ∃ server client, daemon_tls (Some cert) (Some key) (Some ca) guest = (Ok (Some server), guest) ∧
    load_client_tls env host = (Ok (Some client), host) ∧
    client_accepts client (server_chain server) ∧ server_accepts server (client_chain client).
Proof using key_reads issued_chains rebuilt_chains reads_cert reads_key takes_leaf takes_root anchors purposes names.
  intros Hs Hgood Hrun Hh Hfh Hg Hfg Hcopy -> -> -> E1 E2 E3 name Hname Hvalid.
  pose proof (bootstrap_no_links _ _ _ _ _ _ _ _ _ _ _ _ _ _ _ Hs Hrun) as H1.
  assert (no_links host) as Hlh by (intros p t; rewrite Hh; apply H1).
  eapply bootstrap_ok in Hrun as (a & l1 & k1 & l2 & k2 & (p & ka & m1 & m2 & Ha & A1 & _) & Srv & Cli); [|done..].
  destruct Srv as ((i1 & c1 & S1) & Ch1 & (m3 & A2) & A3), Cli as ((i2 & c2 & S2) & Ch2 & (m4 & A4) & A5).
  eapply copied_file in A2 as [m5 B2], A3 as [m6 B3]; [|exact Hcopy|set_solver..].
  pose proof A1 as B1. eapply copied_file in B1 as [m7 B1]; [|exact Hcopy|set_solver].
  rewrite <- Hh in A1, A4, A5. destruct (takes_root _ _ _ Ha) as [R1 R2].
  exists (mkServerTls [cert_der l1] (key_der k1) [cert_der a]), (mkClientTls [cert_der a] [cert_der l2] (key_der k2) name).
  split_and!.
  - unfold daemon_tls. cbn [classify_tls_flags]. erewrite bind_run; [reflexivity|].
    apply context_ok. eapply server_load_fine; eauto.
  - unfold load_client_tls. rewrite E1, E2, E3. cbn [validate_tls_env_triple]. erewrite bind_run; [reflexivity|].
    eapply client_load_fine; eauto.
  - split; [by apply anchors|]. eexists _, _. split; [done|]. split; [eapply purposes; [done|]; apply list_elem_of_here|by eapply names].
  - split; [by apply anchors|]. eexists _, _. split; [done|]. eapply purposes; [done|]. apply list_elem_of_here.
Qed.
End tls.

(** ** Witness *)

Module ToyTls.
#[local] Instance purpose_eq_dec : EqDecision ExtendedKeyUsagePurpose.
Proof. solve_decision. Defined.

(** A certificate: its key, its signer's, its purposes, its names. *)
Definition purpose_bit (u : ExtendedKeyUsagePurpose) (p : CertificateParams) : Z :=
  if decide (u ∈ extended_key_usages p) then 1 else 0.
Definition self_signed (p : CertificateParams) (k : Z) : option rstring := Some (k :: k :: 0 :: 0 :: common_name p).
Definition signed_by (p : CertificateParams) (k : Z) (_ : rstring) (ca_key : Z) : option rstring :=
  Some (k :: ca_key :: purpose_bit ServerAuth p :: purpose_bit ClientAuth p :: concat (alt_names p)).
Definition der (t : rstring) : list byte := byte_of_Z <$> t.
Definition pem_certs (t : rstring) : list (option (list byte)) := [Some (der t)].
Definition pem_key (t : rstring) : option (option (list byte)) := Some (Some (der t)).
Definition chains (ca leaf : rstring) : Prop := ca !! 0%nat = leaf !! 1%nat.
Definition anchored (roots chain : list (list byte)) : Prop :=
  (r ← head roots; (r : list byte) !! 0%nat) = (c ← head chain; (c : list byte) !! 1%nat).
Definition allows (u : ExtendedKeyUsagePurpose) (d : list byte) : Prop :=
  d !! (match u with ServerAuth => 2%nat | ClientAuth => 3%nat end) = Some (byte_of_Z 1).
Definition covers (d : list byte) (name : rstring) : Prop := ∃ a b, d = a ++ der name ++ b.

Lemma covers_names p k ca cak c name : signed_by p k ca cak = Some c → name ∈ alt_names p → covers (der c) name.
Proof.
  intros [= <-] (l1 & l2 & ->)%list_elem_of_split.
  exists (der (k :: cak :: purpose_bit ServerAuth p :: purpose_bit ClientAuth p :: concat l1)), (der (concat l2)).
  unfold der. rewrite <- !fmap_app, concat_app. reflexivity.
Qed.

Definition bootstrap := tls_bootstrap (λ _, true) self_signed signed_by id (λ k, [k]) head
  (λ t, Some (mkParams [] (drop 4 t) true [] [])).
Definition load_server := daemon_tls pem_certs pem_key (λ _, true) (λ _, true) (λ _ _, true).
Definition load_client := load_client_tls pem_certs pem_key (λ _, true) (λ _ _, true) (λ _, true).
End ToyTls.

Definition host_dir : rstring := lit "/h/tls".
Definition remote_dir : rstring := lit "/g/tls".
Definition minted : files := (ToyTls.bootstrap [lit "vbox-controld"; lit "vm"] host_dir (Some 1) (Some 2) (Some 3) (mkFiles ∅ 420 [])).2.
Definition copy_of (name : rstring) : node := File (default [] (contents minted (path_join host_dir name))) 420.
Definition guest_disk : files := mkFiles
  (<[lit "/g/tls/server.pem" := copy_of (lit "server.pem")]>
   (<[lit "/g/tls/server.key.pem" := copy_of (lit "server.key.pem")]>
    (<[lit "/g/tls/ca.pem" := copy_of (lit "ca.pem")]> ∅))) 420 [].
Definition tls_env (name : rstring) : option rstring :=
  if decide (name = lit "VBOX_TLS_CA") then Some (path_join host_dir (lit "ca.pem"))
  else if decide (name = lit "VBOX_TLS_CERT") then Some (path_join host_dir (lit "client.pem"))
  else if decide (name = lit "VBOX_TLS_KEY") then Some (path_join host_dir (lit "client.key.pem")) else None.

Lemma mutual_tls_works_witness : ∃ server client,
  ToyTls.load_server (Some (lit "/g/tls/server.pem")) (Some (lit "/g/tls/server.key.pem")) (Some (lit "/g/tls/ca.pem")) guest_disk
    = (Ok (Some server), guest_disk) ∧
  ToyTls.load_client tls_env minted = (Ok (Some client), minted) ∧
  client_accepts ToyTls.anchored ToyTls.allows ToyTls.covers client (server_chain server) ∧
  server_accepts ToyTls.anchored ToyTls.allows server (client_chain client).
Proof.
  refine (mutual_tls_works ToyTls.pem_certs ToyTls.pem_key (λ _, true) (λ _, true) (λ _ _, true) (λ _, true)
    ToyTls.anchored ToyTls.allows ToyTls.covers (λ _, true) ToyTls.self_signed ToyTls.signed_by id (λ k, [k]) head
    (λ t, Some (mkParams [] (drop 4 t) true [] [])) ToyTls.der (λ k, ToyTls.der [k]) ToyTls.chains
    _ _ _ _ _ _ _ _ _ _ [lit "vbox-controld"; lit "vm"] host_dir remote_dir (Some 1) (Some 2) (Some 3)
    (mkFiles ∅ 420 []) minted minted guest_disk tls_env _ _ _
    (empty_no_links []) _ (run_at _ _ _ _) eq_refl _ _ eq_refl _ eq_refl eq_refl eq_refl _ _ _ _ eq_refl).
  - done.
  - by intros ? ? ? ? ? ? [= <-] [= <-].
  - by intros ? ? ? ? ? ? [= <-] _ [= <-].
  - done.
  - done.
  - done.
  - done.
  - intros a c H. unfold ToyTls.anchored. cbn. unfold ToyTls.der. rewrite !list_lookup_fmap. by f_equal.
  - intros p k ca cak c u [= <-] Hu. unfold ToyTls.allows. destruct u; cbn; unfold ToyTls.purpose_bit; by rewrite decide_True.
  - exact ToyTls.covers_names.
  - intros Hca. by destruct (Hca _ (or_introl eq_refl)).
  - by vm_compute.
  - by vm_compute.
  - do 3 (apply (no_links_insert _ 420 []); [|done]). apply (empty_no_links []).
  - unfold copied. rewrite <- list.Forall_forall. repeat constructor; by vm_compute.
  - by vm_compute.
  - by vm_compute.
  - by vm_compute.
  - vm_compute. apply list_elem_of_here.
Defined.
