(* ===== verification/Install.v ===== *)
(** * Installing the daemon on a guest (crates/vbox-cli/src/runtime.rs)

    The commands of the tool that install, check and remove the control daemon, copy the TLS
    files to the guest and fetch the daemon's token, with the scripts they run there; and what
    the installed daemon and the client that is started afterwards make of them. Also the
    remaining small commands of the tool. *)

From S2P Require Import Prelude Text Wire Framing Shell Runtime Files ClientNet Ctl Certs Guest Stack.

(** ** The scripts *)

Definition unit_head : rstring :=
  text_lines
    [lit "mkdir -p ~$HOME/.config/systemd/user~"; lit "mkdir -p ~$dir/.vbox-controld~";
     lit "pkill -x vbox-controld 2>/dev/null || true";
     lit "cat > ~$HOME/.config/systemd/user/vbox-controld.service~ <<UNIT"; lit "[Unit]";
     lit "Description=vbox control daemon"; lit "After=default.target"; []; lit "[Service]"; lit "Type=simple";
     lit "WorkingDirectory=$dir"].

(** The command of the daemon in its unit, before the shell puts the variables in. *)
Definition exec_start : rstring :=
  lit "ExecStart=$controld_bin --bind 127.0.0.1 --port $port --work-dir $dir/.vbox-controld --server-bin $server_bin --token-file $dir/.vbox-controld/token $tls_flags".

Definition unit_tail : rstring :=
  text_lines
    [lit "Restart=always"; lit "RestartSec=2"; lit "KillMode=process";
     lit "StandardOutput=append:$dir/.vbox-controld/daemon.log"; lit "StandardError=append:$dir/.vbox-controld/daemon.log"; [];
     lit "[Install]"; lit "WantedBy=default.target"; lit "UNIT"; lit "systemctl --user daemon-reload";
     lit "systemctl --user reset-failed vbox-controld.service 2>/dev/null || true";
     lit "systemctl --user enable vbox-controld.service"; lit "systemctl --user restart vbox-controld.service";
     lit "for _ in {1..40}; do [[ -s ~$dir/.vbox-controld/token~ ]] && break; sleep 0.1; done";
     lit "systemctl --user is-active --quiet vbox-controld.service"] ++ lit "    ".

Definition assignment (name value : rstring) : rstring := name ++ lit "=" ++ shell_quote value.

Definition install_script (dir port tls_flags controld_bin server_bin : rstring) : rstring :=
  text_lines [lit "set -euo pipefail"]
  ++ assignment (lit "dir") dir ++ [10] ++ assignment (lit "port") port ++ [10]
  ++ assignment (lit "tls_flags") tls_flags ++ [10]
  ++ assignment (lit "controld_bin") controld_bin ++ [10] ++ assignment (lit "server_bin") server_bin ++ [10]
  ++ text_lines
       [lit "controld_bin=${controld_bin:-$(command -v vbox-controld 2>/dev/null || echo ~$dir/target/release/vbox-controld~)}";
        lit "server_bin=${server_bin:-$(command -v vbox-server 2>/dev/null || echo ~$dir/target/release/vbox-server~)}"]
  ++ unit_head ++ exec_start ++ [10] ++ unit_tail.

Definition quoted_text (s : rstring) : rstring := (λ c, if c =? 126 then 34 else c) <$> s.

Definition uninstall_script : rstring :=
  quoted_text (lit "systemctl --user disable --now vbox-controld.service >/dev/null 2>&1 || true; rm -f ~$HOME/.config/systemd/user/vbox-controld.service~; systemctl --user daemon-reload >/dev/null 2>&1 || true").

Definition failure_script (guest_dir : rstring) : rstring :=
  lit "systemctl --user status vbox-controld.service --no-pager | tail -n 20; journalctl --user -u vbox-controld.service -n 30 --no-pager || true; tail -30 "
  ++ shell_quote guest_dir ++ lit "/.vbox-controld/daemon.log 2>/dev/null || true; pgrep -af vbox-controld || true".

Definition bootstrap_script : rstring :=
  quoted_text (lit "loginctl enable-linger ~$USER~ 2>/dev/null || true; for g in audio render; do if getent group ~$g~ >/dev/null 2>&1; then sudo usermod -aG ~$g~ ~$USER~; fi; done").

Definition doctor_script : rstring :=
  lit "id; command -v cargo >/dev/null && cargo --version || echo 'cargo: missing'; command -v rustc >/dev/null && rustc --version || echo 'rustc: missing'; systemctl --user is-active vbox-controld.service || true".

(** ** The commands *)

Section install.
Context (env_var : rstring → option rstring) (is_file : rstring → bool) (ssh_opts : SshOptions).

Definition scp_command : command := apply_to_command ssh_opts (command_new (lit "scp")).

(** The names the server's certificate is made for. *)
Definition bootstrap_names (guest : rstring) : list rstring :=
  [lit "vbox-controld"; default (lit "127.0.0.1") (last (split 64 guest)); lit "127.0.0.1"].

Definition tls_bootstrap_command (ctx : AppContext) (sans : list rstring) (out_dir : option rstring) : command :=
  with_args ([lit "ctl"; lit "tls-bootstrap"] ++ (sans ≫= λ san, [lit "--san"; san])
             ++ [lit "--out-dir"; default (path_join (state_dir ctx) (lit "tls")) out_dir]) (client_command env_var ctx).

Definition tls_bootstrap (ctx : AppContext) (sans : list rstring) (out_dir : option rstring) : run_cmd unit :=
  sans ← match sans with [] => guest ← the_guest ctx; mret (bootstrap_names guest) | _ => mret sans end;
  process_run (tls_bootstrap_command ctx sans out_dir).

Definition tls_bootstrap_default (ctx : AppContext) : run_cmd unit := tls_bootstrap ctx [] None.

Definition guest_tls_dir (guest_dir : rstring) : rstring := path_join guest_dir (lit ".vbox-controld/tls").

Definition copy_tls_command (ctx : AppContext) (guest guest_dir : rstring) : command :=
  let tls_dir := path_join (state_dir ctx) (lit "tls") in
  with_args [lit "-q"; path_join tls_dir (lit "server.pem"); path_join tls_dir (lit "server.key.pem"); path_join tls_dir (lit "ca.pem");
             guest ++ lit ":" ++ guest_tls_dir guest_dir ++ lit "/"] scp_command.

Definition tls_flags_text (guest_dir : rstring) : rstring :=
  let dir := guest_tls_dir guest_dir in
  lit "--tls-cert " ++ dir ++ lit "/server.pem --tls-key " ++ dir ++ lit "/server.key.pem --tls-client-ca " ++ dir ++ lit "/ca.pem".

Definition install_tls (ctx : AppContext) : run_cmd rstring :=
  tls_bootstrap_default ctx ≫= λ _,
  guest ← the_guest ctx;
  dir ← the_guest_dir ctx;
  ssh ssh_opts ctx (lit "mkdir -p " ++ shell_quote (guest_tls_dir dir) ++ lit " && chmod 700 " ++ shell_quote (guest_tls_dir dir)) ≫= λ _,
  process_run (copy_tls_command ctx guest dir) ≫= λ _,
  mret (tls_flags_text dir).

Definition token_command (guest guest_dir : rstring) : command :=
  with_args [guest; lit "cat " ++ guest_dir ++ lit "/.vbox-controld/token"] (ssh_command ssh_opts).

(** Where the token is kept on the host. *)
Definition host_token_file (ctx : AppContext) : rstring :=
  default (path_join (state_dir ctx) (lit "control.token")) (env_var (lit "VBOX_CONTROL_TOKEN_FILE")).

(** [fetch_control_token]: what the guest prints, and the file it is written to. *)
Definition fetch_control_token (ctx : AppContext) (printed : rstring) : run_cmd (rstring * rstring) :=
  made ← next_answer;
  if negb made then Stack.fail Files_failed else
  dir ← the_guest_dir ctx;
  guest ← the_guest ctx;
  process_run (token_command guest dir) ≫= λ _,
  written ← next_answer;
  if written : bool then mret (host_token_file ctx, printed) else Stack.fail Files_failed.

(** The paths of a daemon and a server that the user has put on the guest, if any. *)
Definition controld_install (ctx : AppContext) (with_tls : bool) (controld_bin server_bin : option rstring) (printed : rstring) :
    run_cmd (rstring * rstring) :=
  (if build ctx then build_all ssh_opts ctx else mret tt) ≫= λ _,
  tls_flags ← (if with_tls then install_tls ctx else mret []);
  dir ← the_guest_dir ctx;
  ssh ssh_opts ctx (install_script dir (control_port env_var) tls_flags (default [] controld_bin) (default [] server_bin)) ≫= λ _,
  fetch_control_token ctx printed.

(** [ssh_status]: a script whose outcome does not matter, once there is a guest. *)
Definition ssh_status (ctx : AppContext) (script : rstring) : run_cmd unit :=
  guest ← the_guest ctx; Stack.ignore (process_run (with_args [guest; guest_command script] (ssh_command ssh_opts))).

Definition controld_uninstall (ctx : AppContext) : run_cmd unit := ssh ssh_opts ctx uninstall_script.

Definition controld_failure (ctx : AppContext) : run_cmd unit :=
  dir ← the_guest_dir ctx; ssh_status ctx (failure_script dir).

Definition bootstrap (ctx : AppContext) : run_cmd unit := ssh ssh_opts ctx bootstrap_script.

Definition doctor (ctx : AppContext) : run_cmd unit :=
  the_guest ctx ≫= λ _,
  the_guest_dir ctx ≫= λ _,
  Stack.ignore (process_run (with_args [lit "--version"] (command_new (lit "cargo")))) ≫= λ _,
  ssh_status ctx doctor_script.
End install.

(** ** The other commands of the tool *)

Section commands.
Context (env_var : rstring → option rstring) (is_file : rstring → bool) (ssh_opts : SshOptions)
  (decode_argv_b64 : rstring → option (list rstring)).

Definition find_record (cache : text_file) (query : rstring) : run_cmd AppRecord :=
  match find_app_record decode_argv_b64 cache query with Some row => mret row | None => Stack.fail (Unknown_app query) end.

(** [launch_id]: the stack and the viewer, for an application of the library; [cache]: the
    library, as it is once it has been read. *)
Definition launch_id (ctx : AppContext) (cache : text_file) (query : rstring) : run_cmd unit :=
  row ← find_record cache query;
  start_stack env_var is_file ssh_opts ctx ≫= λ _,
  start_viewer_bg env_var ctx ≫= λ _,
  wait_socket env_var is_file ctx ≫= λ _,
  launch_app env_var is_file ctx (argv row).

Definition launch_in_view (ctx : AppContext) (cache : text_file) (query : rstring) : run_cmd unit :=
  row ← find_record cache query;
  wait_socket env_var is_file ctx ≫= λ _,
  launch_app env_var is_file ctx (argv row).

(** What [bench_data_plane] and [stability_test] print. *)
Definition bench_data_plane (ctx : AppContext) (samples : option Z) : run_cmd rstring :=
  let n := default 10 samples in
  start_stack env_var is_file ssh_opts ctx ≫= λ _,
  '(ok, fail) ← (λ s, let '(counts, s') := ping_samples env_var ctx (Z.to_nat n) 0 0 s in (Ok counts, s')) : run_cmd (Z * Z);
  mret (join [9] [lit "transport"; lit "samples"; lit "ok"; lit "fail"] ++ [10]
       ++ join [9] [lit "tcp_ssh"; dec n; dec ok; dec fail] ++ [10]).

Definition stability_test (ctx : AppContext) (seconds : option Z) : run_cmd rstring :=
  let n := default 60 seconds in
  start_stack env_var is_file ssh_opts ctx ≫= λ _,
  '(ok, fail) ← (λ s, let '(counts, s') := ping_samples env_var ctx (Z.to_nat n) 0 0 s in (Ok counts, s')) : run_cmd (Z * Z);
  mret (lit "duration_s=" ++ dec n ++ lit " ping_ok=" ++ dec ok ++ lit " ping_fail=" ++ dec fail ++ [10]).

Definition input (ctx : AppContext) (event : rstring) (args : list rstring) : run_cmd unit :=
  process_run (with_args ([lit "input"; local_addr env_var ctx; lit "--id"; default (lit "1") (env_var (lit "VBOX_WINDOW_ID")); event] ++ args)
                 (client_command env_var ctx)).

Definition volume (ctx : AppContext) (level : Z) (mute unmute : bool) : run_cmd unit :=
  process_run (with_args ([lit "volume"; local_addr env_var ctx; lit "--level"; dec level]
                          ++ (if mute then [lit "--muted"] else []) ++ (if unmute then [lit "--unmuted"] else []))
                 (client_command env_var ctx)).

Definition processes (ctx : AppContext) : run_cmd unit :=
  ssh_status ssh_opts ctx (lit "ps -eo pid,lstart,comm,args | grep -E 'WAYLAND|gnome|vbox|vbox' || true").

Definition kill_pid (ctx : AppContext) (pids : list Z) : run_cmd unit :=
  ssh ssh_opts ctx (lit "kill " ++ join (lit " ") (dec <$> pids) ++ lit " 2>/dev/null || true").

(** [windows]: the viewer and the servers are asked for their dumps; [viewer]: the text of
    the viewer's pid file. *)
Definition windows (ctx : AppContext) (viewer : option rstring) : run_cmd unit :=
  match viewer with
  | Some pid => Stack.ignore (process_run (with_args [lit "-USR1"; trim pid] (command_new (lit "kill"))))
  | None => mret tt
  end ≫= λ _,
  ssh_status ssh_opts ctx
    (quoted_text (lit "for pid in $(pgrep -f 'target/release/vbox-server' 2>/dev/null); do kill -USR1 ~$pid~ 2>/dev/null || true; done")).

(** The command that shows the guest's logs. *)
Definition follow_receiver (ctx : AppContext) (guest dir : rstring) : rstring :=
  to_shell_string ssh_opts (lit "ssh") ++ lit " -t " ++ shell_quote guest ++ lit " 'cd " ++ shell_quote dir
  ++ lit " && tail -F .vbox/logs/" ++ shell_quote (instance ctx) ++ lit "/server.log .vbox/logs/" ++ shell_quote (instance ctx)
  ++ lit "/app.log'".

Definition follow_script (ctx : AppContext) (guest dir : rstring) : rstring :=
  lit "tail -F " ++ shell_quote (log_dir ctx) ++ lit "/*.log 2>/dev/null & local_pid=$!; " ++ follow_receiver ctx guest dir
  ++ lit " || true; kill $local_pid 2>/dev/null || true".

(** [logs] with [--follow]. *)
Definition follow_logs (ctx : AppContext) : run_cmd unit :=
  guest ← the_guest ctx;
  dir ← the_guest_dir ctx;
  process_run (with_args [lit "-lc"; follow_script ctx guest dir] (command_new (lit "bash"))).

Definition debug_bundle_text (ctx : AppContext) : rstring :=
  lit "root=" ++ root ctx ++ lit "
guest=" ++ default (lit "<unset>") (guest ctx) ++ lit "
guest_dir=" ++ default (lit "<unset>") (guest_dir ctx) ++ lit "
instance=" ++ instance ctx ++ lit "
port=" ++ dec (port ctx) ++ lit "
socket=" ++ Runtime.socket ctx ++ [10].

Definition debug_bundle (ctx : AppContext) : io unit :=
  create_dir_all (state_dir ctx);; write (path_join (state_dir ctx) (lit "debug-bundle.txt")) (debug_bundle_text ctx).
End commands.

(** ** What the guest makes of the script *)

(** The text of a here-document, its variables replaced. [name]: the variable being read. *)
Fixpoint expand (value : rstring → rstring) (name : option rstring) (s : rstring) : rstring :=
  match s, name with
  | [], None => []
  | [], Some n => value n
  | c :: s, None => if c =? 36 then expand value (Some []) s else c :: expand value None s
  | c :: s, Some n =>
      if is_ascii_alphanumeric c || (c =? 95) then expand value (Some (n ++ [c])) s
      else value n ++ (if c =? 36 then expand value (Some []) s else c :: expand value None s)
  end.

(** The words of the command in a unit, when no character has a meaning of its own there. *)
Definition exec_words (line : rstring) : list rstring := split_whitespace line.

Definition unit_char (c : char) : bool := ordinary c && negb (is_whitespace c) && negb (c =? 37).
Definition unit_word (v : rstring) : Prop := v ≠ [] ∧ Forall (λ c, unit_char c = true) v.

#[export] Instance unit_word_dec v : Decision (unit_word v).
Proof. unfold unit_word. apply _. Defined.

(** The value of an option among the arguments of the daemon, which all take one. *)
Fixpoint flag_value (name : rstring) (args : list rstring) : option rstring :=
  match args with
  | flag :: value :: rest => if bool_decide (flag = name) then Some value else flag_value name rest
  | _ => None
  end.

(** An environment with what the tool sets for a process. *)
Definition child_env (own : rstring → option rstring) (c : command) (k : rstring) : option rstring :=
  foldl (λ found kv, if bool_decide (kv.1 = k) then Some kv.2 else found) (own k) (vars c).

(** ** Lemmas *)

Lemma assignment_word name value : name ≠ [] → Forall (λ c, ordinary c = true) name →
  words (assignment name value) = Some [name ++ lit "=" ++ value].
Proof.
  intros Hn Ho. unfold words, assignment. rewrite app_assoc, read_plain.
  - rewrite <- (app_nil_r (shell_quote value)), read_quoted. cbn. by rewrite <- app_assoc.
  - by destruct name.
  - apply Forall_app. split; [done|]. by repeat constructor.
Qed.

Lemma unit_word_split v : unit_word v → v ≠ [] ∧ plain is_whitespace v.
Proof.
  intros [Hn Hv]. split; [done|]. intros c Hc. rewrite Forall_forall in Hv. specialize (Hv c Hc).
  unfold unit_char in Hv. destruct (is_whitespace c); [|done]. by rewrite andb_false_r in Hv.
Qed.

Lemma unit_word_app a b : unit_word a → Forall (λ c, unit_char c = true) b → unit_word (a ++ b).
Proof. intros [Hn Ha] Hb. split; [by destruct a|by apply Forall_app]. Qed.

Lemma unit_word_prepend a b : Forall (λ c, unit_char c = true) a → unit_word b → unit_word (a ++ b).
Proof. intros Ha [Hn Hb]. split; [by intros [_ ?]%app_eq_nil|by apply Forall_app]. Qed.

Lemma split_spaced ws rest : Forall unit_word ws →
  split_whitespace ((ws ≫= λ w, w ++ [32]) ++ rest) = ws ++ split_whitespace rest.
Proof.
  induction 1 as [|w ws [Hn Hw]%unit_word_split _ IH]; [done|]. rewrite bind_cons, <- !app_assoc.
  change ([32] ++ ?x) with (32 :: x). cbn [app]. by rewrite split_whitespace_word, IH.
Qed.

Lemma join_unit dir name : unit_word dir → last dir ≠ Some 47 → head name ≠ Some 47 → path_join dir name = dir ++ 47 :: name.
Proof.
  intros [Hn _] Hl Hh. rewrite path_join_prefix by done. unfold dir_prefix.
  rewrite bool_decide_false by naive_solver. by rewrite <- app_assoc.
Qed.

(** The variables of the script when its here-document is read: of the daemon and the server
    what the user gave, or what the guest found. *)
Definition script_vars (dir port tls_flags controld_bin server_bin name : rstring) : rstring :=
  if bool_decide (name = lit "dir") then dir else if bool_decide (name = lit "port") then port
  else if bool_decide (name = lit "tls_flags") then tls_flags
  else if bool_decide (name = lit "controld_bin") then controld_bin
  else if bool_decide (name = lit "server_bin") then server_bin else [].

Definition daemon_words (dir port controld_bin server_bin : rstring) : list rstring :=
  [lit "ExecStart=" ++ controld_bin; lit "--bind"; lit "127.0.0.1"; lit "--port"; port;
   lit "--work-dir"; dir ++ lit "/.vbox-controld"; lit "--server-bin"; server_bin;
   lit "--token-file"; dir ++ lit "/.vbox-controld/token"].

Definition tls_words (dir : rstring) : list rstring :=
  [lit "--tls-cert"; dir ++ lit "/.vbox-controld/tls/server.pem"; lit "--tls-key"; dir ++ lit "/.vbox-controld/tls/server.key.pem";
   lit "--tls-client-ca"; dir ++ lit "/.vbox-controld/tls/ca.pem"].

Lemma daemon_words_unit dir port cb sb : unit_word dir → unit_word port → unit_word cb → unit_word sb →
  Forall unit_word (daemon_words dir port cb sb).
Proof.
  intros Hd Hp Hc Hs. repeat (apply Forall_cons; split); try apply Forall_nil_2;
    try done; try (by apply (bool_decide_unpack _)); try (apply unit_word_app; [done|by apply (bool_decide_unpack _)]).
  apply unit_word_prepend; [by apply (bool_decide_unpack _)|done].
Qed.

Lemma tls_words_unit dir : unit_word dir → Forall unit_word (tls_words dir).
Proof.
  intros Hd. repeat (apply Forall_cons; split); try apply Forall_nil_2; try (by apply (bool_decide_unpack _));
    apply unit_word_app; first [done|by apply (bool_decide_unpack _)].
Qed.

Lemma exec_start_line dir port tls cb sb :
  expand (script_vars dir port tls cb sb) None exec_start = (daemon_words dir port cb sb ≫= λ w, w ++ [32]) ++ tls.
Proof.
  assert (expand (script_vars dir port tls cb sb) None exec_start =
    lit "ExecStart=" ++ cb ++ lit " --bind 127.0.0.1 --port " ++ port ++ lit " --work-dir " ++ dir
    ++ lit "/.vbox-controld --server-bin " ++ sb ++ lit " --token-file " ++ dir ++ lit "/.vbox-controld/token " ++ tls) as ->
    by reflexivity.
  unfold daemon_words. rewrite !bind_cons, <- !app_assoc. reflexivity.
Qed.

Lemma tls_flags_line dir : unit_word dir → last dir ≠ Some 47 → split_whitespace (tls_flags_text dir) = tls_words dir.
Proof.
  intros Hd Hl. pose proof (tls_words_unit dir Hd) as Hw.
  assert (tls_flags_text dir = (take 5 (tls_words dir) ≫= λ w, w ++ [32]) ++ (dir ++ lit "/.vbox-controld/tls/ca.pem")) as ->.
  { unfold tls_flags_text, guest_tls_dir. rewrite join_unit by done. unfold tls_words. cbn [take].
    rewrite !bind_cons, <- !app_assoc. reflexivity. }
  rewrite split_spaced by (by apply Forall_take). unfold tls_words in *.
  rewrite !Forall_cons in Hw. destruct Hw as (_ & _ & _ & _ & _ & [? ?]%unit_word_split & _).
  by rewrite split_whitespace_last.
Qed.

(** C23: an installed daemon is where the tool looks for it. For a directory of plain
    characters the unit's command starts the daemon on the port the tool connects to, with the
    token in the very file that the tool then fetches, and with mutual TLS from the very files
    it copied, or without TLS at all; and whatever the directory is, the script has it right. *)
Theorem installed_daemon env_var ssh_opts ctx guest dir (with_tls : bool) controld_bin server_bin :
  let port := control_port env_var in
  unit_word dir → last dir ≠ Some 47 → unit_word port → unit_word controld_bin → unit_word server_bin →
  let tls := if with_tls then tls_flags_text dir else [] in
  let ws := tail (exec_words (expand (script_vars dir port tls controld_bin server_bin) None exec_start)) in
  let copied file := path_join (guest_tls_dir dir) file in
  (∀ any, words (assignment (lit "dir") any) = Some [lit "dir=" ++ any])
  ∧ flag_value (lit "--port") ws = Some port
  ∧ words (lit "cat " ++ dir ++ lit "/.vbox-controld/token")
    = Some [lit "cat"; resolve_token_path (flag_value (lit "--token-file") ws) (default [] (flag_value (lit "--work-dir") ws))]
  ∧ classify_tls_flags (flag_value (lit "--tls-cert") ws) (flag_value (lit "--tls-key") ws) (flag_value (lit "--tls-client-ca") ws)
    = (if with_tls then Flags_Mtls (copied (lit "server.pem")) (copied (lit "server.key.pem")) (copied (lit "ca.pem")) else Flags_Plain)
  ∧ (∃ opts, args (copy_tls_command ssh_opts ctx guest dir)
      = opts ++ (path_join (path_join (state_dir ctx) (lit "tls")) <$> [lit "server.pem"; lit "server.key.pem"; lit "ca.pem"])
        ++ [guest ++ lit ":" ++ guest_tls_dir dir ++ lit "/"]).
Proof.
  intros port Hd Hl Hp Hc Hs tls ws copied.
  assert (ws = tail (daemon_words dir port controld_bin server_bin ++ if with_tls then tls_words dir else [])) as ->.
  { unfold ws, exec_words. rewrite exec_start_line, split_spaced by (by apply daemon_words_unit).
    unfold tls. destruct with_tls; [by rewrite tls_flags_line|done]. }
  unfold copied, guest_tls_dir. rewrite (join_unit dir) by done. split_and!.
  - intros any. by apply assignment_word; [|repeat constructor].
  - by destruct with_tls.
  - assert (flag_value (lit "--token-file") (tail (daemon_words dir port controld_bin server_bin ++
      if with_tls then tls_words dir else [])) = Some (dir ++ lit "/.vbox-controld/token")) as -> by (by destruct with_tls).
    unfold words. change (lit "cat " ++ ?x) with (lit "cat" ++ 32 :: x). rewrite read_plain by (done || by repeat constructor).
    rewrite read_space. unfold words. rewrite <- (app_nil_r (dir ++ lit "/.vbox-controld/token")), read_plain; [by cbn; rewrite app_nil_r|by destruct Hd as [? _]; destruct dir|].
    apply Forall_app. split; [|by repeat constructor]. destruct Hd as [_ Hd]. eapply Forall_impl; [exact Hd|].
    intros c Hc'. unfold unit_char in Hc'. by destruct (ordinary c).
  - assert (∀ file, head file ≠ Some 47 → path_join (dir ++ 47 :: lit ".vbox-controld/tls") file
      = dir ++ lit "/.vbox-controld/tls/" ++ file) as Hf.
    { intros file Hh. rewrite path_join_prefix by done. unfold dir_prefix. rewrite bool_decide_false; [by rewrite <- !app_assoc|].
      rewrite last_app. cbn. intros [E|E]; [by destruct dir|done]. }
    rewrite !Hf by done. by destruct with_tls.
  - exists (args (scp_command ssh_opts) ++ [lit "-q"]). unfold copy_tls_command, guest_tls_dir, with_args. cbn [args].
    rewrite (join_unit dir) by done. rewrite <- (app_assoc (args _)). reflexivity.
Qed.

(** With no file of TLS on the host, the client is started in the user's own environment. *)
Lemma plain_child env_var is_file ctx k : is_file (path_join (path_join (state_dir ctx) (lit "tls")) (lit "ca.pem")) = false →
  child_env env_var (client_ctl_command env_var is_file ctx) k = env_var k.
Proof. intros H. unfold client_ctl_command, add_default_tls_env. by rewrite H. Qed.

(** C40: the fetched token reaches the client only through the user's environment. After an
    installation without TLS the client finds the token where it was fetched to if the user
    has named that file in VBOX_CONTROL_TOKEN_FILE; otherwise the token lies in a file that
    nothing names, and every control command fails, telling the user to install again. *)
Theorem token_needs_environment `{C : Codec Message} env_var is_file ctx h :
  env_var (lit "VBOX_CONTROL_TOKEN") = None → env_var (lit "VBOX_TLS_CA") = None → env_var (lit "VBOX_TLS_CERT") = None →
  env_var (lit "VBOX_TLS_KEY") = None → is_file (path_join (path_join (state_dir ctx) (lit "tls")) (lit "ca.pem")) = false →
  Ctl.env_var h = child_env env_var (client_ctl_command env_var is_file ctx) →
  match env_var (lit "VBOX_CONTROL_TOKEN_FILE") with
  | Some file => host_token_file env_var ctx = file ∧
      ∀ text, read_file h file = Ok text → trim text ≠ [] → load_token h = Ok (trim text)
  | None => host_token_file env_var ctx = path_join (state_dir ctx) (lit "control.token") ∧
      (∃ advice, load_token h = Err (Local_error (lit "set VBOX_CONTROL_TOKEN or VBOX_CONTROL_TOKEN_FILE " ++ advice))) ∧
      ∀ version method c, is_ok (call version h method c).1 = false
  end.
Proof.
  intros Htok Hca Hcert Hkey Hfile Henv.
  assert (∀ k, Ctl.env_var h k = env_var k) as He by (intros k; rewrite Henv; by apply plain_child).
  assert (load_token h = resolve_token None (env_var (lit "VBOX_CONTROL_TOKEN_FILE")) (read_file h)) as Hload
    by (unfold load_token; by rewrite !He, Htok).
  unfold host_token_file. destruct (env_var (lit "VBOX_CONTROL_TOKEN_FILE")) as [file|].
  - split; [done|]. intros text Ht Hne. rewrite Hload. unfold resolve_token. cbn. rewrite Ht. cbn. by destruct (trim text).
  - split_and!; [done|rewrite Hload; by eexists|]. intros version method c.
    assert (load_client_tls h = Ok false) as Htls by (unfold load_client_tls; by rewrite !He, Hca, Hcert, Hkey).
    unfold call, exchange. rewrite Htls. unfold authenticate_call, lift. rewrite Hload.
    unfold mbind, prog_bind, mret, prog_ret, resolve_token. cbn [fmap option_fmap option_map].
    repeat (case_match; try done).
Qed.

(** With the files of TLS in place, the client that the tool starts authenticates with
    them. Unless the user has chosen otherwise it uses the three files that the tool's
    bootstrap wrote, and expects the server under a name that the server's certificate was
    made for: whatever way the daemon was installed last. *)
Theorem tls_client_agrees env_var is_file ctx guest h :
  let tls := path_join (state_dir ctx) (lit "tls") in
  let own := [lit "VBOX_TLS_CA"; lit "VBOX_TLS_CERT"; lit "VBOX_TLS_KEY"; lit "VBOX_TLS_SERVER_NAME"] in
  let files := (path_join tls (lit "ca.pem"), path_join tls (lit "client.pem"), path_join tls (lit "client.key.pem")) in
  Forall (λ k, env_var k = None) own →
  is_file files.1.1 = true → is_file files.1.2 = true → is_file files.2 = true →
  Ctl.env_var h = child_env env_var (client_ctl_command env_var is_file ctx) →
  let sans := bootstrap_names guest in
  ∃ name, load_client_tls h = (_ ← tls_config h files name; Ok true)
    ∧ name ∈ alt_names (server_params sans)
    ∧ ∃ opts, args (tls_bootstrap_command env_var ctx sans None) = opts ++ [lit "--out-dir"; tls].
Proof.
  intros tls own files Hown H1 H2 H3 Henv sans.
  unfold own in Hown. rewrite !Forall_cons in Hown. destruct Hown as (Eca & Ecert & Ekey & Ename & _).
  assert (∀ k, Ctl.env_var h k = foldl (λ found kv, if bool_decide (kv.1 = k) then Some kv.2 else found) (env_var k)
    [(lit "VBOX_TLS_CA", files.1.1); (lit "VBOX_TLS_CERT", files.1.2); (lit "VBOX_TLS_KEY", files.2);
     (lit "VBOX_TLS_SERVER_NAME", lit "vbox-controld")]) as He.
  { intros k. rewrite Henv. unfold child_env, client_ctl_command, add_default_tls_env.
    cbv [files tls fst snd] in H1, H2, H3. rewrite H1, H2, H3. cbn [andb negb]. rewrite Eca, Ecert, Ekey, Ename. reflexivity. }
  exists (lit "vbox-controld"). split_and!.
  - unfold load_client_tls. rewrite !He. reflexivity.
  - left.
  - eexists. unfold tls_bootstrap_command, with_args. cbn [args]. rewrite !app_assoc. reflexivity.
Qed.

(** ** Witnesses *)

Definition host_env (name : rstring) : option rstring := None.
Definition here : AppContext :=
  mkAppContext (lit "/repo") (lit "/repo/.vbox") (lit "/repo/vbox") (Some (lit "user@guest")) (Some (lit "/home/user/vbox"))
    (lit "default") 5710 (lit "vbox-0") 1280 800 false false.

(** A directory with a space: the token is read from two files that do not exist, and the
    logs from a directory that is not there. *)
Example spaced_directory :
  words (default [] (last (args (token_command (mkSshOptions [] []) (lit "guest") (lit "/home/my vbox")))))
  = Some [lit "cat"; lit "/home/my"; lit "vbox/.vbox-controld/token"] ∧
  words (follow_receiver (mkSshOptions [] []) here (lit "guest") (lit "/home/my vbox"))
  = Some [lit "ssh"; lit "-t"; lit "guest"; lit "cd /home/my";
          lit "vbox && tail -F .vbox/logs/default/server.log .vbox/logs/default/app.log"].
Proof. by vm_compute. Qed.

Lemma installed_daemon_witness :
  let dir := lit "/home/user/vbox" in
  let ws := tail (exec_words (expand (script_vars dir (lit "5711") (tls_flags_text dir) (lit "/usr/bin/vbox-controld")
                                       (lit "/usr/bin/vbox-server")) None exec_start)) in
  control_port host_env = lit "5711" ∧ unit_word dir ∧
  classify_tls_flags (flag_value (lit "--tls-cert") ws) (flag_value (lit "--tls-key") ws) (flag_value (lit "--tls-client-ca") ws)
  = Flags_Mtls (lit "/home/user/vbox/.vbox-controld/tls/server.pem") (lit "/home/user/vbox/.vbox-controld/tls/server.key.pem")
      (lit "/home/user/vbox/.vbox-controld/tls/ca.pem").
Proof.
  intros dir ws. split_and!; [by vm_compute|by apply (bool_decide_unpack _); vm_compute|].
  refine (proj1 (proj2 (proj2 (proj2 (installed_daemon host_env (mkSshOptions [] []) here (lit "user@guest") dir true
    (lit "/usr/bin/vbox-controld") (lit "/usr/bin/vbox-server") _ _ _ _ _)))));
    first [by apply (bool_decide_unpack _); vm_compute | by vm_compute].
Defined.

#[local] Existing Instances ToyDialogue.codec.

(** The host of a user who has set nothing, or the name of the token's file. *)
Definition plain_user (named : bool) : ctl_host :=
  mkCtlHost (λ k, if named && bool_decide (k = lit "VBOX_CONTROL_TOKEN_FILE") then Some (lit "/repo/.vbox/control.token") else None)
    (λ path, Ok (lit "secret" ++ [10])) (λ _ _, Ok tt).

Lemma token_needs_environment_witness :
  is_ok (call (lit "1.0") (plain_user false) Rpc_Status (mkLine (Some 0) [] [] (replicate 9 0) 0)).1 = false ∧
  load_token (plain_user true) = Ok (lit "secret").
Proof.
  split.
  - refine (proj2 (proj2 (token_needs_environment (Ctl.env_var (plain_user false)) (λ _, false) here (plain_user false) _ _ _ _ _ _)) _ _ _);
      reflexivity.
  - refine (proj2 (token_needs_environment (Ctl.env_var (plain_user true)) (λ _, false) here (plain_user true) _ _ _ _ _ _)
      (lit "secret" ++ [10]) _ _); first [reflexivity | by vm_compute].
Defined.

Definition tls_user : ctl_host :=
  mkCtlHost (child_env host_env (client_ctl_command host_env (λ _, true) here)) (λ _, Err Net_connect) (λ _ _, Ok tt).

Lemma tls_client_agrees_witness : load_client_tls tls_user = Ok true ∧
  lit "vbox-controld" ∈ alt_names (server_params (bootstrap_names (lit "user@guest"))).
Proof.
  destruct (tls_client_agrees host_env (λ _, true) here (lit "user@guest") tls_user) as (name & Htls & _); try reflexivity.
  - repeat constructor.
  - split; [by rewrite Htls|left].
Defined.
