(* ===== verification/Clip.v ===== *)
(** * The clipboard bridge of the client (crates/client/src/clipboard.rs)

    Two threads share two caches and the pasteboard: the installer writes what the guest
    copied to the pasteboard, the poller relays what the pasteboard holds to the guest. A
    run is a sequence of the atomic actions of the threads, of the user and of the guest, in
    any interleaving; each action is a function on the state of the bridge, [None] where the
    thread is elsewhere. *)

From S2P Require Import Prelude Wire Compositor CompositorProofs.

(** ** The state *)

(** Where the installer is: waiting on its channel, about to write a text to the pasteboard,
    about to remember it. *)
Inductive installer_pc := Inst_waiting | Inst_write (text : rstring) | Inst_remember (text : rstring).

(** Where the poller is: asleep, about to compare a text with what was installed, about to
    send it. *)
Inductive poller_pc := Poll_asleep | Poll_compare (text : rstring) | Poll_send (text : rstring).

(** [pasteboard] is [None] while it holds no text. [copies] is what the user copied so far;
    [by_guest] tells whose text is on the pasteboard. Both are there for the statements. *)
Record bridge := mkBridge {
  pasteboard : option rstring;
  change_count : Z;
  last_installed_from_guest : option rstring;
  last_sent_to_guest : option rstring;
  inbound : list Clipboard;
  installer : installer_pc;
  poller : poller_pc;
  last_change_count : option Z;
  serial : Z;
  outbound : list Clipboard;
  copies : list rstring;
  by_guest : bool
}.

Definition bridge_start (pasteboard : option rstring) (count : Z) : bridge :=
  mkBridge pasteboard count None None [] Inst_waiting Poll_asleep None 0 []
    (from_option (λ t, [t]) [] pasteboard) false.

(** ** The decisions *)

Definition should_relay_to_guest (text : rstring) (last_installed : option rstring) : bool :=
  if MAX_CLIPBOARD_TEXT_BYTES <? str_len text then false
  else negb (bool_decide (last_installed = Some text)).

Definition should_install_from_guest (payload : Clipboard) (last_sent : option rstring) : bool :=
  match clip_origin payload with
  | Origin_Host => false
  | Origin_Guest =>
      if MAX_CLIPBOARD_TEXT_BYTES <? str_len (clip_text payload) then false
      else negb (bool_decide (last_sent = Some (clip_text payload)))
  end.

Definition pasteboard_change_detected (prev_count : option Z) (current_count : Z) : option Z :=
  if bool_decide (prev_count = Some current_count) then None else Some current_count.

Definition next_outbound_serial (prev : Z) : Z := sat_add u64_max prev 1.

(** ** The threads *)

(** The installer takes a payload from its channel and decides. *)
Definition installer_take (s : bridge) : option bridge :=
  match installer s, inbound s with
  | Inst_waiting, payload :: rest =>
      let pc := if should_install_from_guest payload (last_sent_to_guest s)
                then Inst_write (clip_text payload) else Inst_waiting in
      Some (mkBridge (pasteboard s) (change_count s) (last_installed_from_guest s) (last_sent_to_guest s) rest pc
              (poller s) (last_change_count s) (serial s) (outbound s) (copies s) (by_guest s))
  | _, _ => None
  end.

(** [install_pasteboard_text]: a change of the pasteboard like any other. *)
Definition installer_write (s : bridge) : option bridge :=
  match installer s with
  | Inst_write text =>
      Some (mkBridge (Some text) (change_count s + 1) (last_installed_from_guest s) (last_sent_to_guest s) (inbound s)
              (Inst_remember text) (poller s) (last_change_count s) (serial s) (outbound s) (copies s) true)
  | _ => None
  end.

Definition installer_remember (s : bridge) : option bridge :=
  match installer s with
  | Inst_remember text =>
      Some (mkBridge (pasteboard s) (change_count s) (Some text) (last_sent_to_guest s) (inbound s) Inst_waiting
              (poller s) (last_change_count s) (serial s) (outbound s) (copies s) (by_guest s))
  | _ => None
  end.

(** [read_pasteboard_text_if_changed]: a pasteboard without text leaves the count alone. *)
Definition poller_read (s : bridge) : option bridge :=
  match poller s with
  | Poll_asleep =>
      match pasteboard_change_detected (last_change_count s) (change_count s), pasteboard s with
      | Some count, Some text =>
          let pc := if MAX_CLIPBOARD_TEXT_BYTES <? str_len text then Poll_asleep else Poll_compare text in
          Some (mkBridge (pasteboard s) (change_count s) (last_installed_from_guest s) (last_sent_to_guest s)
                  (inbound s) (installer s) pc (Some count) (serial s) (outbound s) (copies s) (by_guest s))
      | _, _ => Some s
      end
  | _ => None
  end.

(** The comparison, and the cache of what is about to be sent. *)
Definition poller_compare (s : bridge) : option bridge :=
  match poller s with
  | Poll_compare text =>
      if bool_decide (last_installed_from_guest s = Some text)
      then Some (mkBridge (pasteboard s) (change_count s) (last_installed_from_guest s) (last_sent_to_guest s)
                   (inbound s) (installer s) Poll_asleep (last_change_count s) (serial s) (outbound s) (copies s) (by_guest s))
      else Some (mkBridge (pasteboard s) (change_count s) (last_installed_from_guest s) (Some text)
                   (inbound s) (installer s) (Poll_send text) (last_change_count s) (serial s) (outbound s) (copies s) (by_guest s))
  | _ => None
  end.

Definition poller_send (s : bridge) : option bridge :=
  match poller s with
  | Poll_send text =>
      let serial := next_outbound_serial (serial s) in
      Some (mkBridge (pasteboard s) (change_count s) (last_installed_from_guest s) (last_sent_to_guest s) (inbound s)
              (installer s) Poll_asleep (last_change_count s) serial
              (outbound s ++ [mkClipboard Origin_Host serial text]) (copies s) (by_guest s))
  | _ => None
  end.

(** The user copies a text or something else; a payload of the guest arrives. *)
Definition user_copy (text : option rstring) (s : bridge) : bridge :=
  mkBridge text (change_count s + 1) (last_installed_from_guest s) (last_sent_to_guest s) (inbound s) (installer s)
    (poller s) (last_change_count s) (serial s) (outbound s) (copies s ++ from_option (λ t, [t]) [] text) false.

Definition payload_arrives (payload : Clipboard) (s : bridge) : bridge :=
  mkBridge (pasteboard s) (change_count s) (last_installed_from_guest s) (last_sent_to_guest s)
    (inbound s ++ [payload]) (installer s) (poller s) (last_change_count s) (serial s) (outbound s) (copies s) (by_guest s).

(** ** Runs *)

Inductive action :=
  | Take | Write | Remember
  | Read | Compare | Send_clip
  | Copy (text : option rstring)
  | Arrive (payload : Clipboard).

Definition act (l : action) (s : bridge) : option bridge :=
  match l with
  | Take => installer_take s
  | Write => installer_write s
  | Remember => installer_remember s
  | Read => poller_read s
  | Compare => poller_compare s
  | Send_clip => poller_send s
  | Copy text => Some (user_copy text s)
  | Arrive payload => Some (payload_arrives payload s)
  end.

Fixpoint run (ls : list action) (s : bridge) : option bridge :=
  match ls with
  | [] => Some s
  | l :: ls' => s' ← act l s; run ls' s'
  end.

(** A schedule under which the two threads never meet: the pasteboard is not read between
    being written and remembered, nor written between being read and compared. *)
Definition apart (l : action) (s : bridge) : bool :=
  match l, installer s, poller s with
  | Read, Inst_remember _, _ | Write, _, Poll_compare _ => false
  | _, _, _ => true
  end.

Fixpoint runs_apart (ls : list action) (s : bridge) : bool :=
  match ls with
  | [] => true
  | l :: ls' => apart l s && match act l s with Some s' => runs_apart ls' s' | None => true end
  end.

(** ** What any run sends

    Whatever the schedule, the clips that go out are numbered from 1 on, tagged as the
    host's, and within the cap. *)

Definition fits (text : rstring) : Prop := str_len text ≤ MAX_CLIPBOARD_TEXT_BYTES.

Record Sent_ok (s : bridge) : Prop := {
  so_serial : serial s = Z.min (Z.of_nat (length (outbound s))) u64_max;
  so_clips (i : nat) p : outbound s !! i = Some p →
    clip_origin p = Origin_Host ∧ clip_serial p = Z.min (Z.of_nat i + 1) u64_max ∧ fits (clip_text p);
  so_poller : match poller s with Poll_asleep => True | Poll_compare t | Poll_send t => fits t end
}.

(** The steps of [act], one goal each. *)
Ltac act_cases H :=
  match type of H with act ?l ?s = Some _ =>
    destruct l; cbn in H;
    unfold installer_take, installer_write, installer_remember, poller_read, poller_compare, poller_send,
      user_copy, payload_arrives, pasteboard_change_detected in H;
    repeat split_match_in H; simplify_eq/=
  end.

Lemma act_sent_ok l s s' : act l s = Some s' → Sent_ok s → Sent_ok s'.
Proof.
  intros H [Hser Hclips Hpoll]. destruct s; cbn in *. act_cases H; split; cbn in *; bool_to_prop; try done.
  - by destruct (Z.ltb_spec MAX_CLIPBOARD_TEXT_BYTES (str_len l)).
  - unfold next_outbound_serial, sat_add. rewrite length_app. cbn. lia.
  - intros i p [Hp|[Hi Hp]]%lookup_app_Some; [by apply Hclips|].
    apply list_lookup_singleton_Some in Hp as [Hi' <-]. cbn. split_and!; [done| |done].
    unfold next_outbound_serial, sat_add. assert (i = length outbound0) as -> by lia. lia.
Qed.

Lemma run_sent_ok ls s s' : run ls s = Some s' → Sent_ok s → Sent_ok s'.
Proof.
  revert s. induction ls as [|l ls IH]; intros s H Hs; cbn in H; [by simplify_eq|].
  apply bind_Some in H as (s1 & H1 & H2). eauto using act_sent_ok.
Qed.

Lemma bridge_start_sent_ok pb count : Sent_ok (bridge_start pb count).
Proof. split; cbn; [unfold u64_max; lia|by intros ? ? ?|done]. Qed.

(** ** Schedules that keep the threads apart *)

(** What the poller is committed to sending. *)
Definition pending (pc : poller_pc) (installed : option rstring) : list rstring :=
  match pc with
  | Poll_asleep => []
  | Poll_compare t => if bool_decide (installed = Some t) then [] else [t]
  | Poll_send t => [t]
  end.

Definition sent (s : bridge) : list rstring :=
  (clip_text <$> outbound s) ++ pending (poller s) (last_installed_from_guest s).

Definition seen (s : bridge) : Prop := last_change_count s = Some (change_count s).

(** What is true between two actions. A text of the guest on the pasteboard is one the
    installer remembers or is about to; what was sent is what the user copied, in order, and
    the last copy is among it once the poller has seen it. *)
Record Apart_ok (s : bridge) : Prop := {
  ao_count c : last_change_count s = Some c → c ≤ change_count s;
  ao_sent : sent s `sublist_of` copies s;
  ao_unseen t : ¬ seen s → by_guest s = false → pasteboard s = Some t →
    ∃ pre, copies s = pre ++ [t] ∧ sent s `sublist_of` pre;
  ao_guest : by_guest s = true → ∃ t, pasteboard s = Some t ∧
    match installer s with Inst_remember u => u = t | _ => last_installed_from_guest s = Some t end;
  ao_remember t : installer s = Inst_remember t →
    ¬ seen s ∧ match poller s with Poll_compare _ => False | _ => True end;
  ao_relayed t : seen s → by_guest s = false → pasteboard s = Some t → fits t →
    last (sent s) = Some t ∨ last_installed_from_guest s = Some t
}.

Lemma bridge_start_apart_ok pb count : Apart_ok (bridge_start pb count).
Proof.
  split; cbn; try done.
  - apply sublist_nil_l.
  - intros t _ _ ->. exists []. split; [done|apply sublist_nil_l].
Qed.

(** Opens the invariant, and closes what the step leaves alone. *)
Ltac open_apart s :=
  intros [Hcount Hsent Hun Hg Hrem Hrel]; destruct s; unfold sent, seen in *; cbn in *.

Ltac close_apart := split; unfold sent, seen; cbn; try done; try (by eauto).

Lemma installer_take_apart_ok s s' : installer_take s = Some s' → Apart_ok s → Apart_ok s'.
Proof.
  intros H. open_apart s. unfold installer_take in H. cbn in H. repeat split_match_in H; simplify_eq.
  all: by close_apart; destruct (should_install_from_guest _ _).
Qed.

Lemma installer_write_apart_ok s s' :
  installer_write s = Some s' → apart Write s = true → Apart_ok s → Apart_ok s'.
Proof.
  intros H Hap. open_apart s. unfold installer_write in H. cbn in H. repeat split_match_in H; simplify_eq.
  close_apart.
  - intros c Hc%Hcount. lia.
  - intros t [= <-]. split; [intros Hc%Hcount; lia|by destruct poller0].
Qed.

Lemma installer_remember_apart_ok s s' : installer_remember s = Some s' → Apart_ok s → Apart_ok s'.
Proof.
  intros H. open_apart s. unfold installer_remember in H. cbn in H. repeat split_match_in H; simplify_eq.
  destruct (Hrem text eq_refl) as [Hns Hpoll].
  assert (pending poller0 (Some text) = pending poller0 last_installed_from_guest0) as Hpe by by destruct poller0.
  close_apart; rewrite ?Hpe; try (by eauto).
  intros Hby. destruct (Hg Hby) as (t & -> & ->). eauto.
Qed.

Lemma poller_read_apart_ok s s' :
  poller_read s = Some s' → apart Read s = true → Apart_ok s → Apart_ok s'.
Proof.
  intros H Hap. unfold poller_read, pasteboard_change_detected in H.
  destruct (poller s) as [| |] eqn:Hp; try done. case_bool_decide as Hc; [by simplify_eq|].
  destruct (pasteboard s) as [text|] eqn:Hpb; [|by simplify_eq].
  open_apart s. subst. simplify_eq/=.
  rewrite app_nil_r in *.
  assert (∀ t, installer0 ≠ Inst_remember t) as Hno by by destruct installer0.
  assert (by_guest0 = true → ∃ t, Some text = Some t ∧ last_installed_from_guest0 = Some t) as Hg'.
  { intros Hby. destruct (Hg Hby) as (t & ? & Ht). exists t. split; [done|]. by destruct installer0. }
  destruct (Z.ltb_spec MAX_CLIPBOARD_TEXT_BYTES (str_len text)) as [Hbig|Hfit].
  { close_apart; rewrite ?app_nil_r; try done; try (by intros ? ?%Hno).
    - by intros c [= <-].
    - intros t _ _ [= <-]. unfold fits. lia. }
  close_apart; try (by intros ? ?%Hno).
  - by intros c [= <-].
  - case_bool_decide as Hin; [by rewrite app_nil_r|].
    destruct by_guest0; [by destruct (Hg' eq_refl) as (? & [= <-] & ?)|].
    destruct (Hun text Hc eq_refl eq_refl) as (pre & -> & Hpre). by apply sublist_app.
  - intros t _ Hby [= <-] _. case_bool_decide as Hin; [by right|]. left. by rewrite last_snoc.
Qed.

Lemma poller_compare_apart_ok s s' : poller_compare s = Some s' → Apart_ok s → Apart_ok s'.
Proof.
  intros H. open_apart s. unfold poller_compare in H. cbn in H. destruct poller0 as [|text|]; try done. cbn in *.
  case_bool_decide as Hin; simplify_eq; close_apart; intros t Ht; by destruct (Hrem t Ht).
Qed.

Lemma poller_send_apart_ok s s' : poller_send s = Some s' → Apart_ok s → Apart_ok s'.
Proof.
  intros H. open_apart s. unfold poller_send in H. cbn in H. repeat split_match_in H; simplify_eq. cbn in *.
  close_apart; rewrite ?fmap_app, ?app_nil_r; cbn; done.
Qed.

Lemma user_copy_apart_ok text s : Apart_ok s → Apart_ok (user_copy text s).
Proof.
  open_apart s. unfold user_copy. close_apart.
  - intros c Hc%Hcount. lia.
  - by apply sublist_inserts_r.
  - intros t _ _ ->. by eexists.
  - intros t Ht. destruct (Hrem t Ht). split; [intros Hc%Hcount; lia|done].
  - intros t Hc%Hcount. lia.
Qed.

Lemma act_apart_ok l s s' : act l s = Some s' → apart l s = true → Apart_ok s → Apart_ok s'.
Proof.
  intros H Hap Hs. destruct l; cbn in H.
  - by eapply installer_take_apart_ok.
  - by eapply installer_write_apart_ok.
  - by eapply installer_remember_apart_ok.
  - by eapply poller_read_apart_ok.
  - by eapply poller_compare_apart_ok.
  - by eapply poller_send_apart_ok.
  - simplify_eq. by apply user_copy_apart_ok.
  - simplify_eq. revert Hs. open_apart s. unfold payload_arrives. by close_apart.
Qed.

Lemma run_apart_ok ls s s' : run ls s = Some s' → runs_apart ls s = true → Apart_ok s → Apart_ok s'.
Proof.
  revert s. induction ls as [|l ls IH]; intros s H Hap Hs; cbn in *; [by simplify_eq|].
  apply bind_Some in H as (s1 & H1 & H2). rewrite H1 in Hap. apply andb_true_iff in Hap as [Hl Hls].
  eauto using act_apart_ok.
Qed.

(** ** The guest's end *)

Lemma receive_clips_serial ps a :
  host_text a = None →
  let a' := receive_clips ps a in
  host_text a' = None ∨ ∃ q, q ∈ ps ∧ host_last_serial a' = clip_serial q.
Proof.
  intros Ha. cbv zeta. induction ps as [|q qs IH] using rev_ind; [by left|].
  unfold receive_clips in *. rewrite foldl_snoc. unfold apply_host_clipboard at 1 3.
  assert (∀ b : App, host_text b = None ∨ (∃ q', q' ∈ qs ∧ host_last_serial b = clip_serial q') →
                     host_text b = None ∨ (∃ q', q' ∈ qs ++ [q] ∧ host_last_serial b = clip_serial q')) as Hmono.
  { intros b [?|(q' & ? & ?)]; [by left|]. right. exists q'.
    split; [apply elem_of_app; by left|done]. }
  repeat split_matches; try (by apply Hmono). right. exists q. cbn. split; [set_solver|done].
Qed.

(** A clip newer than all before it is the one the guest holds. *)
Lemma receive_clips_snoc ps p w h :
  clip_origin p = Origin_Host → fits (clip_text p) → (∀ q, q ∈ ps → clip_serial q < clip_serial p) →
  host_text (receive_clips (ps ++ [p]) (App_new w h)) = Some (clip_text p).
Proof.
  intros Ho Hf Hlt. pose proof (receive_clips_serial ps (App_new w h) eq_refl) as Hser.
  unfold receive_clips in *. rewrite foldl_snoc. set (a := foldl _ _ ps) in *.
  unfold apply_host_clipboard. rewrite Ho. unfold fits in Hf.
  destruct (Z.ltb_spec MAX_CLIPBOARD_TEXT_BYTES (str_len (clip_text p))); [lia|].
  destruct (_ && _) eqn:Hold; [|done]. exfalso. apply andb_true_iff in Hold as [Hle Hsome].
  apply Z.leb_le in Hle. apply bool_decide_eq_true in Hsome.
  destruct Hser as [Hn|(q & Hq%Hlt & Hs)]; [|lia]. rewrite Hn in Hsome. by destruct Hsome.
Qed.

Lemma outbound_received s p w h :
  Sent_ok s → Z.of_nat (length (outbound s)) ≤ u64_max → last (outbound s) = Some p →
  host_text (receive_clips (outbound s) (App_new w h)) = Some (clip_text p).
Proof.
  intros [_ Hclips _] Hn [qs Hqs]%last_Some. rewrite Hqs in *. rewrite length_app in Hn. cbn in Hn.
  destruct (Hclips (length qs) p) as (Ho & Hs & Hf); [by rewrite lookup_app_r, Nat.sub_diag|].
  apply receive_clips_snoc; [done|done|]. intros q [i Hi]%list_elem_of_lookup.
  pose proof (lookup_lt_Some _ _ _ Hi) as Hlt.
  destruct (Hclips i q) as (_ & Hq & _); [by rewrite lookup_app_l|]. lia.
Qed.

(** ** Properties *)

(** While the threads are kept apart, the clips that leave the host carry, in order, texts
    that the user copied: never a text the guest sent, never an older copy after a newer one. *)
Theorem no_echo ls pb count s :
  run ls (bridge_start pb count) = Some s →
  runs_apart ls (bridge_start pb count) = true →
  clip_text <$> outbound s `sublist_of` copies s.
Proof.
  intros Hrun Hap.
  destruct (run_apart_ok _ _ _ Hrun Hap (bridge_start_apart_ok _ _)) as [_ Hsent _ _ _ _].
  etrans; [|exact Hsent]. apply sublist_inserts_r. done.
Qed.

(** C32: suppose the poller never reads the pasteboard between the installer's write and its
    note of that write, and the installer never writes between the poller's read and its
    comparison ([runs_apart]; the code does not exclude it, and then a copy can be dropped,
    [copy_race], or echoed, [echo_race]). Then, once the poller has seen the text the user
    copied last, a guest that received the fewer than 2^64 clips that were sent holds that text, unless it is
    too long to be sent or the one that the installer took from the guest last: whatever was
    copied, relayed and installed before. *)
Theorem copy_reaches_guest ls pb count s text w h :
  run ls (bridge_start pb count) = Some s →
  runs_apart ls (bridge_start pb count) = true →
  poller s = Poll_asleep → last_change_count s = Some (change_count s) →
  pasteboard s = Some text → by_guest s = false → str_len text ≤ MAX_CLIPBOARD_TEXT_BYTES →
  last_installed_from_guest s ≠ Some text →
  Z.of_nat (length (outbound s)) ≤ u64_max →
  host_text (receive_clips (outbound s) (App_new w h)) = Some text.
Proof.
  intros Hrun Hap Hasleep Hseen Hpb Hby Hfit Hne Hn.
  destruct (run_apart_ok _ _ _ Hrun Hap (bridge_start_apart_ok _ _)) as [_ _ _ _ _ Hrel].
  destruct (Hrel text Hseen Hby Hpb Hfit) as [Hlast|]; [|done].
  unfold sent in Hlast. rewrite Hasleep in Hlast. cbn in Hlast. rewrite app_nil_r, fmap_last in Hlast.
  apply fmap_Some in Hlast as (p & Hp & ->).
  apply outbound_received; [|done|done]. eapply run_sent_ok; [done|]. apply bridge_start_sent_ok.
Qed.

(** Runs the schedule: [cap] are the facts that the texts are within the cap, [Hne] that they
    differ. *)
Ltac run_schedule :=
  repeat first
    [ match goal with H : (MAX_CLIPBOARD_TEXT_BYTES <? _) = false |- _ => rewrite H end
    | rewrite bool_decide_true by done
    | rewrite bool_decide_false by (congruence || (intros [=]; lia))
    | progress (cbn -[MAX_CLIPBOARD_TEXT_BYTES Z.add receive_clips str_len];
                unfold pasteboard_change_detected, should_install_from_guest) ].

(** The sweep of the poller over one change, and of the installer over one payload. *)
Definition poll_once : list action := [Read; Compare; Send_clip].
Definition install_once : list action := [Take; Write; Remember].

Definition guest_clip (serial : Z) (text : rstring) : Clipboard := mkClipboard Origin_Guest serial text.

(** The caches outlive what they describe. When the user copied [a], the guest then
    copied [b], and the guest copies [a] again, the second [a] is dropped and the host keeps
    [b]; when the guest copied [b], the user then copied [a], and the user copies [b], that
    copy is not relayed and the guest keeps [a]. *)
Theorem stale_caches_drop a b count w h :
  a ≠ b → str_len a ≤ MAX_CLIPBOARD_TEXT_BYTES → str_len b ≤ MAX_CLIPBOARD_TEXT_BYTES →
  (∃ s, run ([Copy (Some a)] ++ poll_once ++ [Arrive (guest_clip 1 b)] ++ install_once
             ++ [Arrive (guest_clip 2 a); Take]) (bridge_start None count) = Some s
        ∧ inbound s = [] ∧ installer s = Inst_waiting ∧ pasteboard s = Some b) ∧
  (∃ s, run ([Arrive (guest_clip 1 b)] ++ install_once ++ [Copy (Some a)] ++ poll_once
             ++ [Copy (Some b); Read; Compare]) (bridge_start None count) = Some s
        ∧ poller s = Poll_asleep ∧ pasteboard s = Some b
        ∧ host_text (receive_clips (outbound s) (App_new w h)) = Some a).
Proof.
  intros Hne Ha%Z.ltb_ge Hb%Z.ltb_ge. split; eexists.
  - split; [run_schedule; reflexivity|done].
  - split; [run_schedule; reflexivity|]. cbn [poller pasteboard outbound]. split_and!; [done|done|].
    by apply (receive_clips_snoc []); [|by apply Z.ltb_ge|intros ? ?%elem_of_nil].
Qed.

(** When the poller looks between the installer's write and its note of the write, the
    guest's own text goes back to it as one of the host's, which the user never copied. *)
Theorem echo_race a count w h :
  str_len a ≤ MAX_CLIPBOARD_TEXT_BYTES →
  let ls := [Arrive (guest_clip 1 a); Take; Write; Read; Compare; Send_clip; Remember] in
  runs_apart ls (bridge_start None count) = false ∧
  ∃ s, run ls (bridge_start None count) = Some s ∧
       outbound s = [mkClipboard Origin_Host 1 a] ∧ copies s = [] ∧
       host_text (receive_clips (outbound s) (App_new w h)) = Some a.
Proof.
  intros Ha%Z.ltb_ge. cbv zeta. split.
  { by cbn; rewrite Ha. }
  eexists. split; [run_schedule; reflexivity|]. cbn [outbound copies]. split_and!; [done|done|].
  by apply (receive_clips_snoc []); [|by apply Z.ltb_ge|intros ? ?%elem_of_nil].
Qed.

(** And when the user copies a text again that the guest had sent, between the installer's
    write of another text and its note of that, the copy is taken for the guest's and dropped. *)
Theorem copy_race a b count :
  a ≠ b → str_len a ≤ MAX_CLIPBOARD_TEXT_BYTES → str_len b ≤ MAX_CLIPBOARD_TEXT_BYTES →
  let ls := [Arrive (guest_clip 1 a)] ++ install_once ++ [Read; Compare; Arrive (guest_clip 2 b); Take; Write;
             Copy (Some a); Read; Compare; Remember] in
  runs_apart ls (bridge_start None count) = false ∧
  ∃ s, run ls (bridge_start None count) = Some s ∧ poller s = Poll_asleep ∧ last_change_count s = Some (change_count s)
    ∧ pasteboard s = Some a ∧ by_guest s = false ∧ last_installed_from_guest s = Some b ∧ outbound s = [].
Proof.
  intros Hne Ha%Z.ltb_ge Hb%Z.ltb_ge. cbv zeta. split.
  - cbn -[MAX_CLIPBOARD_TEXT_BYTES Z.add str_len]. unfold pasteboard_change_detected, should_install_from_guest. run_schedule. reflexivity.
  - eexists. split; [run_schedule; reflexivity|]. done.
Qed.

(** *** Witnesses *)

(** The user copies a text, the guest another, the user a third. *)
Definition sample_run : list action :=
  [Copy (Some (lit "one"))] ++ poll_once ++ [Arrive (guest_clip 1 (lit "two"))] ++ install_once
  ++ [Read; Compare; Copy (Some (lit "three"))] ++ poll_once.

Definition sample_end : bridge :=
  default (bridge_start None 0) (run sample_run (bridge_start None 0)).

Lemma no_echo_witness :
  clip_text <$> outbound sample_end = [lit "one"; lit "three"] ∧
  (clip_text <$> outbound sample_end) `sublist_of` copies sample_end.
Proof.
  split; [by vm_compute|]. by apply (no_echo sample_run None 0); vm_compute.
Defined.

Lemma copy_reaches_guest_witness :
  host_text (receive_clips (outbound sample_end) (App_new 800 600)) = Some (lit "three").
Proof.
  by apply (copy_reaches_guest sample_run None 0); vm_compute.
Defined.

Lemma stale_caches_drop_witness :
  ∃ s, run ([Copy (Some (lit "a"))] ++ poll_once ++ [Arrive (guest_clip 1 (lit "b"))] ++ install_once
            ++ [Arrive (guest_clip 2 (lit "a")); Take]) (bridge_start None 0) = Some s
       ∧ inbound s = [] ∧ installer s = Inst_waiting ∧ pasteboard s = Some (lit "b").
Proof.
  by apply (stale_caches_drop (lit "a") (lit "b") 0 800 600); vm_compute.
Defined.

Lemma echo_race_witness :
  runs_apart [Arrive (guest_clip 1 (lit "a")); Take; Write; Read; Compare; Send_clip; Remember]
    (bridge_start None 0) = false.
Proof.
  by apply (echo_race (lit "a") 0 800 600); vm_compute.
Defined.

Lemma copy_race_witness : runs_apart ([Arrive (guest_clip 1 (lit "a"))] ++ install_once ++ [Read; Compare;
  Arrive (guest_clip 2 (lit "b")); Take; Write; Copy (Some (lit "a")); Read; Compare; Remember]) (bridge_start None 0) = false.
Proof. by apply (copy_race (lit "a") (lit "b") 0); vm_compute. Defined.
