(* ===== verification/Viewer.v ===== *)
(** * The viewer application (client viewer: app.rs)

    [ViewerWindow] is one host window per guest toplevel, [ViewerApp] the application: both
    are the records of the code, and every method is a program of the panicking state monad.
    What the methods do to the outside (messages to the guest, calls on the host windows and
    on the event loop) is appended to [log]; what they ask of the outside comes from the
    [world]. The host windows are winit's: what a window answers is a function of its id and
    of everything that was done so far. Debug output is left out, and so is the picture of an
    icon. *)

From Stdlib Require Import SpecFloat.
From S2P Require Import Prelude Float State Wire Frame Ime Geometry Keys.

(** ** Constants (env.rs), durations in nanoseconds *)

Definition INITIAL_HIDDEN_WINDOW_SIZE : Z := 1.
Definition MIN_VIEW_SCALE : f32 := f32_lit 35 100.
Definition MAX_VIEW_SCALE : f32 := f32_lit 3 1.
Definition VIEW_SCALE_STEP : f32 := f32_lit 12 10.
Definition INITIAL_WINDOW_X : Z := 80.
Definition INITIAL_WINDOW_Y : Z := 80.
Definition INITIAL_WINDOW_CASCADE_PX : Z := 28.
Definition SCROLL_LINE_TO_AXIS_UNITS : f64 := F64.of_int 15.
Definition TITLEBAR_DOUBLE_CLICK_DISTANCE_PX : Z := 24.
Definition TITLEBAR_DOUBLE_CLICK_INTERVAL : Z := 500000000.
Definition REMOTE_MOVE_RELEASE_GRACE : Z := 350000000.
Definition REMOTE_RESIZE_DEBOUNCE : Z := 80000000.
Definition FULLSCREEN_EXIT_RESYNC_DELAY : Z := 180000000.
Definition HOST_RESIZE_RESYNC_DELAY : Z := 180000000.
Definition WINDOW_REPLACEMENT_GRACE : Z := 2000000000.

(** ** The data *)

Record TitlebarClick := mkTitlebarClick { click_at : Z; click_x : Z; click_y : Z }.

Record PendingRemoteResize := mkPendingRemoteResize { resize_width : Z; resize_height : Z; resize_due : Z }.

Inductive Theme := Light | Dark.

Inductive CursorIcon := Cursor_Default | Cursor_Move | Cursor_Resize (d : ResizeDirection).

(** What the application does to the outside. Windows are named by their [WindowId]. *)
Inductive effect :=
  | Send (e : InputEvent)
  | Clipboard_inbound (c : Clipboard)
  | Create_window (title : rstring) (host_chrome : bool)
  | Set_icon (app_id : rstring)
  | Set_visible (window : Z) (visible : bool)
  | Focus_window (window : Z)
  | Set_title (window : Z) (title : rstring)
  | Set_minimized (window : Z)
  | Set_maximized (window : Z) (maximized : bool)
  | Set_fullscreen (window : Z) (fullscreen : bool)
  | Set_outer_position (window : Z) (position : ipos)
  | Request_inner_size (window : Z) (logical : f64 * f64)
  | Request_physical_size (window : Z) (physical : psize)
  | Set_cursor (window : Z) (icon : CursorIcon)
  | Set_ime_allowed (window : Z)
  | Set_ime_cursor_area (window : Z) (position : f64 * f64)
  | Request_redraw (window : Z)
  | Present (window : Z) (width height : Z) (pixels : list Z)
  | Warn_guest_chrome (label : rstring)
  | Dump_windows
  | Set_control_flow (wait_until : option Z)
  | Exit.

(** The drawing surface of a window, once resized. *)
Inductive surface_state :=
  | Surface_failed
  | Surface_ready (buffer : list Z) (presented : bool).

(** What a host window answers. *)
Record host_window := mkHostWindow {
  inner_size : psize;
  outer_size : psize;
  outer_position : option ipos;
  scale_factor : f64;
  current_monitor : option (ipos * psize);
  is_window_fullscreen : bool;
  is_window_maximized : bool;
  surface : surface_state
}.

Record ViewerWindow := mkViewerWindow {
  vw_window : Z;
  vw_title : rstring;
  vw_app_id : rstring;
  frame : FrameBuffer;
  composer : Input.Backend;
  last_cursor : Z * Z;
  last_window_cursor : option fpos;
  last_screen_cursor : option fpos;
  redraw_request_count : Z;
  render_count : Z;
  redraw_pending : bool;
  visible : bool;
  view_scale : f32;
  theme_matte : Z;
  vw_tile_screen_size : psize;
  hover_resize_direction : option ResizeDirection;
  active_resize : option ResizeDrag;
  move_state : MoveState;
  pending_programmatic_resize : option psize;
  pending_tile_remote_resize : option psize;
  remote_resize_in_flight : option psize;
  last_titlebar_click : option TitlebarClick;
  suppress_next_left_release : bool;
  adopted_initial_size : bool;
  adopted_from_frame_tile : bool;
  uses_own_chrome : bool;
  last_host_fullscreen : bool
}.

(** The outside during one event. [to_physical] and [to_logical] are winit's conversions;
    [new_window] is the id of the window the event loop creates, unless it fails;
    [hash_order] is the order in which a hash map yields its keys. *)
Record world := mkWorld {
  now : Z;
  macos : bool;
  host : list effect → Z → host_window;
  new_window : option Z;
  softbuffer_ok : bool;
  theme : option Theme;
  edge_snap_var : option rstring;
  menubar_inset : f64;
  to_physical : f64 * f64 → f64 → psize;
  to_logical : psize → f64 → psize;
  hash_order : list Z → list Z
}.

(** [replace_field same field r x]: the record [r] with [x] in [field]. *)
Ltac replace_field same p r x :=
  let t := eval cbv beta delta [same] in (same r) in
  let t := eval pattern (p r) in t in
  match t with ?f _ => let u := eval cbv beta in (f x) in exact u end.

Definition vw_same (v : ViewerWindow) : ViewerWindow :=
  mkViewerWindow (vw_window v) (vw_title v) (vw_app_id v) (frame v) (composer v) (last_cursor
    v) (last_window_cursor v) (last_screen_cursor v) (redraw_request_count v) (render_count v)
    (redraw_pending v) (visible v) (view_scale v) (theme_matte v) (vw_tile_screen_size v)
    (hover_resize_direction v) (active_resize v) (move_state v) (pending_programmatic_resize v)
    (pending_tile_remote_resize v) (remote_resize_in_flight v) (last_titlebar_click v)
    (suppress_next_left_release v) (adopted_initial_size v) (adopted_from_frame_tile v)
    (uses_own_chrome v) (last_host_fullscreen v).
Definition set_vw_window (x : Z) (v : ViewerWindow) : ViewerWindow := ltac:(replace_field vw_same vw_window v x).
Definition set_vw_title (x : rstring) (v : ViewerWindow) : ViewerWindow := ltac:(replace_field vw_same vw_title v x).
Definition set_vw_app_id (x : rstring) (v : ViewerWindow) : ViewerWindow := ltac:(replace_field vw_same vw_app_id v x).
Definition set_frame (x : FrameBuffer) (v : ViewerWindow) : ViewerWindow := ltac:(replace_field vw_same frame v x).
Definition set_composer (x : Input.Backend) (v : ViewerWindow) : ViewerWindow := ltac:(replace_field vw_same composer v x).
Definition set_last_cursor (x : Z * Z) (v : ViewerWindow) : ViewerWindow := ltac:(replace_field vw_same last_cursor v x).
Definition set_last_window_cursor (x : option fpos) (v : ViewerWindow) : ViewerWindow := ltac:(replace_field vw_same last_window_cursor v x).
Definition set_last_screen_cursor (x : option fpos) (v : ViewerWindow) : ViewerWindow := ltac:(replace_field vw_same last_screen_cursor v x).
Definition set_redraw_request_count (x : Z) (v : ViewerWindow) : ViewerWindow := ltac:(replace_field vw_same redraw_request_count v x).
Definition set_render_count (x : Z) (v : ViewerWindow) : ViewerWindow := ltac:(replace_field vw_same render_count v x).
Definition set_redraw_pending (x : bool) (v : ViewerWindow) : ViewerWindow := ltac:(replace_field vw_same redraw_pending v x).
Definition set_visible (x : bool) (v : ViewerWindow) : ViewerWindow := ltac:(replace_field vw_same visible v x).
Definition set_view_scale (x : f32) (v : ViewerWindow) : ViewerWindow := ltac:(replace_field vw_same view_scale v x).
Definition set_theme_matte (x : Z) (v : ViewerWindow) : ViewerWindow := ltac:(replace_field vw_same theme_matte v x).
Definition set_vw_tile_screen_size (x : psize) (v : ViewerWindow) : ViewerWindow := ltac:(replace_field vw_same vw_tile_screen_size v x).
Definition set_hover_resize_direction (x : option ResizeDirection) (v : ViewerWindow) : ViewerWindow := ltac:(replace_field vw_same hover_resize_direction v x).
Definition set_active_resize (x : option ResizeDrag) (v : ViewerWindow) : ViewerWindow := ltac:(replace_field vw_same active_resize v x).
Definition set_move_state (x : MoveState) (v : ViewerWindow) : ViewerWindow := ltac:(replace_field vw_same move_state v x).
Definition set_pending_programmatic_resize (x : option psize) (v : ViewerWindow) : ViewerWindow := ltac:(replace_field vw_same pending_programmatic_resize v x).
Definition set_pending_tile_remote_resize (x : option psize) (v : ViewerWindow) : ViewerWindow := ltac:(replace_field vw_same pending_tile_remote_resize v x).
Definition set_remote_resize_in_flight (x : option psize) (v : ViewerWindow) : ViewerWindow := ltac:(replace_field vw_same remote_resize_in_flight v x).
Definition set_last_titlebar_click (x : option TitlebarClick) (v : ViewerWindow) : ViewerWindow := ltac:(replace_field vw_same last_titlebar_click v x).
Definition set_suppress_next_left_release (x : bool) (v : ViewerWindow) : ViewerWindow := ltac:(replace_field vw_same suppress_next_left_release v x).
Definition set_adopted_initial_size (x : bool) (v : ViewerWindow) : ViewerWindow := ltac:(replace_field vw_same adopted_initial_size v x).
Definition set_adopted_from_frame_tile (x : bool) (v : ViewerWindow) : ViewerWindow := ltac:(replace_field vw_same adopted_from_frame_tile v x).
Definition set_uses_own_chrome (x : bool) (v : ViewerWindow) : ViewerWindow := ltac:(replace_field vw_same uses_own_chrome v x).
Definition set_last_host_fullscreen (x : bool) (v : ViewerWindow) : ViewerWindow := ltac:(replace_field vw_same last_host_fullscreen v x).

Record ViewerApp := mkViewerApp {
  keepalive_window : bool;
  windows : gmap Z ViewerWindow;
  window_ids : gmap Z Z;
  pending_resizes : gmap Z PendingRemoteResize;
  pending_fullscreen_exit_resyncs : gmap Z Z;
  pending_host_resize_resyncs : gmap Z Z;
  clipboard_inbound : bool;
  modifiers : ModifiersState;
  pressed_guest_keys : gmap Z Z;
  pressed_guest_modifier_counts : gmap Z Z;
  retired_window_ids : gset Z;
  warned_chrome_apps : gset rstring;
  app_host_chrome : bool;
  tile_screen_size : psize;
  frame_count : Z;
  empty_windows_since : option Z;
  log : list effect
}.

Definition app_same (a : ViewerApp) : ViewerApp :=
  mkViewerApp (keepalive_window a) (windows a) (window_ids a) (pending_resizes a)
    (pending_fullscreen_exit_resyncs a) (pending_host_resize_resyncs a) (clipboard_inbound a)
    (modifiers a) (pressed_guest_keys a) (pressed_guest_modifier_counts a) (retired_window_ids
    a) (warned_chrome_apps a) (app_host_chrome a) (tile_screen_size a) (frame_count a)
    (empty_windows_since a) (log a).
Definition set_keepalive_window (x : bool) (a : ViewerApp) : ViewerApp := ltac:(replace_field app_same keepalive_window a x).
Definition set_windows (x : gmap Z ViewerWindow) (a : ViewerApp) : ViewerApp := ltac:(replace_field app_same windows a x).
Definition set_window_ids (x : gmap Z Z) (a : ViewerApp) : ViewerApp := ltac:(replace_field app_same window_ids a x).
Definition set_pending_resizes (x : gmap Z PendingRemoteResize) (a : ViewerApp) : ViewerApp := ltac:(replace_field app_same pending_resizes a x).
Definition set_pending_fullscreen_exit_resyncs (x : gmap Z Z) (a : ViewerApp) : ViewerApp := ltac:(replace_field app_same pending_fullscreen_exit_resyncs a x).
Definition set_pending_host_resize_resyncs (x : gmap Z Z) (a : ViewerApp) : ViewerApp := ltac:(replace_field app_same pending_host_resize_resyncs a x).
Definition set_clipboard_inbound (x : bool) (a : ViewerApp) : ViewerApp := ltac:(replace_field app_same clipboard_inbound a x).
Definition set_modifiers (x : ModifiersState) (a : ViewerApp) : ViewerApp := ltac:(replace_field app_same modifiers a x).
Definition set_pressed_guest_keys (x : gmap Z Z) (a : ViewerApp) : ViewerApp := ltac:(replace_field app_same pressed_guest_keys a x).
Definition set_pressed_guest_modifier_counts (x : gmap Z Z) (a : ViewerApp) : ViewerApp := ltac:(replace_field app_same pressed_guest_modifier_counts a x).
Definition set_retired_window_ids (x : gset Z) (a : ViewerApp) : ViewerApp := ltac:(replace_field app_same retired_window_ids a x).
Definition set_warned_chrome_apps (x : gset rstring) (a : ViewerApp) : ViewerApp := ltac:(replace_field app_same warned_chrome_apps a x).
Definition set_app_host_chrome (x : bool) (a : ViewerApp) : ViewerApp := ltac:(replace_field app_same app_host_chrome a x).
Definition set_tile_screen_size (x : psize) (a : ViewerApp) : ViewerApp := ltac:(replace_field app_same tile_screen_size a x).
Definition set_frame_count (x : Z) (a : ViewerApp) : ViewerApp := ltac:(replace_field app_same frame_count a x).
Definition set_empty_windows_since (x : option Z) (a : ViewerApp) : ViewerApp := ltac:(replace_field app_same empty_windows_since a x).
Definition set_log (x : list effect) (a : ViewerApp) : ViewerApp := ltac:(replace_field app_same log a x).

(** ** The methods of [ViewerWindow]

    They run on the window and the log. *)

Record view_state := mkViewState { vs_view : ViewerWindow; vs_log : list effect }.

Abbreviation VM := (M view_state).

Section window.
Context (w : world).

Definition emit (es : list effect) : VM unit :=
  modify (λ s, mkViewState (vs_view s) (vs_log s ++ es)).
Definition update (f : ViewerWindow → ViewerWindow) : VM unit :=
  modify (λ s, mkViewState (f (vs_view s)) (vs_log s)).
Definition view : VM ViewerWindow := gets vs_view.
(** What the host window answers at this point. *)
Definition ask : VM host_window := gets (λ s, host w (vs_log s) (vw_window (vs_view s))).

(** *** Sizes *)

Definition effective_content_rect (v : ViewerWindow) : FrameRect :=
  compute_effective_content_rect (uses_own_chrome v) (fb_width (frame v)) (fb_height (frame v))
    (fb_content (frame v)).

Definition effective_display_size (v : ViewerWindow) : Z * Z :=
  let rect := effective_content_rect v in clamp_display_size (fr_w rect) (fr_h rect).

Definition scaled_inner_sizes : VM ((f64 * f64) * psize) :=
  v ← view; h ← ask;
  let '(display_width, display_height) := effective_display_size v in
  width ← lift (scaled_len display_width (view_scale v));
  height ← lift (scaled_len display_height (view_scale v));
  let logical := (F64.of_int width, F64.of_int height) in
  mret (logical, to_physical w logical (scale_factor h)).

Definition request_scaled_inner_size : VM unit :=
  v ← view;
  '(logical, physical) ← scaled_inner_sizes;
  update (set_pending_programmatic_resize (Some physical));;
  emit [Request_inner_size (vw_window v) logical].

Definition remote_size_for_inner_size (sz : psize) (v : ViewerWindow) : Z * Z :=
  let content := effective_content_rect v in
  compute_remote_size sz (view_scale v) (fr_w content) (fr_h content) (fb_width (frame v)) (fb_height (frame v)).

Definition resize_request_for_current_inner_size : VM (option (Z * Z)) :=
  v ← view; h ← ask;
  let scale := fmax (scale_factor h) (F64.of_int 1) in
  let logical := to_logical w (inner_size h) scale in
  let '(rw, rh) := remote_size_for_inner_size (Z.max logical.1 1, Z.max logical.2 1) v in
  mret (if negb (same_size (frame v) rw rh) then Some (rw, rh) else None).

Definition needs_host_resize_resync_after_remote : VM bool :=
  h ← ask;
  if is_window_fullscreen h then mret false else
  '(_, desired) ← scaled_inner_sizes;
  mret (host_resize_resync_needed (inner_size h) desired).

(** *** Drawing *)

Definition request_redraw : VM unit :=
  v ← view;
  update (set_redraw_request_count (sat_add u64_max (redraw_request_count v) 1));;
  update (set_redraw_pending true);;
  emit [Request_redraw (vw_window v)].

Definition render_size : VM (Z * Z) :=
  v ← view;
  if negb (visible v) then mret (effective_display_size v) else
  h ← ask; mret (Z.max (inner_size h).1 1, Z.max (inner_size h).2 1).

Definition show_after_first_present : VM unit :=
  v ← view;
  if visible v then mret tt else
  emit [Set_visible (vw_window v) true; Focus_window (vw_window v)];;
  update (set_visible true).

Definition letterbox (v : ViewerWindow) : Z :=
  if fb_matte (frame v) =? DEFAULT_MATTE_PIXEL then theme_matte v else fb_matte (frame v).

Definition render : VM unit :=
  '(target_width, target_height) ← render_size;
  if (target_width =? 0) || (target_height =? 0) then mret tt else
  v ← view; h ← ask;
  match surface h with
  | Surface_failed => mret tt
  | Surface_ready buffer presented =>
      if negb (Z.of_nat (length buffer) =? target_width * target_height) then mret tt else
      pixels ← lift (copy_frame_region_preserve_aspect (fb_pixels (frame v)) (fb_width (frame v))
                       (effective_content_rect v) (letterbox v) buffer target_width target_height);
      if negb presented then mret tt else
      emit [Present (vw_window v) target_width target_height pixels];;
      update (set_redraw_pending false);;
      show_after_first_present;;
      v ← view; update (set_render_count (sat_add u64_max (render_count v) 1))
  end.

Definition render_pending_redraw : VM unit :=
  v ← view; if negb (redraw_pending v) then mret tt else render.

Definition request_scaled_inner_size_if_needed : VM bool :=
  h ← ask;
  if is_window_fullscreen h then mret false else
  '(logical, physical) ← scaled_inner_sizes;
  if negb (host_resize_resync_needed (inner_size h) physical) then mret false else
  v ← view;
  update (set_pending_programmatic_resize (Some physical));;
  emit [Request_inner_size (vw_window v) logical];;
  request_redraw;;
  mret true.

Definition resize_to_remote_size (width height : Z) : VM unit :=
  let width := Z.max width 1 in
  let height := Z.max height 1 in
  v ← view;
  let size_changed := negb (same_size (frame v) width height) in
  fb ← lift (resize_for_remote_size (frame v) width height);
  update (set_frame fb);;
  if negb size_changed then mret tt else
  if negb (should_adopt_host_window (adopted_initial_size v) true) then mret tt else
  update (set_adopted_initial_size true);;
  h ← ask;
  let scale := fmax (scale_factor h) (F64.of_int 1) in
  let cap monitor_size :=
    initial_adopt_cap (F64.of_int width) (F64.of_int height)
      (F64.div (F64.of_int (Z.max monitor_size.1 1)) scale)
      (F64.div (F64.of_int (Z.max monitor_size.2 1)) scale)
      (F64.of_int MIN_VIEWER_WIDTH) (F64.of_int MIN_VIEWER_HEIGHT) in
  match current_monitor h ≫= (λ monitor, cap monitor.2) with
  | Some logical =>
      update (set_pending_programmatic_resize (Some (to_physical w logical scale)));;
      emit [Request_inner_size (vw_window v) logical]
  | None => request_scaled_inner_size
  end.

Definition clamp_view_scale (scale : f32) : option f32 := fclamp scale MIN_VIEW_SCALE MAX_VIEW_SCALE.

Definition set_scale (scale : f32) : VM unit :=
  scale ← lift (clamp_view_scale scale);
  update (set_view_scale scale);;
  request_scaled_inner_size;;
  request_redraw.

Definition LIGHT_MATTE_PIXEL : Z := 0x00ffffff.

Definition matte_for_theme (t : option Theme) : Z :=
  match t with Some Light => LIGHT_MATTE_PIXEL | Some Dark | None => DARK_MATTE_PIXEL end.

Definition set_theme (t : Theme) : VM unit :=
  v ← view;
  let matte := matte_for_theme (Some t) in
  if theme_matte v =? matte then mret tt else
  update (set_theme_matte matte);; request_redraw.

(** *** The cursor *)

Definition update_resize_cursor (position : fpos) : VM unit :=
  v ← view;
  if is_dragging (move_state v) then emit [Set_cursor (vw_window v) Cursor_Move] else
  h ← ask;
  let direction := resize_direction_at position (inner_size h) in
  if bool_decide (hover_resize_direction v = direction) then mret tt else
  update (set_hover_resize_direction direction);;
  emit [Set_cursor (vw_window v) (from_option Cursor_Resize Cursor_Default direction)].

Definition clear_resize_cursor : VM unit :=
  v ← view;
  if bool_decide (is_Some (active_resize v)) || is_dragging (move_state v) then mret tt else
  update (set_hover_resize_direction None);;
  emit [Set_cursor (vw_window v) Cursor_Default].

Definition map_cursor_to_frame (x y : f64) : VM (Z * Z) :=
  v ← view; h ← ask;
  lift (cursor_to_frame_coords x y (Z.max (inner_size h).1 1, Z.max (inner_size h).2 1)
          (effective_content_rect v) (fb_width (frame v), fb_height (frame v))).

(** One coordinate of the input method's cursor. *)
Definition ime_local (map_pos pos content_pos map_len content_len : Z) : f64 :=
  F64.add (F64.of_int map_pos)
    (F64.round (F64.div (F64.mul (F64.of_int (Z.max (i32_sub pos (as_i32 content_pos)) 0))
                                 (F64.of_int (Z.max map_len 1)))
                  (F64.of_int (Z.max content_len 1)))).

Definition update_ime_cursor_area (x y : Z) : VM unit :=
  v ← view; h ← ask;
  let content := effective_content_rect v in
  let mapping := aspect_fit_rect (fr_w content) (fr_h content) (Z.max (inner_size h).1 1)
                   (Z.max (inner_size h).2 1) in
  emit [Set_ime_cursor_area (vw_window v)
          (ime_local (rr_x mapping) x (fr_x content) (rr_w mapping) (fr_w content),
           ime_local (rr_y mapping) y (fr_y content) (rr_h mapping) (fr_h content))].

Definition enable_ime_at_last_cursor : VM unit :=
  v ← view;
  emit [Set_ime_allowed (vw_window v)];;
  update_ime_cursor_area (last_cursor v).1 (last_cursor v).2.

Definition sync_cursor_from_window_position : VM (Z * Z) :=
  v ← view;
  match last_window_cursor v with
  | Some (px, py) =>
      '(x, y) ← map_cursor_to_frame px py;
      update (set_last_cursor (x, y));;
      update_ime_cursor_area x y;;
      mret (x, y)
  | None => mret (last_cursor v)
  end.

Definition sync_cursor_for_button_event : VM (Z * Z) := sync_cursor_from_window_position.

Definition set_window_cursor (position : fpos) : VM unit := update (set_last_window_cursor (Some position)).

Definition cache_frame_cursor (position : fpos) : VM (Z * Z) :=
  '(x, y) ← map_cursor_to_frame position.1 position.2;
  update (set_last_cursor (x, y));;
  mret (x, y).

Definition cache_cursor_at (position : fpos) : VM (Z * Z) :=
  set_window_cursor position;; cache_frame_cursor position.

(** *** Titles and visibility *)

Definition set_window_title (title : rstring) : VM unit :=
  v ← view; emit [Set_title (vw_window v) title];; update (set_vw_title title).

Definition hide : VM unit :=
  v ← view; emit [Set_visible (vw_window v) false];; update (set_visible false).

Definition mark_adopted_initial_size : VM unit := update (set_adopted_initial_size true).

(** *** Moving the window *)

Definition move_drag_from_current_cursor : VM (option MoveDrag) :=
  v ← view; h ← ask;
  mret (match last_window_cursor v, outer_position h with
        | Some position, Some start_outer => Some (mkMoveDrag position start_outer)
        | _, _ => None
        end).

Definition remember_left_press : VM unit :=
  v ← view;
  if is_dragging (move_state v) then mret tt else
  drag ← move_drag_from_current_cursor;
  match drag with Some drag => update (set_move_state (Move_Pressed drag)) | None => mret tt end.

Definition clear_pending_move : VM unit :=
  v ← view;
  if is_dragging (move_state v) then mret tt else update (set_move_state Move_Idle).

Definition begin_manual_move : VM bool :=
  drag ← move_drag_from_current_cursor;
  match drag with
  | None => mret false
  | Some drag =>
      update (set_move_state (Move_Dragging drag));;
      v ← view; emit [Set_cursor (vw_window v) Cursor_Move];;
      mret true
  end.

Definition update_manual_move (position : fpos) : VM bool :=
  v ← view;
  match move_state v with
  | Move_Dragging drag =>
      update (set_last_titlebar_click None);;
      let new_outer := compute_manual_move_outer (press_outer drag) (start_cursor_window drag) position in
      emit [Set_outer_position (vw_window v) new_outer];;
      update (set_move_state (Move_Dragging drag));;
      update (set_last_screen_cursor (Some (F64.add (F64.of_int new_outer.1) position.1,
                                            F64.add (F64.of_int new_outer.2) position.2)));;
      mret true
  | _ => mret false
  end.

Definition apply_edge_snap_rect (rect : EdgeSnapRect) : VM bool :=
  v ← view; h ← ask;
  let scale := fmax (scale_factor h) (F64.of_int 1) in
  let logical := physical_to_logical_size (snap_size rect).1 (snap_size rect).2 scale in
  let physical := to_physical w logical scale in
  let logical_as_physical := (as_u32_sat logical.1, as_u32_sat logical.2) in
  update (set_pending_tile_remote_resize (Some (remote_size_for_inner_size logical_as_physical v)));;
  update (set_pending_programmatic_resize (Some physical));;
  emit [Request_inner_size (vw_window v) logical; Set_outer_position (vw_window v) (snap_position rect)];;
  request_redraw;;
  mret true.

Definition snap_with (rect : fpos → ipos → host_window → ipos * psize → ViewerWindow → option EdgeSnapRect) : VM bool :=
  v ← view; h ← ask;
  match last_screen_cursor v, outer_position h, current_monitor h with
  | Some cursor, Some outer, Some monitor =>
      match rect cursor outer h monitor v with
      | Some rect => apply_edge_snap_rect rect
      | None => mret false
      end
  | _, _, _ => mret false
  end.

(** [snap_to_cursor_edge_tile_at] takes the position of the monitor, and the size the
    application was given. *)
Definition snap_to_cursor_tile : VM bool :=
  snap_with (λ cursor outer h monitor v,
    cursor_edge_tile_rect cursor outer (outer_size h) monitor.1 (vw_tile_screen_size v)).

Definition snap_to_cursor_left_right_edge : VM bool :=
  snap_with (λ cursor outer h monitor v,
    let scale := fmax (scale_factor h) (F64.of_int 1) in
    let top_inset_px := as_u32_sat (fmax (F64.round (F64.mul (menubar_inset w) scale)) (F64.of_int 0)) in
    cursor_left_right_tile_rect cursor outer (outer_size h) monitor.1 monitor.2 top_inset_px).

Definition edge_snap_enabled : bool := edge_snap_enabled_from (edge_snap_var w).

(** Both snaps, the second only if the first did nothing and the user asked for it. *)
Definition snap_after_move : VM unit :=
  snapped ← snap_to_cursor_left_right_edge;
  if negb snapped && edge_snap_enabled then snap_to_cursor_tile;; mret tt else mret tt.

Definition resume_move (drag : MoveDrag) (released : bool) : VM bool :=
  update (set_move_state (Move_Dragging drag));;
  v ← view; emit [Set_cursor (vw_window v) Cursor_Move];;
  match last_window_cursor v with
  | Some position => update_manual_move position;; mret tt
  | None => mret tt
  end;;
  when released (
    update (set_move_state Move_Idle);;
    clear_resize_cursor;;
    snap_after_move);;
  mret true.

(** Not compiled on macOS. *)
Definition begin_requested_move : VM bool :=
  v ← view;
  match move_state v with
  | Move_Dragging _ => mret true
  | Move_Pressed drag => resume_move drag false
  | Move_Released drag at_ =>
      if now w - at_ <=? REMOTE_MOVE_RELEASE_GRACE then resume_move drag true
      else update (set_move_state Move_Idle);; mret false
  | Move_Idle => update (set_move_state Move_Idle);; mret false
  end.

Definition restore_hover : VM unit :=
  v ← view;
  match last_window_cursor v with
  | Some position => update (set_hover_resize_direction None);; update_resize_cursor position
  | None => clear_resize_cursor
  end.

Definition finish_manual_move : VM bool :=
  v ← view;
  match move_state v with
  | Move_Dragging _ =>
      update (set_move_state Move_Idle);;
      restore_hover;;
      snap_after_move;;
      mret true
  | Move_Pressed drag =>
      update (set_move_state (if macos w then Move_Idle else Move_Released drag (now w)));;
      mret false
  | Move_Released _ _ | Move_Idle => mret false
  end.

Definition take_pending_tile_remote_resize : VM (option (Z * Z)) :=
  v ← view; update (set_pending_tile_remote_resize None);; mret (pending_tile_remote_resize v).

(** *** The titlebar *)

Definition is_titlebar_double_click (last : option TitlebarClick) (now_ x y interval slop : Z) : bool :=
  match last with
  | Some click =>
      (now_ - click_at click <=? interval) && (i32_abs (i32_sub x (click_x click)) <=? slop)
      && (i32_abs (i32_sub y (click_y click)) <=? slop)
  | None => false
  end.

Definition take_titlebar_toggle_on_left_press : VM bool :=
  '(x, y) ← sync_cursor_from_window_position;
  v ← view;
  if is_titlebar_maximize_button x y (fb_width (frame v)) then
    update (set_suppress_next_left_release true);;
    update (set_last_titlebar_click None);;
    mret true
  else if negb (is_titlebar_double_click_area x y (fb_width (frame v))) then
    update (set_last_titlebar_click None);;
    mret false
  else
    let double_click := is_titlebar_double_click (last_titlebar_click v) (now w) x y
                          TITLEBAR_DOUBLE_CLICK_INTERVAL TITLEBAR_DOUBLE_CLICK_DISTANCE_PX in
    update (set_last_titlebar_click (Some (mkTitlebarClick (now w) x y)));;
    if negb double_click then mret false else
    update (set_suppress_next_left_release true);;
    update (set_last_titlebar_click None);;
    mret true.

Definition consume_suppressed_left_release : VM bool :=
  v ← view;
  if negb (suppress_next_left_release v) then mret false else
  update (set_suppress_next_left_release false);; mret true.

(** *** Resizing the window *)

Definition begin_manual_resize : VM bool :=
  v ← view; h ← ask;
  match hover_resize_direction v, last_window_cursor v, outer_position h with
  | Some direction, Some _, Some start_outer =>
      update (set_active_resize (Some (mkResizeDrag direction start_outer (inner_size h))));;
      emit [Set_cursor (vw_window v) (Cursor_Resize direction)];;
      mret true
  | _, _, _ => mret false
  end.

Definition update_manual_resize (position : fpos) : VM bool :=
  v ← view; h ← ask;
  match active_resize v with
  | None => mret false
  | Some drag =>
      let outer := default (start_outer drag) (outer_position h) in
      let cursor_x := F64.add (F64.of_int outer.1) position.1 in
      let cursor_y := F64.add (F64.of_int outer.2) position.2 in
      let '(l, t, r, b) := apply_resize_direction drag cursor_x cursor_y in
      let '(l, t, r, b) := clamp_manual_resize (direction drag) l t r b in
      let width := as_u32_sat (F64.round (F64.sub r l)) in
      let height := as_u32_sat (F64.round (F64.sub b t)) in
      when (uses_west_edge (direction drag) || uses_north_edge (direction drag))
        (emit [Set_outer_position (vw_window v)
                 (as_i32_sat (F64.round l), as_i32_sat (F64.round t))]);;
      emit [Request_physical_size (vw_window v) (width, height)];;
      request_redraw;;
      mret true
  end.

Definition finish_manual_resize : VM bool :=
  v ← view;
  match active_resize v with
  | None => mret false
  | Some _ =>
      update (set_active_resize None);;
      clear_pending_move;;
      restore_hover;;
      mret true
  end.

Definition consume_programmatic_resize (sz : psize) : VM bool :=
  v ← view;
  let '(matched, pending) := consume_programmatic_resize_gate (pending_programmatic_resize v) sz in
  update (set_pending_programmatic_resize pending);; mret matched.

End window.

(** ** The methods of [ViewerApp] *)

Abbreviation AM := (M ViewerApp).

(** winit's events. *)
Inductive MouseScrollDelta := LineDelta (dx dy : f32) | PixelDelta (position : fpos).

Inductive ImeEvent :=
  | Ime_Enabled
  | Ime_Preedit (text : rstring) (cursor : option (Z * Z))
  | Ime_Commit (text : rstring)
  | Ime_Disabled.

Inductive WindowEvent :=
  | CloseRequested
  | Focused (focused : bool)
  | CursorMoved (position : fpos)
  | CursorLeft
  | MouseWheel (delta : MouseScrollDelta)
  | MouseInput (state : ElementState) (button : MouseButton)
  | KeyboardInput (event : KeyEvent)
  | ModifiersChanged (m : ModifiersState)
  | Ime (event : ImeEvent)
  | ThemeChanged (t : Theme)
  | Resized (sz : psize)
  | RedrawRequested
  | Other_event.

Inductive viewer_event :=
  | Resumed
  | Window_event (window : Z) (event : WindowEvent)
  | About_to_wait
  | Viewer_message (m : Message)
  | Viewer_disconnected (reason : rstring)
  | Viewer_dump_windows.

(** [std::env::var] of the host chrome toggle, read once. *)
Definition ViewerApp_new (clipboard : bool) (host_chrome_var : option rstring) (tile_screen : psize) : ViewerApp :=
  mkViewerApp false ∅ ∅ ∅ ∅ ∅ clipboard no_modifiers ∅ ∅ ∅ ∅ (host_chrome_enabled host_chrome_var)
    tile_screen 0 None [].

Section app.
Context (w : world).

Definition app : AM ViewerApp := gets id.
Definition update_app (f : ViewerApp → ViewerApp) : AM unit := modify f.
Definition emit_app (es : list effect) : AM unit := modify (λ a, set_log (log a ++ es) a).
Definition send_input (e : InputEvent) : AM unit := emit_app [Send e].

(** [self.windows.get_mut(&id).map(..)], with [default] for an unknown window. *)
Definition on_view {A} (id : Z) (default : A) (m : VM A) : AM A :=
  zoom (λ a, (λ v, mkViewState v (log a)) <$> windows a !! id)
       (λ s a, set_windows (<[id := vs_view s]> (windows a)) (set_log (vs_log s) a)) default m.

(** A method that only reads the window. *)
Definition read_view {A} (id : Z) (default : A) (f : ViewerWindow → A) : AM A :=
  gets (λ a, from_option f default (windows a !! id)).

(** *** Windows *)

Definition ensure_keepalive_window : AM unit :=
  a ← app;
  if keepalive_window a then mret tt else
  match new_window w with
  | Some _ => update_app (set_keepalive_window true)
  | None => emit_app [Exit]
  end.

Definition maybe_warn_about_guest_chrome (app_id title : rstring) : AM unit :=
  match guest_app_uses_own_chrome app_id title with
  | None => mret tt
  | Some label =>
      let key := guest_chrome_dedup_key app_id title in
      a ← app;
      if bool_decide (key ∈ warned_chrome_apps a) then mret tt else
      update_app (set_warned_chrome_apps ({[key]} ∪ warned_chrome_apps a));;
      emit_app [Warn_guest_chrome label]
  end.

Definition initial_position (id : Z) : ipos :=
  let offset := Z.min (sat_sub id 1) 8 * INITIAL_WINDOW_CASCADE_PX in
  (INITIAL_WINDOW_X + offset, INITIAL_WINDOW_Y + offset).

Definition new_view (window : Z) (title app_id : rstring) (fb : FrameBuffer) (tile_screen : psize)
    (chrome : bool) : ViewerWindow :=
  mkViewerWindow window title app_id fb Input.Backend_Idle (0, 0) None None 0 0 false false
    (F32.of_int 1) (matte_for_theme (theme w)) tile_screen None None Move_Idle None None None None false
    false false chrome false.

Definition create_window (id width height : Z) (title app_id : rstring) : AM unit :=
  let width := Z.max width 1 in
  let height := Z.max height 1 in
  let title := window_title title in
  let chrome := bool_decide (is_Some (guest_app_uses_own_chrome app_id title)) in
  a ← app;
  if bool_decide (is_Some (windows a !! id)) then
    update_app (λ a, set_retired_window_ids (retired_window_ids a ∖ {[id]}) a);;
    on_view id tt (
      v ← view;
      emit [Set_visible (vw_window v) true];;
      set_window_title title;;
      update (set_vw_app_id app_id);;
      update (set_uses_own_chrome (uses_own_chrome v || chrome));;
      emit [Set_icon app_id];;
      resize_to_remote_size w width height)
  else
    maybe_warn_about_guest_chrome app_id title;;
    emit_app [Set_icon app_id; Create_window title (app_host_chrome a)];;
    match new_window w with
    | None => emit_app [Exit]
    | Some window =>
        emit_app [Set_outer_position window (initial_position id); Set_ime_allowed window;
                  Set_ime_cursor_area window (F64.of_int 12, F64.of_int 24)];;
        if negb (softbuffer_ok w) then emit_app [Exit] else
        fb ← lift (FrameBuffer_new INITIAL_HIDDEN_WINDOW_SIZE INITIAL_HIDDEN_WINDOW_SIZE);
        update_app (λ a, set_window_ids (<[window := id]> (window_ids a)) a);;
        update_app (λ a, set_windows
          (<[id := new_view window title app_id fb (tile_screen_size a) chrome]> (windows a)) a);;
        on_view id tt (resize_to_remote_size w width height)
    end.

Definition active_window_count (a : ViewerApp) : nat :=
  size (dom (windows a) ∖ retired_window_ids a).

(** The keys the application holds down in a window, released in the order of the map. *)
Definition release_window_guest_keys (id : Z) : AM unit :=
  a ← app;
  let keycodes := filter (λ k, pressed_guest_keys a !! k = Some id)
                    (hash_order w (elements (dom (pressed_guest_keys a)))) in
  each (λ keycode,
    update_app (λ a, set_pressed_guest_keys (delete keycode (pressed_guest_keys a)) a);;
    update_app (λ a, set_pressed_guest_modifier_counts (delete keycode (pressed_guest_modifier_counts a)) a);;
    send_input (IE_Key id keycode Key_Released)) keycodes.

Definition forget_pending (id : Z) (a : ViewerApp) : ViewerApp :=
  set_pending_host_resize_resyncs (delete id (pending_host_resize_resyncs a))
    (set_pending_fullscreen_exit_resyncs (delete id (pending_fullscreen_exit_resyncs a))
       (set_pending_resizes (delete id (pending_resizes a)) a)).

Definition remove_window (id : Z) : AM unit :=
  update_app (λ a, set_retired_window_ids (retired_window_ids a ∖ {[id]}) a);;
  update_app (forget_pending id);;
  a ← app;
  match windows a !! id with
  | Some v =>
      update_app (λ a, set_windows (delete id (windows a)) a);;
      update_app (λ a, set_window_ids (delete (vw_window v) (window_ids a)) a)
  | None => mret tt
  end;;
  release_window_guest_keys id.

Definition retire_last_window (id : Z) : AM unit :=
  on_view id tt hide;;
  update_app (forget_pending id);;
  release_window_guest_keys id;;
  update_app (λ a, set_retired_window_ids ({[id]} ∪ retired_window_ids a) a).

Definition remove_retired_windows : AM unit :=
  a ← app;
  update_app (set_retired_window_ids ∅);;
  each remove_window (hash_order w (elements (retired_window_ids a))).

(** *** Pending resizes *)

Definition build_pending_remote_resize (width height debounce now_ : Z) : PendingRemoteResize :=
  mkPendingRemoteResize (Z.max width 1) (Z.max height 1) (now_ + debounce).

Definition queue_remote_resize (id width height : Z) : AM unit :=
  let resize := build_pending_remote_resize width height REMOTE_RESIZE_DEBOUNCE (now w) in
  update_app (λ a, set_pending_resizes (<[id := resize]> (pending_resizes a)) a).

Definition queue_fullscreen_exit_resync (id : Z) : AM unit :=
  update_app (λ a, set_pending_resizes (delete id (pending_resizes a)) a);;
  update_app (λ a, set_pending_host_resize_resyncs (delete id (pending_host_resize_resyncs a)) a);;
  update_app (λ a, set_pending_fullscreen_exit_resyncs
    (<[id := now w + FULLSCREEN_EXIT_RESYNC_DELAY]> (pending_fullscreen_exit_resyncs a)) a).

Definition queue_host_resize_resync (id : Z) : AM unit :=
  update_app (λ a, set_pending_host_resize_resyncs
    (<[id := now w + HOST_RESIZE_RESYNC_DELAY]> (pending_host_resize_resyncs a)) a).

Definition send_remote_resize_now (id width height : Z) : AM unit :=
  on_view id tt (update (set_remote_resize_in_flight (Some (width, height))));;
  send_input (IE_Focus id true);;
  send_input (IE_Resize id width height).

(** *** Keys *)

Definition guest_modifier_refcount_should_forward (counts : gmap Z Z) (keycode : Z) (state : ElementState) :
    bool * gmap Z Z :=
  match state with
  | Pressed =>
      let count := default 0 (counts !! keycode) in
      (count =? 0, <[keycode := sat_add u64_max count 1]> counts)
  | Released =>
      match counts !! keycode with
      | None => (false, counts)
      | Some count =>
          if 1 <? count then (false, <[keycode := count - 1]> counts) else (true, delete keycode counts)
      end
  end.

Definition send_guest_key (id keycode : Z) (state : InputKeyState) : AM unit :=
  send_input (IE_Key id keycode state).

Definition send_tracked_guest_key (id keycode : Z) (state : ElementState) : AM unit :=
  a ← app;
  match state with
  | Pressed =>
      update_app (λ a, set_pressed_guest_keys (<[keycode := id]> (pressed_guest_keys a)) a);;
      send_input (IE_Key id keycode Key_Pressed)
  | Released =>
      match pressed_guest_keys a !! keycode with
      | None => mret tt
      | Some pressed_id =>
          update_app (λ a, set_pressed_guest_keys (delete keycode (pressed_guest_keys a)) a);;
          send_input (IE_Key pressed_id keycode Key_Released)
      end
  end.

Definition send_tracked_guest_modifier_key (id keycode : Z) (state : ElementState) : AM unit :=
  a ← app;
  let '(forward, counts) :=
    guest_modifier_refcount_should_forward (pressed_guest_modifier_counts a) keycode state in
  update_app (set_pressed_guest_modifier_counts counts);;
  if negb forward then mret tt else send_tracked_guest_key id keycode state.

Definition release_guest_key_if_pressed (keycode : Z) : AM bool :=
  update_app (λ a, set_pressed_guest_modifier_counts (delete keycode (pressed_guest_modifier_counts a)) a);;
  a ← app;
  match pressed_guest_keys a !! keycode with
  | None => mret false
  | Some pressed_id =>
      update_app (λ a, set_pressed_guest_keys (delete keycode (pressed_guest_keys a)) a);;
      send_input (IE_Key pressed_id keycode Key_Released);;
      mret true
  end.

(** *** Text *)

Definition composer_action_event (id : Z) (action : ComposerAction) : list InputEvent :=
  match action with
  | Commit text => if bool_decide (text = []) then [] else [IE_Text id text]
  | Preedit (Some text) => let cursor := usize_to_i32 (str_len text) in [IE_Preedit id text cursor cursor]
  | Preedit None => [IE_Preedit id [] (-1) (-1)]
  end.

Definition send_composer_actions (id : Z) (actions : list ComposerAction) : AM unit :=
  each (λ action, each send_input (composer_action_event id action)) actions.

(** Run the composer of a window; an unknown window has nothing to say. *)
Definition with_composer (id : Z) (f : Input.Backend → Input.Backend * list ComposerAction) :
    AM (list ComposerAction) :=
  on_view id [] (
    v ← view;
    let '(c, actions) := f (composer v) in
    update (set_composer c);; mret actions).

Definition composer_is_empty (id : Z) : AM bool := read_view id true (λ v, Input.is_empty (composer v)).
Definition composer_backspace (id : Z) : AM (list ComposerAction) := with_composer id Input.backspace.
Definition composer_push_text (id : Z) (text : rstring) : AM (list ComposerAction) :=
  with_composer id (λ c, Input.push_text c text).
Definition composer_flush (id : Z) : AM (list ComposerAction) := with_composer id Input.flush.

Definition flush_composer (id : Z) : AM unit :=
  actions ← composer_flush id; send_composer_actions id actions.

Definition send_host_text (id : Z) (text : rstring) : AM unit :=
  if Input.can_compose text then
    actions ← composer_push_text id text; send_composer_actions id actions
  else
    flush_composer id;; send_input (IE_Text id text).

Definition clear_shortcut_modifier_cache (id : Z) (release_guest_ctrl : bool) : AM unit :=
  update_app (set_modifiers no_modifiers);;
  when release_guest_ctrl (release_guest_key_if_pressed KEY_LEFTCTRL;; mret tt);;
  flush_composer id.

Definition clear_stale_shortcut_modifiers_for_text (id : Z) : AM bool :=
  a ← app;
  if negb (shortcut_modifiers_active (modifiers a))
     || bool_decide (is_Some (pressed_guest_keys a !! KEY_LEFTCTRL)) then mret false else
  clear_shortcut_modifier_cache id false;; mret true.

(** *** Messages from the guest *)

Definition on_frame_tile (tile : FrameTile) : AM unit :=
  let id := tile_id tile in
  known ← read_view id false (λ _, true);
  if negb known then mret tt else
  applied ← on_view id None (
    v ← view;
    match apply_tile (frame v) tile with
    | Ok (fb, changed) => update (set_frame fb);; mret (Some changed)
    | Err Tile_panic => lift None
    | Err _ => mret None
    end);
  match applied with
  | None => mret tt
  | Some display_size_changed =>
      queue ← on_view id false (
        v ← view;
        update (set_remote_resize_in_flight None);;
        match remote_resize_in_flight v with
        | Some _ => needs_host_resize_resync_after_remote w
        | None => mret false
        end);
      on_view id tt (
        v ← view;
        if should_adopt_host_window (adopted_from_frame_tile v) display_size_changed then
          let '(cw, ch) := display_size (frame v) in
          when (is_content_rect_adoptable cw ch) (
            update (set_adopted_from_frame_tile true);;
            mark_adopted_initial_size;;
            request_scaled_inner_size w)
        else mret tt);;
      update_app (λ a, set_frame_count (sat_add u64_max (frame_count a) 1) a);;
      on_view id tt (request_redraw;; render w);;
      when queue (queue_host_resize_resync id)
  end.

Definition on_title_changed (id : Z) (title : rstring) : AM unit :=
  warn ← on_view id None (
    v ← view;
    let title := window_title title in
    let chrome := bool_decide (is_Some (guest_app_uses_own_chrome (vw_app_id v) title)) in
    let newly_detected := chrome && negb (uses_own_chrome v) in
    when newly_detected (
      update (set_uses_own_chrome true);;
      request_scaled_inner_size w;;
      request_redraw);;
    set_window_title title;;
    mret (if newly_detected then Some (vw_app_id v, title) else None));
  match warn with
  | Some (app_id, title) => maybe_warn_about_guest_chrome app_id title
  | None => mret tt
  end.

Definition apply_window_fullscreen (fullscreen : bool) : VM unit :=
  v ← view; h ← ask w;
  if Bool.eqb (is_window_fullscreen h) fullscreen then mret tt
  else emit [Set_fullscreen (vw_window v) fullscreen].

Definition on_fullscreen_changed (id : Z) (fullscreen : bool) : AM unit :=
  known ← on_view id false (
    update (set_pending_programmatic_resize None);;
    apply_window_fullscreen fullscreen;;
    update (set_last_host_fullscreen fullscreen);;
    mret true);
  if fullscreen then update_app (forget_pending id)
  else when known (queue_fullscreen_exit_resync id).

Definition on_destroyed (id : Z) : AM unit :=
  a ← app;
  if (active_window_count a <=? 1)%nat && bool_decide (is_Some (windows a !! id)) then
    retire_last_window id;;
    update_app (set_empty_windows_since (Some (now w)));;
    emit_app [Set_control_flow (Some (now w + WINDOW_REPLACEMENT_GRACE))]
  else remove_window id.

Definition handle_remote_window_event (e : Wire.WindowEvent) : AM unit :=
  match e with
  | WE_Created id geom title app_id =>
      update_app (set_empty_windows_since None);;
      create_window id (Z.max (geom_w geom) 1) (Z.max (geom_h geom) 1) title app_id
  | WE_Configured id geom =>
      on_view id tt (
        resize_to_remote_size w (Z.max (geom_w geom) 1) (Z.max (geom_h geom) 1);;
        request_redraw)
  | WE_TitleChanged id title => on_title_changed id title
  | WE_Minimized id => on_view id tt (v ← view; emit [Set_minimized (vw_window v)])
  | WE_MoveRequested id =>
      if macos w then mret tt else
      resize ← on_view id None (begin_requested_move w;; take_pending_tile_remote_resize);
      match resize with
      | Some (width, height) => queue_remote_resize id width height
      | None => mret tt
      end
  | WE_FullscreenChanged id fullscreen => on_fullscreen_changed id fullscreen
  | WE_Destroyed id => on_destroyed id
  end.

Definition handle_message (msg : Message) : AM unit :=
  match msg with
  | Message_WindowEvent event => handle_remote_window_event event
  | Message_FrameTile tile => on_frame_tile tile
  | Message_Goodbye _ | Message_Error _ => emit_app [Exit]
  | Message_Clipboard payload =>
      a ← app; if clipboard_inbound a then emit_app [Clipboard_inbound payload] else mret tt
  | _ => mret tt
  end.

(** *** The wait of the event loop *)

Definition earliest (known : option Z) (due : Z) : option Z :=
  Some (match known with Some k => Z.min k due | None => due end).

(** [retain]: the due entries in the order of the map, the others, and the first of their
    instants. *)
Definition retain_waiting {A} (due : A → Z) (pending : gmap Z A) (next_due : option Z) :
    list (Z * A) * gmap Z A * option Z :=
  let entries := omap (λ id, pair id <$> pending !! id) (hash_order w (elements (dom pending))) in
  (filter (λ e, due e.2 ≤ now w) entries,
   filter (λ e, now w < due e.2) pending,
   foldl (λ next e, if now w <? due e.2 then earliest next (due e.2) else next) next_due entries).

Definition flush_due_remote_resizes : AM unit :=
  a ← app;
  let '(ready_fullscreen, waiting_fullscreen, next_due) :=
    retain_waiting (λ due, due) (pending_fullscreen_exit_resyncs a) None in
  let '(ready, waiting, next_due) := retain_waiting resize_due (pending_resizes a) next_due in
  let '(ready_host, waiting_host, next_due) :=
    retain_waiting (λ due, due) (pending_host_resize_resyncs a) next_due in
  update_app (λ a, set_pending_fullscreen_exit_resyncs waiting_fullscreen
    (set_pending_resizes waiting (set_pending_host_resize_resyncs waiting_host a)));;
  each (λ e,
    resize ← on_view e.1 None (resize_request_for_current_inner_size w);
    match resize with
    | Some (width, height) => send_remote_resize_now e.1 width height
    | None => mret tt
    end) ready_fullscreen;;
  each (λ e, send_remote_resize_now e.1 (resize_width e.2) (resize_height e.2)) ready;;
  each (λ e, on_view e.1 tt (request_scaled_inner_size_if_needed w;; mret tt)) ready_host;;
  match empty_windows_since a with
  | Some started_at =>
      let exit_at := started_at + WINDOW_REPLACEMENT_GRACE in
      if exit_at <=? now w then remove_retired_windows;; emit_app [Exit]
      else emit_app [Set_control_flow (earliest next_due exit_at)]
  | None => emit_app [Set_control_flow next_due]
  end.

(** *** The input method *)

Definition is_text_event (e : ImeEvent) : bool :=
  match e with Ime_Preedit _ _ | Ime_Commit _ => true | _ => false end.

Definition handle_ime_event (id : Z) (e : ImeEvent) : AM unit :=
  match e with
  | Ime_Enabled =>
      a ← app;
      when (super_key (modifiers a) || control_key (modifiers a)) (clear_shortcut_modifier_cache id true);;
      flush_composer id
  | Ime_Preedit text cursor =>
      let '(cursor_begin, cursor_end) := ime_cursor_range cursor in
      idle ← composer_is_empty id;
      if Input.can_compose text || (bool_decide (text = []) && negb idle) then mret tt else
      flush_composer id;;
      send_input (IE_Preedit id text cursor_begin cursor_end)
  | Ime_Commit text => when (negb (bool_decide (text = []))) (send_host_text id text)
  | Ime_Disabled =>
      flush_composer id;;
      send_input (IE_Preedit id [] (-1) (-1))
  end.

Definition handle_ime (id : Z) (e : ImeEvent) : AM unit :=
  a ← app;
  when (shortcut_modifiers_active (modifiers a) && is_text_event e)
    (clear_stale_shortcut_modifiers_for_text id;; mret tt);;
  a ← app;
  if shortcut_modifiers_active (modifiers a) && is_text_event e then mret tt
  else handle_ime_event id e.

(** *** The keyboard *)

Definition handle_terminal_macos_new_tab_shortcut (id : Z) (event : KeyEvent) : AM bool :=
  a ← app;
  target_is_terminal ← read_view id false (λ v, is_terminal_window_title (vw_title v));
  if negb (is_terminal_new_tab_shortcut (key_state event) (repeat event) (physical_key event)
             (modifiers a) target_is_terminal) then mret false else
  flush_composer id;;
  a ← app;
  let injected_ctrl := negb (bool_decide (is_Some (pressed_guest_keys a !! KEY_LEFTCTRL))) in
  when injected_ctrl (send_guest_key id KEY_LEFTCTRL Key_Pressed);;
  send_guest_key id KEY_LEFTSHIFT Key_Pressed;;
  send_guest_key id 20 Key_Pressed;;
  send_guest_key id 20 Key_Released;;
  send_guest_key id KEY_LEFTSHIFT Key_Released;;
  when injected_ctrl (send_guest_key id KEY_LEFTCTRL Key_Released);;
  mret true.

Definition next_view_scale (text : rstring) (current : f32) : option f32 :=
  if one_of (Some text) [lit "+"; lit "="] then Some (F32.mul current VIEW_SCALE_STEP)
  else if one_of (Some text) [lit "-"; lit "_"] then Some (F32.div current VIEW_SCALE_STEP)
  else if one_of (Some text) [lit "0"] then Some (F32.of_int 1)
  else None.

Definition handle_view_shortcut (id : Z) (key : Key) : AM bool :=
  match key with
  | Character text =>
      on_view id false (
        v ← view;
        match next_view_scale text (view_scale v) with
        | Some scale => set_scale w scale;; mret true
        | None => mret false
        end)
  | _ => mret false
  end.

Definition is_pressed (event : KeyEvent) : bool := bool_decide (key_state event = Pressed).

(** The last branches: the event is not a shortcut. *)
Definition handle_plain_key (id : Z) (event : KeyEvent) (command_modifiers : bool) : AM unit :=
  match named_keycode (logical_key event) with
  | Some keycode =>
      idle ← composer_is_empty id;
      if is_pressed event && (keycode =? KEY_BACKSPACE) && negb idle then
        actions ← composer_backspace id; send_composer_actions id actions
      else
        when (is_pressed event) (flush_composer id);;
        send_tracked_guest_key id keycode (key_state event)
  | None =>
      a ← app;
      if negb (is_pressed event) then
        match shortcut_keycode (physical_key event) with
        | Some keycode =>
            when (bool_decide (is_Some (pressed_guest_keys a !! keycode)))
              (send_tracked_guest_key id keycode Released)
        | None => mret tt
        end
      else if command_modifiers then mret tt
      else match printable_keyboard_text (key_text event) with
           | None => mret tt
           | Some text => if Input.can_compose text then mret tt else send_host_text id text
           end
  end.

(** The branch of the command modifiers; [true]: the event is dealt with. *)
Definition handle_command_key (id : Z) (event : KeyEvent) : AM bool :=
  a ← app;
  zoomed ← (if is_pressed event && shortcut_modifiers_active (modifiers a)
            then handle_view_shortcut id (logical_key event) else mret false);
  if (zoomed : bool) then mret true else
  match (match shortcut_keycode (physical_key event) with
         | Some k => Some k
         | None => named_keycode (logical_key event)
         end) with
  | None => mret false
  | Some keycode =>
      a ← app;
      if is_pressed event then
        flush_composer id;; send_tracked_guest_key id keycode Pressed;; mret true
      else if bool_decide (is_Some (pressed_guest_keys a !! keycode)) then
        send_tracked_guest_key id keycode Released;; mret true
      else mret true
  end.

Definition handle_keyboard (id : Z) (event : KeyEvent) : AM unit :=
  match guest_modifier_keycode (physical_key event) (logical_key event) with
  | Some keycode => send_tracked_guest_modifier_key id keycode (key_state event)
  | None =>
  a ← app;
  let fresh := is_pressed event && negb (repeat event) in
  if fresh && is_window_dump_shortcut (modifiers a) (logical_key event) then emit_app [Dump_windows] else
  if fresh && is_fullscreen_shortcut (modifiers a) (logical_key event) then
    fullscreen ← on_view id false (h ← ask w; mret (negb (is_window_fullscreen h)));
    send_input (IE_SetFullscreen id fullscreen) else
  if is_pressed event && is_macos_emoji_picker_shortcut (physical_key event) (modifiers a)
  then flush_composer id else
  if is_emoji_picker_release_to_swallow (key_state event) (physical_key event) (modifiers a)
  then mret tt else
  new_tab ← handle_terminal_macos_new_tab_shortcut id event;
  if (new_tab : bool) then mret tt else
  when (is_pressed event && bool_decide (is_Some (printable_keyboard_text (key_text event))))
    (clear_stale_shortcut_modifiers_for_text id;; mret tt);;
  a ← app;
  let command_modifiers := keyboard_command_modifiers_active (modifiers a) in
  handled ← (if command_modifiers then handle_command_key id event else mret false);
  if (handled : bool) then mret tt else handle_plain_key id event command_modifiers
  end.

(** *** The pointer *)

Definition on_cursor_moved (id : Z) (position : fpos) : AM unit :=
  motion ← on_view id None (
    set_window_cursor position;;
    moved ← update_manual_move position;
    if (moved : bool) then mret None else
    resized ← update_manual_resize w position;
    if (resized : bool) then mret None else
    update_resize_cursor w position;;
    v ← view;
    if bool_decide (is_Some (hover_resize_direction v)) then mret None else
    '(x, y) ← cache_frame_cursor w position;
    update_ime_cursor_area w x y;;
    mret (Some (x, y)));
  match motion with
  | Some (x, y) => send_input (IE_PointerMotion id x y)
  | None => mret tt
  end.

Definition millis (delta : f64) : Z :=
  as_i32_sat (F64.round (F64.mul (fopp delta) (F64.of_int 1000))).

Definition on_mouse_wheel (id : Z) (delta : MouseScrollDelta) : AM unit :=
  deltas ← match delta with
           | LineDelta dx dy => mret (F64.mul dx SCROLL_LINE_TO_AXIS_UNITS, F64.mul dy SCROLL_LINE_TO_AXIS_UNITS)
           | PixelDelta (x, y) =>
               scale ← on_view id (F64.of_int 1) (h ← ask w; mret (fmax (scale_factor h) (F64.of_int 1)));
               mret (F64.div x scale, F64.div y scale)
           end;
  let '(delta_x, delta_y) := deltas in
  if feqb delta_x (F64.of_int 0) && feqb delta_y (F64.of_int 0) then mret tt else
  motion ← on_view id None (
    v ← view; h ← ask w;
    let center := (F64.div (F64.of_int (inner_size h).1) (F64.of_int 2),
                   F64.div (F64.of_int (inner_size h).2) (F64.of_int 2)) in
    '(x, y) ← cache_cursor_at w (default center (last_window_cursor v));
    mret (Some (x, y)));
  match motion with
  | Some (x, y) => send_input (IE_PointerMotion id x y)
  | None => mret tt
  end;;
  send_input (IE_PointerScroll id (millis delta_x) (millis delta_y)).

Definition focus_for_input (id : Z) : AM unit :=
  on_view id tt (enable_ime_at_last_cursor w);;
  send_input (IE_Focus id true).

(** The left button: [true] when the press or release was the viewer's own. *)
Definition on_left_button (id : Z) (state : ElementState) : AM bool :=
  a ← app;
  toggle ← (if bool_decide (state = Pressed) && negb (app_host_chrome a)
            then on_view id false (take_titlebar_toggle_on_left_press w) else mret false);
  if (toggle : bool) then
    focus_for_input id;;
    send_input (IE_ToggleMaximize id);;
    on_view id tt (v ← view; h ← ask w; emit [Set_maximized (vw_window v) (negb (is_window_maximized h))]);;
    mret true
  else
  when (bool_decide (state = Pressed)) (on_view id tt (remember_left_press w));;
  suppressed ← (if bool_decide (state = Released)
                then on_view id false consume_suppressed_left_release else mret false);
  if (suppressed : bool) then mret true else
  moved ← match state with
          | Pressed =>
              if host_move_modifier_active (modifiers a)
              then handled ← on_view id false (begin_manual_move w); mret (handled, None)
              else mret (false, None)
          | Released =>
              on_view id (false, None) (
                handled ← finish_manual_move w;
                resize ← take_pending_tile_remote_resize;
                mret (handled, resize))
          end;
  let '(handled_move, move_resize) := moved in
  if (handled_move : bool) then
    match move_resize with
    | Some (width, height) => queue_remote_resize id width height
    | None => mret tt
    end;;
    mret true
  else
  handled_resize ← on_view id false
    (match state with Pressed => begin_manual_resize w | Released => finish_manual_resize w end);
  if (handled_resize : bool) then focus_for_input id;; mret true else mret false.

Definition on_mouse_input (id : Z) (state : ElementState) (button : MouseButton) : AM unit :=
  '(x, y) ← on_view id (0, 0) (sync_cursor_for_button_event w);
  handled ← match button with Left => on_left_button id state | _ => mret false end;
  if (handled : bool) then mret tt else
  match mouse_button_code button with
  | None => mret tt
  | Some button =>
      when (bool_decide (state = Pressed)) (focus_for_input id);;
      send_input (IE_PointerMotion id x y);;
      send_input (IE_PointerButton id button
        (match state with Pressed => Button_Pressed | Released => Button_Released end))
  end.

(** *** The size of the host window *)

(** What the view decides about a [Resized]: whether fullscreen was toggled, whether it was
    left, and the size to tell the guest. *)
Definition view_resized (sz : psize) : VM (option bool * bool * option (Z * Z)) :=
  v ← view; h ← ask w;
  let in_fullscreen := is_window_fullscreen h in
  let toggled := negb (Bool.eqb in_fullscreen (last_host_fullscreen v)) in
  let schedule := toggled && negb in_fullscreen in
  when toggled (
    update (set_last_host_fullscreen in_fullscreen);;
    update (set_pending_programmatic_resize None));;
  v ← view;
  resize ← (if negb schedule && negb in_fullscreen && visible v then
              programmatic ← consume_programmatic_resize sz;
              if (programmatic : bool) then mret None else
              pair ← resize_request_for_current_inner_size w;
              when (bool_decide (is_Some pair)) (enable_ime_at_last_cursor w);;
              mret pair
            else mret None);
  request_redraw;;
  mret (if toggled then Some in_fullscreen else None, schedule, resize).

Definition on_resized (id : Z) (sz : psize) : AM unit :=
  update_app (λ a, set_pending_host_resize_resyncs (delete id (pending_host_resize_resyncs a)) a);;
  decision ← on_view id (None, false, None) (view_resized sz);
  let '(fullscreen_to_send, schedule, resize) := decision in
  match fullscreen_to_send with
  | Some fullscreen =>
      send_input (IE_SetFullscreen id fullscreen);;
      when fullscreen (update_app (forget_pending id))
  | None => mret tt
  end;;
  when schedule (queue_fullscreen_exit_resync id);;
  match resize with
  | Some (width, height) => queue_remote_resize id width height
  | None => mret tt
  end.

(** *** The events *)

Definition window_event (window : Z) (event : WindowEvent) : AM unit :=
  a ← app;
  match window_ids a !! window with
  | None => mret tt
  | Some id =>
  match event with
  | CloseRequested => release_window_guest_keys id;; send_input (IE_Close id)
  | Focused focused =>
      (if focused then on_view id tt (enable_ime_at_last_cursor w) else release_window_guest_keys id);;
      send_input (IE_Focus id focused)
  | CursorMoved position => on_cursor_moved id position
  | CursorLeft => on_view id tt clear_resize_cursor
  | MouseWheel delta => on_mouse_wheel id delta
  | MouseInput state button => on_mouse_input id state button
  | KeyboardInput event => handle_keyboard id event
  | ModifiersChanged m => update_app (set_modifiers m)
  | Ime event => handle_ime id event
  | ThemeChanged t => on_view id tt (set_theme t)
  | Resized sz => on_resized id sz
  | RedrawRequested => on_view id tt (render_pending_redraw w)
  | Other_event => mret tt
  end
  end.

Definition viewer_step (e : viewer_event) : AM unit :=
  match e with
  | Resumed => ensure_keepalive_window
  | Window_event window event => window_event window event
  | About_to_wait => flush_due_remote_resizes
  | Viewer_message m => handle_message m
  | Viewer_disconnected _ => emit_app [Exit]
  | Viewer_dump_windows => emit_app [Dump_windows]
  end.

End app.
