(* ===== verification/Dump.v ===== *)
(** * What the user is shown of the state (crates/server/src/wayland_session/window_debug.rs;
      crates/client/src/viewer/window_debug.rs, app.rs; crates/client/src/ctl/print.rs)

    The dumps that [vbox windows] asks both ends for, one line per window, and the lines in
    which a control command prints the daemon's reply. *)

From Stdlib Require Import SpecFloat Sorting.
From stdpp Require Import sorting.
From S2P Require Import Prelude Text Wire Float.
From S2P Require Compositor Frame Viewer.

(** ** What the formatters share *)

Definition DUMP_PREFIX : rstring := lit "window-dump:".
Definition show_bool (b : bool) : rstring := if b then lit "true" else lit "false".
Definition show_size (s : Z * Z) : rstring := dec s.1 ++ lit "x" ++ dec s.2.

(** [{:?}] of an option of a number. *)
Definition debug_option (o : option Z) : rstring :=
  match o with Some n => lit "Some(" ++ dec n ++ lit ")" | None => lit "None" end.

(** [{:.2}] of a finite value. *)
Definition format2 (x : spec_float) : rstring :=
  let n := nearest_even (Z.abs (fnum x) * 100) (fden x) in
  (if fneg x then lit "-" else []) ++ dec (n / 100) ++ lit "." ++ ((λ d, 48 + n / d mod 10) <$> [10; 1]).

(** The keys of a map, sorted. *)
Definition sorted_ids {A} (m : gmap Z A) : list Z := merge_sort Z.le (map_to_list m).*1.

(** ** The compositor *)

Module Server.
Import Compositor.

Inductive WindowModeSnapshot :=
  | Snap_Normal
  | Snap_Maximized (restore : Z * Z)
  | Snap_Fullscreen (restore : Z * Z).

Definition mode_snapshot (value : WindowMode) : WindowModeSnapshot :=
  match value with
  | Normal => Snap_Normal
  | Maximized restore_size => Snap_Maximized restore_size
  | Fullscreen restore_size => Snap_Fullscreen restore_size
  end.

Record WindowSnapshot := mkWindowSnapshot {
  snap_id : Z; snap_size : Z * Z; snap_mode : WindowModeSnapshot; surface_label : rstring;
  last_move_ms : option Z; child_count : Z
}.

Section dump.
(** How smithay shows the id of a surface; the milliseconds since the start of the view. *)
Context (label : Z → rstring) (now : Z).

Definition snapshot_from (id : Z) (window : RemoteWindow) (app : App) : WindowSnapshot :=
  mkWindowSnapshot id (win_size window) (mode_snapshot (win_mode window)) (label (win_surface window))
    ((λ at_, Z.max 0 (now - at_)) <$> last_move_request_at window)
    (Z.of_nat (length (filter (λ owner, owner = id) (map_to_list (child_surface_window app)).*2))).

Definition collect_snapshots (app : App) : list WindowSnapshot :=
  omap (λ id, (λ w, snapshot_from id w app) <$> windows app !! id) (sorted_ids (windows app)).

Definition format_mode (mode : WindowModeSnapshot) : rstring :=
  match mode with
  | Snap_Normal => lit "Normal"
  | Snap_Maximized restore => lit "Maximized{restore=" ++ show_size restore ++ lit "}"
  | Snap_Fullscreen restore => lit "Fullscreen{restore=" ++ show_size restore ++ lit "}"
  end.

Definition format_window_line (snap : WindowSnapshot) : rstring :=
  DUMP_PREFIX ++ lit " ts=" ++ dec now ++ lit "ms id=" ++ dec (snap_id snap) ++ lit " size=" ++ show_size (snap_size snap)
  ++ lit " mode=" ++ format_mode (snap_mode snap) ++ lit " surface=" ++ surface_label snap
  ++ lit " last_move=" ++ match last_move_ms snap with Some ms => dec ms ++ lit "ms" | None => lit "none" end
  ++ lit " children=" ++ dec (child_count snap).

(** [dump_windows]: the lines. *)
Definition dump_windows (app : App) : list rstring :=
  let snapshots := collect_snapshots app in
  (DUMP_PREFIX ++ lit " ts=" ++ dec now ++ lit "ms header windows=" ++ dec (Z.of_nat (length snapshots))
   ++ lit " active=" ++ debug_option (active_window_id app) ++ lit " output=" ++ show_size (output_size app))
  :: (format_window_line <$> snapshots).
End dump.
End Server.

(** ** The viewer *)

Module Client.
Import Viewer.

Record ViewerWindowSnapshot := mkViewerWindowSnapshot {
  snap_id : Z; snap_inner_size : Z * Z; frame_size : Z * Z; snap_last_host_fullscreen : bool; winit_fullscreen : bool;
  simple_fullscreen : bool; snap_pending_programmatic_resize : option (Z * Z); pending_remote_resize : option (Z * Z);
  snap_view_scale : f32
}.

Section dump.
(** What winit answers about the window of a view. *)
Context (inner : Z → Z * Z) (fullscreen simple : Z → bool).

Definition at_least_one (s : Z * Z) : Z * Z := (Z.max s.1 1, Z.max s.2 1).

Definition snapshot_from_parts (id window : Z) (frame_size : Z * Z) (last_host_fullscreen : bool)
    (pending_programmatic_resize pending_remote_resize : option (Z * Z)) (view_scale : f32) : ViewerWindowSnapshot :=
  mkViewerWindowSnapshot id (at_least_one (inner window)) frame_size last_host_fullscreen (fullscreen window) (simple window)
    (at_least_one <$> pending_programmatic_resize) pending_remote_resize view_scale.

Definition collect_viewer_snapshots (app : ViewerApp) : list ViewerWindowSnapshot :=
  omap (λ id, (λ view, snapshot_from_parts id (vw_window view) (Frame.fb_width (frame view), Frame.fb_height (frame view))
                         (last_host_fullscreen view) (pending_programmatic_resize view)
                         ((λ p, (resize_width p, resize_height p)) <$> pending_resizes app !! id) (view_scale view))
                <$> windows app !! id)
    (filter (λ id, id ∉ retired_window_ids app) (sorted_ids (windows app))).

Definition format_viewer_window_line (snap : ViewerWindowSnapshot) : rstring :=
  let pending p := match p with Some s => show_size s | None => lit "none" end in
  DUMP_PREFIX ++ lit " id=" ++ dec (snap_id snap) ++ lit " inner=" ++ show_size (snap_inner_size snap)
  ++ lit " frame=" ++ show_size (frame_size snap) ++ lit " last_host_fs=" ++ show_bool (snap_last_host_fullscreen snap)
  ++ lit " winit_fs=" ++ show_bool (winit_fullscreen snap) ++ lit " simple_fs=" ++ show_bool (simple_fullscreen snap)
  ++ lit " pending_prog=" ++ pending (snap_pending_programmatic_resize snap)
  ++ lit " pending_remote=" ++ pending (pending_remote_resize snap) ++ lit " scale=" ++ format2 (snap_view_scale snap).

Definition dump_viewer_windows (app : ViewerApp) : list rstring :=
  let snapshots := collect_viewer_snapshots app in
  (DUMP_PREFIX ++ lit " header windows=" ++ dec (Z.of_nat (length snapshots)) ++ lit " host_chrome=" ++ show_bool (app_host_chrome app)
   ++ lit " retired=" ++ dec (Z.of_nat (size (retired_window_ids app))))
  :: (format_viewer_window_line <$> snapshots).
End dump.
End Client.

(** ** Replies of the daemon *)

(** [{:x}] *)
Fixpoint hex_digits (fuel : nat) (n : Z) (acc : rstring) : rstring :=
  let digit d := if d <? 10 then 48 + d else 87 + d in
  match fuel with
  | O => acc
  | S fuel => if n <? 16 then digit n :: acc else hex_digits fuel (n / 16) (digit (n mod 16) :: acc)
  end.

Definition show_v4 (bits : Z) : rstring := join (lit ".") ((λ k, dec (Z.land (Z.shiftr bits k) 255)) <$> [24; 16; 8; 0]).

Definition segments (bits : Z) : list Z := (λ k, Z.land (Z.shiftr bits k) 65535) <$> [112; 96; 80; 64; 48; 32; 16; 0].

(** The first longest run of zeros, as its start and length; [at_], [run]: the run that ends
    here. *)
Fixpoint longest_zeros (segs : list Z) (at_ : nat) (run best : nat * nat) : nat * nat :=
  match segs with
  | [] => best
  | seg :: segs =>
      if seg =? 0 then
        let run := if bool_decide (run.2 = 0%nat) then (at_, 1%nat) else (run.1, S run.2) in
        longest_zeros segs (S at_) run (if (best.2 <? run.2)%nat then run else best)
      else longest_zeros segs (S at_) (0%nat, 0%nat) best
  end.

Definition show_v6 (bits : Z) : rstring :=
  let segs := segments bits in
  let colons l := join (lit ":") ((λ s, hex_digits 4 s []) <$> l) in
  if Z.shiftr bits 32 =? 65535 then lit "::ffff:" ++ show_v4 (Z.land bits 4294967295)
  else let '(start, len) := longest_zeros segs 0 (0%nat, 0%nat) (0%nat, 0%nat) in
       if (1 <? len)%nat then colons (take start segs) ++ lit "::" ++ colons (drop (start + len) segs) else colons segs.

(** [Display] of a socket address. *)
Definition show_addr (a : SocketAddr) : rstring :=
  match sa_ip a with
  | IpAddr_V4 bits => show_v4 bits ++ lit ":" ++ dec (sa_port a)
  | IpAddr_V6 bits => lit "[" ++ show_v6 bits ++ lit "]:" ++ dec (sa_port a)
  end.

Definition pids_text (pids : list Z) : rstring :=
  match pids with [] => lit "-" | pids => join (lit ",") (dec <$> pids) end.

Definition instance_line (inst : InstanceSummary) : rstring :=
  lit "  " ++ sum_instance inst ++ lit " port=" ++ dec (sum_port inst) ++ lit " server_pid=" ++ dec (sum_server_pid inst) ++ lit " apps=["
  ++ pids_text (sum_app_pids inst) ++ lit "]".

Definition format_ok (ok : RpcOk) : list rstring :=
  match ok with
  | RpcOk_Status s =>
      [lit "daemon_pid=" ++ dec (daemon_pid s); lit "instances=" ++ dec (Z.of_nat (length (status_instances s)))]
      ++ (instance_line <$> status_instances s)
  | RpcOk_InstanceStarted pid => [lit "instance_started pid=" ++ dec pid]
  | RpcOk_InstanceStopped => [lit "instance_stopped"]
  | RpcOk_AppLaunched pid => [lit "app_launched pid=" ++ dec pid]
  | RpcOk_SocketReady => [lit "socket_ready"]
  | RpcOk_DataPlanePrepared bundle =>
      let caps := bundle_capabilities bundle in
      [lit "tcp_addr=" ++ show_addr (bundle_tcp_addr bundle);
       lit "quic_addr=" ++ default (lit "-") (show_addr <$> bundle_quic_addr bundle);
       lit "session_token=" ++ bundle_session_token bundle;
       lit "quic_server_cert_sha256=" ++ default (lit "-") (bundle_quic_server_cert_sha256 bundle);
       lit "capabilities=reliable_streams:" ++ show_bool (reliable_streams caps) ++ lit " datagrams:" ++ show_bool (datagrams caps)
       ++ lit " multi_app_channels:" ++ show_bool (multi_app_channels caps)]
  | RpcOk_Authenticated => []
  end.

Definition print_ok (ok : RpcOk) : rstring := format_ok ok ≫= λ line, line ++ [10].

(** ** Every window has one line *)

Lemma sorted_ids_spec {A} (m : gmap Z A) : StronglySorted Z.lt (sorted_ids m) ∧ ∀ id, id ∈ sorted_ids m ↔ is_Some (m !! id).
Proof.
  assert (sorted_ids m ≡ₚ (map_to_list m).*1) as Hp by apply merge_sort_Permutation.
  assert (StronglySorted Z.le (sorted_ids m)) as Hs by (apply StronglySorted_merge_sort; [intros a b c; lia|intros a b; lia]).
  assert (NoDup (sorted_ids m)) as Hn by (rewrite Hp; apply NoDup_fst_map_to_list). split.
  - clear Hp. induction Hs as [|a l Hl IH Ha]; [constructor|]. apply NoDup_cons in Hn as [Hin Hn]. constructor; [by apply IH|].
    rewrite Forall_forall in Ha |- *. intros b Hb. specialize (Ha b Hb). assert (a ≠ b) by set_solver. lia.
  - intros id. rewrite Hp. split.
    + intros ([k a] & -> & H%elem_of_map_to_list)%list_elem_of_fmap. by exists a.
    + intros [a Ha]. apply list_elem_of_fmap. exists (id, a). split; [done|]. by apply elem_of_map_to_list.
Qed.

(** Rows made for the ids of a list that a map knows keep those ids. *)
Lemma rows_ids {A B} (id_of : B → Z) (row : Z → A → B) (m : gmap Z A) (ids : list Z) : (∀ id a, id_of (row id a) = id) →
  (∀ id, id ∈ ids → is_Some (m !! id)) → id_of <$> omap (λ id, row id <$> m !! id) ids = ids.
Proof.
  intros Hid. induction ids as [|id ids IH]; [done|]. intros Hm. cbn. destruct (Hm id) as [a Ha]; [by left|]. rewrite Ha. cbn.
  rewrite Hid, IH; [done|]. intros k Hk. apply Hm. by right.
Qed.

Lemma filter_sorted (P : Z → Prop) `{!∀ x, Decision (P x)} (l : list Z) : StronglySorted Z.lt l → StronglySorted Z.lt (filter P l).
Proof.
  induction 1 as [|a l _ IH Ha]; [constructor|]. rewrite filter_cons. case_decide; [|done]. constructor; [done|].
  apply Forall_forall. intros b [_ Hb]%list_elem_of_filter. rewrite Forall_forall in Ha. by apply Ha.
Qed.

(** The dump of the compositor has a line for every window, once, in the order of the ids. *)
Theorem server_dump_complete label now app :
  let rows := Server.collect_snapshots label now app in
  StronglySorted Z.lt (Server.snap_id <$> rows) ∧ (∀ id, id ∈ Server.snap_id <$> rows ↔ is_Some (Compositor.windows app !! id)) ∧
  length (Server.dump_windows label now app) = S (length rows).
Proof.
  intros rows. destruct (sorted_ids_spec (Compositor.windows app)) as [H1 H2].
  assert (Server.snap_id <$> rows = sorted_ids (Compositor.windows app)) as -> by (apply rows_ids; [done|by intros id ?%H2]).
  split_and!; [done|done|]. cbn. by rewrite length_map.
Qed.

(** So has the viewer's, for every window that is not retired. *)
Theorem viewer_dump_complete inner fullscreen simple app :
  let rows := Client.collect_viewer_snapshots inner fullscreen simple app in
  StronglySorted Z.lt (Client.snap_id <$> rows) ∧
  (∀ id, id ∈ Client.snap_id <$> rows ↔ is_Some (Viewer.windows app !! id) ∧ id ∉ Viewer.retired_window_ids app) ∧
  length (Client.dump_viewer_windows inner fullscreen simple app) = S (length rows).
Proof.
  intros rows. destruct (sorted_ids_spec (Viewer.windows app)) as [H1 H2].
  assert (Client.snap_id <$> rows = filter (λ id, id ∉ Viewer.retired_window_ids app) (sorted_ids (Viewer.windows app))) as ->.
  { apply rows_ids; [done|]. intros id [_ Hid]%list_elem_of_filter. by apply H2. }
  split_and!; [by apply filter_sorted| |cbn; by rewrite length_map].
  intros id. rewrite list_elem_of_filter, H2. tauto.
Qed.

(** ** What is printed can be read back *)

Definition read_pids (field : rstring) : option (list Z) :=
  if bool_decide (field = lit "-") then Some [] else mapM (parse u32_max) (split 44 field).

Definition read_instance (line : rstring) : option InstanceSummary :=
  match split_whitespace line with
  | [name; port; pid; apps] =>
      port ← strip_prefix (lit "port=") port ≫= parse u16_max;
      pid ← strip_prefix (lit "server_pid=") pid ≫= parse u32_max;
      apps ← strip_prefix (lit "apps=[") apps;
      if bool_decide (last apps = Some 93) then pids ← read_pids (removelast apps); Some (mkInstanceSummary name port pid pids) else None
  | _ => None
  end.

Definition read_status (ls : list rstring) : option StatusReply :=
  match ls with
  | pid :: count :: rest =>
      pid ← strip_prefix (lit "daemon_pid=") pid ≫= parse u32_max;
      insts ← mapM read_instance rest;
      if bool_decide (count = lit "instances=" ++ dec (Z.of_nat (length insts))) then Some (mkStatusReply pid insts) else None
  | _ => None
  end.

Lemma strip_prefix_app prefix s : strip_prefix prefix (prefix ++ s) = Some s.
Proof. unfold strip_prefix, starts_with. rewrite bool_decide_true by (by eexists). by rewrite drop_app_length. Qed.

Lemma comma_free z : 0 ≤ z → 44 ∉ dec z.
Proof. intros Hz Hc. destruct (dec_nonneg z Hz) as [Hd _]. specialize (Hd _ Hc). lia. Qed.

Lemma read_pids_dec pids : Forall is_u32 pids →
  read_pids (pids_text pids) = Some pids.
Proof.
  intros Hp. unfold read_pids, pids_text. destruct pids as [|p pids]; [done|].
  assert (split 44 (join (lit ",") (dec <$> p :: pids)) = dec <$> p :: pids) as E.
  { clear -Hp. revert p Hp. induction pids as [|q pids IH]; intros p Hp.
    - apply split_plain, comma_free. apply Forall_cons in Hp as [[? _] _]. done.
    - apply Forall_cons in Hp as [[H0 _] Hp]. change (join (lit ",") (dec <$> p :: q :: pids)) with (dec p ++ 44 :: join (lit ",") (dec <$> q :: pids)).
      rewrite split_app by (by apply comma_free). by rewrite IH. }
  rewrite bool_decide_false.
  - rewrite E. clear E. induction Hp as [|z l [H1 H2] _ IH]; [done|]. cbn [fmap list_fmap mapM]. rewrite parse_dec by (unfold u32_max in *; lia). cbn. cbn in IH. by rewrite IH.
  - intros H. rewrite H in E. cbn in E. destruct pids; [|done]. injection E as E. apply Forall_cons in Hp as [[H0 _] _].
    destruct (dec_nonneg p H0) as [Hd _]. rewrite <- E in Hd. specialize (Hd 45 (list_elem_of_here _ _)). lia.
Qed.

Definition summary_ok (inst : InstanceSummary) : Prop :=
  sum_instance inst ≠ [] ∧ plain is_whitespace (sum_instance inst) ∧ is_u16 (sum_port inst) ∧ is_u32 (sum_server_pid inst) ∧
  Forall is_u32 (sum_app_pids inst).

Lemma plain_check p s : forallb (λ c, negb (p c)) s = true → plain p s.
Proof. rewrite forallb_forall. intros H c Hc%list_elem_of_In%H. by apply negb_true_iff. Qed.

Lemma plain_both p a b : plain p a → plain p b → plain p (a ++ b).
Proof. intros Ha Hb c [?|?]%elem_of_app; [by apply Ha|by apply Hb]. Qed.

Lemma plain_dec z : 0 ≤ z → plain is_whitespace (dec z).
Proof. intros Hz. by apply digits_plain, dec_nonneg. Qed.

Lemma plain_join l : Forall is_u32 l → plain is_whitespace (join (lit ",") (dec <$> l)).
Proof.
  induction 1 as [|z l [Hz _] _ IH]; [by intros c ?%elem_of_nil|]. destruct l as [|y l]; [by apply plain_dec|].
  change (join (lit ",") (dec <$> z :: y :: l)) with (dec z ++ lit "," ++ join (lit ",") (dec <$> y :: l)).
  apply plain_both; [by apply plain_dec|]. apply plain_both; [|done]. by apply plain_check.
Qed.

Lemma read_printed_instance inst : summary_ok inst → read_instance (instance_line inst) = Some inst.
Proof.
  intros (Hn & Hw & [Hp1 Hp2] & [Hs1 Hs2] & Ha). destruct inst as [name port pid pids]. cbn [sum_instance sum_port sum_server_pid sum_app_pids] in *.
  set (apps := pids_text pids).
  assert (plain is_whitespace apps) as Happs by (destruct pids; [by apply plain_check|by apply plain_join]).
  assert (instance_line (mkInstanceSummary name port pid pids) =
    32 :: 32 :: name ++ 32 :: (lit "port=" ++ dec port) ++ 32 :: (lit "server_pid=" ++ dec pid) ++ 32 :: (lit "apps=[" ++ apps ++ lit "]")) as ->
    by (unfold instance_line; cbn [sum_instance sum_port sum_server_pid sum_app_pids]; rewrite <- !app_assoc; reflexivity).
  unfold read_instance. change (split_whitespace (32 :: 32 :: ?x)) with (split_whitespace x).
  rewrite !split_whitespace_word, split_whitespace_last; try done; try (apply plain_both; [by apply plain_check|]);
    try (by apply plain_dec); [|by apply plain_both; [|by apply plain_check]].
  rewrite !strip_prefix_app. cbn [mbind option_bind]. rewrite !parse_dec by (unfold u16_max, u32_max in *; lia). cbn [mbind option_bind].
  change (lit "]") with [93]. rewrite bool_decide_true by apply last_snoc. rewrite removelast_last. unfold apps. by rewrite read_pids_dec.
Qed.

(** The status that [vbox ctl status] prints can be read back, whatever instances run and
    whatever they run, as long as their names are words. *)
Theorem printed_status_read s : is_u32 (daemon_pid s) → Forall summary_ok (status_instances s) →
  read_status (format_ok (RpcOk_Status s)) = Some s.
Proof.
  intros [H1 H2] Hi. destruct s as [pid insts]. cbn [daemon_pid status_instances] in *. unfold read_status, format_ok. cbn [app daemon_pid status_instances].
  rewrite strip_prefix_app. cbn [mbind option_bind]. rewrite parse_dec by (unfold u32_max in *; lia). cbn [mbind option_bind].
  assert (mapM read_instance (instance_line <$> insts) = Some insts) as ->.
  { clear -Hi. induction Hi as [|inst insts Hinst _ IH]; [done|]. cbn [fmap list_fmap mapM]. rewrite read_printed_instance by done. cbn. cbn in IH. by rewrite IH. }
  cbn [mbind option_bind]. by rewrite bool_decide_true.
Qed.

(** ** Examples *)

Definition two_instances : StatusReply :=
  mkStatusReply 1234 [mkInstanceSummary (lit "dev") 5710 5000 [5001; 5002]; mkInstanceSummary (lit "scratch") 5712 6000 []].

Example printed_status : format_ok (RpcOk_Status two_instances) =
  [lit "daemon_pid=1234"; lit "instances=2"; lit "  dev port=5710 server_pid=5000 apps=[5001,5002]"; lit "  scratch port=5712 server_pid=6000 apps=[-]"].
Proof. by vm_compute. Qed.

Example shown_addresses :
  show_addr <$> [mkSocketAddr (IpAddr_V4 2130706433) 5711; mkSocketAddr (IpAddr_V6 1) 80; mkSocketAddr (IpAddr_V6 281473902969345) 80;
                 mkSocketAddr (IpAddr_V6 (Z.shiftl 65152 112 + 43981)) 22]
  = [lit "127.0.0.1:5711"; lit "[::1]:80"; lit "[::ffff:192.0.2.1]:80"; lit "[fe80::abcd]:22"].
Proof. by vm_compute. Qed.

Lemma printed_status_read_witness : read_status (format_ok (RpcOk_Status two_instances)) = Some two_instances.
Proof.
  apply printed_status_read; [done|]. repeat constructor; try done; by apply plain_check.
Defined.
