(* ===== verification/ViewerProofs.v ===== *)
(** * The viewer application: invariants and behaviour

    Every window keeps a well-formed frame of bounded sides and a well-formed composer
    ([view_ok]), the application keeps its maps consistent with each other and with what the
    guest was told ([Viewer_ok]); no event of a well-formed guest or host makes it panic. *)

From Stdlib Require Import SpecFloat.
From S2P Require Import Prelude Float State Wire Frame Ime Geometry Keys Viewer.

(** ** Assumptions on the outside *)

(** The largest side of a guest window considered: a tile of this size, and a frame grown to
    it, stay within 32-bit pixel counts. *)
Definition MAX_SIDE : Z := 32767.

(** Host sizes are [u32]; a hash map yields each of its keys once; a new window has a new
    id. *)
Record world_ok (w : world) (a : ViewerApp) : Prop := {
  world_sizes : ∀ l id, 0 ≤ (inner_size (host w l id)).1 ≤ u32_max ∧ 0 ≤ (inner_size (host w l id)).2 ≤ u32_max;
  world_hash : ∀ l, hash_order w l ≡ₚ l;
  world_fresh : ∀ window, new_window w = Some window → window_ids a !! window = None
}.

Definition sides_ok (width height : Z) : Prop := width ≤ MAX_SIDE ∧ height ≤ MAX_SIDE.

Definition tile_ok (tile : FrameTile) : Prop :=
  tile_u32 tile ∧ sides_ok (tile_x tile + tile_w tile) (tile_y tile + tile_h tile).

Definition message_ok (m : Message) : Prop :=
  match m with
  | Message_WindowEvent (WE_Created _ geom _ _) | Message_WindowEvent (WE_Configured _ geom) =>
      sides_ok (geom_w geom) (geom_h geom)
  | Message_FrameTile tile => tile_ok tile
  | _ => True
  end.

Definition event_ok (e : viewer_event) : Prop :=
  match e with Viewer_message m => message_ok m | _ => True end.

(** ** Windows *)

Record view_ok (v : ViewerWindow) : Prop := {
  view_frame : fb_ok (frame v);
  view_width : 1 ≤ fb_width (frame v) ≤ MAX_SIDE;
  view_height : 1 ≤ fb_height (frame v) ≤ MAX_SIDE;
  view_composer : composer_ok (composer v)
}.

(** The messages among the effects. *)
Definition sent (l : list effect) : list InputEvent :=
  omap (λ e, match e with Send m => Some m | _ => None end) l.

Lemma sent_app l l' : sent (l ++ l') = sent l ++ sent l'.
Proof. apply omap_app. Qed.

(** What every method of a window preserves: its own well-formedness, its id, and the
    messages sent, for a window sends none. *)
Record view_inv (window : Z) (msgs : list InputEvent) (s : view_state) : Prop := {
  inv_view : view_ok (vs_view s);
  inv_window : vw_window (vs_view s) = window;
  inv_sent : sent (vs_log s) = msgs
}.

Lemma content_in v : view_ok v →
  rect_in (effective_content_rect v) (fb_width (frame v)) (fb_height (frame v)).
Proof.
  intros [[_ _ _ Hc] Hw Hh _]. rewrite !Z.max_l in Hc by lia.
  unfold effective_content_rect, compute_effective_content_rect. destruct (uses_own_chrome v); [|done].
  unfold FrameRect_new, rect_in. cbn. lia.
Qed.

Lemma view_resized_frame v width height : view_ok v → sides_ok width height →
  ∃ fb, resize_for_remote_size (frame v) (Z.max width 1) (Z.max height 1) = Some fb ∧
        view_ok (set_frame fb v).
Proof.
  intros [Hf Hw Hh Hc] [Hsw Hsh]. unfold MAX_SIDE in *.
  destruct (resize_spec (frame v) (Z.max width 1) (Z.max height 1) Hf) as [_ (fb & -> & Hfb & Hfw & Hfh & _)];
    [lia..|].
  exists fb. split; [done|]. constructor; cbn; [done|unfold MAX_SIDE; lia..|done].
Qed.

(** The rest of a window is not part of its well-formedness. *)
Ltac view_field := intros ? []; constructor; assumption.

Section window.
Context (w : world) (Hw : ∀ l id, 0 ≤ (inner_size (host w l id)).1 ≤ u32_max ∧ 0 ≤ (inner_size (host w l id)).2 ≤ u32_max).
Context (window : Z) (msgs : list InputEvent).

Abbreviation keepsv m := (sustains (view_inv window msgs) m).

Lemma sustains_update f :
  (∀ v, view_ok v → view_ok (f v) ∧ vw_window (f v) = vw_window v) → keepsv (update f).
Proof. intros Hf. apply sustains_modify. intros s [Hv Hid Hs]. destruct (Hf _ Hv). constructor; cbn; congruence || done. Qed.

Lemma sustains_emit es : sent es = [] → keepsv (emit es).
Proof.
  intros He. apply sustains_modify. intros s [Hv Hid Hs]. constructor; [done..|].
  cbn. by rewrite sent_app, He, app_nil_r.
Qed.

Lemma sustains_view {B} (k : ViewerWindow → VM B) :
  (∀ v, view_ok v → keepsv (k v)) → keepsv (view ≫= k).
Proof. intros H. apply sustains_read. intros s [Hv _ _]. by apply H. Qed.

Lemma sustains_ask {B} (k : host_window → VM B) :
  (∀ h, 0 ≤ (inner_size h).1 ≤ u32_max → 0 ≤ (inner_size h).2 ≤ u32_max → keepsv (k h)) →
  keepsv (ask w ≫= k).
Proof. intros H. apply sustains_read. intros s _. apply H; apply Hw. Qed.
End window.

(** An update of a field that no invariant mentions. *)
Ltac plain_update :=
  apply sustains_update; intros [] []; split; [constructor; assumption|reflexivity].

(** One step of the walk through a method. *)
Ltac keep_step :=
  match goal with
  | |- sustains _ (mret _) => apply sustains_ret
  | |- sustains _ (view ≫= _) => apply sustains_view; intros ? ?
  | |- sustains _ (ask _ ≫= _) => apply sustains_ask; [assumption|intros ? ? ?]
  | |- sustains _ (update _) => plain_update
  | |- sustains _ (emit _) => apply sustains_emit; reflexivity
  | |- sustains _ (when _ _) => apply sustains_when
  | |- sustains _ (_ ≫= _) => apply sustains_bind; [|intros ?]
  | |- sustains _ (let '(_, _) := ?x in _) => destruct x
  | |- sustains _ (match ?x with _ => _ end) => destruct x
  end.
Ltac keep := repeat (first [solve [eauto 2 with views]|keep_step]).

Create HintDb views discriminated.

Section methods.
Context (w : world) (Hw : ∀ l id, 0 ≤ (inner_size (host w l id)).1 ≤ u32_max ∧ 0 ≤ (inner_size (host w l id)).2 ≤ u32_max).
Context (window : Z) (msgs : list InputEvent).

Abbreviation keepsv m := (sustains (view_inv window msgs) m).

Lemma scaled_inner_sizes_ok : keepsv (scaled_inner_sizes w).
Proof.
  unfold scaled_inner_sizes. apply sustains_view; intros v Hv. apply sustains_ask; [done|]. intros h _ _.
  destruct (effective_display_size v) as [dw dh].
  destruct (scaled_len_total dw (view_scale v)) as [a Ea], (scaled_len_total dh (view_scale v)) as [b Eb].
  rewrite Ea, Eb. apply (sustains_lift _ _ _ a eq_refl), (sustains_lift _ _ _ b eq_refl), sustains_ret.
Qed.
#[local] Hint Resolve scaled_inner_sizes_ok : views.

Lemma request_scaled_inner_size_ok : keepsv (request_scaled_inner_size w).
Proof. unfold request_scaled_inner_size. keep. Qed.
#[local] Hint Resolve request_scaled_inner_size_ok : views.

Lemma resize_request_ok : keepsv (resize_request_for_current_inner_size w).
Proof. unfold resize_request_for_current_inner_size. keep. Qed.

Lemma needs_resync_ok : keepsv (needs_host_resize_resync_after_remote w).
Proof. unfold needs_host_resize_resync_after_remote. keep. Qed.

Lemma request_redraw_ok : keepsv request_redraw.
Proof. unfold request_redraw. keep. Qed.
#[local] Hint Resolve request_redraw_ok : views.

Lemma render_size_pos :
  hoare (view_inv window msgs) (render_size w) (λ r s, view_inv window msgs s ∧ 1 ≤ r.1 ∧ 1 ≤ r.2).
Proof.
  intros s Hs. unfold render_size, mbind, M_bind, view, gets.
  destruct (negb (visible (vs_view s))); cbn; eexists _, s; (split; [reflexivity|]); (split; [done|]); cbn; lia.
Qed.

Lemma render_ok : keepsv (render w).
Proof.
  unfold render. apply (sustains_result _ (λ r, 1 ≤ r.1 ∧ 1 ≤ r.2)); [apply render_size_pos|].
  intros [tw th] [H1 H2]. cbn [fst snd] in *. destruct (_ || _); [apply sustains_ret|].
  apply sustains_view; intros v Hv. apply sustains_ask; [done|]. intros h _ _.
  destruct (surface h) as [|buffer presented]; [apply sustains_ret|].
  destruct (Z.eqb_spec (Z.of_nat (length buffer)) (tw * th)) as [Hl|]; cbn [negb]; [|apply sustains_ret].
  destruct (copy_frame_region_total (fb_pixels (frame v)) (fb_width (frame v)) (fb_height (frame v))
    (effective_content_rect v) (letterbox v) buffer tw th) as [px Epx];
    [apply Hv|by apply content_in|done..|].
  rewrite Epx. apply (sustains_lift _ _ _ px eq_refl). unfold show_after_first_present. keep.
Qed.
#[local] Hint Resolve render_ok : views.

Lemma render_pending_redraw_ok : keepsv (render_pending_redraw w).
Proof. unfold render_pending_redraw. keep. Qed.

Lemma request_if_needed_ok : keepsv (request_scaled_inner_size_if_needed w).
Proof. unfold request_scaled_inner_size_if_needed. keep. Qed.

Lemma resize_to_remote_size_ok width height :
  sides_ok width height → keepsv (resize_to_remote_size w width height).
Proof.
  intros Hs. unfold resize_to_remote_size. apply sustains_view; intros v Hv.
  destruct (view_resized_frame v width height Hv Hs) as (fb & -> & Hfb).
  apply (sustains_lift _ _ _ fb eq_refl). apply sustains_bind.
  { apply sustains_update. intros v' [? ? ? ?]. destruct Hfb. by split. }
  intros _. keep.
Qed.

Lemma set_scale_ok scale : keepsv (set_scale w scale).
Proof.
  unfold set_scale, clamp_view_scale, fclamp.
  replace (fleb MIN_VIEW_SCALE MAX_VIEW_SCALE) with true by by vm_compute.
  eapply sustains_lift; [done|]. keep.
Qed.

Lemma set_theme_ok t : keepsv (set_theme t).
Proof. unfold set_theme. keep. Qed.

Lemma update_resize_cursor_ok p : keepsv (update_resize_cursor w p).
Proof. unfold update_resize_cursor. keep. Qed.

Lemma clear_resize_cursor_ok : keepsv clear_resize_cursor.
Proof. unfold clear_resize_cursor. keep. Qed.
#[local] Hint Resolve update_resize_cursor_ok clear_resize_cursor_ok : views.

Lemma map_cursor_ok x y : keepsv (map_cursor_to_frame w x y).
Proof.
  unfold map_cursor_to_frame. apply sustains_view; intros v Hv. apply sustains_ask; [done|]. intros h H1 H2.
  pose proof (view_width v Hv). pose proof (view_height v Hv). unfold MAX_SIDE in *.
  destruct (cursor_to_frame_range x y (Z.max (inner_size h).1 1, Z.max (inner_size h).2 1)
    (effective_content_rect v) (fb_width (frame v)) (fb_height (frame v))) as (cx & cy & -> & _);
    [unfold u32_max, i32_max in *; cbn [fst snd]; lia..|].
  intros s Hs. by exists (cx, cy), s.
Qed.
#[local] Hint Resolve map_cursor_ok : views.

Lemma update_ime_ok x y : keepsv (update_ime_cursor_area w x y).
Proof. unfold update_ime_cursor_area. keep. Qed.
#[local] Hint Resolve update_ime_ok : views.

Lemma enable_ime_ok : keepsv (enable_ime_at_last_cursor w).
Proof. unfold enable_ime_at_last_cursor. keep. Qed.

Lemma sync_cursor_ok : keepsv (sync_cursor_from_window_position w).
Proof. unfold sync_cursor_from_window_position. keep. Qed.

Lemma cache_frame_cursor_ok p : keepsv (cache_frame_cursor w p).
Proof. unfold cache_frame_cursor. keep. Qed.
#[local] Hint Resolve enable_ime_ok sync_cursor_ok cache_frame_cursor_ok : views.

Lemma cache_cursor_at_ok p : keepsv (cache_cursor_at w p).
Proof. unfold cache_cursor_at, set_window_cursor. keep. Qed.

Lemma set_window_title_ok t : keepsv (set_window_title t).
Proof. unfold set_window_title. keep. Qed.

Lemma hide_ok : keepsv hide.
Proof. unfold hide. keep. Qed.

(** *** Moves, snaps, the titlebar, manual resizes *)

Lemma move_drag_ok : keepsv (move_drag_from_current_cursor w).
Proof. unfold move_drag_from_current_cursor. keep. Qed.
#[local] Hint Resolve move_drag_ok : views.

Lemma remember_left_press_ok : keepsv (remember_left_press w).
Proof. unfold remember_left_press. keep. Qed.

Lemma begin_manual_move_ok : keepsv (begin_manual_move w).
Proof. unfold begin_manual_move. keep. Qed.

Lemma update_manual_move_ok p : keepsv (update_manual_move p).
Proof. unfold update_manual_move. keep. Qed.
#[local] Hint Resolve update_manual_move_ok : views.

Lemma apply_edge_snap_ok r : keepsv (apply_edge_snap_rect w r).
Proof. unfold apply_edge_snap_rect. keep. Qed.
#[local] Hint Resolve apply_edge_snap_ok : views.

Lemma snap_with_ok f : keepsv (snap_with w f).
Proof. unfold snap_with. keep. Qed.
#[local] Hint Resolve snap_with_ok : views.

Lemma snap_after_move_ok : keepsv (snap_after_move w).
Proof. unfold snap_after_move, snap_to_cursor_left_right_edge, snap_to_cursor_tile. keep. Qed.
#[local] Hint Resolve snap_after_move_ok : views.

Lemma begin_requested_move_ok : keepsv (begin_requested_move w).
Proof. unfold begin_requested_move, resume_move. keep. Qed.

Lemma restore_hover_ok : keepsv (restore_hover w).
Proof. unfold restore_hover. keep. Qed.
#[local] Hint Resolve restore_hover_ok : views.

Lemma finish_manual_move_ok : keepsv (finish_manual_move w).
Proof. unfold finish_manual_move. keep. Qed.

Lemma take_pending_tile_ok : keepsv take_pending_tile_remote_resize.
Proof. unfold take_pending_tile_remote_resize. keep. Qed.

Lemma take_titlebar_toggle_ok : keepsv (take_titlebar_toggle_on_left_press w).
Proof. unfold take_titlebar_toggle_on_left_press. keep. Qed.

Lemma consume_suppressed_ok : keepsv consume_suppressed_left_release.
Proof. unfold consume_suppressed_left_release. keep. Qed.

Lemma begin_manual_resize_ok : keepsv (begin_manual_resize w).
Proof. unfold begin_manual_resize. keep. Qed.

Lemma update_manual_resize_ok p : keepsv (update_manual_resize w p).
Proof. unfold update_manual_resize. keep. Qed.

Lemma finish_manual_resize_ok : keepsv (finish_manual_resize w).
Proof. unfold finish_manual_resize, clear_pending_move. keep. Qed.

Lemma consume_programmatic_ok sz : keepsv (consume_programmatic_resize sz).
Proof. unfold consume_programmatic_resize. keep. Qed.
#[local] Hint Resolve consume_programmatic_ok resize_request_ok : views.

Lemma view_resized_ok sz : keepsv (view_resized w sz).
Proof. unfold view_resized. keep. Qed.

Lemma apply_fullscreen_ok b : keepsv (apply_window_fullscreen w b).
Proof. unfold apply_window_fullscreen. keep. Qed.

Lemma composer_update_ok (f : Input.Backend → Input.Backend * list ComposerAction) :
  (∀ c, composer_ok c → composer_ok (f c).1) →
  keepsv (v ← view; let '(c, actions) := f (composer v) in update (set_composer c);; mret actions).
Proof.
  intros Hf. apply sustains_view. intros v Hv. destruct (f (composer v)) as [c actions] eqn:E.
  apply sustains_bind; [|intros ?; apply sustains_ret].
  apply sustains_update. intros v' [? ? ? ?]. split; [|done]. constructor; [done..|].
  cbn. pose proof (Hf (composer v) (view_composer v Hv)) as H. by rewrite E in H.
Qed.

(** A tile: drawn, or refused with an error; never a panic. *)
Lemma check_tile_no_panic tile : check_tile tile ≠ Err Tile_panic.
Proof.
  unfold check_tile, ensure, checked.
  repeat (cbn [ok_or mbind result_bind]; match goal with |- context [if ?b then _ else _] => destruct b end);
    by cbn.
Qed.

Lemma apply_tile_view v tile : view_ok v → tile_ok tile →
  (∃ fb changed, apply_tile (frame v) tile = Ok (fb, changed) ∧ view_ok (set_frame fb v)) ∨
  (∃ e, apply_tile (frame v) tile = Err e ∧ e ≠ Tile_panic).
Proof.
  intros Hv [Hu [Hsx Hsy]]. destruct (check_tile tile) as [[]|e] eqn:Hc.
  - left. destruct Hv as [Hf Hvw Hvh Hcomp]. unfold MAX_SIDE in *.
    pose proof Hu as (Hx & Hy & Hw1 & Hh1 & _). unfold is_u32, u32_max in *.
    destruct (apply_tile_correct (frame v) tile) as (fb & changed & E & [Hok Hwd Hht _ _]);
      [done|done|done|unfold u32_max; lia..| |].
    { unfold grown_width, grown_height, sat_add, u32_max.
      apply Z.le_trans with (32767 * 32767); [apply Z.mul_le_mono_nonneg; lia|lia]. }
    exists fb, changed. split; [done|]. constructor; cbn; [done|unfold MAX_SIDE; lia..|done].
  - right. exists e. split; [unfold apply_tile; by rewrite Hc|]. intros ->. by apply (check_tile_no_panic tile).
Qed.

Lemma apply_tile_ok tile : tile_ok tile →
  keepsv (v ← view;
    match apply_tile (frame v) tile with
    | Ok (fb, changed) => update (set_frame fb);; mret (Some changed)
    | Err Tile_panic => lift None
    | Err _ => mret None
    end).
Proof.
  intros Ht. apply sustains_view. intros v Hv.
  destruct (apply_tile_view v tile Hv Ht) as [(fb & changed & -> & Hok)|(e & -> & He)].
  - apply sustains_bind; [|intros ?; apply sustains_ret].
    apply sustains_update. intros v' [? ? ? ?]. destruct Hok. by split.
  - destruct e; try done; apply sustains_ret.
Qed.
End methods.

#[export] Hint Resolve scaled_inner_sizes_ok request_scaled_inner_size_ok resize_request_ok needs_resync_ok
  request_redraw_ok render_ok render_pending_redraw_ok request_if_needed_ok set_scale_ok set_theme_ok
  update_resize_cursor_ok clear_resize_cursor_ok map_cursor_ok update_ime_ok enable_ime_ok sync_cursor_ok
  cache_frame_cursor_ok cache_cursor_at_ok set_window_title_ok hide_ok remember_left_press_ok
  begin_manual_move_ok update_manual_move_ok begin_requested_move_ok finish_manual_move_ok
  take_pending_tile_ok take_titlebar_toggle_ok consume_suppressed_ok begin_manual_resize_ok
  update_manual_resize_ok finish_manual_resize_ok view_resized_ok apply_fullscreen_ok : views.

(** ** The application *)

(** The window a key is held in, going by the messages sent: the guest has one keyboard, and
    the last event of a key decides. *)
Definition key_step (k : Z) (h : option Z) (e : InputEvent) : option Z :=
  match e with
  | IE_Key id k' state =>
      if bool_decide (k' = k) then match state with Key_Pressed => Some id | Key_Released => None end else h
  | _ => h
  end.

Definition held (msgs : list InputEvent) (k : Z) : option Z := foldl (key_step k) None msgs.

Lemma held_snoc msgs e k : held (msgs ++ [e]) k = key_step k (held msgs k) e.
Proof. unfold held. by rewrite foldl_app. Qed.

Lemma held_send l e k : held (sent (l ++ [Send e])) k = key_step k (held (sent l) k) e.
Proof. rewrite sent_app. apply held_snoc. Qed.

Arguments sent : simpl never.
Arguments held : simpl never.

Definition modifier_codes : gset Z :=
  {[KEY_LEFTCTRL; KEY_LEFTSHIFT; KEY_RIGHTSHIFT; KEY_LEFTALT; KEY_RIGHTCTRL; KEY_RIGHTALT]}.

Record Viewer_ok (a : ViewerApp) : Prop := {
  ok_views : ∀ id v, windows a !! id = Some v → view_ok v ∧ window_ids a !! vw_window v = Some id;
  ok_ids : ∀ window id, window_ids a !! window = Some id →
    ∃ v, windows a !! id = Some v ∧ vw_window v = window;
  ok_resizes : ∀ id, is_Some (pending_resizes a !! id) → is_Some (windows a !! id);
  ok_fullscreen : ∀ id, is_Some (pending_fullscreen_exit_resyncs a !! id) → is_Some (windows a !! id);
  ok_host : ∀ id, is_Some (pending_host_resize_resyncs a !! id) → is_Some (windows a !! id);
  ok_retired : ∀ id, id ∈ retired_window_ids a → is_Some (windows a !! id);
  ok_keys : ∀ k id, pressed_guest_keys a !! k = Some id → is_Some (windows a !! id);
  ok_held : ∀ k id, held (sent (log a)) k = Some id → pressed_guest_keys a !! k = Some id;
  ok_counts : ∀ k n, pressed_guest_modifier_counts a !! k = Some n →
    is_Some (pressed_guest_keys a !! k) ∧ 1 ≤ n ∧ k ∈ modifier_codes
}.

(** The windows there are, those retired, and since when there is no other. *)
Abbreviation life_state := (gset Z * gset Z * option Z)%type.

Definition life (a : ViewerApp) : life_state := (dom (windows a), retired_window_ids a, empty_windows_since a).

(** The application is well formed and [D] holds of its windows. *)
Definition known (D : life_state → Prop) (a : ViewerApp) : Prop := Viewer_ok a ∧ D (life a).

Definition nothing : life_state → Prop := λ _, True.

(** The window [id] is there. *)
Definition there (id : Z) (l : life_state) : Prop := id ∈ l.1.1.

Lemma known_nothing a : known nothing a ↔ Viewer_ok a.
Proof. split; [by intros [? _]|]. intros ?. by split. Qed.

Lemma there_window id a : is_Some (windows a !! id) → there id (life a).
Proof. intros H. unfold there. cbn. by apply elem_of_dom. Qed.

Lemma known_there D id a : (∀ l, D l → there id l) → D (life a) → is_Some (windows a !! id).
Proof. intros H Hl. by apply elem_of_dom, (H _ Hl). Qed.

(** The fields that are not mentioned do not matter. *)
Ltac app_field := intros [] []; split; [constructor; assumption|reflexivity].

Lemma ok_new clipboard var tile : Viewer_ok (ViewerApp_new clipboard var tile).
Proof. constructor; cbn; intros *; rewrite ?lookup_empty; try done; try (by intros [? ?]); set_solver. Qed.

(** Only what was sent of the log matters. *)
Lemma ok_log a l : Viewer_ok a →
  (∀ k id, held (sent l) k = Some id → pressed_guest_keys a !! k = Some id) → Viewer_ok (set_log l a).
Proof. intros [] H. constructor; assumption. Qed.

Section known.
Context (D : life_state → Prop).
Abbreviation keepsa m := (sustains (known D) m).

Lemma keeps_app {B} (k : ViewerApp → AM B) : (∀ a, known D a → keepsa (k a)) → keepsa (app ≫= k).
Proof. apply sustains_read. Qed.

Lemma keeps_update_app f :
  (∀ a, Viewer_ok a → Viewer_ok (f a) ∧ life (f a) = life a) → keepsa (update_app f).
Proof.
  intros Hf. apply sustains_modify. intros a [Ha HD]. destruct (Hf a Ha) as [? E]. split; [done|by rewrite E].
Qed.

(** Messages that are no key events, and effects that are no messages, hold nothing down. *)
Definition keyless (e : effect) : bool := match e with Send (IE_Key _ _ _) => false | _ => true end.

Lemma held_keyless msgs es k : forallb keyless es = true → held (msgs ++ sent es) k = held msgs k.
Proof.
  intros Hes. unfold held. rewrite foldl_app. generalize (foldl (key_step k) None msgs).
  induction es as [|e es IH]; intros h; [done|]. cbn in Hes. apply andb_true_iff in Hes as [He Hes].
  destruct e as [m| | | | | | | | | | | | | | | | | | | | |]; try by apply IH.
  destruct m; try done; by apply IH.
Qed.

Lemma keeps_emit_app es : forallb keyless es = true → keepsa (emit_app es).
Proof.
  intros He. apply sustains_modify. intros a [Ha HD]. split; [|done]. apply ok_log; [done|].
  intros k id. rewrite sent_app, held_keyless by done. apply Ha.
Qed.

Lemma keeps_send e : keyless (Send e) = true → keepsa (send_input e).
Proof. intros He. apply keeps_emit_app. cbn in *. by rewrite He. Qed.

Lemma ok_put_view id v a s : Viewer_ok a → windows a !! id = Some v →
  view_inv (vw_window v) (sent (log a)) s →
  Viewer_ok (set_windows (<[id := vs_view s]> (windows a)) (set_log (vs_log s) a)).
Proof.
  intros Ha Hv [Hs1 Hs2 Hs3]. destruct (ok_views a Ha id v Hv) as [Hok Hid].
  apply (ok_log a (vs_log s)) in Ha as Ha'; [|rewrite Hs3; apply Ha].
  destruct Ha' as [H1 H2 H3 H4 H5 H6 H7 H8 H9]. cbn in *.
  assert (∀ i, is_Some (windows a !! i) → is_Some (<[id:=vs_view s]> (windows a) !! i)) as Hdom.
  { intros i Hi. destruct (decide (i = id)) as [->|]; [rewrite lookup_insert_eq|rewrite lookup_insert_ne]; by eauto. }
  constructor; cbn; eauto.
  - intros i v' Hi. destruct (decide (i = id)) as [->|Hne].
    + rewrite lookup_insert_eq in Hi. injection Hi as <-. by rewrite Hs2.
    + rewrite lookup_insert_ne in Hi by done. by apply H1.
  - intros wd i Hi. destruct (H2 wd i Hi) as (v' & Hv' & <-). destruct (decide (i = id)) as [->|Hne].
    + rewrite lookup_insert_eq. rewrite Hv in Hv'. injection Hv' as <-. by exists (vs_view s).
    + rewrite lookup_insert_ne by done. by exists v'.
Qed.

Lemma life_put_view id v x a l : windows a !! id = Some v →
  life (set_windows (<[id := x]> (windows a)) (set_log l a)) = life a.
Proof.
  intros Hv. unfold life. cbn. by rewrite dom_insert_lookup_L by (by eexists).
Qed.

(** A method of a window, run by the application; another result than the default tells that
    the window is there. *)
Lemma on_view_result {A} id (d : A) (m : VM A) :
  (∀ window msgs, sustains (view_inv window msgs) m) →
  hoare (known D) (on_view id d m) (λ r, known (λ l, D l ∧ (r ≠ d → there id l))).
Proof.
  intros Hm a [Ha HD]. unfold on_view, zoom. destruct (windows a !! id) as [v|] eqn:Hv; cbn.
  2:{ exists d, a. by split_and!. }
  destruct (ok_views a Ha id v Hv) as [Hok Hid].
  destruct (Hm (vw_window v) (sent (log a)) (mkViewState v (log a))) as (r & s & -> & Hs); [by constructor|].
  eexists r, _. split; [done|]. split; [by apply (ok_put_view id v)|].
  rewrite (life_put_view id v) by done. split; [done|]. intros _. apply there_window. by eexists.
Qed.

Lemma keeps_on_view {A} id (d : A) (m : VM A) :
  (∀ window msgs, sustains (view_inv window msgs) m) → keepsa (on_view id d m).
Proof.
  intros Hm. eapply hoare_weaken; [by apply on_view_result|done|].
  intros r a [Ha [HD _]]. by split.
Qed.

Lemma keeps_read_view {A B} id (d : A) f (k : A → AM B) :
  (∀ x, keepsa (k x)) → keepsa (read_view id d f ≫= k).
Proof. intros H. apply sustains_read. intros a _. apply H. Qed.
End known.

Create HintDb apps discriminated.

(** One step of the walk through a handler of the application. *)
Ltac app_step :=
  match goal with
  | |- sustains _ (mret _) => apply sustains_ret
  | |- sustains _ (app ≫= _) => apply keeps_app; intros ? ?
  | |- sustains _ (read_view _ _ _ ≫= _) => apply keeps_read_view; intros ?
  | |- sustains _ (composer_is_empty _ ≫= _) => apply keeps_read_view; intros ?
  | |- sustains _ (update_app _) => apply keeps_update_app; app_field
  | |- sustains _ (emit_app _) => apply keeps_emit_app; reflexivity
  | |- sustains _ (send_input _) => apply keeps_send; reflexivity
  | |- sustains (known _) (on_view _ _ _) => apply keeps_on_view; intros ? ?; keep
  | |- sustains _ (when _ _) => apply sustains_when
  | |- sustains _ (each _ _) => apply sustains_each; intros ? ?
  | |- sustains _ (_ ≫= _) => apply sustains_bind; [|intros ?]
  | |- sustains _ (let '(_, _) := ?x in _) => destruct x
  | |- sustains _ (match ?x with _ => _ end) => destruct x
  end.
Ltac keep_app := repeat (first [solve [eauto 2 with apps]|app_step]).

(** *** Key bookkeeping *)

(** Press and release of a tracked key that is no modifier. *)
Lemma track_press id k a :
  Viewer_ok a → is_Some (windows a !! id) →
  Viewer_ok (set_log (log a ++ [Send (IE_Key id k Key_Pressed)])
    (set_pressed_guest_keys (<[k := id]> (pressed_guest_keys a)) a)).
Proof.
  intros [] Hid. constructor; cbn; try assumption.
  - intros k' id'. destruct (decide (k' = k)) as [->|Hne];
      [rewrite lookup_insert_eq; by intros [= <-]|rewrite lookup_insert_ne by done; eauto].
  - intros k' id'. rewrite held_send. cbn. case_bool_decide as Hk.
    + subst k'. intros [= <-]. apply lookup_insert_eq.
    + rewrite lookup_insert_ne by congruence. eauto.
  - intros k' n Hn. destruct (ok_counts0 k' n Hn) as (Hp & ? & ?). split; [|done].
    destruct (decide (k' = k)) as [->|Hne]; [rewrite lookup_insert_eq|rewrite lookup_insert_ne]; by eauto.
Qed.

Lemma track_release id k a :
  Viewer_ok a → pressed_guest_modifier_counts a !! k = None →
  Viewer_ok (set_log (log a ++ [Send (IE_Key id k Key_Released)])
    (set_pressed_guest_keys (delete k (pressed_guest_keys a)) a)).
Proof.
  intros [] Hk. constructor; cbn; try assumption.
  - intros k' id' [_ Hl]%lookup_delete_Some. eauto.
  - intros k' id'. rewrite held_send. cbn. case_bool_decide as Hkk; [done|].
    rewrite lookup_delete_ne by congruence. eauto.
  - intros k' n Hn. destruct (decide (k' = k)) as [->|Hne]; [congruence|].
    rewrite lookup_delete_ne by done. eauto.
Qed.

(** The modifiers counted are among those tracked. *)
Lemma ok_set_counts a counts :
  Viewer_ok a → (∀ k n, counts !! k = Some n →
    is_Some (pressed_guest_keys a !! k) ∧ 1 ≤ n ∧ k ∈ modifier_codes) →
  Viewer_ok (set_pressed_guest_modifier_counts counts a).
Proof. intros [] H. constructor; cbn; assumption. Qed.

Lemma ok_drop_count a k :
  Viewer_ok a → Viewer_ok (set_pressed_guest_modifier_counts (delete k (pressed_guest_modifier_counts a)) a).
Proof. intros Ha. apply ok_set_counts; [done|]. intros k' n [_ Hl]%lookup_delete_Some. by eapply ok_counts. Qed.

Lemma send_tracked_ok (D : life_state → Prop) id k state :
  k ∉ modifier_codes → (∀ l, D l → there id l) → sustains (known D) (send_tracked_guest_key id k state).
Proof.
  intros Hk Hid a [Ha HD]. unfold send_tracked_guest_key, app, gets, mbind, M_bind. destruct state; cbn.
  - eexists tt, _. split; [done|]. split; [exact (track_press id k a Ha (known_there D id a Hid HD))|exact HD].
  - destruct (pressed_guest_keys a !! k) as [pid|] eqn:E; cbn; [|by exists tt, a].
    assert (pressed_guest_modifier_counts a !! k = None) as Hn.
    { destruct (pressed_guest_modifier_counts a !! k) as [n|] eqn:En; [|done].
      by destruct (ok_counts a Ha k n En) as (_ & _ & ?). }
    eexists tt, _. split; [done|]. split; [exact (track_release pid k a Ha Hn)|exact HD].
Qed.

(** The count of a modifier that is held, changed. *)
Lemma ok_count a k n : Viewer_ok a → is_Some (pressed_guest_keys a !! k) → 1 ≤ n → k ∈ modifier_codes →
  Viewer_ok (set_pressed_guest_modifier_counts (<[k := n]> (pressed_guest_modifier_counts a)) a).
Proof.
  intros Ha Hp Hn Hk. apply ok_set_counts; [done|]. intros k' n'. destruct (decide (k' = k)) as [->|Hne].
  - rewrite lookup_insert_eq. by intros [= <-].
  - rewrite lookup_insert_ne by done. apply Ha.
Qed.

Lemma send_tracked_modifier_ok (D : life_state → Prop) id k state :
  k ∈ modifier_codes → (∀ l, D l → there id l) → sustains (known D) (send_tracked_guest_modifier_key id k state).
Proof.
  intros Hk Hid a [Ha HD]. unfold send_tracked_guest_modifier_key, guest_modifier_refcount_should_forward,
    send_tracked_guest_key, app, gets, mbind, M_bind.
  destruct state; cbn; destruct (pressed_guest_modifier_counts a !! k) as [n|] eqn:En; cbn.
  - destruct (ok_counts a Ha k n En) as (Hp & Hn & _).
    rewrite (proj2 (Z.eqb_neq n 0)) by lia. cbn. eexists tt, _. split; [done|]. split; [|exact HD].
    apply ok_count; [done..| |done]. unfold sat_add, u64_max. lia.
  - eexists tt, _. split; [done|]. split; [|exact HD].
    refine (ok_count _ k _ (track_press id k a Ha (known_there D id a Hid HD)) _ _ Hk); [|done].
    cbn. rewrite lookup_insert_eq. by eexists.
  - destruct (ok_counts a Ha k n En) as (Hp & Hn & _). destruct (Z.ltb_spec 1 n); cbn.
    + eexists tt, _. split; [done|]. split; [|exact HD]. apply ok_count; [done..|lia|done].
    + destruct Hp as [pid Hpid]. rewrite Hpid. cbn. eexists tt, _. split; [done|]. split; [|exact HD].
      exact (track_release pid k _ (ok_drop_count a k Ha) (lookup_delete_eq _ _)).
  - eexists tt, _. split; [done|]. split; [|exact HD]. apply ok_set_counts; [done|apply Ha].
Qed.

(** *** Releasing the keys of a window *)

Definition release_one (id : Z) (a : ViewerApp) (k : Z) : ViewerApp :=
  set_log (log a ++ [Send (IE_Key id k Key_Released)])
    (set_pressed_guest_modifier_counts (delete k (pressed_guest_modifier_counts a))
       (set_pressed_guest_keys (delete k (pressed_guest_keys a)) a)).

(** What releasing the keys of [id] leaves. *)
Record released (id : Z) (a a' : ViewerApp) : Prop := {
  rel_windows : windows a' = windows a;
  rel_ids : window_ids a' = window_ids a;
  rel_resizes : pending_resizes a' = pending_resizes a;
  rel_fullscreen : pending_fullscreen_exit_resyncs a' = pending_fullscreen_exit_resyncs a;
  rel_host : pending_host_resize_resyncs a' = pending_host_resize_resyncs a;
  rel_retired : retired_window_ids a' = retired_window_ids a;
  rel_since : empty_windows_since a' = empty_windows_since a;
  rel_keys : ∀ k, pressed_guest_keys a' !! k =
    if bool_decide (pressed_guest_keys a !! k = Some id) then None else pressed_guest_keys a !! k;
  rel_counts : ∀ k, pressed_guest_modifier_counts a' !! k =
    if bool_decide (pressed_guest_keys a !! k = Some id) then None else pressed_guest_modifier_counts a !! k;
  rel_held : ∀ k, held (sent (log a')) k =
    if bool_decide (pressed_guest_keys a !! k = Some id) then None else held (sent (log a)) k
}.

Lemma release_fold id ks a :
  let a' := foldl (release_one id) a ks in
  windows a' = windows a ∧ window_ids a' = window_ids a ∧ pending_resizes a' = pending_resizes a ∧
  pending_fullscreen_exit_resyncs a' = pending_fullscreen_exit_resyncs a ∧
  pending_host_resize_resyncs a' = pending_host_resize_resyncs a ∧
  retired_window_ids a' = retired_window_ids a ∧ empty_windows_since a' = empty_windows_since a ∧
  ∀ k, pressed_guest_keys a' !! k = (if bool_decide (k ∈ ks) then None else pressed_guest_keys a !! k) ∧
       pressed_guest_modifier_counts a' !! k
       = (if bool_decide (k ∈ ks) then None else pressed_guest_modifier_counts a !! k) ∧
       held (sent (log a')) k = (if bool_decide (k ∈ ks) then None else held (sent (log a)) k).
Proof.
  cbv zeta. revert a. induction ks as [|k0 ks IH]; intros a; [done|]. cbn [foldl].
  destruct (IH (release_one id a k0)) as (-> & -> & -> & -> & -> & -> & -> & H). split_and!; try done.
  intros k. destruct (H k) as (-> & -> & ->). cbn. rewrite held_send. cbn.
  destruct (decide (k = k0)) as [->|Hne].
  - rewrite !lookup_delete_eq, !(bool_decide_true (k0 = k0)), (bool_decide_true (k0 ∈ k0 :: ks)) by (done || left).
    by destruct (bool_decide (k0 ∈ ks)).
  - rewrite !lookup_delete_ne, (bool_decide_false (k0 = k)) by done.
    by rewrite (bool_decide_ext (k ∈ k0 :: ks) (k ∈ ks)) by (rewrite elem_of_cons; naive_solver).
Qed.

Lemma release_window_guest_keys_spec w id a : (∀ l, hash_order w l ≡ₚ l) →
  ∃ a', release_window_guest_keys w id a = Some (tt, a') ∧ released id a a'.
Proof.
  intros Hh. unfold release_window_guest_keys, app, gets, mbind, M_bind. cbn.
  set (ks := filter _ _).
  assert (∀ k, k ∈ ks ↔ pressed_guest_keys a !! k = Some id) as Hks.
  { intros k. unfold ks. rewrite list_elem_of_filter, (Hh _), elem_of_elements, elem_of_dom. naive_solver. }
  exists (foldl (release_one id) a ks). split.
  - clearbody ks. clear Hks. revert a. induction ks as [|k ks IH]; intros a; [done|apply IH].
  - destruct (release_fold id ks a) as (? & ? & ? & ? & ? & ? & ? & H).
    split; try done; intros k; destruct (H k) as (E1 & E2 & E3);
      first [rewrite E1|rewrite E2|rewrite E3]; by rewrite (bool_decide_ext _ _ (Hks k)).
Qed.

(** With its keys released, a window may go. *)
Lemma ok_released id a a' : Viewer_ok a → released id a a' →
  Viewer_ok a' ∧ (∀ k, pressed_guest_keys a' !! k ≠ Some id) ∧ (∀ k, held (sent (log a')) k ≠ Some id).
Proof.
  intros [] []. split_and!.
  - constructor; rewrite ?rel_windows0, ?rel_ids0, ?rel_resizes0, ?rel_fullscreen0, ?rel_host0, ?rel_retired0;
      try assumption.
    + intros k id'. rewrite rel_keys0. case_bool_decide; [done|eauto].
    + intros k id'. rewrite rel_keys0, rel_held0. case_bool_decide; [done|eauto].
    + intros k n. rewrite rel_keys0, rel_counts0. case_bool_decide; [done|eauto].
  - intros k. rewrite rel_keys0. by case_bool_decide.
  - intros k. rewrite rel_held0. case_bool_decide as Hk; [done|]. intros Hh. by apply Hk, ok_held0.
Qed.

Section handlers.
Context (w : world) (Hsizes : ∀ l id, 0 ≤ (inner_size (host w l id)).1 ≤ u32_max ∧ 0 ≤ (inner_size (host w l id)).2 ≤ u32_max).
Context (Hhash : ∀ l, hash_order w l ≡ₚ l).

Lemma release_window_guest_keys_ok D id : sustains (known D) (release_window_guest_keys w id).
Proof.
  intros a [Ha HD]. destruct (release_window_guest_keys_spec w id a Hhash) as (a' & E & Hr).
  exists tt, a'. split; [done|]. split; [by eapply ok_released|]. unfold life.
  by rewrite (rel_windows _ _ _ Hr), (rel_retired _ _ _ Hr), (rel_since _ _ _ Hr).
Qed.

(** A window removed: nothing of it is left. *)
Record gone (id : Z) (a : ViewerApp) : Prop := {
  gone_window : windows a !! id = None;
  gone_keys : ∀ k, pressed_guest_keys a !! k ≠ Some id;
  gone_held : ∀ k, held (sent (log a)) k ≠ Some id
}.

Definition drop_window (id : Z) (a : ViewerApp) : ViewerApp :=
  let a := forget_pending id (set_retired_window_ids (retired_window_ids a ∖ {[id]}) a) in
  match windows a !! id with
  | Some v => set_window_ids (delete (vw_window v) (window_ids a)) (set_windows (delete id (windows a)) a)
  | None => a
  end.

Lemma drop_window_fields id a :
  let a' := drop_window id a in
  windows a' = delete id (windows a) ∧
  window_ids a' = from_option (λ v, delete (vw_window v) (window_ids a)) (window_ids a) (windows a !! id) ∧
  pending_resizes a' = delete id (pending_resizes a) ∧
  pending_fullscreen_exit_resyncs a' = delete id (pending_fullscreen_exit_resyncs a) ∧
  pending_host_resize_resyncs a' = delete id (pending_host_resize_resyncs a) ∧
  retired_window_ids a' = retired_window_ids a ∖ {[id]} ∧
  pressed_guest_keys a' = pressed_guest_keys a ∧
  pressed_guest_modifier_counts a' = pressed_guest_modifier_counts a ∧
  log a' = log a ∧ empty_windows_since a' = empty_windows_since a.
Proof.
  unfold drop_window. cbn. destruct (windows a !! id) eqn:E; cbn; split_and!; try done.
  by rewrite delete_id.
Qed.

(** The maps stay consistent when a window is dropped. *)
Lemma ok_dropped_ids id a wd i : Viewer_ok a →
  window_ids (drop_window id a) !! wd = Some i ↔ window_ids a !! wd = Some i ∧ i ≠ id.
Proof.
  intros []. destruct (drop_window_fields id a) as (_ & -> & _).
  destruct (windows a !! id) as [v0|] eqn:E0; cbn.
  - destruct (ok_views0 id v0 E0) as [_ Hid0]. rewrite lookup_delete_Some. split.
    + intros [Hne Hi]. split; [done|]. intros ->. destruct (ok_ids0 wd id Hi) as (v & Hv & <-). congruence.
    + intros [Hi Hne]. split; [|done]. intros <-. congruence.
  - split; [|by intros [? _]]. intros Hi. split; [done|]. intros ->.
    destruct (ok_ids0 wd id Hi) as (v & Hv & _). congruence.
Qed.

Lemma remove_window_spec id a : Viewer_ok a →
  ∃ a', remove_window w id a = Some (tt, a') ∧ Viewer_ok a' ∧ gone id a' ∧
    windows a' = delete id (windows a) ∧ retired_window_ids a' = retired_window_ids a ∖ {[id]} ∧
    empty_windows_since a' = empty_windows_since a.
Proof.
  intros Ha. destruct (release_window_guest_keys_spec w id (drop_window id a) Hhash) as (a' & E & Hr).
  exists a'. split.
  { unfold remove_window, drop_window, app, gets, mbind, M_bind in *. cbn in *.
    destruct (windows a !! id) as [v|]; exact E. }
  pose proof (λ wd i, ok_dropped_ids id a wd i Ha) as Hids.
  destruct (drop_window_fields id a) as (Hwin & _ & H1 & H2 & H3 & H4 & Hp & Hc & Hl & Hs).
  assert (∀ i, is_Some (windows a !! i) → i ≠ id → is_Some (delete id (windows a) !! i)) as Hdom
    by (intros i Hi Hne; by rewrite lookup_delete_ne).
  assert (∀ {B} (m : gmap Z B) i, is_Some (delete id m !! i) → is_Some (m !! i) ∧ i ≠ id) as Hdel.
  { intros B m i [x [Hne Hx]%lookup_delete_Some]. by eauto. }
  destruct Ha, Hr. rewrite Hwin, ?H1, ?H2, ?H3, ?H4, ?Hl, ?Hs in *.
  split_and!; [constructor|constructor|done..];
    rewrite ?rel_windows0, ?rel_ids0, ?rel_resizes0, ?rel_fullscreen0, ?rel_host0, ?rel_retired0.
  - intros i v [Hne Hi]%lookup_delete_Some. destruct (ok_views0 i v Hi). by rewrite Hids.
  - intros wd i [Hi Hne]%Hids. destruct (ok_ids0 wd i Hi) as (v & Hv & <-). exists v.
    by rewrite lookup_delete_ne.
  - intros i [? ?]%Hdel. eauto.
  - intros i [? ?]%Hdel. eauto.
  - intros i [? ?]%Hdel. eauto.
  - intros i [? ?]%elem_of_difference. apply Hdom; set_solver.
  - intros k i. rewrite rel_keys0, Hp. case_bool_decide; [done|]. intros Hi. apply Hdom; [eauto|congruence].
  - intros k i. rewrite rel_keys0, rel_held0, Hp. case_bool_decide; [done|eauto].
  - intros k n. rewrite rel_keys0, rel_counts0, Hp, Hc. case_bool_decide; [done|eauto].
  - apply lookup_delete_eq.
  - intros k. rewrite rel_keys0. by case_bool_decide.
  - intros k. rewrite rel_held0, Hp. case_bool_decide as Hk; [done|]. intros Hh. by apply Hk, ok_held0.
Qed.

Lemma remove_window_ok id : sustains Viewer_ok (remove_window w id).
Proof. intros a Ha. destruct (remove_window_spec id a Ha) as (a' & E & H & _). by exists tt, a'. Qed.
#[local] Hint Resolve release_window_guest_keys_ok : apps.

(** *** Windows come and go *)

Lemma ok_forget_pending id a : Viewer_ok a → Viewer_ok (forget_pending id a).
Proof.
  intros []. constructor; cbn; try assumption;
    intros i [x [_ Hx]%lookup_delete_Some]; eauto.
Qed.

Lemma ok_unretire id a : Viewer_ok a → Viewer_ok (set_retired_window_ids (retired_window_ids a ∖ {[id]}) a).
Proof. intros []. constructor; cbn; try assumption. set_solver. Qed.

Lemma ok_retire id a : Viewer_ok a → is_Some (windows a !! id) →
  Viewer_ok (set_retired_window_ids ({[id]} ∪ retired_window_ids a) a).
Proof.
  intros [] Hid. constructor; cbn; try assumption. intros i [->%elem_of_singleton|Hi]%elem_of_union; eauto.
Qed.

Lemma ok_insert_view id window v a :
  Viewer_ok a → windows a !! id = None → window_ids a !! window = None → view_ok v → vw_window v = window →
  Viewer_ok (set_windows (<[id := v]> (windows a)) (set_window_ids (<[window := id]> (window_ids a)) a)).
Proof.
  intros [] Hid Hwin Hv <-.
  assert (∀ i, is_Some (windows a !! i) → is_Some (<[id:=v]> (windows a) !! i)) as Hdom.
  { intros i Hi. destruct (decide (i = id)) as [->|]; [rewrite lookup_insert_eq|rewrite lookup_insert_ne]; by eauto. }
  constructor; cbn; eauto.
  - intros i v'. destruct (decide (i = id)) as [->|Hne].
    + rewrite lookup_insert_eq. intros [= <-]. split; [done|]. apply lookup_insert_eq.
    + rewrite lookup_insert_ne by done. intros Hi. destruct (ok_views0 i v' Hi) as [? Hv'].
      split; [done|]. rewrite lookup_insert_ne; [done|]. congruence.
  - intros wd i. destruct (decide (wd = vw_window v)) as [->|Hne].
    + rewrite lookup_insert_eq. intros [= <-]. exists v. by rewrite lookup_insert_eq.
    + rewrite lookup_insert_ne by done. intros Hi. destruct (ok_ids0 wd i Hi) as (v' & Hv' & ?).
      exists v'. rewrite lookup_insert_ne; [done|]. congruence.
Qed.

Lemma new_frame : ∃ fb, FrameBuffer_new INITIAL_HIDDEN_WINDOW_SIZE INITIAL_HIDDEN_WINDOW_SIZE = Some fb ∧
  ∀ window title app_id tile chrome, view_ok (new_view w window title app_id fb tile chrome).
Proof.
  exists (mkFrameBuffer 1 1 [0] (mkFrameRect 0 0 1 1) DEFAULT_MATTE_PIXEL). split; [reflexivity|].
  intros. constructor; cbn; [|unfold MAX_SIDE; lia..|done].
  constructor; cbn; [lia|lia|done|unfold rect_in; cbn; lia].
Qed.

Lemma maybe_warn_ok D app_id title : sustains (known D) (maybe_warn_about_guest_chrome app_id title).
Proof. unfold maybe_warn_about_guest_chrome. keep_app. Qed.
#[local] Hint Resolve maybe_warn_ok : apps.

Lemma resize_view_ok D id width height : sides_ok width height →
  sustains (known D) (on_view id tt (resize_to_remote_size w width height)).
Proof. intros Hs. apply keeps_on_view. intros. by apply resize_to_remote_size_ok. Qed.

(** The application is not waiting for its end. *)
Definition not_waiting (l : life_state) : Prop := l.2 = None.

(** The application before a window [id] is registered. *)
Definition before_window (id : Z) (a : ViewerApp) : Prop :=
  known not_waiting a ∧ windows a !! id = None ∧
  ∀ window, new_window w = Some window → window_ids a !! window = None.

Lemma before_emit id es : forallb keyless es = true → sustains (before_window id) (emit_app es).
Proof.
  intros He a (Ha & Hid & Hf). destruct (keeps_emit_app not_waiting es He a Ha) as ([] & a' & E & Ha').
  eexists tt, a'. split; [done|]. injection E as <-. by split_and!.
Qed.

Lemma before_warn id app_id title : sustains (before_window id) (maybe_warn_about_guest_chrome app_id title).
Proof.
  unfold maybe_warn_about_guest_chrome. destruct (guest_app_uses_own_chrome _ _); [|apply sustains_ret].
  apply sustains_read. intros a _. cbn. destruct (bool_decide _); [apply sustains_ret|].
  apply sustains_bind; [|intros _; by apply before_emit].
  apply sustains_modify. intros b ([Hb HD] & ? & ?). split_and!; [|done..]. split; [|done].
  destruct Hb. constructor; assumption.
Qed.

(** A window unknown so far, from its creation to its first size. *)
Lemma open_window_ok id width height title app_id chrome :
  sides_ok width height →
  hoare (before_window id)
    (match new_window w with
     | None => emit_app [Exit]
     | Some window =>
         emit_app [Set_outer_position window (initial_position id); Set_ime_allowed window;
                   Set_ime_cursor_area window (F64.of_int 12, F64.of_int 24)];;
         if negb (softbuffer_ok w) then emit_app [Exit] else
         fb ← lift (FrameBuffer_new INITIAL_HIDDEN_WINDOW_SIZE INITIAL_HIDDEN_WINDOW_SIZE);
         update_app (λ a, set_window_ids (<[window := id]> (window_ids a)) a);;
         update_app (λ a, set_windows
           (<[id := new_view w window title app_id fb (tile_screen_size a) chrome]> (windows a)) a);;
         on_view id tt (resize_to_remote_size w width height)
     end) (λ _, known not_waiting).
Proof.
  intros Hs. destruct (new_window w) as [window|] eqn:Hnew.
  2:{ eapply hoare_weaken; [by apply before_emit|done|by intros ? ? [? _]]. }
  apply (hoare_bind _ (λ _, before_window id)); [by apply before_emit|]. intros _.
  destruct (negb (softbuffer_ok w)).
  { eapply hoare_weaken; [by apply before_emit|done|by intros ? ? [? _]]. }
  destruct new_frame as (fb & -> & Hfb). intros a ([Ha HD] & Hid & Hf). rewrite run_bind. cbn [lift].
  rewrite run_bind. cbn [update_app modify]. rewrite run_bind. cbn [update_app modify].
  apply (resize_view_ok not_waiting); [done|]. split; [|exact HD].
  by apply (ok_insert_view id window (new_view w window title app_id fb (tile_screen_size a) chrome) a); auto.
Qed.

Lemma create_window_ok id width height title app_id :
  sides_ok width height →
  hoare (λ a, known not_waiting a ∧ ∀ window, new_window w = Some window → window_ids a !! window = None)
    (create_window w id width height title app_id) (λ _, known not_waiting).
Proof.
  intros Hs a [Ha Hfresh]. assert (sides_ok (Z.max width 1) (Z.max height 1)) as Hs'
    by (unfold sides_ok, MAX_SIDE in *; lia).
  unfold create_window. rewrite run_bind. unfold app at 1. cbn [gets].
  destruct (windows a !! id) as [v0|] eqn:Hid; cbn [Datatypes.id]; rewrite Hid.
  - rewrite bool_decide_true by eauto. revert a Ha Hfresh Hid. intros a Ha _ _.
    revert a Ha. apply (sustains_bind (known not_waiting)).
    { apply sustains_modify. intros b [Hb HD]. split; [by apply ok_unretire|exact HD]. }
    intros _. apply keeps_on_view. intros. apply sustains_view. intros v Hv.
    do 5 (apply sustains_bind; [keep|intros ?]). by apply resize_to_remote_size_ok.
  - rewrite bool_decide_false by (by intros [? ?]).
    apply (hoare_bind (before_window id) (λ _, before_window id)); [apply before_warn|intros _|done].
    apply (hoare_bind (before_window id) (λ _, before_window id)); [by apply before_emit|intros _].
    by apply open_window_ok.
Qed.

(** *** Timers *)

Section timers.
Context (D : life_state → Prop).
Abbreviation keepsa m := (sustains (known D) m).

Lemma lookup_insert_known {A B} (m : gmap Z A) (n : gmap Z B) id x :
  (∀ i, is_Some (m !! i) → is_Some (n !! i)) → is_Some (n !! id) →
  ∀ i, is_Some (<[id := x]> m !! i) → is_Some (n !! i).
Proof.
  intros H Hid i. destruct (decide (i = id)) as [->|Hne]; [done|].
  rewrite lookup_insert_ne by done. apply H.
Qed.

Lemma lookup_delete_known {A B} (m : gmap Z A) (n : gmap Z B) id :
  (∀ i, is_Some (m !! i) → is_Some (n !! i)) → ∀ i, is_Some (delete id m !! i) → is_Some (n !! i).
Proof. intros H i [x [_ Hx]%lookup_delete_Some]. eauto. Qed.

Ltac timer_field :=
  intros a [[] HD]; split; [constructor; cbn; try assumption|exact HD];
  first [apply lookup_insert_known; [assumption|by eapply known_there]|apply lookup_delete_known; assumption].

Lemma queue_remote_resize_ok id width height : (∀ l, D l → there id l) → keepsa (queue_remote_resize w id width height).
Proof.
  intros Hid. apply sustains_modify. timer_field.
Qed.

Lemma queue_host_resize_resync_ok id : (∀ l, D l → there id l) → keepsa (queue_host_resize_resync w id).
Proof.
  intros Hid. apply sustains_modify. timer_field.
Qed.

Lemma queue_fullscreen_exit_resync_ok id : (∀ l, D l → there id l) → keepsa (queue_fullscreen_exit_resync w id).
Proof.
  intros Hid. unfold queue_fullscreen_exit_resync.
  repeat (apply sustains_bind; [|intros _]); apply sustains_modify; timer_field.
Qed.

Lemma forget_pending_ok id : keepsa (update_app (forget_pending id)).
Proof. apply keeps_update_app. intros a Ha. split; [by apply ok_forget_pending|done]. Qed.

Lemma forget_host_resync_ok id :
  keepsa (update_app (λ a, set_pending_host_resize_resyncs (delete id (pending_host_resize_resyncs a)) a)).
Proof. apply sustains_modify. timer_field. Qed.

Lemma send_remote_resize_now_ok id width height : keepsa (send_remote_resize_now id width height).
Proof. unfold send_remote_resize_now. keep_app. Qed.

(** *** Composers *)

Lemma composer_op_ok (o : op) c : composer_ok c → composer_ok (run_op c o).1.
Proof. intros Hc. by apply run_op_spec. Qed.

Lemma composer_flush_ok id : keepsa (composer_flush id).
Proof.
  apply keeps_on_view. intros. apply composer_update_ok. intros c Hc. exact (composer_op_ok Op_flush c Hc).
Qed.
Lemma composer_backspace_ok id : keepsa (composer_backspace id).
Proof.
  apply keeps_on_view. intros. apply composer_update_ok. intros c Hc. exact (composer_op_ok Op_backspace c Hc).
Qed.
Lemma composer_push_ok id text : keepsa (composer_push_text id text).
Proof.
  apply keeps_on_view. intros. apply (composer_update_ok _ _ (λ c, Input.push_text c text)).
  intros c Hc. exact (composer_op_ok (Op_push text) c Hc).
Qed.

Lemma send_composer_actions_ok id actions : keepsa (send_composer_actions id actions).
Proof.
  unfold send_composer_actions. apply sustains_each. intros action _. apply sustains_each. intros e He.
  apply keeps_send. destruct action as [text|[text|]]; cbn in He.
  - case_bool_decide; [by apply elem_of_nil in He|]. by apply list_elem_of_singleton in He as ->.
  - by apply list_elem_of_singleton in He as ->.
  - by apply list_elem_of_singleton in He as ->.
Qed.
#[local] Hint Resolve composer_flush_ok composer_backspace_ok composer_push_ok send_composer_actions_ok : apps.

Lemma flush_composer_ok id : keepsa (flush_composer id).
Proof. unfold flush_composer. keep_app. Qed.
#[local] Hint Resolve flush_composer_ok : apps.

Lemma send_host_text_ok id text : keepsa (send_host_text id text).
Proof. unfold send_host_text. keep_app. Qed.

Lemma release_guest_key_ok k : keepsa (release_guest_key_if_pressed k).
Proof.
  intros a [Ha HD]. unfold release_guest_key_if_pressed, app, gets, mbind, M_bind. cbn.
  pose proof (ok_drop_count a k Ha) as Hd. destruct (pressed_guest_keys a !! k) as [pid|]; cbn.
  - eexists true, _. split; [done|]. split; [|exact HD]. exact (track_release pid k _ Hd (lookup_delete_eq _ _)).
  - by eexists false, _.
Qed.
#[local] Hint Resolve send_host_text_ok release_guest_key_ok : apps.

Lemma clear_cache_ok id b : keepsa (clear_shortcut_modifier_cache id b).
Proof. unfold clear_shortcut_modifier_cache. keep_app. Qed.
#[local] Hint Resolve clear_cache_ok : apps.

Lemma clear_stale_ok id : keepsa (clear_stale_shortcut_modifiers_for_text id).
Proof. unfold clear_stale_shortcut_modifiers_for_text. keep_app. Qed.
#[local] Hint Resolve clear_stale_ok : apps.

Lemma handle_ime_ok id e : keepsa (handle_ime id e).
Proof.
  unfold handle_ime. destruct e; cbn [handle_ime_event]; keep_app.
Qed.

(** *** The keyboard *)

Lemma shortcut_no_modifier p k : shortcut_keycode p = Some k → k ∉ modifier_codes.
Proof.
  destruct p as [c|]; [|done]. intros H.
  assert (bool_decide (k ∉ modifier_codes) = true) as Hb; [|by apply bool_decide_eq_true in Hb].
  destruct c; cbn in H; try discriminate H; injection H as <-; by vm_compute.
Qed.

Lemma named_no_modifier l k : named_keycode l = Some k → k ∉ modifier_codes.
Proof.
  intros H. assert (bool_decide (k ∉ modifier_codes) = true) as Hb; [|by apply bool_decide_eq_true in Hb].
  destruct l as [n| |]; [|done..]. destruct n; cbn in H; try discriminate H; injection H as <-; by vm_compute.
Qed.

Lemma guest_modifier p l k : guest_modifier_keycode p l = Some k → k ∈ modifier_codes.
Proof.
  intros H. assert (bool_decide (k ∈ modifier_codes) = true) as Hb; [|by apply bool_decide_eq_true in Hb].
  assert (k ∈ [KEY_LEFTCTRL; KEY_LEFTSHIFT; KEY_RIGHTSHIFT; KEY_LEFTALT; KEY_RIGHTCTRL; KEY_RIGHTALT]) as Hk.
  { unfold guest_modifier_keycode in H. repeat case_match; simplify_eq; set_solver. }
  repeat (apply elem_of_cons in Hk as [->|Hk]; [by vm_compute|]). by apply elem_of_nil in Hk.
Qed.

(** The keys of the new-tab chord are released again, and control stays as it was. *)
Lemma new_tab_ok id event : keepsa (handle_terminal_macos_new_tab_shortcut id event).
Proof.
  unfold handle_terminal_macos_new_tab_shortcut. apply keeps_app. intros a0 _. apply keeps_read_view. intros t.
  destruct (negb _); [apply sustains_ret|]. apply sustains_bind; [apply flush_composer_ok|]. intros _ a [Ha HD].
  rewrite run_bind. cbn [app gets Datatypes.id].
  destruct (pressed_guest_keys a !! KEY_LEFTCTRL) as [pid|] eqn:Hp.
  - rewrite bool_decide_true by eauto. cbn. eexists true, _. split; [done|]. split; [|exact HD].
    apply (ok_log a); [done|]. intros k i. cbn. rewrite !held_send. cbn. repeat case_bool_decide; try done. apply Ha.
  - rewrite bool_decide_false by (by intros [? ?]). cbn. eexists true, _. split; [done|]. split; [|exact HD].
    apply (ok_log a); [done|]. intros k i. cbn. rewrite !held_send. cbn. repeat case_bool_decide; try done. apply Ha.
Qed.
End timers.

#[local] Hint Resolve queue_remote_resize_ok queue_host_resize_resync_ok queue_fullscreen_exit_resync_ok
  forget_pending_ok forget_host_resync_ok send_remote_resize_now_ok flush_composer_ok composer_backspace_ok
  send_composer_actions_ok send_host_text_ok clear_stale_ok handle_ime_ok new_tab_ok : apps.

(** *** Events of a host window: the window stays known *)

Section events.
Context (D : life_state → Prop) (id : Z) (Hid : ∀ l, D l → there id l).
Abbreviation keepsa m := (sustains (known D) m).

Lemma handle_view_shortcut_ok key : keepsa (handle_view_shortcut w id key).
Proof. unfold handle_view_shortcut. keep_app. Qed.
#[local] Hint Resolve handle_view_shortcut_ok : apps.

Lemma handle_plain_key_ok event b : keepsa (handle_plain_key id event b).
Proof.
  unfold handle_plain_key. destruct (named_keycode (logical_key event)) as [k|] eqn:Hk.
  - apply keeps_read_view. intros idle. destruct (_ && _); [keep_app|].
    apply sustains_bind; [keep_app|]. intros _. apply send_tracked_ok; [by eapply named_no_modifier|done].
  - apply keeps_app. intros a _. destruct (negb (is_pressed event)).
    + destruct (shortcut_keycode (physical_key event)) as [k|] eqn:Hs; [|keep_app].
      apply sustains_when, send_tracked_ok; [by eapply shortcut_no_modifier|done].
    + keep_app.
Qed.

Lemma handle_command_key_ok event : keepsa (handle_command_key w id event).
Proof.
  unfold handle_command_key. apply keeps_app. intros a _. apply sustains_bind; [keep_app|]. intros [].
  { apply sustains_ret. }
  destruct (match shortcut_keycode (physical_key event) with Some k => Some k
            | None => named_keycode (logical_key event) end) as [k|] eqn:Hk; [|apply sustains_ret].
  assert (k ∉ modifier_codes) as Hm.
  { destruct (shortcut_keycode _) eqn:Hs; [injection Hk as <-; by eapply shortcut_no_modifier|
      by eapply named_no_modifier]. }
  assert (∀ state, keepsa (send_tracked_guest_key id k state)) as Hsend by (intros; by apply send_tracked_ok).
  apply keeps_app. intros a' _. destruct (is_pressed event); [|destruct (bool_decide _)]; keep_app; apply Hsend.
Qed.
#[local] Hint Resolve handle_plain_key_ok handle_command_key_ok : apps.

Lemma handle_keyboard_ok event : keepsa (handle_keyboard w id event).
Proof.
  unfold handle_keyboard. destruct (guest_modifier_keycode _ _) as [k|] eqn:Hk.
  - apply send_tracked_modifier_ok; [by eapply guest_modifier|done].
  - keep_app.
Qed.

Lemma on_cursor_moved_ok p : keepsa (on_cursor_moved w id p).
Proof. unfold on_cursor_moved, set_window_cursor. keep_app. Qed.

Lemma on_mouse_wheel_ok delta : keepsa (on_mouse_wheel w id delta).
Proof. unfold on_mouse_wheel. keep_app. Qed.

Lemma focus_for_input_ok : keepsa (focus_for_input w id).
Proof. unfold focus_for_input. keep_app. Qed.
#[local] Hint Resolve focus_for_input_ok : apps.

Lemma on_left_button_ok state : keepsa (on_left_button w id state).
Proof. unfold on_left_button. keep_app. Qed.
#[local] Hint Resolve on_left_button_ok : apps.

Lemma on_mouse_input_ok state button : keepsa (on_mouse_input w id state button).
Proof. unfold on_mouse_input, sync_cursor_for_button_event. keep_app. Qed.

Lemma on_resized_ok sz : keepsa (on_resized w id sz).
Proof. unfold on_resized. keep_app. Qed.
End events.

#[local] Hint Resolve handle_keyboard_ok on_cursor_moved_ok on_mouse_wheel_ok on_mouse_input_ok on_resized_ok : apps.

Section messages.
Context (D : life_state → Prop).
Abbreviation keepsa m := (sustains (known D) m).

(** What holds if the window is there, and if it is not. *)
Lemma by_window {A} id (m : AM A) :
  sustains (known (λ l, D l ∧ there id l)) m →
  (∀ a, known D a → windows a !! id = None → ∃ r a', m a = Some (r, a') ∧ known D a') → keepsa m.
Proof.
  intros Hm Hnone a [Ha HD]. destruct (windows a !! id) as [v|] eqn:Hv; [|by apply Hnone].
  destruct (Hm a) as (r & a' & E & Ha' & HD' & _).
  { split; [done|]. split; [done|]. apply there_window. by eexists. }
  exists r, a'. done.
Qed.

Lemma window_event_ok window e : keepsa (window_event w window e).
Proof.
  unfold window_event. intros a [Ha HD]. rewrite run_bind. cbn [app gets Datatypes.id].
  destruct (window_ids a !! window) as [id|] eqn:Hid; [|by exists tt, a].
  destruct (ok_ids a Ha window id Hid) as (v & Hv & _).
  match goal with |- ∃ _ _, ?m a = _ ∧ _ =>
    enough (sustains (known (λ l, D l ∧ there id l)) m) as H end.
  { destruct (H a) as (r & a' & E & Ha' & HD' & _); [|by exists r, a'].
    split; [done|]. split; [done|]. apply there_window. by eexists. }
  assert (∀ l, D l ∧ there id l → there id l) by (by intros ? []).
  destruct e; keep_app; eauto with apps.
Qed.

Lemma on_frame_tile_ok tile : tile_ok tile → keepsa (on_frame_tile w tile).
Proof.
  intros Ht. apply (by_window (tile_id tile)).
  - assert (∀ l, D l ∧ there (tile_id tile) l → there (tile_id tile) l) by (by intros ? []).
    unfold on_frame_tile. apply keeps_read_view. intros k. destruct (negb k); [apply sustains_ret|].
    apply sustains_bind; [apply keeps_on_view; intros; by apply apply_tile_ok|]. intros [changed|]; [|apply sustains_ret].
    unfold mark_adopted_initial_size. keep_app; by apply queue_host_resize_resync_ok.
  - intros a Ha Hv. unfold on_frame_tile, read_view, gets. rewrite run_bind, Hv. cbn. by exists tt, a.
Qed.

Lemma on_title_changed_ok id title : keepsa (on_title_changed w id title).
Proof. unfold on_title_changed. keep_app. Qed.

Lemma on_fullscreen_changed_ok id b : keepsa (on_fullscreen_changed w id b).
Proof.
  apply (by_window id).
  - assert (∀ l, D l ∧ there id l → there id l) by (by intros ? []).
    unfold on_fullscreen_changed. keep_app; by apply queue_fullscreen_exit_resync_ok.
  - intros a [Ha HD] Hv. unfold on_fullscreen_changed, on_view, zoom. rewrite run_bind, Hv. cbn.
    destruct b; cbn; [|by exists tt, a]. eexists tt, _. split; [done|]. split; [by apply ok_forget_pending|exact HD].
Qed.

Lemma move_requested_ok id : keepsa
  (resize ← on_view id None (begin_requested_move w;; take_pending_tile_remote_resize);
   match resize with Some (width, height) => queue_remote_resize w id width height | None => mret tt end).
Proof.
  apply (by_window id).
  - assert (∀ l, D l ∧ there id l → there id l) by (by intros ? []).
    apply sustains_bind; [keep_app|]. intros [[width height]|]; [by apply queue_remote_resize_ok|apply sustains_ret].
  - intros a Ha Hv. unfold on_view, zoom. rewrite run_bind, Hv. by exists tt, a.
Qed.

Lemma message_effects_ok es : forallb keyless es = true → keepsa (emit_app es).
Proof. apply keeps_emit_app. Qed.
End messages.

(** *** The end of a window *)

(** No window but retired ones while the application waits for its end. *)
Definition waiting_to_exit (l : life_state) : Prop := is_Some l.2 → l.1.1 ⊆ l.1.2.

(** The event does not destroy a window for the second time. *)
Definition destroyed_once (e : viewer_event) (a : ViewerApp) : Prop :=
  match e with
  | Viewer_message (Message_WindowEvent (WE_Destroyed id)) => id ∉ retired_window_ids a
  | _ => True
  end.

Lemma retire_last_window_ok id dom0 retired0 :
  hoare (known (λ l, l.1 = (dom0, retired0) ∧ there id l)) (retire_last_window w id)
    (λ _, known (λ l, l.1 = (dom0, {[id]} ∪ retired0))).
Proof.
  unfold retire_last_window.
  do 3 (apply (hoare_bind _ (λ _, known (λ l, l.1 = (dom0, retired0) ∧ there id l)));
    [match goal with |- hoare ?I ?m _ => change (sustains I m) end; keep_app|intros _]).
  apply hoare_modify. intros a [Ha [HD Hid]]. split.
  - apply ok_retire; [done|]. by apply elem_of_dom.
  - cbn in *. by injection HD as -> ->.
Qed.

Lemma last_active id a : id ∉ retired_window_ids a → is_Some (windows a !! id) → (active_window_count a <= 1)%nat →
  dom (windows a) ⊆ {[id]} ∪ retired_window_ids a.
Proof.
  unfold active_window_count. intros Hr Hid%elem_of_dom Hc i Hi.
  destruct (decide (i ∈ retired_window_ids a)); [set_solver|].
  assert (i = id) as ->; [|set_solver].
  apply (size_singleton_inv (dom (windows a) ∖ retired_window_ids a)); [|set_solver..].
  assert (size (dom (windows a) ∖ retired_window_ids a) ≠ 0%nat) by (intros Hz%size_empty_inv; set_solver). lia.
Qed.

Lemma ok_waiting a {P1 P2 P3} `{∀ x, Decision (P1 x), ∀ x, Decision (P2 x), ∀ x, Decision (P3 x)} :
  Viewer_ok a →
  Viewer_ok (set_pending_fullscreen_exit_resyncs (filter P1 (pending_fullscreen_exit_resyncs a))
    (set_pending_resizes (filter P2 (pending_resizes a))
       (set_pending_host_resize_resyncs (filter P3 (pending_host_resize_resyncs a)) a))).
Proof.
  intros []. constructor; cbn; try assumption; intros i [x [Hx _]%map_lookup_filter_Some]; eauto.
Qed.

Section lifecycle.
(** [P]: the guest destroys no window twice, and so far the application kept its word. *)
Context (P : Prop).
Abbreviation kept := (λ l, P → waiting_to_exit l).

Lemma on_destroyed_ok id a : (P → id ∉ retired_window_ids a) → known kept a →
  ∃ u a', on_destroyed w id a = Some (u, a') ∧ known kept a'.
Proof.
  unfold on_destroyed. intros Honce [Ha HP]. rewrite run_bind. cbn [app gets Datatypes.id].
  destruct (_ && bool_decide _) eqn:Hlast.
  - apply andb_true_iff in Hlast as [Hcount%Nat.leb_le Hid%bool_decide_eq_true].
    destruct (retire_last_window_ok id (dom (windows a)) (retired_window_ids a) a)
      as ([] & a1 & E1 & [Ha1 HD1]); [by split; [|split; [|apply there_window]]|].
    rewrite run_bind, E1. cbn. eexists tt, _. split; [done|]. split.
    + apply (ok_log (set_empty_windows_since (Some (now w)) a1)).
      * destruct Ha1. constructor; assumption.
      * intros k i. cbn. rewrite sent_app, held_keyless by done. apply Ha1.
    + intros HPP _. cbn in *. injection HD1 as -> ->. by apply last_active; [apply Honce|..].
  - destruct (remove_window_spec id a Ha) as (a' & E & Hok & _ & Hwin & Hret & Hs).
    exists tt, a'. split; [exact E|]. split; [done|]. intros HPP. unfold waiting_to_exit, life. cbn.
    rewrite Hs, Hwin, Hret, dom_delete_L. intros Hw. specialize (HP HPP Hw). set_solver.
Qed.

Lemma remove_retired_windows_ok dom0 :
  hoare (known (λ l, l.1.1 = dom0 ∧ (P → dom0 ⊆ l.1.2))) (remove_retired_windows w)
    (λ _, known (λ l, P → l.1.1 = ∅)).
Proof.
  intros a [Ha [Hdom HP]]. unfold remove_retired_windows. rewrite run_bind. cbn [app gets Datatypes.id].
  rewrite run_bind. cbn [update_app modify]. set (ids := hash_order w (elements (retired_window_ids a))).
  assert (hoare (known (λ l, l.1.1 = dom0 ∖ list_to_set [])) (each (remove_window w) ids)
    (λ _, known (λ l, l.1.1 = dom0 ∖ list_to_set ids))) as Hloop.
  { apply (hoare_each (λ seen, known (λ l, l.1.1 = dom0 ∖ list_to_set seen))). intros seen id _ b [Hb HD].
    destruct (remove_window_spec id b Hb) as (b' & E & Hb' & _ & Hwin & _). exists tt, b'. split; [exact E|].
    split; [done|]. cbn in *. rewrite Hwin, dom_delete_L, HD, list_to_set_app_L. set_solver. }
  destruct (Hloop (set_retired_window_ids ∅ a)) as (u & a' & E & Ha' & HD').
  { split; [|cbn in *; set_solver]. destruct Ha. constructor; cbn; try assumption. set_solver. }
  exists u, a'. split; [exact E|]. split; [done|]. intros HPP. rewrite HD'.
  assert (list_to_set ids = retired_window_ids a) as ->; [|cbn in *; specialize (HP HPP); set_solver].
  apply set_eq. intros i. rewrite elem_of_list_to_set. unfold ids. rewrite (Hhash _), elem_of_elements. done.
Qed.

Lemma flush_due_ok a : known kept a →
  ∃ u a', flush_due_remote_resizes w a = Some (u, a') ∧ known kept a' ∧
    (P → ∀ since, empty_windows_since a = Some since → since + WINDOW_REPLACEMENT_GRACE ≤ now w →
     windows a' = ∅ ∧ last (log a') = Some Exit).
Proof.
  unfold flush_due_remote_resizes, retain_waiting. intros [Ha HP]. rewrite run_bind. cbn [app gets Datatypes.id].
  rewrite run_bind. cbn [update_app modify].
  match goal with |- ∃ _ _, _ ?b = _ ∧ _ => set (a0 := b) end.
  assert (known (λ l, l = life a) a0) as H0 by (split; [by apply ok_waiting|done]). clearbody a0.
  pose (Q := λ (_ : unit) a', known kept a' ∧
    (P → ∀ since, empty_windows_since a = Some since → since + WINDOW_REPLACEMENT_GRACE ≤ now w →
     windows a' = ∅ ∧ last (log a') = Some Exit)).
  match goal with |- ∃ _ _, ?m ?b = _ ∧ _ => enough (hoare (known (λ l, l = life a)) m Q) as H by by apply H end.
  clear a0 H0. do 3 (apply (hoare_bind _ (λ _, known (λ l, l = life a)));
    [match goal with |- hoare ?I ?m _ => change (sustains I m) end; keep_app|intros _]).
  assert (∀ b, known (λ l, l = life a) b → known kept b) as Hkept by (intros b [? Hl]; split; [done|by rewrite Hl]).
  destruct (empty_windows_since a) as [since|] eqn:Hs.
  - destruct (Z.leb_spec (since + WINDOW_REPLACEMENT_GRACE) (now w)).
    + apply (hoare_bind _ (λ _, known (λ l, P → l.1.1 = ∅))).
      * eapply hoare_weaken; [apply (remove_retired_windows_ok (dom (windows a)))| |done].
        intros b [Hb Hl]. split; [done|]. rewrite Hl. split; [done|]. intros HPP. apply (HP HPP). cbn. by rewrite Hs.
      * intros _. intros b Hb. destruct (keeps_emit_app (λ l, P → l.1.1 = ∅) [Exit] eq_refl b Hb) as ([] & b' & E & [Hb' HD]).
        exists tt, b'. split; [exact E|]. injection E as <-. split; [split; [done|]|].
        -- intros HPP _. cbn in *. rewrite (HD HPP). set_solver.
        -- intros HPP _ _ _. split; [by apply dom_empty_inv_L, HD|apply last_snoc].
    + eapply hoare_weaken; [by apply (keeps_emit_app (λ l, l = life a))|done|].
      intros u b Hb. split; [by apply Hkept|]. intros _ s [= <-] ?. lia.
  - eapply hoare_weaken; [by apply (keeps_emit_app (λ l, l = life a))|done|]. intros u b Hb. by split; [apply Hkept|].
Qed.

(** *** Messages *)

Lemma created_ok id width height title app_id a : sides_ok width height →
  (∀ window, new_window w = Some window → window_ids a !! window = None) → Viewer_ok a →
  ∃ u a', (update_app (set_empty_windows_since None);; create_window w id width height title app_id) a
            = Some (u, a') ∧ known not_waiting a'.
Proof.
  intros Hs Hf Ha. rewrite run_bind. cbn [update_app modify]. apply create_window_ok; [done|]. split; [|done].
  split; [|done]. destruct Ha. constructor; assumption.
Qed.

Lemma sides_max width height : sides_ok width height → sides_ok (Z.max width 1) (Z.max height 1).
Proof. unfold sides_ok, MAX_SIDE. lia. Qed.

Lemma handle_message_ok m a : message_ok m → (P → destroyed_once (Viewer_message m) a) →
  (∀ window, new_window w = Some window → window_ids a !! window = None) → known kept a →
  ∃ u a', handle_message w m a = Some (u, a') ∧ known kept a'.
Proof.
  intros Hm Honce Hfresh Ha.
  destruct m as [| | | | | | | | |e|tile| | | |c|]; try (by apply (sustains_ret (known kept)));
    try (by apply (message_effects_ok kept)).
  - cbn [handle_message]. destruct e as [id geom title app_id|id geom|id|id title|id|id|id b]; cbn [handle_remote_window_event].
    + destruct (created_ok id (Z.max (geom_w geom) 1) (Z.max (geom_h geom) 1) title app_id a) as (u & a' & E & Ha' & HD);
        [by apply sides_max|done|apply Ha|]. exists u, a'. split; [done|]. split; [done|].
      intros _ [s Hs]. unfold not_waiting in HD. congruence.
    + clear Honce Hfresh. revert a Ha. change (sustains (known kept) (on_view id tt (resize_to_remote_size w (Z.max (geom_w geom) 1)
        (Z.max (geom_h geom) 1);; request_redraw))).
      apply keeps_on_view. intros. apply sustains_bind; [by apply resize_to_remote_size_ok, sides_max|]. intros _. keep.
    + by apply on_destroyed_ok.
    + by apply on_title_changed_ok.
    + clear Honce Hfresh. revert a Ha. match goal with |- ∀ a, _ → ∃ _ _, ?m _ = _ ∧ _ => change (sustains (known kept) m) end.
      keep_app.
    + destruct (macos w); [by apply (sustains_ret (known kept))|by apply move_requested_ok].
    + by apply on_fullscreen_changed_ok.
  - by apply on_frame_tile_ok.
  - cbn [handle_message]. clear Honce Hfresh. revert a Ha.
    match goal with |- ∀ a, _ → ∃ _ _, ?m _ = _ ∧ _ => change (sustains (known kept) m) end. keep_app.
Qed.
End lifecycle.
End handlers.

(** ** One step of the application *)

Lemma viewer_step_ok (P : Prop) w a e :
  world_ok w a → event_ok e → (P → destroyed_once e a) → known (λ l, P → waiting_to_exit l) a →
  ∃ a', viewer_step w e a = Some (tt, a') ∧ known (λ l, P → waiting_to_exit l) a'.
Proof.
  intros [Hsizes Hhash Hfresh] He Honce Ha.
  enough (∃ u a', viewer_step w e a = Some (u, a') ∧ known (λ l, P → waiting_to_exit l) a') as ([] & a' & ?)
    by (by exists a').
  destruct e as [|window e| |m| |]; cbn [viewer_step].
  - revert a Ha Hfresh Honce. intros a Ha _ _. revert a Ha.
    match goal with |- ∀ a, _ → ∃ _ _, ?m _ = _ ∧ _ => change (sustains (known (λ l, P → waiting_to_exit l)) m) end.
    unfold ensure_keepalive_window. keep_app.
  - by apply window_event_ok.
  - destruct (flush_due_ok w Hsizes Hhash P a Ha) as (u & a' & E & Ha' & _). by exists u, a'.
  - by apply handle_message_ok.
  - by apply (message_effects_ok (λ l, P → waiting_to_exit l)).
  - by apply (message_effects_ok (λ l, P → waiting_to_exit l)).
Qed.
