(* ===== verification/ViewerTheorems.v ===== *)
(** * The viewer application: what the user and the guest can count on

    Every run is safe; no key is left held in a window that cannot release it any more; a
    modifier is released to the guest when the last key that stands for it is; the timers
    send the last size once and the event loop is woken for the next one; the sizes that
    travel between the host window and the guest window do not echo; text reaches the guest
    in full; the application ends when its windows have. *)

From Stdlib Require Import SpecFloat.
From S2P Require Import Prelude Float State Wire Frame Ime Geometry Keys Viewer ViewerProofs.

(** The states a run of the application goes through, on events that are [allowed]. *)
Inductive reachable_by (allowed : viewer_event → ViewerApp → Prop) : ViewerApp → Prop :=
  | reach_new clipboard var tile : reachable_by allowed (ViewerApp_new clipboard var tile)
  | reach_step w e a u a' :
      reachable_by allowed a → world_ok w a → event_ok e → allowed e a →
      viewer_step w e a = Some (u, a') → reachable_by allowed a'.

Definition reachable (a : ViewerApp) : Prop := reachable_by (λ _ _, True) a.

Lemma reachable_known (P : Prop) allowed a : (∀ e a, allowed e a → P → destroyed_once e a) →
  reachable_by allowed a → known (λ l, P → waiting_to_exit l) a.
Proof.
  intros Hall. induction 1 as [|w e a u a' _ Ha Hw He Hallowed E].
  { split; [apply ok_new|]. by intros _ [? ?]. }
  destruct (viewer_step_ok P w a e Hw He (Hall e a Hallowed) Ha) as (a'' & E' & Ha''). congruence.
Qed.

Lemma viewer_reachable_ok a : reachable a → Viewer_ok a.
Proof. intros Ha. by apply (reachable_known False (λ _ _, True) a). Qed.

Lemma step_ok w a e : world_ok w a → event_ok e → Viewer_ok a →
  ∃ a', viewer_step w e a = Some (tt, a') ∧ Viewer_ok a'.
Proof.
  intros Hw He Ha. destruct (viewer_step_ok False w a e Hw He) as (a' & E & Ha' & _); [done..|by exists a'].
Qed.

(** ** Keys that are let go *)

Definition let_go (id : Z) (a : ViewerApp) : Prop := ∀ k, held (sent (log a)) k ≠ Some id.

(** The events after which the guest holds no key of a window. *)
Definition lets_go (e : viewer_event) (a : ViewerApp) (id : Z) : Prop :=
  match e with
  | Window_event window (Focused false) | Window_event window CloseRequested => window_ids a !! window = Some id
  | Viewer_message (Message_WindowEvent (WE_Destroyed id')) => id' = id
  | _ => False
  end.

Lemma let_go_emit id es : forallb keyless es = true → sustains (let_go id) (emit_app es).
Proof. intros He. apply sustains_modify. intros a Ha k. cbn. rewrite sent_app, held_keyless by done. apply Ha. Qed.

Lemma let_go_update id f : (∀ a, log (f a) = log a) → sustains (let_go id) (update_app f).
Proof. intros Hf. apply sustains_modify. intros a Ha k. rewrite Hf. apply Ha. Qed.

Section let_go.
Context (w : world) (a0 : ViewerApp) (Hw : world_ok w a0).

Lemma release_lets_go id : hoare Viewer_ok (release_window_guest_keys w id) (λ _, let_go id).
Proof.
  intros a Ha. destruct (release_window_guest_keys_spec w id a (world_hash _ _ Hw)) as (a' & E & Hr).
  exists tt, a'. split; [done|]. exact (proj2 (proj2 (ok_released id a a' Ha Hr))).
Qed.

Lemma retire_lets_go id : hoare Viewer_ok (retire_last_window w id) (λ _, let_go id).
Proof.
  unfold retire_last_window. eapply (hoare_weaken _ (known nothing) _ (λ _, let_go id)); [|intros a Ha; by apply known_nothing|done].
  apply (hoare_bind _ (λ _, known nothing)); [apply keeps_on_view; intros; apply hide_ok|].
  intros _. apply (hoare_bind _ (λ _, known nothing)); [apply forget_pending_ok|].
  intros _. apply (hoare_bind _ (λ _, let_go id)).
  - eapply hoare_weaken; [apply release_lets_go|by intros a []|done].
  - intros _. by apply let_go_update.
Qed.

Lemma destroyed_lets_go id : hoare Viewer_ok (on_destroyed w id) (λ _, let_go id).
Proof.
  unfold on_destroyed. intros a Ha. rewrite run_bind. cbn [app gets Datatypes.id]. destruct (_ && _).
  - revert Ha. apply (hoare_bind _ (λ _, let_go id)); [apply retire_lets_go|]. intros _.
    apply sustains_bind; [by apply let_go_update|]. intros _. by apply let_go_emit.
  - destruct (remove_window_spec w (world_sizes _ _ Hw) (world_hash _ _ Hw) id a Ha) as (a' & E & _ & Hg & _).
    exists tt, a'. split; [exact E|]. exact (gone_held _ _ Hg).
Qed.
End let_go.

(** C2: provided no size the guest names exceeds 32767 pixels a side, every event of the host
    and every message of the guest is handled without a panic in every state the viewer can
    reach, and the state is well formed: each window has a frame with its content inside it
    and a composer in a legal state; host windows and guest windows are in bijection; pending
    resizes, resyncs, retired windows and held keys name existing windows. The code does not
    check that bound, neither on the geometry of a window nor on the far corner of a tile: it
    allocates a frame of whatever size it is told (4 GiB at the bound), and beyond it nothing
    is claimed. *)
Theorem viewer_safe a w e : reachable a → world_ok w a → event_ok e →
  Viewer_ok a ∧ ∃ a', viewer_step w e a = Some (tt, a') ∧ reachable a'.
Proof.
  intros Ha Hw He. pose proof (viewer_reachable_ok a Ha) as Hok. split; [done|].
  destruct (step_ok w a e Hw He Hok) as (a' & E & _). exists a'. split; [done|].
  by eapply reach_step.
Qed.

(** C4: no key is stuck. Whatever the guest was told, a key it holds is one the viewer
    remembers as pressed in a window that exists, and once a window lost the focus, was
    closed by the user or destroyed by the guest, the guest holds no key of that window. *)
Theorem no_stuck_key a w e id u a' :
  reachable a → world_ok w a → event_ok e → viewer_step w e a = Some (u, a') →
  (∀ k id, held (sent (log a')) k = Some id →
     pressed_guest_keys a' !! k = Some id ∧ is_Some (windows a' !! id)) ∧
  (lets_go e a id → ∀ k, held (sent (log a')) k ≠ Some id).
Proof.
  intros Ha Hw He E. pose proof (viewer_reachable_ok a Ha) as Hok. split.
  { destruct (step_ok w a e Hw He Hok) as (a'' & E' & Hok'). simplify_eq.
    intros k i Hk. pose proof (ok_held a' Hok' k i Hk) as Hp. split; [done|]. by eapply ok_keys. }
  intros Hl. enough (hoare (λ s, s = a) (viewer_step w e) (λ _, let_go id)) as H.
  { destruct (H a eq_refl) as (? & ? & E' & ?). congruence. }
  destruct e as [|window e| |m| |]; try done.
  - destruct e as [|[]| | | | | | | | | | |]; try done; intros s ->; cbn [viewer_step]; unfold window_event;
      rewrite run_bind; cbn [app gets Datatypes.id]; cbn in Hl; rewrite Hl; revert Hok;
      (apply (hoare_bind _ (λ _, let_go id)); [by eapply release_lets_go|]; intros _; by apply let_go_emit).
  - destruct m as [| | | | | | | | |e| | | | | |]; try done. destruct e; try done. cbn in Hl. subst.
    intros s ->. by eapply destroyed_lets_go.
Qed.

(** ** Modifiers shared by several keys

    Super and control of the host are both control of the guest. *)

(** The keys down after an event of one of them, and what the guest is told. *)
Definition down (n : Z) (state : ElementState) : Z :=
  match state with Pressed => n + 1 | Released => Z.max (n - 1) 0 end.

Definition edge (n : Z) (state : ElementState) : list InputKeyState :=
  match state with
  | Pressed => if n =? 0 then [Key_Pressed] else []
  | Released => if n =? 1 then [Key_Released] else []
  end.

Fixpoint edges (n : Z) (states : list ElementState) : list InputKeyState :=
  match states with [] => [] | state :: rest => edge n state ++ edges (down n state) rest end.

(** The guest modifier [k] is held in [id] for [n] keys of the host. *)
Definition shared (id k n : Z) (a : ViewerApp) : Prop :=
  0 ≤ n ∧ pressed_guest_modifier_counts a !! k = (if n =? 0 then None else Some n) ∧
  pressed_guest_keys a !! k = (if n =? 0 then None else Some id).

Lemma shared_step w id k n a event :
  shared id k n a → n < u64_max → guest_modifier_keycode (physical_key event) (logical_key event) = Some k →
  ∃ a', handle_keyboard w id event a = Some (tt, a') ∧ shared id k (down n (key_state event)) a' ∧
    sent (log a') = sent (log a) ++ map (IE_Key id k) (edge n (key_state event)).
Proof.
  intros (Hn & Hc & Hp) Hlt Hk. unfold handle_keyboard. rewrite Hk.
  unfold send_tracked_guest_modifier_key, guest_modifier_refcount_should_forward. rewrite run_bind.
  cbn [app gets Datatypes.id]. unfold shared, down, edge. rewrite Hc. destruct (key_state event).
  - assert (sat_add u64_max n 1 = n + 1) as Hsat by (unfold sat_add; lia).
    rewrite (proj2 (Z.eqb_neq (n + 1) 0)) by lia.
    destruct (Z.eqb_spec n 0) as [->|Hne]; cbn.
    + eexists. split; [reflexivity|]. cbn. rewrite !lookup_insert_eq. by rewrite sent_app.
    + rewrite (proj2 (Z.eqb_neq n 0)), Hsat by lia. cbn. eexists. split; [reflexivity|]. cbn.
      rewrite lookup_insert_eq, app_nil_r, Hp. split_and!; [lia|done..].
  - destruct (Z.eqb_spec n 0) as [->|Hne]; cbn.
    + eexists. split; [reflexivity|]. cbn. by rewrite app_nil_r, Hc.
    + destruct (Z.ltb_spec 1 n); cbn.
      * rewrite (proj2 (Z.eqb_neq n 1)), (Z.max_l (n - 1) 0), (proj2 (Z.eqb_neq (n - 1) 0)) by lia.
        eexists. split; [reflexivity|]. cbn. rewrite lookup_insert_eq, app_nil_r, Hp. split_and!; [lia|done..].
      * assert (n = 1) as -> by lia. cbn. unfold send_tracked_guest_key. rewrite run_bind. cbn.
        rewrite run_bind. cbn. rewrite Hp. eexists. split; [reflexivity|]. cbn.
        rewrite !lookup_delete_eq. by rewrite sent_app.
Qed.

(** A modifier of the guest that several keys of the host stand for is pressed when the
    first of them goes down and released when the last one goes up, and a release without a
    press is not passed on: after any sequence of presses and releases of those keys the
    guest was sent exactly the edges of the number of keys down. *)
Theorem modifier_shared w id k events a :
  pressed_guest_modifier_counts a !! k = None → pressed_guest_keys a !! k = None →
  Forall (λ event, guest_modifier_keycode (physical_key event) (logical_key event) = Some k) events →
  Z.of_nat (length events) < u64_max →
  ∃ a', each (handle_keyboard w id) events a = Some (tt, a') ∧
    sent (log a') = sent (log a) ++ map (IE_Key id k) (edges 0 (map key_state events)) ∧
    shared id k (foldl down 0 (map key_state events)) a'.
Proof.
  intros Hc Hp Hk Hlen. assert (shared id k 0 a) as Ha by done.
  assert (0 + Z.of_nat (length events) < u64_max) as Hlt by lia. clear Hc Hp Hlen. revert Hlt Ha.
  generalize 0 as n. revert a. induction Hk as [|event events Hev _ IH]; intros a n Hlt Ha.
  { exists a. cbn. by rewrite app_nil_r. }
  cbn [length] in Hlt. destruct (shared_step w id k n a event Ha) as (a1 & E1 & Ha1 & Hs1); [lia|done|].
  assert (down n (key_state event) ≤ n + 1) as Hd by (destruct Ha; unfold down; destruct (key_state event); lia).
  destruct (IH a1 (down n (key_state event))) as (a2 & E2 & Hs2 & Ha2); [lia|done|].
  exists a2. cbn [each]. rewrite run_bind, E1. split; [exact E2|]. split; [|exact Ha2].
  cbn. by rewrite Hs2, Hs1, map_app, app_assoc.
Qed.

(** ** Timers *)

(** [next] is the least instant with [P], if there is one. *)
Definition is_next (next : option Z) (P : Z → Prop) : Prop :=
  match next with None => ∀ d, ¬ P d | Some t => P t ∧ ∀ d, P d → t ≤ d end.

Lemma is_next_iff next (P Q : Z → Prop) : (∀ d, P d ↔ Q d) → is_next next P → is_next next Q.
Proof.
  intros H. destruct next as [t|]; cbn.
  - intros [Ht Hmin]. split; [by apply H|]. intros d Hd. by apply Hmin, H.
  - intros Hn d Hd. by apply (Hn d), H.
Qed.

Lemma is_next_earliest next P due : is_next next P → is_next (earliest next due) (λ d, P d ∨ d = due).
Proof.
  destruct next as [t|]; cbn.
  - intros [Ht Hmin]. split.
    + destruct (Z.min_spec t due) as [[_ ->]|[_ ->]]; auto.
    + intros d [Hd| ->]; [specialize (Hmin d Hd)|]; lia.
  - intros Hn. split; [by right|]. intros d [Hd| ->]; [by destruct (Hn d)|lia].
Qed.

Section retain.
Context {A : Type} (w : world) (due : A → Z).

Lemma is_next_fold (entries : list (Z * A)) next P : is_next next P →
  is_next (foldl (λ next e, if now w <? due e.2 then earliest next (due e.2) else next) next entries)
    (λ d, P d ∨ ∃ e, e ∈ entries ∧ now w < due e.2 ∧ d = due e.2).
Proof.
  revert next P. induction entries as [|e entries IH]; intros next P Hn; cbn [foldl].
  - apply (is_next_iff _ P); [|done]. intros d. split; [by left|]. intros [?|(e & He & _)]; [done|].
    by apply elem_of_nil in He.
  - destruct (Z.ltb_spec (now w) (due e.2)) as [Hlt|Hge].
    + eapply is_next_iff; [|apply IH, is_next_earliest, Hn]. intros d. setoid_rewrite elem_of_cons. naive_solver.
    + eapply is_next_iff; [|by apply IH]. intros d. setoid_rewrite elem_of_cons. naive_solver lia.
Qed.

(** The entries that are due, each once, those that wait, and the first of their instants. *)
Lemma retain_waiting_spec (Hhash : ∀ l, hash_order w l ≡ₚ l) pending next P ready waiting next' :
  is_next next P → retain_waiting w due pending next = (ready, waiting, next') →
  (∀ id x, (id, x) ∈ ready ↔ pending !! id = Some x ∧ due x ≤ now w) ∧
  NoDup ready.*1 ∧
  (∀ id x, waiting !! id = Some x ↔ pending !! id = Some x ∧ now w < due x) ∧
  is_next next' (λ d, P d ∨ ∃ id x, waiting !! id = Some x ∧ due x = d).
Proof.
  unfold retain_waiting. set (ids := hash_order _ _). set (entries := omap _ ids). intros Hn [= <- <- <-].
  assert (∀ id x, (id, x) ∈ entries ↔ pending !! id = Some x) as Hin.
  { intros id x. unfold entries. rewrite list_elem_of_omap. split.
    - intros (i & _ & Hi). destruct (pending !! i) eqn:E; simplify_eq/=. done.
    - intros Hx. exists id. rewrite Hx. split; [|done]. unfold ids. rewrite (Hhash _).
      apply elem_of_elements, elem_of_dom. by eexists. }
  assert (NoDup ids) as Hnd by (unfold ids; rewrite (Hhash _); apply NoDup_elements).
  assert (NoDup entries.*1) as Hnd1.
  { unfold entries. clear -Hnd. induction Hnd as [|i ids Hi Hnd IH]; [constructor|]. cbn.
    destruct (pending !! i) as [x|]; cbn; [|done]. constructor; [|done].
    intros Hi'. apply Hi. apply list_elem_of_fmap in Hi' as ([j y] & -> & Hj).
    apply list_elem_of_omap in Hj as (k & Hk & E). destruct (pending !! k); by simplify_eq/=. }
  split_and!.
  - intros id x. rewrite list_elem_of_filter, Hin. naive_solver.
  - clear -Hnd1. induction entries as [|e es IH]; [constructor|]. cbn in Hnd1. apply NoDup_cons in Hnd1 as [He Hes].
    rewrite filter_cons. case_decide; [|by apply IH]. cbn. constructor; [|by apply IH].
    intros ([j y] & Hj & [_ Hin]%list_elem_of_filter)%list_elem_of_fmap. apply He, list_elem_of_fmap. by eexists.
  - intros id x. rewrite map_lookup_filter_Some. naive_solver.
  - eapply is_next_iff; [|by apply is_next_fold]. intros d. cbn. split.
    + intros [?|([i x] & He & Hlt & ->)]; [by left|]. right. exists i, x. apply Hin in He.
      by rewrite map_lookup_filter_Some.
    + intros [?|(i & x & [Hx Hlt]%map_lookup_filter_Some & <-)]; [by left|]. right. exists (i, x). by rewrite Hin.
Qed.
End retain.

(** The instants the application waits for. *)
Definition timer_due (a : ViewerApp) (d : Z) : Prop :=
  (∃ id x, pending_fullscreen_exit_resyncs a !! id = Some x ∧ x = d) ∨
  (∃ id x, pending_resizes a !! id = Some x ∧ resize_due x = d) ∨
  (∃ id x, pending_host_resize_resyncs a !! id = Some x ∧ x = d) ∨
  (∃ since, empty_windows_since a = Some since ∧ d = since + WINDOW_REPLACEMENT_GRACE).

Definition resize_messages (e : Z * PendingRemoteResize) : list InputEvent :=
  [IE_Focus e.1 true; IE_Resize e.1 (resize_width e.2) (resize_height e.2)].

Definition timers (a : ViewerApp) : gmap Z Z * gmap Z PendingRemoteResize * gmap Z Z * option Z :=
  (pending_fullscreen_exit_resyncs a, pending_resizes a, pending_host_resize_resyncs a, empty_windows_since a).

(** A well-formed application with these timers, that sent these messages. *)
Record told (T : gmap Z Z * gmap Z PendingRemoteResize * gmap Z Z * option Z) (msgs : list InputEvent)
    (a : ViewerApp) : Prop := {
  told_ok : Viewer_ok a;
  told_timers : timers a = T;
  told_sent : sent (log a) = msgs
}.

Section told.
Context (w : world) (Hsizes : ∀ l id, 0 ≤ (inner_size (host w l id)).1 ≤ u32_max ∧ 0 ≤ (inner_size (host w l id)).2 ≤ u32_max).
Context (T : gmap Z Z * gmap Z PendingRemoteResize * gmap Z Z * option Z).

Lemma told_on_view {A} msgs id (d : A) (m : VM A) :
  (∀ window msgs, sustains (view_inv window msgs) m) → sustains (told T msgs) (on_view id d m).
Proof.
  intros Hm a [Ha HT Hs]. unfold on_view, zoom. destruct (windows a !! id) as [v|] eqn:Hv; cbn; [|by exists d, a].
  destruct (ok_views a Ha id v Hv) as [Hok Hid].
  destruct (Hm (vw_window v) (sent (log a)) (mkViewState v (log a))) as (r & s & -> & Hview); [by constructor|].
  eexists r, _. split; [done|]. split; [by apply (ok_put_view id v)|done|].
  cbn. rewrite <- Hs. apply Hview.
Qed.

Lemma told_emit msgs es : forallb keyless es = true → hoare (told T msgs) (emit_app es) (λ _, told T (msgs ++ sent es)).
Proof.
  intros He. apply hoare_modify. intros a [Ha HT Hs]. split; [|done|cbn; by rewrite sent_app, Hs].
  apply ok_log; [done|]. intros k id. rewrite sent_app, held_keyless by done. apply Ha.
Qed.

Lemma told_send_resize msgs id width height :
  hoare (told T msgs) (send_remote_resize_now id width height)
    (λ _, told T (msgs ++ [IE_Focus id true; IE_Resize id width height])).
Proof.
  apply (hoare_bind _ (λ _, told T msgs)); [apply told_on_view; intros ? ?; keep|]. intros _.
  apply (hoare_bind _ (λ _, told T (msgs ++ [IE_Focus id true]))); [by apply told_emit|]. intros _.
  rewrite (assoc_L (++) msgs [_] [_] : msgs ++ [IE_Focus id true; _] = _). by apply told_emit.
Qed.

(** The sizes that were due, sent in one go. *)
Lemma told_ready msgs ready :
  hoare (told T msgs) (each (λ e, send_remote_resize_now e.1 (resize_width e.2) (resize_height e.2)) ready)
    (λ _, told T (msgs ++ flat_map resize_messages ready)).
Proof.
  pose (I := λ seen, told T (msgs ++ flat_map resize_messages seen)).
  eapply (hoare_weaken _ (I []) _ (λ _, I ready)); [apply hoare_each| |done].
  - intros seen e _. unfold I. rewrite flat_map_app, app_assoc. cbn [flat_map]. rewrite app_nil_r.
    apply told_send_resize.
  - intros a. unfold I. cbn. by rewrite app_nil_r.
Qed.

(** After fullscreen: at most one size for each window that was due. *)
Lemma told_ready_fullscreen msgs (ready : list (Z * Z)) :
  hoare (told T msgs)
    (each (λ e,
       resize ← on_view e.1 None (resize_request_for_current_inner_size w);
       match resize with
       | Some (width, height) => send_remote_resize_now e.1 width height
       | None => mret tt
       end) ready)
    (λ _ a, ∃ early, told T (msgs ++ early) a ∧
       ∀ m, m ∈ early → ∃ e, e ∈ ready ∧ ∃ width height, m = IE_Focus e.1 true ∨ m = IE_Resize e.1 width height).
Proof.
  pose (I := λ (seen : list (Z * Z)) a, ∃ early, told T (msgs ++ early) a ∧ ∀ m, m ∈ early →
    ∃ e, e ∈ seen ∧ ∃ width height, m = IE_Focus e.1 true ∨ m = IE_Resize e.1 width height).
  eapply (hoare_weaken _ (I []) _ (λ _, I ready)); [apply hoare_each| |done].
  2:{ intros a Ha. exists []. rewrite app_nil_r. split; [done|]. by intros m ?%elem_of_nil. }
  intros seen e _ a0 (early & Ha0 & He). revert a0 Ha0.
  apply (hoare_bind _ (λ _, told T (msgs ++ early))); [apply told_on_view; intros; by apply resize_request_ok|].
  assert (∀ m, m ∈ early → ∃ e0, e0 ∈ seen ++ [e] ∧
    ∃ width height, m = IE_Focus e0.1 true ∨ m = IE_Resize e0.1 width height) as He'
    by (intros m Hm; destruct (He m Hm) as (e0 & ? & ?); exists e0; split; [set_solver|done]).
  intros [[width height]|].
  - eapply hoare_weaken; [apply told_send_resize|done|]. intros u a Ha.
    exists (early ++ [IE_Focus e.1 true; IE_Resize e.1 width height]). rewrite app_assoc. split; [exact Ha|].
    intros m [Hm|Hm]%elem_of_app; [auto|]. exists e. split; [set_solver|]. exists width, height. set_solver.
  - apply hoare_ret. intros a Ha. by exists early.
Qed.

Lemma told_ready_host msgs (ready : list (Z * Z)) :
  sustains (told T msgs)
    (each (λ e, on_view e.1 tt (request_scaled_inner_size_if_needed w;; mret tt)) ready).
Proof.
  apply sustains_each. intros e _. apply told_on_view. intros ? ?. apply sustains_bind; [by apply request_if_needed_ok|].
  intros ?. apply sustains_ret.
Qed.
End told.

(** The instant the event loop is told to wake up at. *)
Definition wake_up (next : option Z) (since : option Z) : option Z :=
  match since with Some since => earliest next (since + WINDOW_REPLACEMENT_GRACE) | None => next end.

Lemma wake_up_next a next :
  is_next next (λ d, ((False ∨ ∃ id x, pending_fullscreen_exit_resyncs a !! id = Some x ∧ x = d) ∨
    ∃ id x, pending_resizes a !! id = Some x ∧ resize_due x = d) ∨
    ∃ id x, pending_host_resize_resyncs a !! id = Some x ∧ x = d) →
  is_next (wake_up next (empty_windows_since a)) (timer_due a).
Proof.
  intros Hn. unfold timer_due, wake_up. destruct (empty_windows_since a) as [since|].
  - eapply is_next_iff; [|apply is_next_earliest, Hn]. intros d. cbv beta.
    assert ((∃ s, Some since = Some s ∧ d = s + WINDOW_REPLACEMENT_GRACE) ↔ d = since + WINDOW_REPLACEMENT_GRACE)
      as -> by (split; [by intros (s & [= ->] & ->)|by exists since]). tauto.
  - eapply is_next_iff; [|exact Hn]. intros d. cbv beta.
    assert ((∃ s, None = Some s ∧ d = s + WINDOW_REPLACEMENT_GRACE) ↔ False) as -> by (split; [by intros (s & ? & _)|done]).
    tauto.
Qed.

(** C15: when the event loop goes to sleep, exactly the sizes whose debounce has passed are
    sent to the guest, each once and with the last size asked for; what is left is exactly
    what is not due yet; a resynchronisation after fullscreen says at most a size; and the
    wake-up asked for is the first instant the application still waits for, so that no timer
    is slept through. *)
Theorem timers_fire w a :
  reachable a → world_ok w a →
  (∀ since, empty_windows_since a = Some since → now w < since + WINDOW_REPLACEMENT_GRACE) →
  ∃ a' early ready next, viewer_step w About_to_wait a = Some (tt, a') ∧
    sent (log a') = sent (log a) ++ early ++ flat_map resize_messages ready ∧
    NoDup ready.*1 ∧
    (∀ id r, (id, r) ∈ ready ↔ pending_resizes a !! id = Some r ∧ resize_due r ≤ now w) ∧
    (∀ id r, pending_resizes a' !! id = Some r ↔ pending_resizes a !! id = Some r ∧ now w < resize_due r) ∧
    (∀ m, m ∈ early → ∃ id d width height, pending_fullscreen_exit_resyncs a !! id = Some d ∧ d ≤ now w ∧
       (m = IE_Focus id true ∨ m = IE_Resize id width height)) ∧
    last (log a') = Some (Set_control_flow next) ∧ is_next next (timer_due a').
Proof.
  intros Ha%viewer_reachable_ok [Hsizes Hhash _] Hgrace. cbn [viewer_step]. unfold flush_due_remote_resizes.
  destruct (retain_waiting w (λ due, due) (pending_fullscreen_exit_resyncs a) None) as [[ready_f waiting_f] next_f] eqn:Ef.
  destruct (retain_waiting w resize_due (pending_resizes a) next_f) as [[ready waiting] next_r] eqn:Er.
  destruct (retain_waiting w (λ due, due) (pending_host_resize_resyncs a) next_r) as [[ready_h waiting_h] next] eqn:Eh.
  assert (is_next None (λ _, False)) as Hn by (by intros ? []).
  destruct (retain_waiting_spec w _ Hhash _ _ _ _ _ _ Hn Ef) as (Hrf & _ & _ & Hnf).
  destruct (retain_waiting_spec w _ Hhash _ _ _ _ _ _ Hnf Er) as (Hr & Hnd & Hwr & Hnr).
  destruct (retain_waiting_spec w _ Hhash _ _ _ _ _ _ Hnr Eh) as (_ & _ & _ & Hnh).
  clear Hn Hnf Hnr.
  set (a0 := set_pending_fullscreen_exit_resyncs waiting_f
    (set_pending_resizes waiting (set_pending_host_resize_resyncs waiting_h a))).
  assert (told (timers a0) (sent (log a)) a0) as H0.
  { split; [|done..]. revert Ef Er Eh. unfold a0, retain_waiting. intros [= _ <- _] [= _ <- _] [= _ <- _].
    by apply ok_waiting. }
  destruct (told_ready_fullscreen w Hsizes (timers a0) (sent (log a)) ready_f a0 H0)
    as ([] & a1 & E1 & early & H1 & Hearly).
  destruct (told_ready (timers a0) _ ready a1 H1) as ([] & a2 & E2 & H2).
  destruct (told_ready_host w Hsizes (timers a0) _ ready_h a2 H2) as ([] & a3 & E3 & [Hok HT Hs]).
  rewrite run_bind. cbn [app gets Datatypes.id]. rewrite Ef, Er, Eh. rewrite run_bind. cbn [update_app modify].
  fold a0. rewrite run_bind, E1, run_bind, E2, run_bind, E3.
  injection HT as HT1 HT2 HT3 HT4. cbn in HT1, HT2, HT3, HT4.
  assert (∀ next', sent (log a3 ++ [Set_control_flow next']) = sent (log a) ++ early ++ flat_map resize_messages ready) as Hlog.
  { intros next'. rewrite sent_app, Hs. cbn. by rewrite app_nil_r, <- app_assoc. }
  assert (∀ m, m ∈ early → ∃ id d width height, pending_fullscreen_exit_resyncs a !! id = Some d ∧ d ≤ now w ∧
    (m = IE_Focus id true ∨ m = IE_Resize id width height)) as Hearly'.
  { intros m Hm. destruct (Hearly m Hm) as ([i d] & [Hid Hd]%Hrf & width & height & Hm').
    by exists i, d, width, height. }
  pose proof (wake_up_next a3 next) as Hnext. rewrite HT1, HT2, HT3, HT4 in Hnext. specialize (Hnext Hnh).
  destruct (empty_windows_since a) as [since|] eqn:Hs0.
  - rewrite (proj2 (Z.leb_gt (since + WINDOW_REPLACEMENT_GRACE) (now w))) by auto.
    eexists _, early, ready, _. split; [reflexivity|]. cbn [log set_log].
    split_and!; [apply Hlog|done..|cbn; by rewrite HT2|done|apply last_snoc|exact Hnext].
  - eexists _, early, ready, _. split; [reflexivity|]. cbn [log set_log].
    split_and!; [apply Hlog|done..|cbn; by rewrite HT2|done|apply last_snoc|exact Hnext].
Qed.

(** ** The end of the application *)

(** If the guest destroys each of its windows once, the application waits for its end
    only while no window is left but retired ones; when the grace time has passed the event
    loop is left and every window is gone; and a window created in the meantime keeps the
    application alive. *)
Theorem exits_after_last w a :
  reachable_by destroyed_once a → world_ok w a →
  (∀ since, empty_windows_since a = Some since →
     (∀ id, is_Some (windows a !! id) → id ∈ retired_window_ids a) ∧
     (since + WINDOW_REPLACEMENT_GRACE ≤ now w →
      ∃ a', viewer_step w About_to_wait a = Some (tt, a') ∧ windows a' = ∅ ∧ last (log a') = Some Exit)) ∧
  (∀ id geom title app_id, sides_ok (geom_w geom) (geom_h geom) →
     ∃ a', viewer_step w (Viewer_message (Message_WindowEvent (WE_Created id geom title app_id))) a = Some (tt, a') ∧
       empty_windows_since a' = None).
Proof.
  intros Ha [Hsizes Hhash Hfresh].
  apply (reachable_known True) in Ha; [|by intros ? ? ? _]. split.
  - intros since Hs. destruct Ha as [Ha Hl]. split.
    + intros id Hid. assert (dom (windows a) ⊆ retired_window_ids a) as Hsub by (apply (Hl I); cbn; by rewrite Hs).
      by apply Hsub, elem_of_dom.
    + intros Hdue. destruct (flush_due_ok w Hsizes Hhash True a) as ([] & a' & E & _ & Hexit); [done|].
      exists a'. split; [done|]. by apply (Hexit I since).
  - intros id geom title app_id Hm.
    destruct (created_ok w Hsizes Hhash id (Z.max (geom_w geom) 1) (Z.max (geom_h geom) 1) title app_id a)
      as ([] & a' & E & _ & HD); [by apply sides_max|done|apply Ha|]. by exists a'.
Qed.

(** ** Text *)

(** The text the guest was given for a window. *)
Definition guest_text (id : Z) (msgs : list InputEvent) : rstring :=
  flat_map (λ m, match m with IE_Text i text => if i =? id then text else [] | _ => [] end) msgs.

(** What the composer of a window holds back. *)
Definition pending_strokes (id : Z) (a : ViewerApp) : list char :=
  from_option (λ v, rest_strokes (composer v)) [] (windows a !! id).

Definition typed_text (e : ImeEvent) : rstring := match e with Ime_Commit text => text | _ => [] end.

Lemma guest_text_app id l l' : guest_text id (l ++ l') = guest_text id l ++ guest_text id l'.
Proof. apply flat_map_app. Qed.

(** Ctrl is down at the guest. *)
Definition ctrl_down (a : ViewerApp) : bool := bool_decide (is_Some (pressed_guest_keys a !! KEY_LEFTCTRL)).

(** The window is there, [strokes_in] went in so far, and these modifiers are held. *)
Record typing (m : ModifiersState) (c : bool) (id : Z) (strokes_in : list char) (a : ViewerApp) : Prop := {
  typing_window : ∃ v, windows a !! id = Some v ∧ composer_ok (composer v);
  typing_modifiers : modifiers a = m;
  typing_ctrl : ctrl_down a = c;
  typing_strokes : strokes (guest_text id (sent (log a))) ++ pending_strokes id a = strokes_in
}.

Lemma typing_emit m c id ins es : guest_text id (sent es) = [] → sustains (typing m c id ins) (emit_app es).
Proof.
  intros He. apply sustains_modify. intros a [Hv Hm Hc Hs]. split; [done..|].
  cbn. by rewrite sent_app, guest_text_app, He, app_nil_r.
Qed.

(** The actions of a composer, sent. *)
Lemma send_composer_actions_run id actions a :
  ∃ es, send_composer_actions id actions a = Some (tt, set_log (log a ++ es) a) ∧
    guest_text id (sent es) = committed actions.
Proof.
  revert a. induction actions as [|action actions IH]; intros a.
  { exists []. split; [|done]. cbn. rewrite app_nil_r. by destruct a. }
  assert (∃ es, each send_input (composer_action_event id action) a = Some (tt, set_log (log a ++ es) a) ∧
    guest_text id (sent es) = committed [action]) as (es1 & E1 & H1).
  { destruct action as [text|[text|]]; cbn [composer_action_event].
    - case_bool_decide as Ht; cbn.
      + exists []. rewrite app_nil_r, Ht. split; [by destruct a|done].
      + eexists. split; [reflexivity|]. unfold guest_text, sent. cbn. by rewrite Z.eqb_refl.
    - by eexists.
    - by eexists. }
  destruct (IH (set_log (log a ++ es1) a)) as (es2 & E2 & H2). exists (es1 ++ es2). split.
  - unfold send_composer_actions in *. cbn [each]. rewrite run_bind, E1, E2. cbn. by rewrite app_assoc.
  - rewrite sent_app, guest_text_app, H1, H2, <- committed_app. done.
Qed.

(** An operation of the composer, with its actions sent. *)
Lemma composer_run id f v a : windows a !! id = Some v →
  ∃ es, (actions ← with_composer id f; send_composer_actions id actions) a
        = Some (tt, set_log (log a ++ es) (set_windows (<[id := set_composer (f (composer v)).1 v]> (windows a)) a)) ∧
    guest_text id (sent es) = committed (f (composer v)).2.
Proof.
  intros Hv. destruct (f (composer v)) as [c actions] eqn:E.
  destruct (send_composer_actions_run id actions (set_windows (<[id := set_composer c v]> (windows a)) a)) as (es & E1 & H).
  exists es. split; [|done]. rewrite run_bind.
  assert (with_composer id f a = Some (actions, set_windows (<[id := set_composer c v]> (windows a)) a)) as ->; [|done].
  unfold with_composer, on_view, zoom. rewrite Hv. cbn. rewrite run_bind. cbn. rewrite E. cbn. by destruct a.
Qed.

(** One that loses nothing. *)
Lemma typing_composer m k id ins (f : Input.Backend → Input.Backend * list ComposerAction) text :
  (∀ c, composer_ok c → composer_ok (f c).1 ∧
     strokes (committed (f c).2) ++ rest_strokes (f c).1 = rest_strokes c ++ strokes text) →
  hoare (typing m k id ins) (actions ← with_composer id f; send_composer_actions id actions)
    (λ _, typing m k id (ins ++ strokes text)).
Proof.
  intros Hf a [(v & Hv & Hc) Hm Hk Hs]. destruct (Hf _ Hc) as [Hok Hst].
  destruct (composer_run id f v a Hv) as (es & E & Htext). eexists tt, _. split; [exact E|].
  split; cbn; [by eexists; rewrite lookup_insert_eq|done|done|].
  rewrite sent_app, guest_text_app, Htext, strokes_app. unfold pending_strokes in *. cbn.
  rewrite lookup_insert_eq. cbn. rewrite Hv in Hs. cbn in Hs. by rewrite <- Hs, <- !app_assoc, Hst.
Qed.

Lemma typing_flush m c id ins : sustains (typing m c id ins) (flush_composer id).
Proof.
  eapply hoare_weaken; [apply (typing_composer m c id ins Input.flush [])|done|].
  - intros b Hb. destruct (run_op_spec b Op_flush Hb) as (H1 & _ & H3). split; [exact H1|]. by apply H3.
  - intros u a. cbn. by rewrite app_nil_r.
Qed.

Lemma guest_text_send id text : guest_text id (sent [Send (IE_Text id text)]) = text.
Proof. unfold guest_text, sent. cbn. by rewrite Z.eqb_refl, app_nil_r. Qed.

Lemma typing_host_text m k id ins text :
  hoare (typing m k id ins) (send_host_text id text) (λ _, typing m k id (ins ++ strokes text)).
Proof.
  unfold send_host_text. destruct (Input.can_compose text).
  - apply typing_composer. intros c Hc. destruct (run_op_spec c (Op_push text) Hc) as (H1 & _ & H3).
    split; [exact H1|]. by apply H3.
  - intros a [(v & Hv & Hc) Hm Hk Hs]. destruct (input_flush_spec (composer v)) as (Hidle & Hst & _).
    destruct (composer_run id Input.flush v a Hv) as (es & E & Htext).
    change (flush_composer id) with (actions ← with_composer id Input.flush; send_composer_actions id actions).
    rewrite run_bind, E. cbn [send_input emit_app modify]. eexists tt, _. split; [done|]. split; cbn -[Input.flush].
    + eexists. rewrite lookup_insert_eq. split; [done|]. cbn -[Input.flush]. by rewrite Hidle.
    + done.
    + done.
    + rewrite !sent_app, !guest_text_app, Htext, !strokes_app. unfold pending_strokes in *. cbn -[Input.flush].
      rewrite lookup_insert_eq. cbn -[Input.flush]. rewrite Hidle, guest_text_send, app_nil_r. rewrite Hv in Hs. cbn in Hs.
      by rewrite <- Hs, Hst, <- !app_assoc.
Qed.

(** The cached modifiers are forgotten, and Ctrl is let go of at the guest if asked. *)
Lemma typing_clear m c id ins release :
  hoare (typing m c id ins) (clear_shortcut_modifier_cache id release)
    (λ _, typing no_modifiers (c && negb release) id ins).
Proof.
  unfold clear_shortcut_modifier_cache.
  apply (hoare_bind _ (λ _, typing no_modifiers c id ins)).
  { apply hoare_modify. by intros a [Hv Hm Hc Hs]. }
  intros _. apply (hoare_bind _ (λ _, typing no_modifiers (c && negb release) id ins)); [|intros _; apply typing_flush].
  destruct release; cbn [when negb]; rewrite ?andb_false_r, ?andb_true_r; [|apply sustains_ret].
  intros a [Hv Hm Hc Hs]. unfold release_guest_key_if_pressed, app, gets, mbind, M_bind. cbn.
  destruct (pressed_guest_keys a !! KEY_LEFTCTRL) as [pressed|] eqn:Hp; cbn; eexists _, _; (split; [reflexivity|]).
  - split; [done|done|unfold ctrl_down; cbn; by rewrite lookup_delete_eq|].
    cbn. by rewrite sent_app, guest_text_app, app_nil_r.
  - split; [done|done|unfold ctrl_down; cbn; by rewrite Hp|done].
Qed.

Definition is_enabled (e : ImeEvent) : bool := match e with Ime_Enabled => true | _ => false end.

Lemma typing_same m c id ins ins' (p : AM unit) :
  hoare (typing m c id ins) p (λ _, typing m c id ins') →
  hoare (typing m c id ins) p (λ _ a, ∃ m' c', (m' = m ∧ c' = c) ∧ typing m' c' id ins' a).
Proof. intros Hp a Ha. destruct (Hp a Ha) as (u & b & E & Hb). exists u, b. split; [done|]. by exists m, c. Qed.

(** An event that is listened to: no shortcut modifier is held, or it carries no text. *)
Lemma typing_event m c id ins e :
  (is_text_event e = true → shortcut_modifiers_active m = false) →
  hoare (typing m c id ins) (handle_ime_event id e) (λ _ a, ∃ m' c',
    (if is_enabled e then shortcut_modifiers_active m' = false else m' = m ∧ c' = c) ∧
    typing m' c' id (ins ++ strokes (typed_text e)) a).
Proof.
  intros Hm. destruct e as [|text cursor|text|]; cbn [handle_ime_event typed_text is_text_event is_enabled] in *;
    rewrite ?(app_nil_r ins : ins ++ strokes [] = ins).
  - intros a Ha. rewrite run_bind. cbn [app gets Datatypes.id]. rewrite (typing_modifiers _ _ _ _ _ Ha).
    destruct (super_key m || control_key m) eqn:Hact; cbn [when]; revert a Ha.
    + apply (hoare_bind _ (λ _, typing no_modifiers (c && negb true) id ins)); [apply typing_clear|]. intros _.
      eapply hoare_weaken; [apply typing_flush|done|]. intros [] a Ha. cbn. rewrite andb_false_r in Ha. by exists no_modifiers, false.
    + apply (hoare_bind _ (λ _, typing m c id ins)); [apply sustains_ret|]. intros _.
      eapply hoare_weaken; [apply typing_flush|done|]. intros [] a Ha. exists m, c. split; [|exact Ha].
      unfold shortcut_modifiers_active. by rewrite orb_comm.
  - apply typing_same. destruct (ime_cursor_range cursor) as [cb ce]. apply sustains_read. intros b _. destruct (_ || _); [apply sustains_ret|].
    apply sustains_bind; [apply typing_flush|]. intros _. by apply typing_emit.
  - apply typing_same. case_bool_decide as Ht; cbn [negb when]; [|by apply typing_host_text].
    subst text. rewrite (app_nil_r ins : ins ++ strokes [] = ins). apply sustains_ret.
  - apply typing_same. apply sustains_bind; [apply typing_flush|]. intros _. by apply typing_emit.
Qed.

(** Whether text is being dropped: a shortcut modifier is held, and Ctrl is down at the guest. *)
Definition chord (m : ModifiersState) (c : bool) : bool := shortcut_modifiers_active m && c.

Lemma typing_ime m c id ins e :
  hoare (typing m c id ins) (handle_ime id e) (λ _ a, ∃ m' c',
    chord m' c' = chord m c && negb (is_enabled e) ∧
    typing m' c' id (ins ++ if chord m c then [] else strokes (typed_text e)) a).
Proof.
  unfold handle_ime. intros a Ha. rewrite run_bind. cbn [app gets Datatypes.id].
  rewrite (typing_modifiers _ _ _ _ _ Ha). destruct (shortcut_modifiers_active m && is_text_event e) eqn:Htext.
  - apply andb_true_iff in Htext as [Hact Htext]. assert (is_enabled e = false) as Hen by by destruct e.
    cbn [when]. unfold clear_stale_shortcut_modifiers_for_text, chord. rewrite Hact, Hen, andb_true_r. cbn [andb].
    unfold mbind, M_bind, app, gets. cbn. rewrite (typing_modifiers _ _ _ _ _ Ha), Hact. cbn.
    pose proof (typing_ctrl _ _ _ _ _ Ha) as Hc. unfold ctrl_down in Hc. rewrite Hc. destruct c.
    + cbn. rewrite (typing_modifiers _ _ _ _ _ Ha), Hact, Htext. cbn. exists tt, a. split; [done|]. exists m, true.
      rewrite Hact, app_nil_r. done.
    + destruct (typing_clear m false id ins false a Ha) as ([] & b & E & Hb). rewrite E. cbn.
      rewrite (typing_modifiers _ _ _ _ _ Hb). cbn.
      destruct (typing_event no_modifiers false id ins e (λ _, eq_refl) b Hb) as ([] & d & Ed & m' & c' & Hmc & Hd).
      exists tt, d. split; [done|]. exists m', c'. rewrite Hen in Hmc.
      destruct Hmc as [-> ->]. done.
  - cbn [when]. rewrite run_bind. cbn [mret M_ret]. rewrite run_bind. cbn [app gets Datatypes.id].
    rewrite (typing_modifiers _ _ _ _ _ Ha), Htext.
    destruct (typing_event m c id ins e) with (s := a) as ([] & d & Ed & m' & c' & Hmc & Hd); [|done|].
    { intros Ht. by rewrite Ht, andb_true_r in Htext. }
    exists tt, d. split; [done|]. exists m', c'. unfold chord.
    assert (is_enabled e = false → shortcut_modifiers_active m && c = true → typed_text e = []) as Hsilent.
    { destruct e; try done; intros _ [Hact _]%andb_true_iff; by rewrite Hact in Htext. }
    destruct (is_enabled e) eqn:Hen; cbn [negb] in *; rewrite ?andb_false_r, ?andb_true_r.
    + destruct e; try done. rewrite Hmc. split; [done|]. by destruct (_ && c).
    + destruct Hmc as [-> ->]. split; [done|]. destruct (shortcut_modifiers_active m && c) eqn:Hch; [|done].
      by rewrite Hsilent in Hd.
Qed.

(** The events that count: all, or those after the input method was enabled anew. *)
Fixpoint heard (dropping : bool) (events : list ImeEvent) : list ImeEvent :=
  match events with
  | [] => []
  | e :: rest => if dropping then if is_enabled e then rest else heard true rest else events
  end.

Definition still_chord (dropping : bool) (events : list ImeEvent) : bool := dropping && negb (existsb is_enabled events).

Lemma still_chord_snoc b events e : still_chord b (events ++ [e]) = still_chord b events && negb (is_enabled e).
Proof. unfold still_chord. rewrite existsb_app. cbn. rewrite orb_false_r, negb_orb, andb_assoc. done. Qed.

Lemma heard_all events : heard false events = events.
Proof. by destruct events. Qed.

Lemma heard_snoc b events e : heard b (events ++ [e]) = heard b events ++ if still_chord b events then [] else [e].
Proof.
  destruct b; [|by rewrite !heard_all]. unfold still_chord. cbn [andb]. induction events as [|x events IH]; [by destruct e|].
  cbn [Datatypes.app heard existsb]. destruct (is_enabled x); [done|]. exact IH.
Qed.

Lemma disabled_idle id v a : windows a !! id = Some v →
  ∃ a' v', handle_ime id Ime_Disabled a = Some (tt, a') ∧ windows a' !! id = Some v' ∧
    composer v' = Input.Backend_Idle.
Proof.
  intros Hv. destruct (composer_run id Input.flush v a Hv) as (es & E & _).
  destruct (input_flush_spec (composer v)) as (Hidle & _).
  unfold handle_ime. rewrite run_bind. cbn [app gets Datatypes.id is_text_event]. rewrite andb_false_r.
  rewrite run_bind. cbn [when mret M_ret]. rewrite run_bind. cbn [app gets Datatypes.id]. rewrite andb_false_r. cbn [handle_ime_event].
  change (flush_composer id) with (actions ← with_composer id Input.flush; send_composer_actions id actions).
  rewrite run_bind, E. eexists _, _. split; [done|]. cbn -[Input.flush]. rewrite lookup_insert_eq. by split.
Qed.

(** C13: the text of the input method on its way through the viewer, in any interleaving of
    commits, preedits and changes of the input method. While no shortcut modifier (Ctrl, Super)
    is held no text is lost, doubled or reordered: whatever was committed, composed locally or
    passed on, once the input method is switched off the guest has been given exactly the
    keystrokes the host committed, in their order. So it is while one is held that the guest
    does not hold Ctrl for: the viewer takes it for a stale one and forgets it. While one is
    held and Ctrl is down at the guest, preedits and commits are dropped, until the input
    method is enabled anew. *)
Theorem ime_text_lossless id events a v :
  reachable a → windows a !! id = Some v →
  let dropping := shortcut_modifiers_active (modifiers a)
                  && bool_decide (is_Some (pressed_guest_keys a !! KEY_LEFTCTRL)) in
  ∃ a' v', each (handle_ime id) (events ++ [Ime_Disabled]) a = Some (tt, a') ∧
    windows a' !! id = Some v' ∧ rest_strokes (composer v') = [] ∧
    strokes (guest_text id (sent (log a')))
    = strokes (guest_text id (sent (log a))) ++ rest_strokes (composer v)
      ++ strokes (concat (typed_text <$> heard dropping events)).
Proof.
  intros Ha%viewer_reachable_ok Hv dropping. destruct (ok_views a Ha id v Hv) as [Hok _].
  pose (ins := strokes (guest_text id (sent (log a))) ++ rest_strokes (composer v)).
  pose (I seen a := ∃ m c, chord m c = still_chord dropping seen ∧
    typing m c id (ins ++ strokes (concat (typed_text <$> heard dropping seen))) a).
  assert (I [] a) as H0.
  { exists (modifiers a), (ctrl_down a). split; [unfold still_chord; by rewrite andb_true_r|].
    split; [exists v; split; [done|apply Hok]|done..|]. unfold pending_strokes. by rewrite Hv, app_nil_r. }
  destruct (hoare_each I (handle_ime id) events) with (s := a) as ([] & a1 & E1 & m & c & Hmc & H1); [|exact H0|].
  { intros seen e _ b (m & c & Hmc & Hb).
    destruct (typing_ime m c id _ e b Hb) as ([] & d & Ed & m' & c' & Hmc' & Hd). exists tt, d. split; [done|].
    exists m', c'. rewrite still_chord_snoc, <- Hmc. split; [done|].
    rewrite heard_snoc, <- Hmc, fmap_app, concat_app, strokes_app, app_assoc. destruct (chord m c); cbn; [exact Hd|].
    by rewrite app_nil_r. }
  destruct (typing_ime m c id _ Ime_Disabled a1 H1) as (u & a2 & E2 & _ & _ & _ & [_ _ _ Hs]).
  destruct (typing_window _ _ _ _ _ H1) as (v1 & Hv1 & _).
  destruct (disabled_idle id v1 a1 Hv1) as (a2' & v2 & E2' & Hv2 & Hidle). rewrite E2 in E2'. injection E2' as -> ->.
  exists a2', v2. rewrite each_app, E1. cbn [each]. rewrite run_bind, E2. split; [done|]. split; [done|].
  rewrite Hidle. split; [done|]. unfold pending_strokes in Hs. rewrite Hv2 in Hs. cbn in Hs.
  rewrite Hidle in Hs. cbn in Hs. rewrite app_nil_r in Hs. rewrite Hs. unfold ins.
  destruct (chord m c); by rewrite app_nil_r, <- app_assoc.
Qed.

(** ** Sizes and fullscreen *)

(** A method of a window that leaves a field of it alone. *)
Definition fixes {X} (g : ViewerWindow → X) {A} (m : VM A) : Prop :=
  ∀ s r s', m s = Some (r, s') → g (vs_view s') = g (vs_view s).

Section fixes.
Context {X : Type} (g : ViewerWindow → X).

Lemma fixes_ret {A} (x : A) : fixes g (mret x).
Proof. by intros s r s' [= <- <-]. Qed.
Lemma fixes_gets {A} (f : view_state → A) : fixes g (gets f).
Proof. by intros s r s' [= <- <-]. Qed.
Lemma fixes_update f : (∀ v, g (f v) = g v) → fixes g (update f).
Proof. intros Hf s r s' [= <- <-]. apply Hf. Qed.
Lemma fixes_emit es : fixes g (emit es).
Proof. by intros s r s' [= <- <-]. Qed.
Lemma fixes_lift {A} (o : option A) : fixes g (lift o).
Proof. intros s r s'. unfold lift. by destruct o; [intros [= <- <-]|]. Qed.
Lemma fixes_bind {A B} (m : VM A) (k : A → VM B) : fixes g m → (∀ x, fixes g (k x)) → fixes g (m ≫= k).
Proof.
  intros Hm Hk s r s'. rewrite run_bind. destruct (m s) as [[x s1]|] eqn:E; [|done].
  intros E'. rewrite (Hk x s1 r s' E'). by eapply Hm.
Qed.
Lemma fixes_when b (m : VM unit) : fixes g m → fixes g (when b m).
Proof. destruct b; [done|]. intros _. apply fixes_ret. Qed.
End fixes.

Ltac fixes_step :=
  match goal with
  | |- fixes _ (mret _) => apply fixes_ret
  | |- fixes _ view => apply fixes_gets
  | |- fixes _ (ask _) => apply fixes_gets
  | |- fixes _ (update _) => apply fixes_update; reflexivity
  | |- fixes _ (emit _) => apply fixes_emit
  | |- fixes _ (lift _) => apply fixes_lift
  | |- fixes _ (when _ _) => apply fixes_when
  | |- fixes _ (_ ≫= _) => apply fixes_bind; [|intros ?]
  | |- fixes _ (let '(_, _) := ?x in _) => destruct x
  | |- fixes _ (match ?x with _ => _ end) => destruct x
  end.
Ltac fixes_all := repeat fixes_step.

Section resized.
Context (w : world) (window : Z) (b : bool).
Context (Hsizes : ∀ l id, 0 ≤ (inner_size (host w l id)).1 ≤ u32_max ∧ 0 ≤ (inner_size (host w l id)).2 ≤ u32_max).
Context (Hhost : ∀ l, is_window_fullscreen (host w l window) = b).

(** What a view makes of a new size of its host window. *)
Lemma view_resized_spec sz s r s' :
  vw_window (vs_view s) = window → view_resized w sz s = Some (r, s') →
  last_host_fullscreen (vs_view s') = b ∧
  r.1 = (if Bool.eqb b (last_host_fullscreen (vs_view s)) then None else Some b,
         negb (Bool.eqb b (last_host_fullscreen (vs_view s))) && negb b) ∧
  (b = true → r.2 = None).
Proof.
  intros Hwin. unfold view_resized. rewrite !run_bind. cbn [view gets]. rewrite run_bind. cbn [ask gets].
  rewrite Hwin, Hhost. set (l := last_host_fullscreen (vs_view s)). rewrite run_bind.
  destruct (when _ _ s) as [[u s1]|] eqn:E1; [|done].
  assert (last_host_fullscreen (vs_view s1) = b) as H1.
  { destruct (Bool.eqb b l) eqn:Hb; cbn in E1; injection E1 as <- <-; [|done].
    by apply eqb_prop in Hb as ->. }
  rewrite run_bind. cbn [view gets]. rewrite run_bind.
  match goal with |- match ?m s1 with _ => _ end = _ → _ => destruct (m s1) as [[resize s2]|] eqn:E2; [|done] end.
  assert (last_host_fullscreen (vs_view s2) = b) as H2.
  { rewrite <- H1. revert E2. generalize resize s2.
    match goal with |- ∀ r s', ?m _ = _ → _ => enough (fixes last_host_fullscreen m) as H by (intros; by eapply H) end.
    unfold consume_programmatic_resize, resize_request_for_current_inner_size, enable_ime_at_last_cursor,
      update_ime_cursor_area. fixes_all. }
  rewrite run_bind. unfold request_redraw. cbn. intros [= <- <-]. cbn. split_and!; [done|by destruct (Bool.eqb b l)|].
  intros ->. rewrite !andb_false_r in E2. cbn in E2. by injection E2 as <- <-.
Qed.
End resized.

(** A method of a known window, run by the application. *)
Lemma on_view_run {A} id (d : A) (m : VM A) v a :
  (∀ window msgs, sustains (view_inv window msgs) m) → Viewer_ok a → windows a !! id = Some v →
  ∃ r s, m (mkViewState v (log a)) = Some (r, s) ∧ view_inv (vw_window v) (sent (log a)) s ∧
    on_view id d m a = Some (r, set_windows (<[id := vs_view s]> (windows a)) (set_log (vs_log s) a)).
Proof.
  intros Hm Ha Hv. destruct (ok_views a Ha id v Hv) as [Hok _].
  destruct (Hm (vw_window v) (sent (log a)) (mkViewState v (log a))) as (r & s & E & Hs); [by constructor|].
  exists r, s. split; [done|]. split; [done|]. unfold on_view, zoom. rewrite Hv. cbn. by rewrite E.
Qed.

Lemma ok_forget_host_resync id a : Viewer_ok a →
  Viewer_ok (set_pending_host_resize_resyncs (delete id (pending_host_resize_resyncs a)) a).
Proof. intros []. constructor; cbn; try assumption. intros i [x [_ Hx]%lookup_delete_Some]; eauto. Qed.

(** The event of a host window, when its guest window is known. *)
Lemma window_event_run w window id e a :
  window_ids a !! window = Some id →
  viewer_step w (Window_event window e) a =
  match e with
  | Resized sz => on_resized w id sz a
  | _ => viewer_step w (Window_event window e) a
  end.
Proof. intros Hid. destruct e; try done. cbn [viewer_step]. unfold window_event. rewrite run_bind. cbn. by rewrite Hid. Qed.

(** C16: the fullscreen states of the guest and of the host window follow each other without
    an echo. A size change of a host window tells the guest its fullscreen state if it is
    news and nothing otherwise, and drops the sizes pending for a window that went
    fullscreen; a fullscreen change told by the guest is applied to the host window, sends
    nothing, and is what the next size change is compared with. *)
Theorem fullscreen_synced w a window id v b :
  reachable a → world_ok w a → window_ids a !! window = Some id → windows a !! id = Some v →
  (∀ l, is_window_fullscreen (host w l window) = b) →
  (∀ sz, ∃ a' v', viewer_step w (Window_event window (Resized sz)) a = Some (tt, a') ∧
     windows a' !! id = Some v' ∧ last_host_fullscreen v' = b ∧
     sent (log a') = sent (log a) ++
       (if Bool.eqb b (last_host_fullscreen v) then [] else [IE_SetFullscreen id b]) ∧
     (b = true → last_host_fullscreen v = false →
      pending_resizes a' !! id = None ∧ pending_fullscreen_exit_resyncs a' !! id = None ∧
      pending_host_resize_resyncs a' !! id = None)) ∧
  (∀ f, ∃ a' v',
     viewer_step w (Viewer_message (Message_WindowEvent (WE_FullscreenChanged id f))) a = Some (tt, a') ∧
     windows a' !! id = Some v' ∧ last_host_fullscreen v' = f ∧ sent (log a') = sent (log a) ∧
     log a' = log a ++ (if Bool.eqb b f then [] else [Set_fullscreen window f])).
Proof.
  intros Ha%viewer_reachable_ok Hw Hid Hv Hb. pose proof (world_sizes _ _ Hw) as Hsizes.
  assert (vw_window v = window) as Hwin.
  { destruct (ok_ids a Ha window id Hid) as (v' & Hv' & <-). congruence. }
  split.
  - intros sz. rewrite (window_event_run w window id) by done. unfold on_resized. rewrite run_bind.
    cbn [update_app modify].
    set (a0 := set_pending_host_resize_resyncs (delete id (pending_host_resize_resyncs a)) a).
    destruct (on_view_run id (None, false, None) (view_resized w sz) v a0) as (r & s & Er & Hs & E);
      [intros; by apply view_resized_ok|by apply ok_forget_host_resync|done|].
    destruct (view_resized_spec w window b Hb sz (mkViewState v (log a0)) r s) as (Hl & Hr1 & Hr2); [done..|].
    rewrite run_bind, E. destruct r as [[toggle schedule] resize]. cbn [fst snd vs_view] in *.
    injection Hr1 as -> ->. pose proof (inv_sent _ _ _ Hs) as Hsent.
    assert (<[id:=vs_view s]> (windows a0) !! id = Some (vs_view s)) as Hput by apply lookup_insert_eq.
    destruct (Bool.eqb b (last_host_fullscreen v)) eqn:Heq; cbn [negb andb].
    + rewrite run_bind. cbn [mret M_ret when]. rewrite run_bind. cbn [mret M_ret].
      destruct resize as [[width height]|]; eexists _, (vs_view s); (split; [reflexivity|]); cbn;
        (split_and!; [done|done|by rewrite app_nil_r|]); intros -> Hf; rewrite Hf in Heq; done.
    + destruct b; cbn [negb when].
      * rewrite (Hr2 eq_refl). eexists _, (vs_view s). split; [reflexivity|]. cbn.
        split_and!; [done|done|by rewrite sent_app, Hsent|]. intros _ _. by rewrite !lookup_delete_eq.
      * destruct resize as [[width height]|]; eexists _, (vs_view s); (split; [reflexivity|]); cbn;
          (split_and!; [done|done|by rewrite sent_app, Hsent|done]).
  - intros f. cbn [viewer_step handle_message handle_remote_window_event]. unfold on_fullscreen_changed.
    set (v' := set_last_host_fullscreen f (set_pending_programmatic_resize None v)).
    set (es := if Bool.eqb b f then [] else [Set_fullscreen window f]).
    assert (on_view id false (update (set_pending_programmatic_resize None);; apply_window_fullscreen w f;;
        update (set_last_host_fullscreen f);; mret true) a
      = Some (true, set_windows (<[id := v']> (windows a)) (set_log (log a ++ es) a))) as E.
    { unfold on_view, zoom. rewrite Hv. cbn. rewrite run_bind. cbn. rewrite run_bind. unfold apply_window_fullscreen.
      rewrite run_bind. cbn. rewrite run_bind. cbn. rewrite Hwin, Hb. unfold es, v'.
      destruct (Bool.eqb b f); cbn; [by rewrite app_nil_r|done]. }
    rewrite run_bind, E. assert (sent es = []) as Hes by (unfold es; by destruct (Bool.eqb b f)).
    destruct f; cbn [when]; eexists _, v'; (split; [reflexivity|]); cbn; rewrite lookup_insert_eq, sent_app, Hes, app_nil_r;
      done.
Qed.

(** The size a window was asked to take by the viewer comes back. *)
Lemma view_resized_own w sz p s :
  last_host_fullscreen (vs_view s) = false → visible (vs_view s) = true →
  is_window_fullscreen (host w (vs_log s) (vw_window (vs_view s))) = false →
  pending_programmatic_resize (vs_view s) = Some p → programmatic_resize_matches p sz = true →
  ∃ s', view_resized w sz s = Some ((None, false, None), s') ∧
    pending_programmatic_resize (vs_view s') = None.
Proof.
  intros Hl Hvis Hh Hp Hm. unfold view_resized. rewrite run_bind. cbn [view gets]. rewrite run_bind. cbn [ask gets].
  rewrite Hh, Hl. cbn [Bool.eqb negb andb when]. rewrite run_bind. cbn [mret M_ret]. rewrite run_bind. cbn [view gets].
  rewrite Hvis. cbn [negb andb]. rewrite run_bind, run_bind. unfold consume_programmatic_resize. rewrite run_bind.
  cbn [view gets]. rewrite Hp. cbn [consume_programmatic_resize_gate]. rewrite Hm, run_bind.
  cbn [update modify mret M_ret]. by eexists.
Qed.

(** A size the viewer itself asked of a host window is not told to the guest when the
    window takes it (or the part of it the host allows): nothing is sent, nothing is queued,
    and the expectation is used up, so that the next size is the user's. *)
Theorem own_resize_swallowed w a window id v p sz :
  reachable a → world_ok w a → window_ids a !! window = Some id → windows a !! id = Some v →
  (∀ l, is_window_fullscreen (host w l window) = false) →
  last_host_fullscreen v = false → visible v = true →
  pending_programmatic_resize v = Some p → programmatic_resize_matches p sz = true →
  ∃ a' v', viewer_step w (Window_event window (Resized sz)) a = Some (tt, a') ∧
    windows a' !! id = Some v' ∧ pending_programmatic_resize v' = None ∧
    sent (log a') = sent (log a) ∧ pending_resizes a' = pending_resizes a.
Proof.
  intros Ha%viewer_reachable_ok Hw Hid Hv Hh Hl Hvis Hp Hm. pose proof (world_sizes _ _ Hw) as Hsizes.
  assert (vw_window v = window) as Hwin.
  { destruct (ok_ids a Ha window id Hid) as (v' & Hv' & <-). congruence. }
  rewrite (window_event_run w window id) by done. unfold on_resized. rewrite run_bind. cbn [update_app modify].
  set (a0 := set_pending_host_resize_resyncs (delete id (pending_host_resize_resyncs a)) a).
  destruct (on_view_run id (None, false, None) (view_resized w sz) v a0) as (r & s & Er & Hs & E);
    [intros; by apply view_resized_ok|by apply ok_forget_host_resync|done|].
  destruct (view_resized_own w sz p (mkViewState v (log a0))) as (s' & Er' & Hp'); [done..| |done|done|].
  { cbn. by rewrite Hwin. }
  rewrite Er in Er'. injection Er' as -> ->. rewrite run_bind, E. eexists _, (vs_view s'). split; [reflexivity|].
  cbn. rewrite lookup_insert_eq. split_and!; [done|done|apply Hs|done].
Qed.

(** The size of the host window, in the units of the guest. *)
Definition logical_size (w : world) (s : view_state) : psize :=
  let h := host w (vs_log s) (vw_window (vs_view s)) in
  to_logical w (inner_size h) (fmax (scale_factor h) (F64.of_int 1)).

(** The size of the guest window that fits a host window, at scale one. *)
Lemma resize_request_unscaled w s lw lh :
  view_ok (vs_view s) → view_scale (vs_view s) = F32.of_int 1 →
  let content := effective_content_rect (vs_view s) in
  let fb := frame (vs_view s) in
  logical_size w s = (lw, lh) →
  0 ≤ lw < 2 ^ 31 → 0 ≤ lh < 2 ^ 31 →
  let rw := Z.max lw 1 + (fb_width fb - fr_w content) in
  let rh := Z.max lh 1 + (fb_height fb - fr_h content) in
  resize_request_for_current_inner_size w s
  = Some (if same_size fb rw rh then None else Some (rw, rh), s) ∧
  0 < fr_w content ≤ fb_width fb ∧ 0 < fr_h content ≤ fb_height fb.
Proof.
  intros Hv Hscale content fb Hl Hlw Hlh rw rh. pose proof (content_in _ Hv) as Hin. fold content fb in Hin.
  pose proof (view_width _ Hv) as Hfw. pose proof (view_height _ Hv) as Hfh. fold fb in Hfw, Hfh.
  unfold rect_in, MAX_SIDE in *. split; [|lia].
  unfold resize_request_for_current_inner_size. rewrite run_bind. cbn [view gets]. rewrite run_bind. cbn [ask gets].
  unfold logical_size in Hl. rewrite Hl. unfold remote_size_for_inner_size, compute_remote_size. rewrite Hscale. fold content fb.
  cbn [fst snd]. unfold sat_sub. rewrite !remote_len_unscaled by (unfold u32_max; lia).
  unfold u32_max. rewrite !Z.min_l, !(Z.max_r 0) by lia. fold rw rh. by destruct (same_size fb rw rh).
Qed.

(** Resizing settles. At scale one, a host window that shows the content of its guest
    window at its size asks nothing of the guest; and if the guest takes the size it is asked
    for, with the same margins around its content, it is asked for nothing more. *)
Theorem resize_settles w s s' lw lh :
  let content s := effective_content_rect (vs_view s) in
  let fb s := frame (vs_view s) in
  view_ok (vs_view s) → view_scale (vs_view s) = F32.of_int 1 → logical_size w s = (lw, lh) →
  0 ≤ lw < 2 ^ 31 → 0 ≤ lh < 2 ^ 31 →
  ((lw, lh) = effective_display_size (vs_view s) → resize_request_for_current_inner_size w s = Some (None, s)) ∧
  (∀ rw rh, resize_request_for_current_inner_size w s = Some (Some (rw, rh), s) →
   view_ok (vs_view s') → view_scale (vs_view s') = F32.of_int 1 → logical_size w s' = (lw, lh) →
   fb_width (fb s') = rw → fb_height (fb s') = rh →
   fb_width (fb s') - fr_w (content s') = fb_width (fb s) - fr_w (content s) →
   fb_height (fb s') - fr_h (content s') = fb_height (fb s) - fr_h (content s) →
   resize_request_for_current_inner_size w s' = Some (None, s')).
Proof.
  cbv zeta. intros Hv Hscale Hl Hlw Hlh.
  destruct (resize_request_unscaled w s lw lh Hv Hscale Hl Hlw Hlh) as (E & Hcw & Hch). rewrite E. split.
  - unfold effective_display_size, clamp_display_size. intros [= -> ->]. unfold same_size. do 2 f_equal.
    rewrite (proj2 (Z.eqb_eq _ _)), (proj2 (Z.eqb_eq _ _)) by lia. done.
  - intros rw rh Er Hv' Hscale' Hl' Hw Hh Hmw Hmh.
    destruct (resize_request_unscaled w s' lw lh Hv' Hscale' Hl' Hlw Hlh) as (-> & _ & _).
    destruct (same_size _ _ _); [done|]. injection Er as Hrw Hrh. unfold same_size.
    rewrite (proj2 (Z.eqb_eq _ _)), (proj2 (Z.eqb_eq _ _)) by lia. done.
Qed.

(** ** The button of a move *)

Lemma finish_move_dragging w s r s' d :
  move_state (vs_view s) = Move_Dragging d → finish_manual_move w s = Some (r, s') → r = true.
Proof.
  intros Hd. unfold finish_manual_move. rewrite run_bind. cbn [view gets]. rewrite Hd. rewrite run_bind.
  cbn [update modify]. rewrite run_bind. destruct (restore_hover _ _) as [[u s1]|]; [|done].
  rewrite run_bind. destruct (snap_after_move _ _) as [[u2 s2]|]; [|done]. by intros [= <- _].
Qed.

Lemma finish_move_idle w s r s' d :
  move_state (vs_view s) = Move_Dragging d → finish_manual_move w s = Some (r, s') → move_state (vs_view s') = Move_Idle.
Proof.
  intros Hd. unfold finish_manual_move. rewrite run_bind. cbn [view gets]. rewrite Hd. rewrite run_bind.
  cbn [update modify].
  match goal with |- ?m ?s1 = _ → _ => enough (fixes move_state m) as H by (intros E; by apply H in E) end.
  unfold restore_hover, snap_after_move, snap_to_cursor_left_right_edge, snap_to_cursor_tile, snap_with,
    apply_edge_snap_rect, update_resize_cursor, clear_resize_cursor, request_redraw. fixes_all.
Qed.

(** A well-formed application that sent these messages and has such a window. *)
Record view_at (id : Z) (P : ViewerWindow → Prop) (msgs : list InputEvent) (a : ViewerApp) : Prop := {
  at_ok : Viewer_ok a;
  at_sent : sent (log a) = msgs;
  at_view : ∃ v, windows a !! id = Some v ∧ P v
}.

Lemma hoare_view_at {A} id P (Q : A → ViewerWindow → Prop) msgs (d : A) (m : VM A) :
  (∀ window msgs, sustains (view_inv window msgs) m) →
  (∀ s r s', P (vs_view s) → m s = Some (r, s') → Q r (vs_view s')) →
  hoare (view_at id P msgs) (on_view id d m) (λ r, view_at id (Q r) msgs).
Proof.
  intros Hm HPQ a [Ha Hs (v & Hv & HP)].
  destruct (on_view_run id d m v a Hm Ha Hv) as (r & s & E & Hi & Erun). eexists r, _. split; [exact Erun|]. split.
  - by apply (ok_put_view id v).
  - cbn. by rewrite (inv_sent _ _ _ Hi).
  - exists (vs_view s). split; [apply lookup_insert_eq|]. exact (HPQ (mkViewState v (log a)) _ _ HP E).
Qed.

Section release.
Context (w : world) (id : Z) (msgs : list InputEvent) (d : MoveDrag).
Context (Hsizes : ∀ l id, 0 ≤ (inner_size (host w l id)).1 ≤ u32_max ∧ 0 ≤ (inner_size (host w l id)).2 ≤ u32_max).

(** The window is being dragged, and its next release is not suppressed. *)
Definition dragged (v : ViewerWindow) : Prop :=
  move_state v = Move_Dragging d ∧ suppress_next_left_release v = false.
Definition idle (v : ViewerWindow) : Prop := move_state v = Move_Idle.

Lemma release_synced :
  hoare (view_at id dragged msgs) (on_view id (0, 0) (sync_cursor_for_button_event w)) (λ _, view_at id dragged msgs).
Proof.
  apply hoare_view_at; [intros; by apply sync_cursor_ok|]. intros s r s' [H1 H2] E.
  assert (∀ {X} (g : ViewerWindow → X), (∀ c v, g (set_last_cursor c v) = g v) →
    fixes g (sync_cursor_for_button_event w)) as Hfix.
  { intros X g Hg. unfold sync_cursor_for_button_event, sync_cursor_from_window_position, map_cursor_to_frame,
      update_ime_cursor_area. repeat (first [apply fixes_update; intros; apply Hg|fixes_step]). }
  split; [rewrite <- H1|rewrite <- H2]; by eapply Hfix.
Qed.

Lemma release_unsuppressed :
  hoare (view_at id dragged msgs) (on_view id false consume_suppressed_left_release)
    (λ suppressed a, suppressed = false ∧ view_at id dragged msgs a).
Proof.
  eapply hoare_weaken; [apply (hoare_view_at id dragged (λ suppressed v, suppressed = false ∧ dragged v) msgs)|done|].
  - intros. apply consume_suppressed_ok.
  - intros s r s' [H1 H2]. unfold consume_suppressed_left_release. rewrite run_bind. cbn [view gets]. rewrite H2.
    by intros [= <- <-].
  - intros suppressed a [? ? (v & ? & -> & ?)]. split; [done|]. split; [done..|]. by exists v.
Qed.

Lemma release_moved :
  hoare (view_at id dragged msgs)
    (on_view id (false, None) (
       handled ← finish_manual_move w; resize ← take_pending_tile_remote_resize; mret (handled, resize)))
    (λ moved a, moved.1 = true ∧ view_at id idle msgs a).
Proof.
  eapply hoare_weaken;
    [apply (hoare_view_at id dragged (λ (moved : bool * option (Z * Z)) v, moved.1 = true ∧ idle v) msgs)|done|].
  - intros. apply sustains_bind; [by apply finish_manual_move_ok|]. intros handled.
    apply sustains_bind; [apply take_pending_tile_ok|]. intros ?. apply sustains_ret.
  - intros s r s' [H1 _]. rewrite run_bind. destruct (finish_manual_move w s) as [[handled s1]|] eqn:E; [|done].
    pose proof (finish_move_dragging w s handled s1 d H1 E) as ->.
    pose proof (finish_move_idle w s true s1 d H1 E) as Hi.
    unfold take_pending_tile_remote_resize. cbn. by intros [= <- <-].
  - intros moved a [? ? (v & ? & -> & ?)]. split; [done|]. split; [done..|]. by exists v.
Qed.

Lemma release_queued resize :
  sustains (view_at id idle msgs)
    (match resize with Some (width, height) => queue_remote_resize w id width height | None => mret tt end).
Proof.
  destruct resize as [[width height]|]; [|apply sustains_ret]. intros a [Hok Hsent Hview].
  assert (known (there id) a) as Hk.
  { split; [done|]. destruct Hview as (v & Hv & _). apply there_window. by eexists. }
  destruct (queue_remote_resize_ok w (there id) id width height ltac:(done) a Hk) as (u & a' & E & Ha').
  injection E as <- <-. eexists tt, _. split; [reflexivity|]. split; [apply Ha'|exact Hsent|exact Hview].
Qed.

(** The release of the left button over a dragged window. *)
Lemma release_handled :
  hoare (view_at id dragged msgs) (on_left_button w id Released) (λ handled a, handled = true ∧ view_at id idle msgs a).
Proof.
  unfold on_left_button. intros a Ha. rewrite run_bind. cbn [app gets Datatypes.id].
  rewrite (bool_decide_false (Released = Pressed)), (bool_decide_true (Released = Released)) by done. cbn [andb when].
  rewrite run_bind. cbn [mret M_ret]. rewrite run_bind. cbn [mret M_ret]. revert a Ha.
  apply (hoare_bind _ (λ suppressed a, suppressed = false ∧ view_at id dragged msgs a)); [exact release_unsuppressed|].
  intros suppressed a [-> Ha]. revert a Ha.
  apply (hoare_bind _ (λ moved a, moved.1 = true ∧ view_at id idle msgs a)); [exact release_moved|].
  intros [handled resize] a [Hh Ha]. cbn in Hh. subst handled. revert a Ha.
  apply (hoare_bind _ (λ _, view_at id idle msgs)); [apply release_queued|]. intros _. by apply hoare_ret.
Qed.
End release.

(** The release that ends a move of a window is the viewer's own: the guest is told
    nothing. For a move the guest asked for this is not the whole story: the press that began
    it did go to the guest, which is left with a button it takes for held. *)
Theorem move_keeps_release w a window id v d :
  reachable a → world_ok w a → window_ids a !! window = Some id → windows a !! id = Some v →
  move_state v = Move_Dragging d → suppress_next_left_release v = false →
  ∃ a' v', viewer_step w (Window_event window (MouseInput Released Left)) a = Some (tt, a') ∧
    windows a' !! id = Some v' ∧ move_state v' = Move_Idle ∧ sent (log a') = sent (log a).
Proof.
  intros Ha%viewer_reachable_ok Hw Hid Hv Hd Hsup. pose proof (world_sizes _ _ Hw) as Hsizes.
  destruct (release_synced w id (sent (log a)) d Hsizes a) as ([x y] & a1 & E1 & H1); [by split; [| |exists v]|].
  destruct (release_handled w id (sent (log a)) d Hsizes a1 H1) as (handled & a2 & E2 & -> & [_ Hs (v' & Hv' & Hi)]).
  exists a2, v'. cbn [viewer_step]. unfold window_event. rewrite run_bind. cbn [app gets Datatypes.id]. rewrite Hid.
  unfold on_mouse_input. by rewrite run_bind, E1, run_bind, E2.
Qed.

(** ** The theorems at work

    One guest window of 4 by 3 pixels, number 1, in the host window 7. *)

Definition demo_host (inner : psize) (fullscreen : bool) : host_window :=
  mkHostWindow inner inner (Some (0, 0)) (F64.of_int 1) (Some ((0, 0), (1920, 1080))) fullscreen false
    (Surface_ready (replicate 12 0) true).

Definition demo_world (t : Z) (created : option Z) (inner : psize) (fullscreen : bool) : world :=
  mkWorld t false (λ _ _, demo_host inner fullscreen) created true None None (F64.of_int 0)
    (λ _ _, (4, 3)) (λ physical _, physical) (λ l, l).

(** The state after an event that does not panic. *)
Definition after (w : world) (e : viewer_event) (a : ViewerApp) : ViewerApp :=
  match viewer_step w e a with Some (_, a') => a' | None => a end.

Definition guest_says (e : Wire.WindowEvent) : viewer_event := Viewer_message (Message_WindowEvent e).
Definition demo_geom : WindowGeometry := mkWindowGeometry 0 0 4 3.
Definition still : world := demo_world 0 None (4, 3) false.

Definition demo_new : ViewerApp := ViewerApp_new true None (1920, 1080).
Definition demo_created : ViewerApp :=
  after (demo_world 0 (Some 7) (4, 3) false) (guest_says (WE_Created 1 demo_geom [] [])) demo_new.
Definition demo_drawn : ViewerApp :=
  after still (Window_event 7 RedrawRequested) (after still (guest_says (WE_Configured 1 demo_geom)) demo_created).
Definition demo_key (code : KeyCode) : KeyEvent :=
  mkKeyEvent (Code code) (Character []) None Pressed false.
Definition demo_held : ViewerApp :=
  after still (Window_event 7 (KeyboardInput (demo_key K_ShiftLeft))) demo_drawn.
Definition demo_resized : ViewerApp :=
  after (demo_world 1 None (8, 6) false) (Window_event 7 (Resized (8, 6)))
    (after still (Window_event 7 (Resized (4, 3))) demo_drawn).
Definition demo_retired : ViewerApp := after still (guest_says (WE_Destroyed 1)) demo_drawn.

Definition wide : world := demo_world 0 None (100, 100) false.
Definition demo_pressed : ViewerApp :=
  after wide (Window_event 7 (MouseInput Pressed Left))
    (after wide (Window_event 7 (CursorMoved (F64.of_int 50, F64.of_int 50))) demo_drawn).
Definition demo_moving : ViewerApp := after wide (guest_says (WE_MoveRequested 1)) demo_pressed.

Lemma demo_world_ok t created inner fullscreen a :
  0 ≤ inner.1 ≤ u32_max ∧ 0 ≤ inner.2 ≤ u32_max → (∀ window, created = Some window → window_ids a !! window = None) →
  world_ok (demo_world t created inner fullscreen) a.
Proof. intros Hi Hc. by constructor; [intros ? ?|intros ?|]. Qed.

Lemma after_reachable allowed w e a :
  reachable_by allowed a → world_ok w a → event_ok e → allowed e a → reachable_by allowed (after w e a).
Proof.
  intros Ha Hw He Hall. unfold after. destruct (viewer_step w e a) as [[u a']|] eqn:E; [|done]. by eapply reach_step.
Qed.

Lemma demo_drawn_reachable allowed :
  (∀ e a, (∀ id, e ≠ guest_says (WE_Destroyed id)) → allowed e a) → reachable_by allowed demo_drawn.
Proof.
  intros Hall. unfold demo_drawn, demo_created, demo_new. repeat (apply after_reachable; [|by apply demo_world_ok|done|by apply Hall]). apply reach_new.
Qed.

Lemma demo_reachable : reachable demo_drawn.
Proof. by apply demo_drawn_reachable. Qed.

Lemma demo_held_reachable : reachable demo_held.
Proof. unfold demo_held. by apply after_reachable; [apply demo_reachable|apply demo_world_ok|..]. Qed.

Lemma demo_moving_reachable : reachable demo_moving.
Proof.
  unfold demo_moving, demo_pressed, wide. do 3 (apply after_reachable; [|by apply demo_world_ok|done..]).
  exact demo_reachable.
Qed.

Lemma demo_resized_reachable : reachable demo_resized.
Proof.
  unfold demo_resized. apply after_reachable; [|by apply demo_world_ok|done..].
  by apply after_reachable; [apply demo_reachable|apply demo_world_ok|..].
Qed.

Lemma demo_retired_reachable : reachable_by destroyed_once demo_retired.
Proof.
  unfold demo_retired. apply after_reachable; [|by apply demo_world_ok|done|].
  - apply demo_drawn_reachable. intros e a He. destruct e as [| | |m| |]; try done. destruct m; try done.
    destruct m; try done. by destruct (He id).
  - cbn. replace (retired_window_ids demo_drawn) with (∅ : gset Z) by (by vm_compute). set_solver.
Qed.

Lemma viewer_safe_witness :
  Viewer_ok demo_held ∧ ∃ a', viewer_step still (Window_event 7 (Focused false)) demo_held = Some (tt, a') ∧ reachable a'.
Proof. apply viewer_safe; [exact demo_held_reachable|by apply demo_world_ok|done]. Defined.

Lemma no_stuck_key_witness :
  held (sent (log demo_held)) KEY_LEFTSHIFT = Some 1 ∧
  held (sent (log (after still (Window_event 7 (Focused false)) demo_held))) KEY_LEFTSHIFT ≠ Some 1.
Proof.
  split; [by vm_compute|].
  refine (proj2 (no_stuck_key demo_held still (Window_event 7 (Focused false)) 1 tt _ demo_held_reachable _ I _) _ _);
    [by apply demo_world_ok|by vm_compute|by vm_compute].
Defined.

Lemma modifier_shared_witness :
  ∃ a', each (handle_keyboard still 1)
      [demo_key K_ControlLeft; demo_key K_SuperLeft; mkKeyEvent (Code K_SuperLeft) (Character []) None Released false]
      demo_drawn = Some (tt, a') ∧
    sent (log a') = sent (log demo_drawn) ++ [IE_Key 1 KEY_LEFTCTRL Key_Pressed] ∧
    shared 1 KEY_LEFTCTRL 1 a'.
Proof.
  apply (modifier_shared still 1 KEY_LEFTCTRL
    [demo_key K_ControlLeft; demo_key K_SuperLeft; mkKeyEvent (Code K_SuperLeft) (Character []) None Released false]);
    [by vm_compute|by vm_compute|by repeat constructor|by vm_compute].
Defined.

Lemma timers_fire_witness :
  pending_resizes demo_resized !! 1 = Some (mkPendingRemoteResize 8 6 80000001) ∧
  ∃ a' early ready next, viewer_step (demo_world 80000001 None (8, 6) false) About_to_wait demo_resized = Some (tt, a') ∧
    sent (log a') = sent (log demo_resized) ++ early ++ flat_map resize_messages ready ∧
    (1, mkPendingRemoteResize 8 6 80000001) ∈ ready ∧ is_next next (timer_due a').
Proof.
  split; [by vm_compute|].
  destruct (timers_fire (demo_world 80000001 None (8, 6) false) demo_resized demo_resized_reachable)
    as (a' & early & ready & next & E & Hs & _ & Hr & _ & _ & _ & Hn); [by apply demo_world_ok|by vm_compute|].
  exists a', early, ready, next. split; [exact E|]. split; [exact Hs|]. split; [|exact Hn].
  apply Hr. split; [by vm_compute|by vm_compute].
Defined.

Lemma exits_after_last_witness :
  ∃ a', viewer_step (demo_world 2000000000 None (4, 3) false) About_to_wait demo_retired = Some (tt, a') ∧
    windows a' = ∅ ∧ last (log a') = Some Exit.
Proof.
  refine (proj2 (proj1 (exits_after_last (demo_world 2000000000 None (4, 3) false) demo_retired demo_retired_reachable _)
    0 _) _); [by apply demo_world_ok|by vm_compute|by vm_compute].
Defined.

Definition demo_view : ViewerWindow := default (new_view still 7 [] [] (mkFrameBuffer 1 1 [0] (mkFrameRect 0 0 1 1) 0) (1, 1) false)
  (windows demo_drawn !! 1).

Lemma ime_text_lossless_witness :
  ∃ a' v', each (handle_ime 1) ([Ime_Commit [0x3147]; Ime_Commit [0x314F]; Ime_Preedit [0x61] None; Ime_Commit [0x62]] ++ [Ime_Disabled]) demo_drawn
      = Some (tt, a') ∧
    windows a' !! 1 = Some v' ∧ rest_strokes (composer v') = [] ∧
    strokes (guest_text 1 (sent (log a')))
    = strokes (guest_text 1 (sent (log demo_drawn))) ++ rest_strokes (composer demo_view) ++ strokes [0x3147; 0x314F; 0x62].
Proof.
  refine (ime_text_lossless 1 [Ime_Commit [0x3147]; Ime_Commit [0x314F]; Ime_Preedit [0x61] None; Ime_Commit [0x62]]
    demo_drawn demo_view demo_reachable _); by vm_compute.
Defined.

Lemma fullscreen_synced_witness :
  ∃ a' v', viewer_step (demo_world 0 None (1920, 1080) true) (Window_event 7 (Resized (1920, 1080))) demo_drawn = Some (tt, a') ∧
     windows a' !! 1 = Some v' ∧ last_host_fullscreen v' = true ∧
     sent (log a') = sent (log demo_drawn) ++ [IE_SetFullscreen 1 true].
Proof.
  destruct (proj1 (fullscreen_synced (demo_world 0 None (1920, 1080) true) demo_drawn 7 1 demo_view true demo_reachable
    ltac:(by apply demo_world_ok) ltac:(by vm_compute) ltac:(by vm_compute) ltac:(done)) (1920, 1080))
    as (a' & v' & E & Hv & Hl & Hs & _).
  exists a', v'. split; [exact E|]. split; [exact Hv|]. split; [exact Hl|]. rewrite Hs. by vm_compute.
Defined.

Lemma own_resize_swallowed_witness :
  ∃ a' v', viewer_step still (Window_event 7 (Resized (4, 3))) demo_drawn = Some (tt, a') ∧
    windows a' !! 1 = Some v' ∧ pending_programmatic_resize v' = None ∧
    sent (log a') = sent (log demo_drawn) ∧ pending_resizes a' = pending_resizes demo_drawn.
Proof.
  apply (own_resize_swallowed still demo_drawn 7 1 demo_view (4, 3) (4, 3) demo_reachable);
    [by apply demo_world_ok|by vm_compute|by vm_compute|done|by vm_compute..].
Defined.

Lemma resize_settles_witness :
  resize_request_for_current_inner_size still (mkViewState demo_view []) = Some (None, mkViewState demo_view []).
Proof.
  refine (proj1 (resize_settles still (mkViewState demo_view []) (mkViewState demo_view []) 4 3 _ _ _ _ _) _);
    [|by vm_compute..]. apply (ok_views demo_drawn (viewer_reachable_ok _ demo_reachable) 1). by vm_compute.
Defined.

Definition moving_view : ViewerWindow := default demo_view (windows demo_moving !! 1).

(** The guest was told of the press, and is told of no release. *)
Lemma move_keeps_release_witness :
  sent (log demo_moving)
  = [IE_PointerMotion 1 2 1; IE_Focus 1 true; IE_PointerMotion 1 2 1; IE_PointerButton 1 0x110 Button_Pressed] ∧
  ∃ a' v', viewer_step wide (Window_event 7 (MouseInput Released Left)) demo_moving = Some (tt, a') ∧
    windows a' !! 1 = Some v' ∧ move_state v' = Move_Idle ∧ sent (log a') = sent (log demo_moving).
Proof.
  split; [by vm_compute|].
  eapply (move_keeps_release wide demo_moving 7 1 moving_view);
    [exact demo_moving_reachable|by apply demo_world_ok|by vm_compute|by vm_compute|vm_compute; reflexivity|by vm_compute].
Defined.
